(** * jlc-schematic-helper: transport state machines and netlist parsers

    A shallow embedding of
    - [packages/mcp-server/src/netlist/parseNetlist.ts] and
      [parseJlcJsonNetlist.ts] (the two netlist parsers),
    - [packages/mcp-server/src/bridge/wsBridge.ts] (class [WsBridge]),
    - [packages/eda-extension/src/bridge/client.ts] (class [BridgeClient])
      and [config.ts] (the stored configuration),
    together with the properties the specification states about them.

    Conventions.  A [string] holds a JavaScript string as its UTF-8 bytes.
    The matcher works byte by byte, which agrees with the engine on the
    expressions of the source, whose classes and literals are ASCII, up to
    the white space outside ASCII: [trim] and the class [\s] see TAB, LF,
    VT, FF, CR and the space only, so that a no-break space or a line
    separator counts as an ordinary character.  The case mapping
    [toUpperCase] is the engine's and is a parameter of the parsers (class
    [CaseMapping]); where nothing else is said it is the mapping of ASCII
    text.  A JS [Map] is an association list in insertion order, a JS object
    used as a record of nets is a [gmap].  Event-driven code is a transition
    function from a state and an event to a state. *)

From Stdlib Require Import ZArith List Ascii String Bool Lia.
From stdpp Require Import base gmap list strings pretty.

Local Open Scope string_scope.
Local Open Scope list_scope.

(* ===================================================================== *)
(** ** JavaScript string primitives *)
(* ===================================================================== *)

Module Js.

Definition code (c : ascii) : nat := nat_of_ascii c.

Definition between (lo hi : nat) (c : ascii) : bool :=
  Nat.leb lo (code c) && Nat.leb (code c) hi.

(** [\s] restricted to ASCII: TAB, LF, VT, FF, CR and space. *)
Definition is_space (c : ascii) : bool := between 9 13 c || Nat.eqb (code c) 32.
Definition is_upper (c : ascii) : bool := between 65 90 c.
Definition is_lower (c : ascii) : bool := between 97 122 c.
Definition is_digit (c : ascii) : bool := between 48 57 c.
Definition is_alpha (c : ascii) : bool := is_upper c || is_lower c.
(** [\w] *)
Definition is_word (c : ascii) : bool :=
  is_alpha c || is_digit c || Nat.eqb (code c) 95.

Definition upcase (c : ascii) : ascii :=
  if is_lower c then ascii_of_nat (code c - 32) else c.

Definition chr (n : nat) : ascii := ascii_of_nat n.
Definition dquote : ascii := chr 34.
Definition LF : ascii := chr 10.
Definition CR : ascii := chr 13.
Definition TAB : ascii := chr 9.

Definition eqc (a b : ascii) : bool := Ascii.eqb a b.

(** [String.prototype.toUpperCase] applies the upper-case mapping of the
    Unicode version the engine implements, which the source does not fix.
    The parsers are therefore written over any such mapping. *)
Class CaseMapping : Type := toUpperCase : string -> string.

(** The mapping on ASCII text, character by character. *)
Fixpoint asciiUpperCase (s : string) : string :=
  match s with
  | EmptyString => EmptyString
  | String c s' => String (upcase c) (asciiUpperCase s')
  end.

(** Where no mapping is named, the text is ASCII. *)
#[export] Instance ascii_case : CaseMapping := asciiUpperCase.

Definition chars (s : string) : list ascii := list_ascii_of_string s.
Definition str (l : list ascii) : string := string_of_list_ascii l.

Fixpoint drop_while (p : ascii -> bool) (l : list ascii) : list ascii :=
  match l with
  | [] => []
  | c :: tl => if p c then drop_while p tl else l
  end.

(** Removes the longest prefix and the longest suffix of characters in [p]. *)
Definition strip (p : ascii -> bool) (l : list ascii) : list ascii :=
  rev (drop_while p (rev (drop_while p l))).

(** [String.prototype.trim] *)
Definition trim (s : string) : string := str (strip is_space (chars s)).

Fixpoint prefix_of (p l : list ascii) : bool :=
  match p, l with
  | [], _ => true
  | a :: p', b :: l' => eqc a b && prefix_of p' l'
  | _ :: _, [] => false
  end.

(** [String.prototype.startsWith] *)
Definition startsWith (s p : string) : bool := prefix_of (chars p) (chars s).

Fixpoint includes_l (p l : list ascii) : bool :=
  prefix_of p l || match l with [] => false | _ :: tl => includes_l p tl end.

(** [String.prototype.includes] *)
Definition includes (s p : string) : bool := includes_l (chars p) (chars s).

(** [s.split(/\r?\n/)]: cut at every LF, dropping a CR that stands right
    before it; the last piece is kept even when empty. *)
Fixpoint split_lines_aux (cur : list ascii) (l : list ascii) : list (list ascii) :=
  match l with
  | [] => [rev cur]
  | c :: tl =>
      if eqc c LF then
        (match cur with
         | d :: cur' => if eqc d CR then rev cur' else rev cur
         | [] => []
         end) :: split_lines_aux [] tl
      else split_lines_aux (c :: cur) tl
  end.

Definition split_lines (s : string) : list string :=
  map str (split_lines_aux [] (chars s)).

(** [s.split(/\s+/)]: cut at every maximal run of white space; a run at the
    start or at the end leaves an empty piece there. *)
Fixpoint split_ws_aux (inrun : bool) (cur : list ascii) (l : list ascii)
  : list (list ascii) :=
  match l with
  | [] => [rev cur]
  | c :: tl =>
      if is_space c then
        if inrun then split_ws_aux true [] tl
        else rev cur :: split_ws_aux true [] tl
      else split_ws_aux false (c :: cur) tl
  end.

Definition split_ws (s : string) : list string :=
  map str (split_ws_aux false [] (chars s)).

(** [Array.prototype.join] *)
Fixpoint join (sep : string) (l : list string) : string :=
  match l with
  | [] => EmptyString
  | [x] => x
  | x :: tl => x +:+ sep +:+ join sep tl
  end.

(** Truthiness of a string: non-empty. *)
Definition truthy (s : string) : bool :=
  match s with EmptyString => false | _ => true end.

End Js.

(* ===================================================================== *)
(** ** A backtracking matcher for the regular expressions of the source *)
(* ===================================================================== *)

(** Where a comment quotes a regular expression of the source, [\x22] stands
    for the double quote and a blank is written before a parenthesis that
    would otherwise end the comment. *)

Module Regex.
Import Js.

Inductive regex : Type :=
| RAny (p : ascii -> bool)          (* one character satisfying [p] *)
| REmpty
| RCat (a b : regex)
| ROr (a b : regex)
| RStar (greedy : bool) (a : regex) (* a* and a*? *)
| RCap (i : nat) (a : regex)        (* capture group number i *)
| RRef (ci : bool) (i : nat)        (* back reference \i *)
| RBol                              (* ^ *)
| REol                              (* $ *)
| RWordB.                           (* \b *)

Record mstate : Type := MState {
  prev : option ascii;              (* the character before the position *)
  rest : list ascii;                (* the input from the position on *)
  caps : list (nat * list ascii)    (* capture groups set so far *)
}.

Fixpoint cap_get (i : nat) (cs : list (nat * list ascii)) : option (list ascii) :=
  match cs with
  | [] => None
  | (j, v) :: tl => if Nat.eqb i j then Some v else cap_get i tl
  end.

Definition cap_set (i : nat) (v : list ascii) (cs : list (nat * list ascii)) :=
  (i, v) :: cs.

Definition same (ci : bool) (a b : ascii) : bool :=
  if ci then eqc (upcase a) (upcase b) else eqc a b.

(** Consume the literal [w] from the input, if it is there. *)
Fixpoint eat (ci : bool) (w : list ascii) (st : mstate) : option mstate :=
  match w with
  | [] => Some st
  | a :: w' =>
      match rest st with
      | b :: tl =>
          if same ci a b
          then eat ci w' {| prev := Some b; rest := tl; caps := caps st |}
          else None
      | [] => None
      end
  end.

Definition word_at (o : option ascii) : bool :=
  match o with Some c => is_word c | None => false end.

Definition orelse {A} (x : option A) (y : unit -> option A) : option A :=
  match x with Some v => Some v | None => y tt end.

(** [rx r k st]: match [r] at [st], then continue with [k]; alternatives are
    tried in the order a backtracking engine tries them. *)
Fixpoint rx (r : regex) (k : mstate -> option mstate) (st : mstate)
  {struct r} : option mstate :=
  match r with
  | RAny p =>
      match rest st with
      | c :: tl =>
          if p c then k {| prev := Some c; rest := tl; caps := caps st |}
          else None
      | [] => None
      end
  | REmpty => k st
  | RCat a b => rx a (rx b k) st
  | ROr a b => orelse (rx a k st) (fun _ => rx b k st)
  | RStar g a =>
      (fix loop (n : nat) (st : mstate) {struct n} : option mstate :=
         match n with
         | O => k st
         | S n' =>
             let again (_ : unit) :=
               rx a (fun st' =>
                       if Nat.ltb (List.length (rest st')) (List.length (rest st))
                       then loop n' st' else None) st in
             if g then orelse (again tt) (fun _ => k st)
             else orelse (k st) again
         end) (List.length (rest st)) st
  | RCap i a =>
      rx a (fun st' =>
              let n := List.length (rest st) - List.length (rest st') in
              k {| prev := prev st'; rest := rest st';
                   caps := cap_set i (firstn n (rest st)) (caps st') |}) st
  | RRef ci i =>
      match eat ci (default [] (cap_get i (caps st))) st with
      | Some st' => k st'
      | None => None
      end
  | RBol => match prev st with None => k st | Some _ => None end
  | REol => match rest st with [] => k st | _ :: _ => None end
  | RWordB =>
      if xorb (word_at (prev st)) (word_at (head (rest st))) then k st else None
  end.

(** Leftmost match, as [RegExp.prototype.exec] without the [g] flag. *)
Fixpoint search (r : regex) (p : option ascii) (l : list ascii) : option mstate :=
  match rx r Some {| prev := p; rest := l; caps := [] |} with
  | Some m => Some m
  | None =>
      match l with
      | [] => None
      | c :: tl => search r (Some c) tl
      end
  end.

Definition exec (r : regex) (s : string) : option mstate := search r None (chars s).

Definition test (r : regex) (s : string) : bool :=
  match exec r s with Some _ => true | None => false end.

(** [m[i]] of a successful match. *)
Definition group (i : nat) (m : mstate) : string :=
  str (default [] (cap_get i (caps m))).

(** *** Derived forms *)

Definition plus (g : bool) (a : regex) : regex := RCat a (RStar g a).
Definition opt (a : regex) : regex := ROr a REmpty.

Fixpoint upto (n : nat) (a : regex) : regex :=
  match n with
  | O => REmpty
  | S n' => opt (RCat a (upto n' a))
  end.

(** a{lo,hi} for 1 <= lo *)
Fixpoint times (lo : nat) (a : regex) (tl : regex) : regex :=
  match lo with
  | O => tl
  | S lo' => RCat a (times lo' a tl)
  end.
Definition range (lo hi : nat) (a : regex) : regex := times lo a (upto (hi - lo) a).

Definition lit (ci : bool) (c : ascii) : regex := RAny (same ci c).

Fixpoint word (ci : bool) (w : list ascii) : regex :=
  match w with
  | [] => REmpty
  | [c] => lit ci c
  | c :: tl => RCat (lit ci c) (word ci tl)
  end.
Definition text (ci : bool) (s : string) : regex := word ci (chars s).

Fixpoint cat (l : list regex) : regex :=
  match l with
  | [] => REmpty
  | [a] => a
  | a :: tl => RCat a (cat tl)
  end.

(** [.]: anything but a line terminator *)
Definition dot : regex := RAny (fun c => negb (eqc c LF || eqc c CR)).
Definition space : regex := RAny is_space.
Definition spaces0 : regex := RStar true space.       (* \s* *)
Definition spaces1 : regex := plus true space.        (* \s+ *)
Definition one_of (s : string) : ascii -> bool :=
  fun c => existsb (eqc c) (chars s).

End Regex.

(* ===================================================================== *)
(** ** JavaScript [Map]: association list in insertion order *)
(* ===================================================================== *)

Module JsMap.
Section Ops.
Context {V : Type}.

Fixpoint get (k : string) (m : list (string * V)) : option V :=
  match m with
  | [] => None
  | (k', v) :: tl => if String.eqb k k' then Some v else get k tl
  end.

(** [m.set(k, v)]: an existing key keeps its place and takes the new
    value, a new key goes to the end. *)
Fixpoint set (k : string) (v : V) (m : list (string * V)) : list (string * V) :=
  match m with
  | [] => [(k, v)]
  | (k', v') :: tl =>
      if String.eqb k k' then (k, v) :: tl else (k', v') :: set k v tl
  end.

Definition keys (m : list (string * V)) : list string := map fst m.
Definition values (m : list (string * V)) : list V := map snd m.
End Ops.
End JsMap.

(* ===================================================================== *)
(** ** parseNetlist.ts: the line-oriented text parser *)
(* ===================================================================== *)

Module Netlist.
Import Js Regex.

Section Host.
Context `{CM : CaseMapping}.

Record NetlistEndpoint : Type := Endpoint { ref : string; pin : string }.

Record ParsedNetlist : Type := {
  ok : bool;
  formatGuess : option string;
  warnings : list string;
  nets : gmap string (list NetlistEndpoint)
}.

(** An entry of [netsByKey]: the name as first seen and the endpoint map. *)
Record NetEntry : Type := {
  name : string;
  endpoints : list (string * NetlistEndpoint)
}.

(** [/^\x22(.* )\x22$/] *)
Definition rx_quoted : regex :=
  cat [RBol; lit false dquote; RCap 1 (RStar true dot); lit false dquote; REol].

(** [s.replace(/^\x22(.* )\x22$/, '$1')] *)
Definition unquote (s : string) : string :=
  match exec rx_quoted s with
  | Some m => group 1 m
  | None => s
  end.

Definition normalizeNetName (name : string) : string :=
  toUpperCase (unquote (trim name)).

Definition normalizeRef (r : string) : string := toUpperCase (trim r).
Definition normalizePin (p : string) : string := toUpperCase (trim p).

(** [/^[A-Z]{1,6}\d+[A-Z]?$/] *)
Definition rx_ref : regex :=
  cat [RBol; range 1 6 (RAny is_upper); plus true (RAny is_digit);
       opt (RAny is_upper); REol].

Definition looksLikeRef (token : string) : bool := test rx_ref (toUpperCase token).

(** [token.replace(/^[\s,;()]+|[\s,;()]+$/g, '')] *)
Definition is_punct (c : ascii) : bool := is_space c || one_of ",;()" c.
Definition stripPunct (token : string) : string := str (strip is_punct (chars token)).

(** [line.replace(/[,\t]/g, ' ')] *)
Definition commas_to_spaces (line : string) : string :=
  str (map (fun c => if eqc c "," || eqc c TAB then " "%char else c) (chars line)).

(** [line.replace(/[,\t]/g, ' ').split(/\s+/).map(stripPunct).filter(Boolean)] *)
Definition tokenize (line : string) : list string :=
  List.filter truthy (map stripPunct (split_ws (commas_to_spaces line))).

(** [/^([A-Za-z]{1,6}\d+[A-Za-z]?)[-.:]([A-Za-z0-9_]+)$/] *)
Definition rx_inline : regex :=
  cat [RBol;
       RCap 1 (cat [range 1 6 (RAny is_alpha); plus true (RAny is_digit);
                    opt (RAny is_alpha)]);
       RAny (one_of "-.:");
       RCap 2 (plus true (RAny is_word));
       REol].

Definition extractRefPinInlineTokens (line : string) : list NetlistEndpoint :=
  flat_map
    (fun t =>
       match exec rx_inline t with
       | None => []
       | Some m => [Endpoint (normalizeRef (group 1 m)) (normalizePin (group 2 m))]
       end)
    (tokenize line).

Definition tryPair (refToken pinToken : option string) : option NetlistEndpoint :=
  match refToken, pinToken with
  | Some rt, Some pt =>
      if negb (truthy rt) || negb (truthy pt) then None
      else
        let r := normalizeRef rt in
        let p := normalizePin pt in
        if negb (looksLikeRef r) then None
        else if negb (truthy p) then None
        else Some (Endpoint r p)
  | _, _ => None
  end.

Definition extractRefPinPair (line : string) : option NetlistEndpoint :=
  let tokens := tokenize line in
  if match nth_error tokens 0 with
     | Some t0 => String.eqb (toUpperCase t0) "*PIN*"
     | None => false
     end
  then tryPair (nth_error tokens 1) (nth_error tokens 2)
  else if Nat.eqb (List.length tokens) 2
  then tryPair (nth_error tokens 0) (nth_error tokens 1)
  else None.

Definition not_in (s : string) (c : ascii) : bool := negb (one_of s c).

(** [/^\s*\(net\b.*?\(name\s+(\x22?)([^\x22)]+)\1\)\s*\)?\s*$/i] *)
Definition rx_kicad_net : regex :=
  cat [RBol; spaces0; text true "(net"; RWordB; RStar false dot;
       text true "(name"; spaces1;
       RCap 1 (opt (lit true dquote));
       RCap 2 (plus true (RAny (fun c => negb (eqc c dquote || eqc c ")"))));
       RRef true 1; lit true ")"; spaces0; opt (lit true ")"); spaces0; REol].

Definition parseKiCadSexprNetStart (line : string) : option string :=
  match exec rx_kicad_net line with
  | None => None
  | Some m => Some (group 2 m)
  end.

(** [/\(<tag>\s+(\x22?)([^\x22)\s]+)\1\)/i] for the tags [ref] and [pin] *)
Definition rx_kicad_field (tag : string) : regex :=
  cat [text true "("; text true tag; spaces1;
       RCap 1 (opt (lit true dquote));
       RCap 2 (plus true
                 (RAny (fun c => negb (eqc c dquote || eqc c ")" || is_space c))));
       RRef true 1; lit true ")"].

Definition parseKiCadSexprNode (line : string) : option NetlistEndpoint :=
  match exec (rx_kicad_field "ref") line, exec (rx_kicad_field "pin") line with
  | Some refM, Some pinM =>
      Some (Endpoint (normalizeRef (group 2 refM)) (normalizePin (group 2 pinM)))
  | _, _ => None
  end.

(** [/^\s*\*NET\*\s+(.+?)\s*$/i] and [/^\s*\$NET\s+(.+?)\s*$/i] *)
Definition rx_net_marker (marker : string) : regex :=
  cat [RBol; spaces0; text true marker; spaces1; RCap 1 (plus false dot);
       spaces0; REol].

(** [/^\s*NET\s+(\x22?)([^\x22]+)\1\s*$/i] *)
Definition rx_plain_net : regex :=
  cat [RBol; spaces0; text true "NET"; spaces1;
       RCap 1 (opt (lit true dquote));
       RCap 2 (plus true (RAny (fun c => negb (eqc c dquote))));
       RRef true 1; spaces0; REol].

(** [/^\s*\*END\*\s*$/i] *)
Definition rx_end : regex := cat [RBol; spaces0; text true "*END*"; spaces0; REol].
(** [/^\s*\$ENDNETS\b/i] *)
Definition rx_endnets : regex := cat [RBol; spaces0; text true "$ENDNETS"; RWordB].

(** The closure [ensureNet]: the map after the call; the entry it returns
    is the one stored under [normalizeNetName name]. *)
Definition ensureNet (nm : string) (netsByKey : list (string * NetEntry))
  : list (string * NetEntry) :=
  let key := normalizeNetName nm in
  match JsMap.get key netsByKey with
  | Some _ => netsByKey
  | None => JsMap.set key {| name := trim nm; endpoints := [] |} netsByKey
  end.

Definition epKey (ep : NetlistEndpoint) : string := ref ep +:+ "." +:+ pin ep.

(** [ensureNet(nm).endpoints.set(`${ep.ref}.${ep.pin}`, ep)]: the entry is
    shared with the map, so the update is seen through [netsByKey]. *)
Definition addEndpoint (nm : string) (ep : NetlistEndpoint)
  (netsByKey : list (string * NetEntry)) : list (string * NetEntry) :=
  let m := ensureNet nm netsByKey in
  let key := normalizeNetName nm in
  match JsMap.get key m with
  | Some e =>
      JsMap.set key
        {| name := name e; endpoints := JsMap.set (epKey ep) ep (endpoints e) |} m
  | None => m
  end.

Definition currentNetSet (currentNet : option string) : option string :=
  match currentNet with
  | Some n => if truthy n then Some n else None
  | None => None
  end.

(** The loop state: [netsByKey] and the cursor [currentNet]. *)
Definition pstate : Type := (list (string * NetEntry) * option string)%type.

(** One iteration of [for (const raw of lines)]. *)
Definition parseLine (isKiCadSexpr : bool) (st : pstate) (raw : string) : pstate :=
  let '(netsByKey, currentNet) := st in
  let line := trim raw in
  if negb (truthy line) then st
  else if isKiCadSexpr then
    match currentNetSet (parseKiCadSexprNetStart line) with
    | Some netName => (ensureNet netName netsByKey, Some netName)
    | None =>
        match currentNetSet currentNet with
        | Some cn =>
            match parseKiCadSexprNode line with
            | Some node => (addEndpoint cn node netsByKey, currentNet)
            | None => st
            end
        | None => st
        end
    end
  else
    match exec (rx_net_marker "*NET*") line with
    | Some m => (ensureNet (group 1 m) netsByKey, Some (group 1 m))
    | None =>
    match exec (rx_net_marker "$NET") line with
    | Some m => (ensureNet (group 1 m) netsByKey, Some (group 1 m))
    | None =>
    match exec rx_plain_net line with
    | Some m => (ensureNet (group 2 m) netsByKey, Some (group 2 m))
    | None =>
      if test rx_end line || test rx_endnets line then (netsByKey, None)
      else
        match currentNetSet currentNet with
        | None => st
        | Some cn =>
            let netsByKey1 := ensureNet cn netsByKey in
            match extractRefPinPair line with
            | Some pr => (addEndpoint cn pr netsByKey1, currentNet)
            | None =>
                (fold_left (fun m ep => addEndpoint cn ep m)
                   (extractRefPinInlineTokens line) netsByKey1, currentNet)
            end
        end
    end end end.

(** The output loop shared by both parsers:
    [nets[normalizeNetName(entry.name)] = Array.from(entry.endpoints.values())]
    and the running [endpointCount]. *)
Definition collectNets (netsByKey : list (string * NetEntry))
  : gmap string (list NetlistEndpoint) * nat :=
  fold_left
    (fun acc kv =>
       let lst := JsMap.values (endpoints (snd kv)) in
       (<[normalizeNetName (name (snd kv)) := lst]> (fst acc),
        snd acc + List.length lst))
    netsByKey (∅, 0).

Definition guessFormat (lines : list string) : bool * option string :=
  let joined := join (String LF EmptyString) (firstn 200 lines) in
  let isKiCadSexpr := includes joined "(net" && includes joined "(node" in
  let isPads := includes joined "*PADS-PCB*" || includes (toUpperCase joined) "*NET*" in
  let isAllegro := includes (toUpperCase joined) "$NETS" in
  (isKiCadSexpr,
   if isKiCadSexpr then Some "kicad-sexp"
   else if isPads then Some "pads"
   else if isAllegro then Some "allegro"
   else None).

(** The map [netsByKey] when the loop over the lines ends. *)
Definition netsByKeyOf (text : string) : list (string * NetEntry) :=
  let lines := split_lines text in
  fst (fold_left (parseLine (fst (guessFormat lines))) lines ([], None)).

Definition parseNetlist (text : string) : ParsedNetlist :=
  let lines := split_lines text in
  let netsByKey := netsByKeyOf text in
  let '(nets, endpointCount) := collectNets netsByKey in
  let w1 := if Nat.eqb (size nets) 0
            then ["No nets parsed from netlist text."] else [] in
  let w2 := if negb (Nat.eqb (size nets) 0) && Nat.eqb endpointCount 0
            then ["Nets were detected but no endpoints (Ref.Pin) could be parsed."]
            else [] in
  let warnings := w1 ++ w2 in
  {| ok := Nat.eqb (List.length warnings) 0;
     formatGuess := snd (guessFormat lines);
     warnings := warnings;
     nets := nets |}.

Definition nl (a b : string) : string := a +:+ String LF b.

Definition sample_text : string :=
  nl "*NET* GND" (nl "R1 2" (nl "C1 1" (nl "*NET* VCC" (nl "U1 1" EmptyString)))).

End Host.

End Netlist.

(* ===================================================================== *)
(** ** parseJlcJsonNetlist.ts: the structured (JSON) parser *)
(* ===================================================================== *)

Module JlcJson.
Import Js Netlist.

(** A number as [JSON.parse] can return it: finite, given by the text
    [String(n)] renders it as, or an infinity (from an overflowing literal). *)
Inductive jsnumber : Type :=
| Finite (rendering : string)
| Infinite.

#[local] Set Warnings "-register-all".

(** A value returned by [JSON.parse].  The fields of an object are listed in
    the order [Object.entries] enumerates them. *)
Inductive json : Type :=
| JNull
| JBool (b : bool)
| JNum (n : jsnumber)
| JStr (s : string)
| JArr (items : list json)
| JObj (fields : list (string * json)).

(** Property access [obj.key] / [obj['key']]; [None] is [undefined]. *)
Fixpoint jget (key : string) (fields : list (string * json)) : option json :=
  match fields with
  | [] => None
  | (k, v) :: tl => if String.eqb key k then Some v else jget key tl
  end.

Definition asRecord (value : option json) : option (list (string * json)) :=
  match value with
  | Some (JObj fields) => Some fields
  | _ => None
  end.

Definition asString (value : option json) : option string :=
  match value with
  | Some (JStr s) => Some s
  | Some (JNum (Finite r)) => Some r
  | _ => None
  end.

(** [a ?? b] *)
Definition nullish {A} (a : option A) (b : option A) : option A :=
  match a with Some x => Some x | None => b end.
Infix "??" := nullish (at level 60, right associativity).

Record JlcNetlistPin : Type := {
  jpin : string;
  jnet : string;
  jname : option string
}.

Record JlcNetlistComponent : Type := {
  cref : string;
  value : option string;
  footprintName : option string;
  lcsc : option string;
  manufacturer : option string;
  mpn : option string;
  datasheetUrl : option string;
  jlcpcbPartClass : option string;
  pins : list JlcNetlistPin;
  props : gmap string string
}.

Record ParsedJlcJsonNetlist : Type := {
  jok : bool;
  jwarnings : list string;
  components : list JlcNetlistComponent;
  jnets : gmap string (list NetlistEndpoint)
}.

Section Host.
Context `{CM : CaseMapping}.

(** [asString(pinObj.number) ?? asString(pinObj['Pin Number']) ?? pinId],
    normalised *)
Definition pinOf (pinId : string) (pinObj : list (string * json)) : string :=
  normalizePin
    (default pinId
       (asString (jget "number" pinObj) ?? asString (jget "Pin Number" pinObj))).

(** [asString(pinObj.net) ?? ''] *)
Definition netOf (pinObj : list (string * json)) : string :=
  default EmptyString (asString (jget "net" pinObj)).

(** One iteration of [for (const [pinId, pinRaw] of Object.entries(pinInfoMap))]
    on the pair ([pins], [netsByKey]). *)
Definition pinStep (cref0 : string)
  (acc : list JlcNetlistPin * list (string * NetEntry))
  (entry : string * json) : list JlcNetlistPin * list (string * NetEntry) :=
  let '(pinId, pinRaw) := entry in
  match asRecord (Some pinRaw) with
  | None => acc
  | Some pinObj =>
      let net := netOf pinObj in
      let nm := asString (jget "name" pinObj) in
      let p := pinOf pinId pinObj in
      let pins' := fst acc ++ [{| jpin := p; jnet := net; jname := nm |}] in
      if negb (truthy (trim net)) then (pins', snd acc)
      else (pins', addEndpoint net (Endpoint cref0 p) (snd acc))
  end.

(** [props[String(k)] = s]; an assignment to [__proto__] of a string creates
    no property. *)
Definition propStep (acc : gmap string string) (entry : string * json)
  : gmap string string :=
  match asString (Some (snd entry)) with
  | Some s => if String.eqb (fst entry) "__proto__" then acc else <[fst entry := s]> acc
  | None => acc
  end.

(** The reference designator of a component: [Designator], else
    [designator], else a placeholder made from the key of the component. *)
Definition refOf (compId : string) (propsRaw : list (string * json)) : string :=
  normalizeRef
    (default (if truthy compId then "U?_" +:+ compId else "U?")
       (asString (jget "Designator" propsRaw)
          ?? asString (jget "designator" propsRaw))).

(** One iteration of [for (const [compId, compRaw] of Object.entries(componentsObj))]
    on the pair ([components], [netsByKey]). *)
Definition compStep
  (acc : list JlcNetlistComponent * list (string * NetEntry))
  (entry : string * json) : list JlcNetlistComponent * list (string * NetEntry) :=
  let '(compId, compRaw) := entry in
  match asRecord (Some compRaw) with
  | None => acc
  | Some comp =>
      let propsRaw := default [] (asRecord (jget "props" comp)) in
      let pinInfoMap := default [] (asRecord (jget "pinInfoMap" comp)) in
      let r := refOf compId propsRaw in
      let '(pins0, nets0) := fold_left (pinStep r) pinInfoMap ([], snd acc) in
      (fst acc ++
         [{| cref := r;
             value := asString (jget "Value" propsRaw) ?? asString (jget "Name" propsRaw);
             footprintName :=
               asString (jget "FootprintName" propsRaw)
                 ?? asString (jget "Supplier Footprint" propsRaw);
             lcsc := asString (jget "Supplier Part" propsRaw);
             manufacturer := asString (jget "Manufacturer" propsRaw);
             mpn := asString (jget "Manufacturer Part" propsRaw)
                      ?? asString (jget "DeviceName" propsRaw);
             datasheetUrl := asString (jget "Datasheet" propsRaw);
             jlcpcbPartClass := asString (jget "JLCPCB Part Class" propsRaw);
             pins := pins0;
             props := fold_left propStep propsRaw ∅ |}],
       nets0)
  end.

(** The map [netsByKey] when the loop over the components ends. *)
Definition jsonNetsByKeyOf (componentsObj : list (string * json))
  : list (string * NetEntry) :=
  snd (fold_left compStep componentsObj ([], [])).

(** The parser from the value [JSON.parse] returned on. *)
Definition parseRoot (root : json) : option ParsedJlcJsonNetlist :=
  match asRecord (Some root) with
  | None => None
  | Some rootObj =>
      match asRecord (jget "components" rootObj) with
      | None => None
      | Some componentsObj =>
          let comps := fst (fold_left compStep componentsObj ([], [])) in
          let '(nets, endpointCount) := collectNets (jsonNetsByKeyOf componentsObj) in
          let w1 := if Nat.eqb (List.length comps) 0
                    then ["No components parsed from JSON netlist."] else [] in
          let w2 := if Nat.eqb (size nets) 0
                    then ["No nets parsed from JSON netlist."] else [] in
          let w3 := if negb (Nat.eqb (size nets) 0) && Nat.eqb endpointCount 0
                    then ["Nets were detected but no endpoints (Ref.Pin) could be parsed."]
                    else [] in
          let ws := w1 ++ w2 ++ w3 in
          Some {| jok := Nat.eqb (List.length ws) 0;
                  jwarnings := ws;
                  components := comps;
                  jnets := nets |}
      end
  end.

(** [parseJlcJsonNetlist(text)]; [JSON_parse] is the host's [JSON.parse],
    [None] when it throws. *)
Definition parseJlcJsonNetlist (JSON_parse : string -> option json) (text : string)
  : option ParsedJlcJsonNetlist :=
  let trimmed := trim text in
  if negb (startsWith trimmed "{") then None
  else
    match JSON_parse trimmed with
    | None => None
    | Some root => parseRoot root
    end.

End Host.

(** A component record with one pin. *)
Definition onePinComponent (designator : option string) (pinId : string)
  (number : option json) (net : option json) : json :=
  JObj ((match designator with
         | Some d => [("props", JObj [("Designator", JStr d)])]
         | None => []
         end) ++
        [("pinInfoMap",
          JObj [(pinId,
                 JObj ((match number with Some n => [("number", n)] | None => [] end) ++
                       (match net with Some n => [("net", n)] | None => [] end)))])]).

Definition sample_root : json :=
  JObj [("version", JStr "2.0.0");
        ("components",
         JObj [("c1", onePinComponent (Some "R1") "p1" (Some (JNum (Finite "1"))) (Some (JStr "VCC")));
               ("c2", onePinComponent (Some "C1") "p1" (Some (JStr "2")) (Some (JStr "VCC")))])].

End JlcJson.

(* ===================================================================== *)
(** ** wsBridge.ts: the server side, class [WsBridge] *)
(* ===================================================================== *)

Module Server.
Import JlcJson.

(** *** Messages and their zod schemas *)

Record HelloApp : Type := {
  app_name : option string;
  app_version : option string;
  app_edaVersion : option string
}.

Record HelloMessage : Type := {
  hello_token : option string;
  hello_app : option HelloApp
}.

Record ResponseError : Type := {
  err_code : string;
  err_message : string;
  err_data : option json
}.

Record ResponseMessage : Type := {
  resp_id : string;
  resp_result : option json;
  resp_error : option ResponseError
}.

Record RequestMessage : Type := {
  req_id : string;
  req_method : string;
  req_params : option json
}.

(** [z.string()] on a property *)
Definition zString (v : option json) : option string :=
  match v with Some (JStr s) => Some s | _ => None end.

(** [z.string().optional()]: absent, or a string *)
Definition zOptString (v : option json) : option (option string) :=
  match v with
  | None => Some None
  | Some (JStr s) => Some (Some s)
  | Some _ => None
  end.

(** [z.literal(lit)] *)
Definition zLiteral (lit : string) (v : option json) : bool :=
  match v with Some (JStr s) => String.eqb s lit | _ => false end.

Definition parseHelloApp (v : option json) : option (option HelloApp) :=
  match v with
  | None => Some None
  | Some (JObj f) =>
      match zOptString (jget "name" f), zOptString (jget "version" f),
            zOptString (jget "edaVersion" f) with
      | Some n, Some ver, Some e =>
          Some (Some {| app_name := n; app_version := ver; app_edaVersion := e |})
      | _, _, _ => None
      end
  | Some _ => None
  end.

(** [HelloMessageSchema.safeParse(json)], [None] when [success] is false *)
Definition parseHello (j : json) : option HelloMessage :=
  match j with
  | JObj f =>
      if zLiteral "hello" (jget "type" f) then
        match zOptString (jget "token" f), parseHelloApp (jget "app" f) with
        | Some t, Some a => Some {| hello_token := t; hello_app := a |}
        | _, _ => None
        end
      else None
  | _ => None
  end.

Definition parseResponseError (v : option json) : option (option ResponseError) :=
  match v with
  | None => Some None
  | Some (JObj f) =>
      match zString (jget "code" f), zString (jget "message" f) with
      | Some c, Some m =>
          Some (Some {| err_code := c; err_message := m; err_data := jget "data" f |})
      | _, _ => None
      end
  | Some _ => None
  end.

(** [ResponseMessageSchema.safeParse(json)] *)
Definition parseResponse (j : json) : option ResponseMessage :=
  match j with
  | JObj f =>
      if zLiteral "response" (jget "type" f) then
        match zString (jget "id" f), parseResponseError (jget "error" f) with
        | Some i, Some e =>
            Some {| resp_id := i; resp_result := jget "result" f; resp_error := e |}
        | _, _ => None
        end
      else None
  | _ => None
  end.

(** *** Promises, sockets, timers *)

(** How the promise returned by [call] ends. *)
Inductive outcome : Type :=
| Resolved (result : option json)
| Rejected (message : string) (code : option string) (data : option json).

(** A promise settles once: [resolve] and [reject] do nothing afterwards. *)
Inductive promise : Type :=
| Pending
| Settled (o : outcome).

Definition settle (c : nat) (o : outcome) (ps : gmap nat promise) : gmap nat promise :=
  match ps !! c with
  | Some Pending => <[c := Settled o]> ps
  | _ => ps
  end.

Inductive ReadyState : Type := OPEN | CLOSING | CLOSED.

Definition ReadyState_eqb (a b : ReadyState) : bool :=
  match a, b with
  | OPEN, OPEN | CLOSING, CLOSING | CLOSED, CLOSED => true
  | _, _ => false
  end.

(** An accepted socket together with the locals of the [#handleConnection]
    call that serves it. *)
Record Conn : Type := {
  handshaked : bool;
  handshakeTimeout : option Z;        (* due time of the armed watchdog *)
  readyState : ReadyState;
  closeSent : option (Z * string);    (* code and reason of the close frame *)
  peerAddress : option string
}.

(** [ws.close(code, reason)] of the ws library: an open socket starts the
    closing handshake with that code and reason; otherwise nothing changes. *)
Definition ws_close (code : Z) (reason : string) (c : Conn) : Conn :=
  match readyState c with
  | OPEN =>
      {| handshaked := handshaked c; handshakeTimeout := handshakeTimeout c;
         readyState := CLOSING; closeSent := Some (code, reason);
         peerAddress := peerAddress c |}
  | _ => c
  end.

(** What the ws library does, before it emits the close event, when the
    close frame of the peer arrives or the connection is lost: an open
    socket becomes closing; [echo] is the close frame it answers with, if
    any. *)
Definition peer_closing (echo : option (Z * string)) (c : Conn) : Conn :=
  match readyState c with
  | OPEN =>
      {| handshaked := handshaked c; handshakeTimeout := handshakeTimeout c;
         readyState := CLOSING; closeSent := echo;
         peerAddress := peerAddress c |}
  | _ => c
  end.

(** An entry of [#pending]: [resolve] and [reject] settle the promise
    [promise_of], [timeout] is the timer [timeout_of]. *)
Record PendingCall : Type := {
  promise_of : nat;
  timeout_of : nat
}.

(** What the closures created by one [call] have captured, and whether the
    call got as far as writing its request. *)
Record CallInfo : Type := {
  call_id : string;
  call_method : string;
  call_socket : nat;
  call_written : bool
}.

(** The [params] of a call as [JSON.stringify(msg)] sees them: a value it
    renders ([undefined] leaves the property out of the frame), or one on
    which it throws the error [thrown] (a BigInt, a cyclic object, a
    throwing [toJSON]). *)
Inductive Params : Type :=
| Plain (p : option json)
| Unserialisable (thrown : string).

Record WsBridge : Type := {
  (* the fields of the class *)
  socket : option nat;
  clientHello : option HelloMessage;
  connectedAt : option Z;
  remoteAddress : option string;
  pending : gmap string PendingCall;
  keepAliveTimer : bool;
  keepAliveInFlight : bool;
  (* the world around it *)
  now : Z;                              (* the clock, in ms *)
  serverClosed : bool;                  (* [#server.close()] was called *)
  conns : gmap nat Conn;                (* the sockets accepted so far *)
  promises : gmap nat promise;          (* one per invocation of [call] *)
  issued : gmap nat CallInfo;           (* the calls that got an id *)
  timers : gmap nat Z;                  (* armed call timeouts, with due time *)
  sendCallbacks : gset nat;             (* [ws.send] callbacks still to run *)
  keepAliveCalls : gset nat;            (* pings whose [finally] is still to run *)
  sent : list (nat * RequestMessage);   (* frames written, newest first *)
  nextCall : nat
}.

Definition new_bridge : WsBridge :=
  {| socket := None; clientHello := None; connectedAt := None;
     remoteAddress := None; pending := ∅; keepAliveTimer := false;
     keepAliveInFlight := false; now := 0; serverClosed := false; conns := ∅;
     promises := ∅; issued := ∅; timers := ∅; sendCallbacks := ∅;
     keepAliveCalls := ∅; sent := []; nextCall := 0 |}.

(** Field updates. *)
Definition set_socket (v : option nat) (s : WsBridge) : WsBridge :=
  {| socket := v; clientHello := clientHello s; connectedAt := connectedAt s;
     remoteAddress := remoteAddress s; pending := pending s;
     keepAliveTimer := keepAliveTimer s; keepAliveInFlight := keepAliveInFlight s;
     now := now s; serverClosed := serverClosed s; conns := conns s;
     promises := promises s; issued := issued s; timers := timers s;
     sendCallbacks := sendCallbacks s; keepAliveCalls := keepAliveCalls s;
     sent := sent s; nextCall := nextCall s |}.

Definition set_client (h : option HelloMessage) (t : option Z) (a : option string)
  (s : WsBridge) : WsBridge :=
  {| socket := socket s; clientHello := h; connectedAt := t;
     remoteAddress := a; pending := pending s;
     keepAliveTimer := keepAliveTimer s; keepAliveInFlight := keepAliveInFlight s;
     now := now s; serverClosed := serverClosed s; conns := conns s;
     promises := promises s; issued := issued s; timers := timers s;
     sendCallbacks := sendCallbacks s; keepAliveCalls := keepAliveCalls s;
     sent := sent s; nextCall := nextCall s |}.

Definition set_pending (v : gmap string PendingCall) (s : WsBridge) : WsBridge :=
  {| socket := socket s; clientHello := clientHello s; connectedAt := connectedAt s;
     remoteAddress := remoteAddress s; pending := v;
     keepAliveTimer := keepAliveTimer s; keepAliveInFlight := keepAliveInFlight s;
     now := now s; serverClosed := serverClosed s; conns := conns s;
     promises := promises s; issued := issued s; timers := timers s;
     sendCallbacks := sendCallbacks s; keepAliveCalls := keepAliveCalls s;
     sent := sent s; nextCall := nextCall s |}.

Definition set_keepAlive (timer inflight : bool) (s : WsBridge) : WsBridge :=
  {| socket := socket s; clientHello := clientHello s; connectedAt := connectedAt s;
     remoteAddress := remoteAddress s; pending := pending s;
     keepAliveTimer := timer; keepAliveInFlight := inflight;
     now := now s; serverClosed := serverClosed s; conns := conns s;
     promises := promises s; issued := issued s; timers := timers s;
     sendCallbacks := sendCallbacks s; keepAliveCalls := keepAliveCalls s;
     sent := sent s; nextCall := nextCall s |}.

Definition set_now (t : Z) (s : WsBridge) : WsBridge :=
  {| socket := socket s; clientHello := clientHello s; connectedAt := connectedAt s;
     remoteAddress := remoteAddress s; pending := pending s;
     keepAliveTimer := keepAliveTimer s; keepAliveInFlight := keepAliveInFlight s;
     now := t; serverClosed := serverClosed s; conns := conns s;
     promises := promises s; issued := issued s; timers := timers s;
     sendCallbacks := sendCallbacks s; keepAliveCalls := keepAliveCalls s;
     sent := sent s; nextCall := nextCall s |}.

Definition set_serverClosed (b : bool) (s : WsBridge) : WsBridge :=
  {| socket := socket s; clientHello := clientHello s; connectedAt := connectedAt s;
     remoteAddress := remoteAddress s; pending := pending s;
     keepAliveTimer := keepAliveTimer s; keepAliveInFlight := keepAliveInFlight s;
     now := now s; serverClosed := b; conns := conns s;
     promises := promises s; issued := issued s; timers := timers s;
     sendCallbacks := sendCallbacks s; keepAliveCalls := keepAliveCalls s;
     sent := sent s; nextCall := nextCall s |}.

Definition set_conns (v : gmap nat Conn) (s : WsBridge) : WsBridge :=
  {| socket := socket s; clientHello := clientHello s; connectedAt := connectedAt s;
     remoteAddress := remoteAddress s; pending := pending s;
     keepAliveTimer := keepAliveTimer s; keepAliveInFlight := keepAliveInFlight s;
     now := now s; serverClosed := serverClosed s; conns := v;
     promises := promises s; issued := issued s; timers := timers s;
     sendCallbacks := sendCallbacks s; keepAliveCalls := keepAliveCalls s;
     sent := sent s; nextCall := nextCall s |}.

Definition set_promises (v : gmap nat promise) (s : WsBridge) : WsBridge :=
  {| socket := socket s; clientHello := clientHello s; connectedAt := connectedAt s;
     remoteAddress := remoteAddress s; pending := pending s;
     keepAliveTimer := keepAliveTimer s; keepAliveInFlight := keepAliveInFlight s;
     now := now s; serverClosed := serverClosed s; conns := conns s;
     promises := v; issued := issued s; timers := timers s;
     sendCallbacks := sendCallbacks s; keepAliveCalls := keepAliveCalls s;
     sent := sent s; nextCall := nextCall s |}.

Definition set_timers (v : gmap nat Z) (s : WsBridge) : WsBridge :=
  {| socket := socket s; clientHello := clientHello s; connectedAt := connectedAt s;
     remoteAddress := remoteAddress s; pending := pending s;
     keepAliveTimer := keepAliveTimer s; keepAliveInFlight := keepAliveInFlight s;
     now := now s; serverClosed := serverClosed s; conns := conns s;
     promises := promises s; issued := issued s; timers := v;
     sendCallbacks := sendCallbacks s; keepAliveCalls := keepAliveCalls s;
     sent := sent s; nextCall := nextCall s |}.

Definition set_sendCallbacks (v : gset nat) (s : WsBridge) : WsBridge :=
  {| socket := socket s; clientHello := clientHello s; connectedAt := connectedAt s;
     remoteAddress := remoteAddress s; pending := pending s;
     keepAliveTimer := keepAliveTimer s; keepAliveInFlight := keepAliveInFlight s;
     now := now s; serverClosed := serverClosed s; conns := conns s;
     promises := promises s; issued := issued s; timers := timers s;
     sendCallbacks := v; keepAliveCalls := keepAliveCalls s;
     sent := sent s; nextCall := nextCall s |}.

Definition set_keepAliveCalls (v : gset nat) (s : WsBridge) : WsBridge :=
  {| socket := socket s; clientHello := clientHello s; connectedAt := connectedAt s;
     remoteAddress := remoteAddress s; pending := pending s;
     keepAliveTimer := keepAliveTimer s; keepAliveInFlight := keepAliveInFlight s;
     now := now s; serverClosed := serverClosed s; conns := conns s;
     promises := promises s; issued := issued s; timers := timers s;
     sendCallbacks := sendCallbacks s; keepAliveCalls := v;
     sent := sent s; nextCall := nextCall s |}.

(** The state after [call] has registered call number [nextCall s]. *)
Definition set_issue (info : option CallInfo) (frames : list (nat * RequestMessage))
  (s : WsBridge) : WsBridge :=
  {| socket := socket s; clientHello := clientHello s; connectedAt := connectedAt s;
     remoteAddress := remoteAddress s; pending := pending s;
     keepAliveTimer := keepAliveTimer s; keepAliveInFlight := keepAliveInFlight s;
     now := now s; serverClosed := serverClosed s; conns := conns s;
     promises := promises s;
     issued := match info with
               | Some i => <[nextCall s := i]> (issued s)
               | None => issued s
               end;
     timers := timers s;
     sendCallbacks := sendCallbacks s; keepAliveCalls := keepAliveCalls s;
     sent := frames ++ sent s; nextCall := S (nextCall s) |}.

(** *** The methods and handlers *)

Definition conn_open (ws : nat) (s : WsBridge) : bool :=
  match conns s !! ws with
  | Some c => ReadyState_eqb (readyState c) OPEN
  | None => false
  end.

Definition alter_conn (f : Conn -> Conn) (ws : nat) (s : WsBridge) : WsBridge :=
  set_conns (alter f ws (conns s)) s.

Definition stopKeepAlive (s : WsBridge) : WsBridge := set_keepAlive false false s.

Definition startKeepAlive (s : WsBridge) : WsBridge :=
  if keepAliveTimer s then s else set_keepAlive true (keepAliveInFlight s) s.

Definition plainError (message : string) : outcome := Rejected message None None.

(** [call(method, params, timeoutMs)] where [crypto.randomUUID()] returns
    [id].  The promise it returns is number [nextCall s].  The executor of
    the promise arms the timeout, stores the entry, and then renders and
    writes the request; when [JSON.stringify] throws there, the promise is
    rejected with what was thrown, nothing is written, and the timeout and
    the entry stay. *)
Definition call (id method : string) (params : Params) (timeoutMs : Z)
  (s : WsBridge) : WsBridge :=
  let c := nextCall s in
  let notConnected :=
    set_issue None []
      (set_promises
         (<[c := Settled (plainError "EDA bridge is not connected")]> (promises s)) s) in
  match socket s with
  | Some ws =>
      if conn_open ws s then
        match params with
        | Plain p =>
            set_issue
              (Some {| call_id := id; call_method := method; call_socket := ws;
                       call_written := true |})
              [(ws, {| req_id := id; req_method := method; req_params := p |})]
              (set_sendCallbacks ({[c]} ∪ sendCallbacks s)
                 (set_pending
                    (<[id := {| promise_of := c; timeout_of := c |}]> (pending s))
                    (set_timers (<[c := (now s + timeoutMs)%Z]> (timers s))
                       (set_promises (<[c := Pending]> (promises s)) s))))
        | Unserialisable thrown =>
            set_issue
              (Some {| call_id := id; call_method := method; call_socket := ws;
                       call_written := false |})
              []
              (set_pending
                 (<[id := {| promise_of := c; timeout_of := c |}]> (pending s))
                 (set_timers (<[c := (now s + timeoutMs)%Z]> (timers s))
                    (set_promises (<[c := Settled (plainError thrown)]> (promises s))
                       s)))
        end
      else notConnected
  | None => notConnected
  end.

(** The [setTimeout] callback of call [c]. *)
Definition onCallTimeout (c : nat) (s : WsBridge) : WsBridge :=
  match timers s !! c, issued s !! c with
  | Some due, Some info =>
      if (due <=? now s)%Z then
        set_promises
          (settle c (plainError ("Bridge call timeout: " +:+ call_method info))
             (promises s))
          (set_pending (delete (call_id info) (pending s))
             (set_timers (delete c (timers s)) s))
      else s
  | _, _ => s
  end.

(** The callback given to [ws.send] by call [c]; [err] is its argument. *)
Definition onSendDone (c : nat) (err : option string) (s : WsBridge) : WsBridge :=
  if decide (c ∈ sendCallbacks s) then
    let s1 := set_sendCallbacks (sendCallbacks s ∖ {[c]}) s in
    match err, issued s !! c with
    | Some message, Some info =>
        set_promises (settle c (plainError message) (promises s1))
          (set_pending (delete (call_id info) (pending s1))
             (set_timers (delete c (timers s1)) s1))
    | _, _ => s1
    end
  else s.

(** [#handleResponse(msg)] *)
Definition handleResponse (msg : ResponseMessage) (s : WsBridge) : WsBridge :=
  match pending s !! resp_id msg with
  | None => s
  | Some pc =>
      let s1 := set_pending (delete (resp_id msg) (pending s))
                  (set_timers (delete (timeout_of pc) (timers s)) s) in
      match resp_error msg with
      | Some e =>
          set_promises
            (settle (promise_of pc)
               (Rejected (err_message e) (Some (err_code e)) (err_data e))
               (promises s1)) s1
      | None =>
          set_promises
            (settle (promise_of pc) (Resolved (resp_result msg)) (promises s1)) s1
      end
  end.

(** The body of [for (const [id, pending] of this.#pending)]:
    [clearTimeout(pending.timeout); pending.reject(new Error(message))],
    followed by [this.#pending.delete(id)] when [remove] is set. *)
Definition rejectOne (message : string) (remove : bool)
  (id : string) (pc : PendingCall) (s : WsBridge) : WsBridge :=
  let s1 := set_promises (settle (promise_of pc) (plainError message) (promises s))
              (set_timers (delete (timeout_of pc) (timers s)) s) in
  if remove then set_pending (delete id (pending s1)) s1 else s1.

Definition rejectPending (message : string) (remove : bool) (s : WsBridge) : WsBridge :=
  map_fold (rejectOne message remove) s (pending s).

Definition note_handshake (c : Conn) : Conn :=
  {| handshaked := true; handshakeTimeout := None; readyState := readyState c;
     closeSent := closeSent c; peerAddress := peerAddress c |}.

Definition clear_handshakeTimeout (c : Conn) : Conn :=
  {| handshaked := handshaked c; handshakeTimeout := None; readyState := readyState c;
     closeSent := closeSent c; peerAddress := peerAddress c |}.

Definition mark_closed (c : Conn) : Conn :=
  {| handshaked := handshaked c; handshakeTimeout := None; readyState := CLOSED;
     closeSent := closeSent c; peerAddress := peerAddress c |}.

Definition HANDSHAKE_MS : Z := 5000.
Definition KEEPALIVE_PING_MS : Z := 5000.

(** [#handleConnection(ws, remoteAddress)]: the synchronous part, which arms
    the watchdog and installs the handlers. *)
Definition handleConnection (ws : nat) (addr : option string) (s : WsBridge) : WsBridge :=
  if serverClosed s then s
  else
    match conns s !! ws with
    | Some _ => s                       (* an accepted socket is a new object *)
    | None =>
        set_conns
          (<[ws := {| handshaked := false;
                      handshakeTimeout := Some (now s + HANDSHAKE_MS)%Z;
                      readyState := OPEN; closeSent := None;
                      peerAddress := addr |}]> (conns s)) s
    end.

(** The [setTimeout] callback of [#handleConnection]. *)
Definition onHandshakeTimeout (ws : nat) (s : WsBridge) : WsBridge :=
  match conns s !! ws with
  | Some c =>
      match handshakeTimeout c with
      | Some due =>
          if (due <=? now s)%Z then
            let s1 := alter_conn clear_handshakeTimeout ws s in
            if negb (handshaked c)
            then alter_conn (ws_close 4001 "Handshake timeout") ws s1
            else s1
          else s
      | None => s
      end
  | None => s
  end.

(** The branch [if (!handshaked)] of the message handler, on a frame that
    satisfies the hello schema. *)
Definition acceptHello (ws : nat) (c : Conn) (hello : HelloMessage) (s : WsBridge)
  : WsBridge :=
  let s1 := alter_conn note_handshake ws s in
  let s2 := stopKeepAlive s1 in
  let s3 := match socket s2 with
            | Some old => alter_conn (ws_close 4000 "Replaced by new connection") old s2
            | None => s2
            end in
  let s4 := set_client (Some hello) (Some (now s3)) (peerAddress c)
              (set_socket (Some ws) s3) in
  startKeepAlive s4.

(** [ws.on('message', ...)]; [data] is what [JSON.parse] returns on the
    frame, [None] when it throws. *)
Definition onMessage (ws : nat) (data : option json) (s : WsBridge) : WsBridge :=
  match conns s !! ws with
  | None => s
  | Some c =>
      match readyState c with
      | CLOSED => s                     (* a closed socket emits nothing *)
      | _ =>
          match data with
          | None => s
          | Some j =>
              if negb (handshaked c) then
                match parseHello j with
                | None => alter_conn (ws_close 4002 "Invalid hello") ws s
                | Some hello => acceptHello ws c hello s
                end
              else
                match parseResponse j with
                | None => s
                | Some msg => handleResponse msg s
                end
          end
      end
  end.

(** [ws.on('close', ...)] *)
Definition onClose (ws : nat) (s : WsBridge) : WsBridge :=
  match conns s !! ws with
  | None => s
  | Some c =>
      match readyState c with
      | CLOSED => s                     (* the close event is emitted once *)
      | _ =>
          let s1 := alter_conn mark_closed ws s in
          let s2 :=
            if decide (socket s1 = Some ws)
            then set_client None None None (set_socket None (stopKeepAlive s1))
            else s1 in
          rejectPending "Bridge disconnected" true s2
      end
  end.

(** [close()] *)
Definition close (s : WsBridge) : WsBridge :=
  let s1 := stopKeepAlive s in
  let s2 := set_pending ∅ (rejectPending "Bridge closed" false s1) in
  let s3 := match socket s2 with
            | Some ws => alter_conn (ws_close 1000 "Bridge closed") ws s2
            | None => s2
            end in
  set_serverClosed true (set_client None None None (set_socket None s3)).

(** The [setInterval] callback of [#startKeepAlive]; [id] is the id its
    [call] draws. *)
Definition onKeepAliveTick (id : string) (s : WsBridge) : WsBridge :=
  if negb (keepAliveTimer s) then s
  else if keepAliveInFlight s then s
  else
    match socket s with
    | None => s
    | Some ws =>
        if conn_open ws s then
          let s1 := set_keepAlive (keepAliveTimer s) true s in
          set_keepAliveCalls ({[nextCall s1]} ∪ keepAliveCalls s1)
            (call id "ping" (Plain None) KEEPALIVE_PING_MS s1)
        else s
    end.

Definition is_settled (ps : gmap nat promise) (c : nat) : bool :=
  match ps !! c with Some (Settled _) => true | _ => false end.

(** The [finally] callbacks of the pings whose promise has settled run once
    the current handler returns. *)
Definition runFinally (s : WsBridge) : WsBridge :=
  let finished := filter (fun c => is_settled (promises s) c = true) (keepAliveCalls s) in
  if decide (finished = ∅) then s
  else set_keepAlive (keepAliveTimer s) false
         (set_keepAliveCalls (keepAliveCalls s ∖ finished) s).

(** [getStatus().connected] *)
Definition status_connected (s : WsBridge) : bool :=
  match socket s with Some _ => true | None => false end.

(** *** Events *)

Inductive event : Type :=
| EvAdvance (dt : Z)                                  (* time passes *)
| EvConnection (ws : nat) (addr : option string)      (* the server's connection event *)
| EvMessage (ws : nat) (data : option json)
| EvHandshakeTimeout (ws : nat)
| EvSocketClose (ws : nat)
| EvSocketError (ws : nat)
| EvCall (id method : string) (params : Params) (timeoutMs : Z)
| EvCallTimeout (c : nat)
| EvSendDone (c : nat) (err : option string)
| EvKeepAliveTick (id : string)
| EvBridgeClose
| EvPeerClosing (ws : nat) (echo : option (Z * string)).  (* the peer starts to close *)

Definition handle (s : WsBridge) (ev : event) : WsBridge :=
  match ev with
  | EvAdvance dt => if (0 <=? dt)%Z then set_now (now s + dt)%Z s else s
  | EvConnection ws addr => handleConnection ws addr s
  | EvMessage ws data => onMessage ws data s
  | EvHandshakeTimeout ws => onHandshakeTimeout ws s
  | EvSocketClose ws => onClose ws s
  | EvSocketError _ => s
  | EvCall id method params timeoutMs => call id method params timeoutMs s
  | EvCallTimeout c => onCallTimeout c s
  | EvSendDone c err => onSendDone c err s
  | EvKeepAliveTick id => onKeepAliveTick id s
  | EvBridgeClose => close s
  | EvPeerClosing ws echo => alter_conn (peer_closing echo) ws s
  end.

Definition step (s : WsBridge) (ev : event) : WsBridge := runFinally (handle s ev).

Definition run (s : WsBridge) (trace : list event) : WsBridge := fold_left step trace s.

(** The ids drawn by the calls of a trace. *)
Definition drawn_id (ev : event) : list string :=
  match ev with
  | EvCall id _ _ _ => [id]
  | EvKeepAliveTick id => [id]
  | _ => []
  end.
Definition drawn_ids (trace : list event) : list string := flat_map drawn_id trace.

(** A connection is live when it has completed the handshake and is open. *)
Definition live (s : WsBridge) (ws : nat) : Prop :=
  exists c, conns s !! ws = Some c /\ handshaked c = true /\ readyState c = OPEN.

Definition helloFrame : json := JObj [("type", JStr "hello")].
Definition resultFrame (id : string) (v : json) : json :=
  JObj [("type", JStr "response"); ("id", JStr id); ("result", v)].

(** *** [getStatus()] *)

Record ClientStatus : Type := {
  st_app : option HelloApp;
  st_connectedAt : Z;
  st_remoteAddress : option string
}.

Record BridgeStatus : Type := {
  st_listenPort : Z;
  st_tokenRequired : bool;
  st_connected : bool;
  st_client : option ClientStatus
}.

(** [connectedAt] stands for the time the ISO string renders;
    [this.#connectedAt ?? new Date()] falls back to the clock. *)
Definition getStatus (listenPort : Z) (s : WsBridge) : BridgeStatus :=
  {| st_listenPort := listenPort;
     st_tokenRequired := false;
     st_connected := status_connected s;
     st_client :=
       match socket s with
       | Some _ =>
           Some {| st_app := match clientHello s with
                             | Some h => hello_app h
                             | None => None
                             end;
                   st_connectedAt := default (now s) (connectedAt s);
                   st_remoteAddress := remoteAddress s |}
       | None => None
       end |}.

(** The value the peer's [JSON.parse] returns on the frame
    [JSON.stringify(msg)] that [call] writes: a property whose value is
    [undefined] is left out. *)
Definition requestJson (r : RequestMessage) : json :=
  JObj ([("type", JStr "request"); ("id", JStr (req_id r));
         ("method", JStr (req_method r))]
        ++ match req_params r with Some p => [("params", p)] | None => [] end).

End Server.

(* ===================================================================== *)
(** ** client.ts: the peer side, class [BridgeClient] *)
(* ===================================================================== *)

Module Client.
Import JlcJson.

Local Open Scope Z_scope.

Inductive ConnectionState : Type := disconnected | connecting | connected.
Inductive Transport : Type := sys_WebSocket | globalWebSocket | none.
Inductive Level : Type := debug | info | warn | error.
Inductive StateSource : Type := memory | from_storage.

Definition ConnectionState_eqb (a b : ConnectionState) : bool :=
  match a, b with
  | disconnected, disconnected | connecting, connecting | connected, connected => true
  | _, _ => false
  end.

(** An entry of the diagnostic ring (without its free-form [data]). *)
Record DebugLogEntry : Type := {
  ts : Z;
  level : Level;
  message : string
}.

Record RuntimeState : Type := {
  updatedAt : Z;
  rt_connectionState : ConnectionState;
  rt_transport : Transport;
  rt_lastConnectedAt : option Z;
  rt_lastServerRequestAt : option Z;
  rt_lastError : option string;
  rt_debugLog : list DebugLogEntry
}.

Record BridgeStatusSnapshot : Type := {
  snap_connected : bool;
  snap_connectionState : ConnectionState;
  snap_transport : Transport;
  snap_serverUrl : string;
  snap_lastConnectedAt : option Z;
  snap_lastServerRequestAt : option Z;
  snap_lastError : option string;
  snap_stateSource : StateSource;
  snap_runtimeUpdatedAt : option Z
}.

(** What [loadBridgeConfig()] returns. *)
Record BridgeConfig : Type := {
  serverUrl : string;
  autoConnect : bool
}.

Definition DEFAULT_SERVER_URL : string := "ws://127.0.0.1:9050".

(** The connect watchdog: due time, and the transport and URL its callback
    was created for. *)
Record ConnectTimer : Type := {
  ct_due : Z;
  ct_transport : Transport;
  ct_url : string
}.

Inductive SockState : Type := S_CONNECTING | S_OPEN | S_CLOSING | S_CLOSED.

(** A socket made by [new WebSocket(url)]: its [readyState], whether the four
    handlers of [connect] are still attached, and the URL they captured. *)
Record Sock : Type := {
  ready : SockState;
  handlers : bool;
  sock_url : string
}.

Record BridgeClient : Type := {
  (* the fields of the class *)
  socket : option nat;
  lastConnectedAt : option Z;
  lastServerRequestAt : option Z;
  lastError : option string;
  connectTimer : option ConnectTimer;
  handshakeTimer : option (Z * string);
  handshakeOk : bool;
  debugLog : list DebugLogEntry;
  connectionState : ConnectionState;
  transport : Transport;
  registeredUrl : option string;
  lastPersistAt : Z;
  autoEnabled : bool;
  autoTimer : option Z;
  autoBackoffMs : Z;
  autoMaxBackoffMs : Z;
  autoOpts : bool;
  (* the host: clock, APIs, storage, sockets *)
  now : Z;
  hasSysWebSocket : bool;
  hasGlobalWebSocket : bool;
  config : BridgeConfig;
  storage : option RuntimeState;
  storageWorks : bool;
  sysCallbacks : option string;
  socks : gmap nat Sock;
  nextSock : nat
}.

(** Field updates. *)
Definition set_socket (v : option nat) (s : BridgeClient) : BridgeClient :=
  {| socket := v; lastConnectedAt := lastConnectedAt s;
     lastServerRequestAt := lastServerRequestAt s; lastError := lastError s;
     connectTimer := connectTimer s; handshakeTimer := handshakeTimer s;
     handshakeOk := handshakeOk s; debugLog := debugLog s;
     connectionState := connectionState s; transport := transport s;
     registeredUrl := registeredUrl s; lastPersistAt := lastPersistAt s;
     autoEnabled := autoEnabled s; autoTimer := autoTimer s;
     autoBackoffMs := autoBackoffMs s;
     autoMaxBackoffMs := autoMaxBackoffMs s; autoOpts := autoOpts s;
     now := now s; hasSysWebSocket := hasSysWebSocket s;
     hasGlobalWebSocket := hasGlobalWebSocket s; config := config s;
     storage := storage s; storageWorks := storageWorks s;
     sysCallbacks := sysCallbacks s; socks := socks s;
     nextSock := nextSock s |}.

Definition set_lastConnectedAt (v : option Z) (s : BridgeClient) : BridgeClient :=
  {| socket := socket s; lastConnectedAt := v;
     lastServerRequestAt := lastServerRequestAt s; lastError := lastError s;
     connectTimer := connectTimer s; handshakeTimer := handshakeTimer s;
     handshakeOk := handshakeOk s; debugLog := debugLog s;
     connectionState := connectionState s; transport := transport s;
     registeredUrl := registeredUrl s; lastPersistAt := lastPersistAt s;
     autoEnabled := autoEnabled s; autoTimer := autoTimer s;
     autoBackoffMs := autoBackoffMs s;
     autoMaxBackoffMs := autoMaxBackoffMs s; autoOpts := autoOpts s;
     now := now s; hasSysWebSocket := hasSysWebSocket s;
     hasGlobalWebSocket := hasGlobalWebSocket s; config := config s;
     storage := storage s; storageWorks := storageWorks s;
     sysCallbacks := sysCallbacks s; socks := socks s;
     nextSock := nextSock s |}.

Definition set_lastServerRequestAt (v : option Z) (s : BridgeClient) : BridgeClient :=
  {| socket := socket s; lastConnectedAt := lastConnectedAt s;
     lastServerRequestAt := v; lastError := lastError s;
     connectTimer := connectTimer s; handshakeTimer := handshakeTimer s;
     handshakeOk := handshakeOk s; debugLog := debugLog s;
     connectionState := connectionState s; transport := transport s;
     registeredUrl := registeredUrl s; lastPersistAt := lastPersistAt s;
     autoEnabled := autoEnabled s; autoTimer := autoTimer s;
     autoBackoffMs := autoBackoffMs s;
     autoMaxBackoffMs := autoMaxBackoffMs s; autoOpts := autoOpts s;
     now := now s; hasSysWebSocket := hasSysWebSocket s;
     hasGlobalWebSocket := hasGlobalWebSocket s; config := config s;
     storage := storage s; storageWorks := storageWorks s;
     sysCallbacks := sysCallbacks s; socks := socks s;
     nextSock := nextSock s |}.

Definition set_lastError (v : option string) (s : BridgeClient) : BridgeClient :=
  {| socket := socket s; lastConnectedAt := lastConnectedAt s;
     lastServerRequestAt := lastServerRequestAt s; lastError := v;
     connectTimer := connectTimer s; handshakeTimer := handshakeTimer s;
     handshakeOk := handshakeOk s; debugLog := debugLog s;
     connectionState := connectionState s; transport := transport s;
     registeredUrl := registeredUrl s; lastPersistAt := lastPersistAt s;
     autoEnabled := autoEnabled s; autoTimer := autoTimer s;
     autoBackoffMs := autoBackoffMs s;
     autoMaxBackoffMs := autoMaxBackoffMs s; autoOpts := autoOpts s;
     now := now s; hasSysWebSocket := hasSysWebSocket s;
     hasGlobalWebSocket := hasGlobalWebSocket s; config := config s;
     storage := storage s; storageWorks := storageWorks s;
     sysCallbacks := sysCallbacks s; socks := socks s;
     nextSock := nextSock s |}.

Definition set_connectTimer (v : option ConnectTimer) (s : BridgeClient) : BridgeClient :=
  {| socket := socket s; lastConnectedAt := lastConnectedAt s;
     lastServerRequestAt := lastServerRequestAt s; lastError := lastError s;
     connectTimer := v; handshakeTimer := handshakeTimer s;
     handshakeOk := handshakeOk s; debugLog := debugLog s;
     connectionState := connectionState s; transport := transport s;
     registeredUrl := registeredUrl s; lastPersistAt := lastPersistAt s;
     autoEnabled := autoEnabled s; autoTimer := autoTimer s;
     autoBackoffMs := autoBackoffMs s;
     autoMaxBackoffMs := autoMaxBackoffMs s; autoOpts := autoOpts s;
     now := now s; hasSysWebSocket := hasSysWebSocket s;
     hasGlobalWebSocket := hasGlobalWebSocket s; config := config s;
     storage := storage s; storageWorks := storageWorks s;
     sysCallbacks := sysCallbacks s; socks := socks s;
     nextSock := nextSock s |}.

Definition set_handshakeTimer (v : option (Z * string)) (s : BridgeClient) : BridgeClient :=
  {| socket := socket s; lastConnectedAt := lastConnectedAt s;
     lastServerRequestAt := lastServerRequestAt s; lastError := lastError s;
     connectTimer := connectTimer s; handshakeTimer := v;
     handshakeOk := handshakeOk s; debugLog := debugLog s;
     connectionState := connectionState s; transport := transport s;
     registeredUrl := registeredUrl s; lastPersistAt := lastPersistAt s;
     autoEnabled := autoEnabled s; autoTimer := autoTimer s;
     autoBackoffMs := autoBackoffMs s;
     autoMaxBackoffMs := autoMaxBackoffMs s; autoOpts := autoOpts s;
     now := now s; hasSysWebSocket := hasSysWebSocket s;
     hasGlobalWebSocket := hasGlobalWebSocket s; config := config s;
     storage := storage s; storageWorks := storageWorks s;
     sysCallbacks := sysCallbacks s; socks := socks s;
     nextSock := nextSock s |}.

Definition set_handshakeOk (v : bool) (s : BridgeClient) : BridgeClient :=
  {| socket := socket s; lastConnectedAt := lastConnectedAt s;
     lastServerRequestAt := lastServerRequestAt s; lastError := lastError s;
     connectTimer := connectTimer s; handshakeTimer := handshakeTimer s;
     handshakeOk := v; debugLog := debugLog s;
     connectionState := connectionState s; transport := transport s;
     registeredUrl := registeredUrl s; lastPersistAt := lastPersistAt s;
     autoEnabled := autoEnabled s; autoTimer := autoTimer s;
     autoBackoffMs := autoBackoffMs s;
     autoMaxBackoffMs := autoMaxBackoffMs s; autoOpts := autoOpts s;
     now := now s; hasSysWebSocket := hasSysWebSocket s;
     hasGlobalWebSocket := hasGlobalWebSocket s; config := config s;
     storage := storage s; storageWorks := storageWorks s;
     sysCallbacks := sysCallbacks s; socks := socks s;
     nextSock := nextSock s |}.

Definition set_debugLog (v : list DebugLogEntry) (s : BridgeClient) : BridgeClient :=
  {| socket := socket s; lastConnectedAt := lastConnectedAt s;
     lastServerRequestAt := lastServerRequestAt s; lastError := lastError s;
     connectTimer := connectTimer s; handshakeTimer := handshakeTimer s;
     handshakeOk := handshakeOk s; debugLog := v;
     connectionState := connectionState s; transport := transport s;
     registeredUrl := registeredUrl s; lastPersistAt := lastPersistAt s;
     autoEnabled := autoEnabled s; autoTimer := autoTimer s;
     autoBackoffMs := autoBackoffMs s;
     autoMaxBackoffMs := autoMaxBackoffMs s; autoOpts := autoOpts s;
     now := now s; hasSysWebSocket := hasSysWebSocket s;
     hasGlobalWebSocket := hasGlobalWebSocket s; config := config s;
     storage := storage s; storageWorks := storageWorks s;
     sysCallbacks := sysCallbacks s; socks := socks s;
     nextSock := nextSock s |}.

Definition set_connectionState (v : ConnectionState) (s : BridgeClient) : BridgeClient :=
  {| socket := socket s; lastConnectedAt := lastConnectedAt s;
     lastServerRequestAt := lastServerRequestAt s; lastError := lastError s;
     connectTimer := connectTimer s; handshakeTimer := handshakeTimer s;
     handshakeOk := handshakeOk s; debugLog := debugLog s;
     connectionState := v; transport := transport s;
     registeredUrl := registeredUrl s; lastPersistAt := lastPersistAt s;
     autoEnabled := autoEnabled s; autoTimer := autoTimer s;
     autoBackoffMs := autoBackoffMs s;
     autoMaxBackoffMs := autoMaxBackoffMs s; autoOpts := autoOpts s;
     now := now s; hasSysWebSocket := hasSysWebSocket s;
     hasGlobalWebSocket := hasGlobalWebSocket s; config := config s;
     storage := storage s; storageWorks := storageWorks s;
     sysCallbacks := sysCallbacks s; socks := socks s;
     nextSock := nextSock s |}.

Definition set_transport (v : Transport) (s : BridgeClient) : BridgeClient :=
  {| socket := socket s; lastConnectedAt := lastConnectedAt s;
     lastServerRequestAt := lastServerRequestAt s; lastError := lastError s;
     connectTimer := connectTimer s; handshakeTimer := handshakeTimer s;
     handshakeOk := handshakeOk s; debugLog := debugLog s;
     connectionState := connectionState s; transport := v;
     registeredUrl := registeredUrl s; lastPersistAt := lastPersistAt s;
     autoEnabled := autoEnabled s; autoTimer := autoTimer s;
     autoBackoffMs := autoBackoffMs s;
     autoMaxBackoffMs := autoMaxBackoffMs s; autoOpts := autoOpts s;
     now := now s; hasSysWebSocket := hasSysWebSocket s;
     hasGlobalWebSocket := hasGlobalWebSocket s; config := config s;
     storage := storage s; storageWorks := storageWorks s;
     sysCallbacks := sysCallbacks s; socks := socks s;
     nextSock := nextSock s |}.

Definition set_registeredUrl (v : option string) (s : BridgeClient) : BridgeClient :=
  {| socket := socket s; lastConnectedAt := lastConnectedAt s;
     lastServerRequestAt := lastServerRequestAt s; lastError := lastError s;
     connectTimer := connectTimer s; handshakeTimer := handshakeTimer s;
     handshakeOk := handshakeOk s; debugLog := debugLog s;
     connectionState := connectionState s; transport := transport s;
     registeredUrl := v; lastPersistAt := lastPersistAt s;
     autoEnabled := autoEnabled s; autoTimer := autoTimer s;
     autoBackoffMs := autoBackoffMs s;
     autoMaxBackoffMs := autoMaxBackoffMs s; autoOpts := autoOpts s;
     now := now s; hasSysWebSocket := hasSysWebSocket s;
     hasGlobalWebSocket := hasGlobalWebSocket s; config := config s;
     storage := storage s; storageWorks := storageWorks s;
     sysCallbacks := sysCallbacks s; socks := socks s;
     nextSock := nextSock s |}.

Definition set_lastPersistAt (v : Z) (s : BridgeClient) : BridgeClient :=
  {| socket := socket s; lastConnectedAt := lastConnectedAt s;
     lastServerRequestAt := lastServerRequestAt s; lastError := lastError s;
     connectTimer := connectTimer s; handshakeTimer := handshakeTimer s;
     handshakeOk := handshakeOk s; debugLog := debugLog s;
     connectionState := connectionState s; transport := transport s;
     registeredUrl := registeredUrl s; lastPersistAt := v;
     autoEnabled := autoEnabled s; autoTimer := autoTimer s;
     autoBackoffMs := autoBackoffMs s;
     autoMaxBackoffMs := autoMaxBackoffMs s; autoOpts := autoOpts s;
     now := now s; hasSysWebSocket := hasSysWebSocket s;
     hasGlobalWebSocket := hasGlobalWebSocket s; config := config s;
     storage := storage s; storageWorks := storageWorks s;
     sysCallbacks := sysCallbacks s; socks := socks s;
     nextSock := nextSock s |}.

Definition set_autoEnabled (v : bool) (s : BridgeClient) : BridgeClient :=
  {| socket := socket s; lastConnectedAt := lastConnectedAt s;
     lastServerRequestAt := lastServerRequestAt s; lastError := lastError s;
     connectTimer := connectTimer s; handshakeTimer := handshakeTimer s;
     handshakeOk := handshakeOk s; debugLog := debugLog s;
     connectionState := connectionState s; transport := transport s;
     registeredUrl := registeredUrl s; lastPersistAt := lastPersistAt s;
     autoEnabled := v; autoTimer := autoTimer s;
     autoBackoffMs := autoBackoffMs s;
     autoMaxBackoffMs := autoMaxBackoffMs s; autoOpts := autoOpts s;
     now := now s; hasSysWebSocket := hasSysWebSocket s;
     hasGlobalWebSocket := hasGlobalWebSocket s; config := config s;
     storage := storage s; storageWorks := storageWorks s;
     sysCallbacks := sysCallbacks s; socks := socks s;
     nextSock := nextSock s |}.

Definition set_autoTimer (v : option Z) (s : BridgeClient) : BridgeClient :=
  {| socket := socket s; lastConnectedAt := lastConnectedAt s;
     lastServerRequestAt := lastServerRequestAt s; lastError := lastError s;
     connectTimer := connectTimer s; handshakeTimer := handshakeTimer s;
     handshakeOk := handshakeOk s; debugLog := debugLog s;
     connectionState := connectionState s; transport := transport s;
     registeredUrl := registeredUrl s; lastPersistAt := lastPersistAt s;
     autoEnabled := autoEnabled s; autoTimer := v;
     autoBackoffMs := autoBackoffMs s;
     autoMaxBackoffMs := autoMaxBackoffMs s; autoOpts := autoOpts s;
     now := now s; hasSysWebSocket := hasSysWebSocket s;
     hasGlobalWebSocket := hasGlobalWebSocket s; config := config s;
     storage := storage s; storageWorks := storageWorks s;
     sysCallbacks := sysCallbacks s; socks := socks s;
     nextSock := nextSock s |}.

Definition set_autoBackoffMs (v : Z) (s : BridgeClient) : BridgeClient :=
  {| socket := socket s; lastConnectedAt := lastConnectedAt s;
     lastServerRequestAt := lastServerRequestAt s; lastError := lastError s;
     connectTimer := connectTimer s; handshakeTimer := handshakeTimer s;
     handshakeOk := handshakeOk s; debugLog := debugLog s;
     connectionState := connectionState s; transport := transport s;
     registeredUrl := registeredUrl s; lastPersistAt := lastPersistAt s;
     autoEnabled := autoEnabled s; autoTimer := autoTimer s;
     autoBackoffMs := v; autoMaxBackoffMs := autoMaxBackoffMs s;
     autoOpts := autoOpts s; now := now s;
     hasSysWebSocket := hasSysWebSocket s;
     hasGlobalWebSocket := hasGlobalWebSocket s; config := config s;
     storage := storage s; storageWorks := storageWorks s;
     sysCallbacks := sysCallbacks s; socks := socks s;
     nextSock := nextSock s |}.

Definition set_autoOpts (v : bool) (s : BridgeClient) : BridgeClient :=
  {| socket := socket s; lastConnectedAt := lastConnectedAt s;
     lastServerRequestAt := lastServerRequestAt s; lastError := lastError s;
     connectTimer := connectTimer s; handshakeTimer := handshakeTimer s;
     handshakeOk := handshakeOk s; debugLog := debugLog s;
     connectionState := connectionState s; transport := transport s;
     registeredUrl := registeredUrl s; lastPersistAt := lastPersistAt s;
     autoEnabled := autoEnabled s; autoTimer := autoTimer s;
     autoBackoffMs := autoBackoffMs s;
     autoMaxBackoffMs := autoMaxBackoffMs s; autoOpts := v; now := now s;
     hasSysWebSocket := hasSysWebSocket s;
     hasGlobalWebSocket := hasGlobalWebSocket s; config := config s;
     storage := storage s; storageWorks := storageWorks s;
     sysCallbacks := sysCallbacks s; socks := socks s;
     nextSock := nextSock s |}.

Definition set_now (v : Z) (s : BridgeClient) : BridgeClient :=
  {| socket := socket s; lastConnectedAt := lastConnectedAt s;
     lastServerRequestAt := lastServerRequestAt s; lastError := lastError s;
     connectTimer := connectTimer s; handshakeTimer := handshakeTimer s;
     handshakeOk := handshakeOk s; debugLog := debugLog s;
     connectionState := connectionState s; transport := transport s;
     registeredUrl := registeredUrl s; lastPersistAt := lastPersistAt s;
     autoEnabled := autoEnabled s; autoTimer := autoTimer s;
     autoBackoffMs := autoBackoffMs s;
     autoMaxBackoffMs := autoMaxBackoffMs s; autoOpts := autoOpts s;
     now := v; hasSysWebSocket := hasSysWebSocket s;
     hasGlobalWebSocket := hasGlobalWebSocket s; config := config s;
     storage := storage s; storageWorks := storageWorks s;
     sysCallbacks := sysCallbacks s; socks := socks s;
     nextSock := nextSock s |}.

Definition set_config (v : BridgeConfig) (s : BridgeClient) : BridgeClient :=
  {| socket := socket s; lastConnectedAt := lastConnectedAt s;
     lastServerRequestAt := lastServerRequestAt s; lastError := lastError s;
     connectTimer := connectTimer s; handshakeTimer := handshakeTimer s;
     handshakeOk := handshakeOk s; debugLog := debugLog s;
     connectionState := connectionState s; transport := transport s;
     registeredUrl := registeredUrl s; lastPersistAt := lastPersistAt s;
     autoEnabled := autoEnabled s; autoTimer := autoTimer s;
     autoBackoffMs := autoBackoffMs s;
     autoMaxBackoffMs := autoMaxBackoffMs s; autoOpts := autoOpts s;
     now := now s; hasSysWebSocket := hasSysWebSocket s;
     hasGlobalWebSocket := hasGlobalWebSocket s; config := v;
     storage := storage s; storageWorks := storageWorks s;
     sysCallbacks := sysCallbacks s; socks := socks s;
     nextSock := nextSock s |}.

Definition set_storage (v : option RuntimeState) (s : BridgeClient) : BridgeClient :=
  {| socket := socket s; lastConnectedAt := lastConnectedAt s;
     lastServerRequestAt := lastServerRequestAt s; lastError := lastError s;
     connectTimer := connectTimer s; handshakeTimer := handshakeTimer s;
     handshakeOk := handshakeOk s; debugLog := debugLog s;
     connectionState := connectionState s; transport := transport s;
     registeredUrl := registeredUrl s; lastPersistAt := lastPersistAt s;
     autoEnabled := autoEnabled s; autoTimer := autoTimer s;
     autoBackoffMs := autoBackoffMs s;
     autoMaxBackoffMs := autoMaxBackoffMs s; autoOpts := autoOpts s;
     now := now s; hasSysWebSocket := hasSysWebSocket s;
     hasGlobalWebSocket := hasGlobalWebSocket s; config := config s;
     storage := v; storageWorks := storageWorks s;
     sysCallbacks := sysCallbacks s; socks := socks s;
     nextSock := nextSock s |}.

Definition set_sysCallbacks (v : option string) (s : BridgeClient) : BridgeClient :=
  {| socket := socket s; lastConnectedAt := lastConnectedAt s;
     lastServerRequestAt := lastServerRequestAt s; lastError := lastError s;
     connectTimer := connectTimer s; handshakeTimer := handshakeTimer s;
     handshakeOk := handshakeOk s; debugLog := debugLog s;
     connectionState := connectionState s; transport := transport s;
     registeredUrl := registeredUrl s; lastPersistAt := lastPersistAt s;
     autoEnabled := autoEnabled s; autoTimer := autoTimer s;
     autoBackoffMs := autoBackoffMs s;
     autoMaxBackoffMs := autoMaxBackoffMs s; autoOpts := autoOpts s;
     now := now s; hasSysWebSocket := hasSysWebSocket s;
     hasGlobalWebSocket := hasGlobalWebSocket s; config := config s;
     storage := storage s; storageWorks := storageWorks s; sysCallbacks := v;
     socks := socks s; nextSock := nextSock s |}.

Definition set_socks (v : gmap nat Sock) (s : BridgeClient) : BridgeClient :=
  {| socket := socket s; lastConnectedAt := lastConnectedAt s;
     lastServerRequestAt := lastServerRequestAt s; lastError := lastError s;
     connectTimer := connectTimer s; handshakeTimer := handshakeTimer s;
     handshakeOk := handshakeOk s; debugLog := debugLog s;
     connectionState := connectionState s; transport := transport s;
     registeredUrl := registeredUrl s; lastPersistAt := lastPersistAt s;
     autoEnabled := autoEnabled s; autoTimer := autoTimer s;
     autoBackoffMs := autoBackoffMs s;
     autoMaxBackoffMs := autoMaxBackoffMs s; autoOpts := autoOpts s;
     now := now s; hasSysWebSocket := hasSysWebSocket s;
     hasGlobalWebSocket := hasGlobalWebSocket s; config := config s;
     storage := storage s; storageWorks := storageWorks s;
     sysCallbacks := sysCallbacks s; socks := v; nextSock := nextSock s |}.

Definition set_nextSock (v : nat) (s : BridgeClient) : BridgeClient :=
  {| socket := socket s; lastConnectedAt := lastConnectedAt s;
     lastServerRequestAt := lastServerRequestAt s; lastError := lastError s;
     connectTimer := connectTimer s; handshakeTimer := handshakeTimer s;
     handshakeOk := handshakeOk s; debugLog := debugLog s;
     connectionState := connectionState s; transport := transport s;
     registeredUrl := registeredUrl s; lastPersistAt := lastPersistAt s;
     autoEnabled := autoEnabled s; autoTimer := autoTimer s;
     autoBackoffMs := autoBackoffMs s;
     autoMaxBackoffMs := autoMaxBackoffMs s; autoOpts := autoOpts s;
     now := now s; hasSysWebSocket := hasSysWebSocket s;
     hasGlobalWebSocket := hasGlobalWebSocket s; config := config s;
     storage := storage s; storageWorks := storageWorks s;
     sysCallbacks := sysCallbacks s; socks := socks s; nextSock := v |}.


Definition new_client (hasSys hasGlobal storageOk : bool) : BridgeClient :=
  {| socket := None; lastConnectedAt := None; lastServerRequestAt := None;
     lastError := None; connectTimer := None; handshakeTimer := None;
     handshakeOk := false; debugLog := []; connectionState := disconnected;
     transport := none; registeredUrl := None; lastPersistAt := 0;
     autoEnabled := false; autoTimer := None; autoBackoffMs := 1500;
     autoMaxBackoffMs := 30000; autoOpts := false;
     now := 0; hasSysWebSocket := hasSys; hasGlobalWebSocket := hasGlobal;
     config := {| serverUrl := DEFAULT_SERVER_URL; autoConnect := true |};
     storage := None; storageWorks := storageOk; sysCallbacks := None;
     socks := ∅; nextSock := 0 |}.

(** Statements of a method body, in the order they run. *)
Local Notation "s |> f" := (f s) (at level 50, left associativity, only parsing).

(** Truthiness of an optional number. *)
Definition truthyZ (v : option Z) : option Z :=
  match v with
  | Some t => if t =? 0 then None else Some t
  | None => None
  end.

(** *** Arithmetic of the reconnect delay *)

(** The double nearest to 1.6 is [DOUBLE_1_6 / 2^52]. *)
Definition DOUBLE_1_6 : Z := 7205759403792794.

(** [Math.floor(d * 1.6)] for an integer [0 <= d < 2^52], in IEEE double
    arithmetic: the exact product [d * DOUBLE_1_6 / 2^52] is rounded to 53
    significant bits, ties to even, before the floor is taken. *)
Definition floor_times_1_6 (d : Z) : Z :=
  let n := d * DOUBLE_1_6 in
  let shift := Z.max 0 (Z.log2 n + 1 - 53) in
  let q := Z.shiftr n shift in
  let r := Z.land n (Z.ones shift) in
  let half := Z.shiftl 1 (shift - 1) in
  let q' := if shift =? 0 then q
            else if (half <? r) || ((half =? r) && Z.odd q) then q + 1
            else q in
  Z.shiftr (Z.shiftl q' shift) 52.

(** [Math.min(Math.floor(backoff * 1.6), max)] *)
Definition nextBackoff (backoff max : Z) : Z := Z.min (floor_times_1_6 backoff) max.

(** [Math.round(age / 1000)] for [0 <= age] *)
Definition round_seconds (age : Z) : Z := (age + 500) / 1000.

(** *** Persistence of the runtime snapshot *)

Definition saveRuntimeState (rs : RuntimeState) (s : BridgeClient) : BridgeClient :=
  if storageWorks s then set_storage (Some rs) s else s.

Definition loadRuntimeState (s : BridgeClient) : option RuntimeState := storage s.

Definition persistRuntime (force : bool) (s : BridgeClient) : BridgeClient :=
  if negb force && (now s - lastPersistAt s <? 250) then s
  else
    let s1 := set_lastPersistAt (now s) s in
    saveRuntimeState
      {| updatedAt := now s1;
         rt_connectionState := connectionState s1;
         rt_transport := transport s1;
         rt_lastConnectedAt := lastConnectedAt s1;
         rt_lastServerRequestAt := lastServerRequestAt s1;
         rt_lastError := lastError s1;
         rt_debugLog := debugLog s1 |} s1.

Definition LOG_CAPACITY : nat := 200.

Definition pushLog (lv : Level) (msg : string) (s : BridgeClient) : BridgeClient :=
  let log := debugLog s ++ [{| ts := now s; level := lv; message := msg |}] in
  let log' := if Nat.ltb LOG_CAPACITY (List.length log)
              then skipn (List.length log - LOG_CAPACITY) log else log in
  persistRuntime false (set_debugLog log' s).

Definition setState (st : ConnectionState) (s : BridgeClient) : BridgeClient :=
  persistRuntime true (set_connectionState st s).

Definition inferredTransport (s : BridgeClient) : Transport :=
  if hasSysWebSocket s then sys_WebSocket
  else if hasGlobalWebSocket s then globalWebSocket
  else none.

Definition getStatusSnapshot (s : BridgeClient) : BridgeStatusSnapshot :=
  let isFreshInstance :=
    Nat.eqb (List.length (debugLog s)) 0
    && ConnectionState_eqb (connectionState s) disconnected
    && match lastConnectedAt s with None => true | Some _ => false end
    && match lastError s with None => true | Some _ => false end in
  match loadRuntimeState s, isFreshInstance with
  | Some runtime, true =>
      {| snap_connected := ConnectionState_eqb (rt_connectionState runtime) connected;
         snap_connectionState := rt_connectionState runtime;
         snap_transport := match rt_transport runtime with
                           | none => inferredTransport s
                           | t => t
                           end;
         snap_serverUrl := serverUrl (config s);
         snap_lastConnectedAt := rt_lastConnectedAt runtime;
         snap_lastServerRequestAt := rt_lastServerRequestAt runtime;
         snap_lastError := rt_lastError runtime;
         snap_stateSource := from_storage;
         snap_runtimeUpdatedAt := Some (updatedAt runtime) |}
  | _, _ =>
      {| snap_connected := ConnectionState_eqb (connectionState s) connected;
         snap_connectionState := connectionState s;
         snap_transport := match transport s with
                           | none => inferredTransport s
                           | t => t
                           end;
         snap_serverUrl := serverUrl (config s);
         snap_lastConnectedAt := lastConnectedAt s;
         snap_lastServerRequestAt := lastServerRequestAt s;
         snap_lastError := lastError s;
         snap_stateSource := memory;
         snap_runtimeUpdatedAt := None |}
  end.

Definition isConnected (s : BridgeClient) : bool :=
  ConnectionState_eqb (connectionState s) connected.

(** [isRpcRequest(msg)] *)
Definition isRpcRequest (msg : json) : bool :=
  match msg with
  | JObj f =>
      match jget "type" f, jget "id" f, jget "method" f with
      | Some (JStr t), Some (JStr _), Some (JStr _) => String.eqb t "request"
      | _, _, _ => false
      end
  | _ => false
  end.

(** *** Timers *)

Definition clearConnectTimer (s : BridgeClient) : BridgeClient := set_connectTimer None s.
Definition clearHandshakeTimer (s : BridgeClient) : BridgeClient := set_handshakeTimer None s.

Definition stopAutoConnect (s : BridgeClient) : BridgeClient :=
  s |> set_autoEnabled false |> set_autoOpts false |> set_autoTimer None.

Definition scheduleAuto (ms : Z) (s : BridgeClient) : BridgeClient :=
  if negb (autoEnabled s) then s else set_autoTimer (Some (now s + ms)) s.

Definition HANDSHAKE_MS : Z := 8000.
Definition CONNECT_TIMEOUT_MS : Z := 8000.
Definition STALE_MS : Z := 60000.

Definition startHandshakeWatchdog (url : string) (s : BridgeClient) : BridgeClient :=
  s |> clearHandshakeTimer |> set_handshakeTimer (Some (now s + HANDSHAKE_MS, url)).

Definition markServerTraffic (s : BridgeClient) : BridgeClient :=
  s |> set_lastServerRequestAt (Some (now s)) |> persistRuntime false.

(** *** Sockets of the host *)

(** [ws.close(code, reason)] on a browser socket *)
Definition sock_close (k : Sock) : Sock :=
  match ready k with
  | S_CONNECTING | S_OPEN =>
      {| ready := S_CLOSING; handlers := handlers k; sock_url := sock_url k |}
  | _ => k
  end.

Definition sock_detach (k : Sock) : Sock :=
  {| ready := ready k; handlers := false; sock_url := sock_url k |}.

Definition sock_ready (r : SockState) (k : Sock) : Sock :=
  {| ready := r; handlers := handlers k; sock_url := sock_url k |}.

Definition alter_sock (f : Sock -> Sock) (ws : nat) (s : BridgeClient) : BridgeClient :=
  set_socks (alter f ws (socks s)) s.

(** *** [disconnect(opts)] *)

(** [closeThrows] is the message of the exception [sys_WebSocket.close]
    throws, if it does. *)
Definition disconnect (preserveLastError : bool) (closeThrows : option string)
  (s : BridgeClient) : BridgeClient :=
  let ws := socket s in
  let s1 := s |> clearConnectTimer |> clearHandshakeTimer |> set_handshakeOk false
              |> pushLog info "disconnect() called" in
  match transport s1 with
  | sys_WebSocket =>
      let s2 := match closeThrows with
                | Some msg =>
                    s1 |> set_lastError (Some ("SYS_WebSocket.close failed: " +:+ msg))
                       |> pushLog error "SYS_WebSocket.close failed"
                | None => s1
                end in
      let s3 := setState disconnected s2 in
      let s4 := if negb preserveLastError then set_lastError None s3 else s3 in
      set_lastServerRequestAt None s4
  | _ =>
      let s2 := match ws with
                | Some w => s1 |> alter_sock sock_detach w |> alter_sock sock_close w
                | None => s1
                end in
      let s3 := set_socket None s2 in
      let s4 := if negb preserveLastError then set_lastError None s3 else s3 in
      s4 |> set_lastServerRequestAt None |> setState disconnected
  end.

(** *** [connect(opts)] *)

Definition anotherSandboxOwnsConnection (s : BridgeClient) : bool :=
  match loadRuntimeState s with
  | Some runtime =>
      let age := now s - updatedAt runtime in
      match rt_connectionState runtime with
      | disconnected => false
      | connecting => age <? 20000
      | connected =>
          match truthyZ (rt_lastServerRequestAt runtime) with
          | Some t => now s - t <? 30000
          | None => false
          end
      end
  | None => false
  end.

(** [hostThrows] is the message of the exception thrown by
    [sys_WebSocket.register] or by [new WebSocket], if it throws. *)
Definition connect (hostThrows : option string) (s : BridgeClient) : BridgeClient :=
  let url := serverUrl (config s) in
  let s0 := s |> set_handshakeOk false |> clearHandshakeTimer
              |> set_lastServerRequestAt None in
  if anotherSandboxOwnsConnection s0 then s0
  else
    let s1 := s0 |> pushLog info "connect() called" in
    let s2 := s1 |> set_transport (inferredTransport s1) |> persistRuntime true
                 |> set_lastError None in
    match transport s2 with
    | none =>
        s2 |> set_lastError (Some "No WebSocket API available in this EDA environment")
           |> pushLog error "No WebSocket API available in this EDA environment"
    | tr =>
        match connectionState s2 with
        | connected | connecting =>
            s2 |> pushLog warn "connect() ignored: already connected/connecting"
        | disconnected =>
            match tr with
            | sys_WebSocket =>
                let s3 := s2 |> set_registeredUrl (Some url) |> setState connecting
                             |> pushLog info "sys_WebSocket.register"
                             |> set_connectTimer
                                  (Some {| ct_due := now s2 + CONNECT_TIMEOUT_MS;
                                           ct_transport := sys_WebSocket;
                                           ct_url := url |}) in
                match hostThrows with
                | None => set_sysCallbacks (Some url) s3
                | Some msg =>
                    s3 |> clearConnectTimer |> setState disconnected
                       |> set_lastError (Some ("SYS_WebSocket.register failed: " +:+ msg))
                       |> pushLog error "SYS_WebSocket.register failed"
                end
            | _ =>
                let s3 := setState connecting s2 in
                match hostThrows with
                | Some msg =>
                    s3 |> setState disconnected
                       |> set_lastError
                            (Some ("WebSocket constructor failed (url " +:+ url
                                   +:+ "): " +:+ msg))
                       |> pushLog error "WebSocket constructor failed"
                | None =>
                    let ws := nextSock s3 in
                    s3 |> set_socks
                            (<[ws := {| ready := S_CONNECTING; handlers := true;
                                        sock_url := url |}]> (socks s3))
                       |> set_nextSock (S ws)
                       |> set_socket (Some ws)
                       |> pushLog debug "WebSocket created"
                       |> set_connectTimer
                            (Some {| ct_due := now s3 + CONNECT_TIMEOUT_MS;
                                     ct_transport := globalWebSocket;
                                     ct_url := url |})
                end
            end
        end
    end.

(** *** Callbacks installed by [connect] *)

(** The part shared by both message handlers, once [isRpcRequest(msg)] holds.
    The reply to the request is sent after the handler's promise settles and
    changes no field. *)
Definition onRequestSeen (s : BridgeClient) : BridgeClient :=
  let s1 := markServerTraffic s in
  if handshakeOk s1 then s1
  else s1 |> set_handshakeOk true |> clearHandshakeTimer
          |> pushLog info "handshake confirmed (first server request)"
          |> setState connected.

(** [data] is what [JSON.parse] returns on the frame, [None] when it throws. *)
Definition onMessage (parseFailed : string) (data : option json) (s : BridgeClient)
  : BridgeClient :=
  match data with
  | None => pushLog warn parseFailed s
  | Some msg => if isRpcRequest msg then onRequestSeen s else s
  end.

(** [onConnected] of the sys_WebSocket registration; [sendThrows] is the
    message of the exception the hello [send] throws, if it does. *)
Definition onConnected (url : string) (sendThrows : option string) (s : BridgeClient)
  : BridgeClient :=
  let s1 := s |> clearConnectTimer |> set_lastConnectedAt (Some (now s))
              |> pushLog info "sys_WebSocket connected" in
  let s2 := match sendThrows with
            | None => pushLog debug "hello sent" s1
            | Some msg =>
                s1 |> set_lastError (Some ("WebSocket send failed: " +:+ msg))
                   |> pushLog error "hello send failed"
            end in
  s2 |> startHandshakeWatchdog url |> persistRuntime true.

(** [ws.onopen]; an exception of the hello [send] ends the handler there. *)
Definition onopen (url : string) (sendThrows : option string) (s : BridgeClient)
  : BridgeClient :=
  let s1 := s |> clearConnectTimer |> set_lastConnectedAt (Some (now s))
              |> pushLog info "WebSocket onopen" in
  match sendThrows with
  | Some _ => s1
  | None =>
      s1 |> pushLog debug "hello sent" |> startHandshakeWatchdog url
         |> persistRuntime true
  end.

Definition onerror (url : string) (s : BridgeClient) : BridgeClient :=
  s |> clearConnectTimer |> clearHandshakeTimer |> set_handshakeOk false
    |> set_lastError (Some ("WebSocket error (url " +:+ url +:+ ")"))
    |> pushLog error "WebSocket onerror".

Definition onclose (code : Z) (reason : string) (s : BridgeClient) : BridgeClient :=
  s |> clearConnectTimer |> clearHandshakeTimer |> set_handshakeOk false
    |> set_lastError
         (Some ("Disconnected (code " +:+ pretty code
                +:+ (if Js.truthy reason then ": " +:+ reason else EmptyString) +:+ ")"))
    |> pushLog warn "WebSocket onclose"
    |> set_socket None
    |> setState disconnected.

Definition connectTimeoutMessage (url : string) : string :=
  "Connect timeout after " +:+ pretty CONNECT_TIMEOUT_MS +:+ "ms (url " +:+ url
  +:+ "). Is the MCP server running and reachable?".

(** The callback of the connect watchdog, in its two variants. *)
Definition onConnectTimeout (t : ConnectTimer) (s : BridgeClient) : BridgeClient :=
  match ct_transport t with
  | sys_WebSocket =>
      match connectionState s with
      | connecting =>
          s |> set_lastError (Some (connectTimeoutMessage (ct_url t)))
            |> pushLog error "connect timeout"
            |> setState disconnected
      | _ => s
      end
  | _ =>
      match socket s with
      | None => s
      | Some ws =>
          match socks s !! ws with
          | Some {| ready := S_CONNECTING |} =>
              s |> set_lastError (Some (connectTimeoutMessage (ct_url t)))
                |> pushLog error "connect timeout"
                |> alter_sock sock_close ws
                |> set_socket None
                |> setState disconnected
          | _ => s
          end
      end
  end.

Definition handshakeTimeoutMessage (url : string) : string :=
  "Handshake not confirmed (no server request received). Check server status/logs. ("
  +:+ url +:+ ")".

(** The callback of [#startHandshakeWatchdog]. *)
Definition onHandshakeTimeout (url : string) (closeThrows : option string)
  (s : BridgeClient) : BridgeClient :=
  if handshakeOk s then s
  else
    s |> set_lastError (Some (handshakeTimeoutMessage url))
      |> pushLog error "handshake timeout"
      |> disconnect true closeThrows.

(** *** The auto-reconnect supervisor *)

Definition startAutoConnect (s : BridgeClient) : BridgeClient :=
  s |> set_autoEnabled true |> set_autoOpts true |> set_autoBackoffMs 1500
    |> scheduleAuto 0.

Definition staleMessage (age : Z) : string :=
  "No server traffic for " +:+ pretty (round_seconds age) +:+ "s; reconnecting...".

(** The staleness check at the head of [#autoTick]. *)
Definition checkStale (closeThrows : option string) (s : BridgeClient) : BridgeClient :=
  match connectionState s, truthyZ (lastServerRequestAt s) with
  | connected, Some t =>
      let age := now s - t in
      if STALE_MS <? age then
        s |> set_lastError (Some (staleMessage age))
          |> pushLog warn "stale connection; reconnecting"
          |> disconnect false closeThrows
      else s
  | _, _ => s
  end.

(** [#autoTick()] *)
Definition autoTick (closeThrows hostThrows : option string) (s : BridgeClient)
  : BridgeClient :=
  if negb (autoEnabled s) then s
  else if negb (autoConnect (config s)) then stopAutoConnect s
  else
    let s1 := checkStale closeThrows s in
    match connectionState s1 with
    | connected => scheduleAuto 10000 s1
    | connecting => scheduleAuto 2000 s1
    | disconnected =>
        if negb (autoOpts s1) then scheduleAuto 10000 s1
        else
          let s2 := connect hostThrows s1 in
          let s3 := scheduleAuto (autoBackoffMs s2) s2 in
          set_autoBackoffMs (nextBackoff (autoBackoffMs s3) (autoMaxBackoffMs s3)) s3
    end.

Definition dispose (closeThrows : option string) (s : BridgeClient) : BridgeClient :=
  s |> stopAutoConnect |> disconnect false closeThrows.

(** *** Events *)

Inductive event : Type :=
| EvAdvance (dt : Z)                                   (* time passes *)
| EvSetConfig (cfg : BridgeConfig)                     (* the stored configuration changes *)
| EvStorageWrite (rs : option RuntimeState)            (* another sandbox writes the snapshot *)
| EvConnect (hostThrows : option string)
| EvDisconnect (preserveLastError : bool) (closeThrows : option string)
| EvStartAutoConnect
| EvStopAutoConnect
| EvDispose (closeThrows : option string)
| EvAutoTick (closeThrows hostThrows : option string)  (* the supervisor's timer fires *)
| EvConnectTimeout
| EvHandshakeTimeout (closeThrows : option string)
| EvSysConnected (sendThrows : option string)          (* sys_WebSocket reports the socket open *)
| EvSysMessage (data : option json)
| EvOpen (ws : nat) (sendThrows : option string)       (* the open event of a browser socket *)
| EvMessage (ws : nat) (data : option json)
| EvError (ws : nat)
| EvClose (ws : nat) (code : Z) (reason : string).

Definition step (s : BridgeClient) (ev : event) : BridgeClient :=
  match ev with
  | EvAdvance dt => if 0 <=? dt then set_now (now s + dt) s else s
  | EvSetConfig cfg => set_config cfg s
  | EvStorageWrite rs => set_storage rs s
  | EvConnect hostThrows => connect hostThrows s
  | EvDisconnect preserve closeThrows => disconnect preserve closeThrows s
  | EvStartAutoConnect => startAutoConnect s
  | EvStopAutoConnect => stopAutoConnect s
  | EvDispose closeThrows => dispose closeThrows s
  | EvAutoTick closeThrows hostThrows =>
      match autoTimer s with
      | Some due =>
          if due <=? now s then autoTick closeThrows hostThrows (set_autoTimer None s)
          else s
      | None => s
      end
  | EvConnectTimeout =>
      match connectTimer s with
      | Some t =>
          if ct_due t <=? now s then onConnectTimeout t (set_connectTimer None s)
          else s
      | None => s
      end
  | EvHandshakeTimeout closeThrows =>
      match handshakeTimer s with
      | Some (due, url) =>
          if due <=? now s
          then onHandshakeTimeout url closeThrows (set_handshakeTimer None s)
          else s
      | None => s
      end
  | EvSysConnected sendThrows =>
      match sysCallbacks s with
      | Some url => onConnected url sendThrows s
      | None => s
      end
  | EvSysMessage data =>
      match sysCallbacks s with
      | Some _ => onMessage "sys_WebSocket message: JSON parse failed" data s
      | None => s
      end
  | EvOpen ws sendThrows =>
      match socks s !! ws with
      | Some {| ready := S_CONNECTING; handlers := h; sock_url := url |} =>
          let s1 := alter_sock (sock_ready S_OPEN) ws s in
          if h then onopen url sendThrows s1 else s1
      | _ => s
      end
  | EvMessage ws data =>
      match socks s !! ws with
      | Some {| ready := S_OPEN; handlers := true |} =>
          onMessage "onmessage: JSON parse failed" data s
      | _ => s
      end
  | EvError ws =>
      match socks s !! ws with
      | Some {| ready := r; handlers := true; sock_url := url |} =>
          match r with S_CLOSED => s | _ => onerror url s end
      | _ => s
      end
  | EvClose ws code reason =>
      match socks s !! ws with
      | Some {| ready := r; handlers := h |} =>
          match r with
          | S_CLOSED => s
          | _ =>
              let s1 := alter_sock (sock_ready S_CLOSED) ws s in
              if h then onclose code reason s1 else s1
          end
      | None => s
      end
  end.

Definition run (s : BridgeClient) (trace : list event) : BridgeClient :=
  fold_left step trace s.

(** The events that call [connect]. *)
Definition calls_connect (ev : event) : bool :=
  match ev with
  | EvConnect _ | EvAutoTick _ _ => true
  | _ => false
  end.

(** The events that deliver a frame which decodes as an RPC request. *)
Definition delivers_request (ev : event) : bool :=
  match ev with
  | EvSysMessage (Some msg) | EvMessage _ (Some msg) => isRpcRequest msg
  | _ => false
  end.

(** The events by which a socket reports that it is open. *)
Definition reports_open (ev : event) : bool :=
  match ev with
  | EvSysConnected _ | EvOpen _ _ => true
  | _ => false
  end.

(** The delay the supervisor's timer is armed with. *)
Definition scheduledDelay (s : BridgeClient) : option Z :=
  match autoTimer s with
  | Some due => Some (due - now s)
  | None => None
  end.

(** [k] ticks of the supervisor in a row, each finding the client
    disconnected and each attempt failing at once (the host refuses the
    socket); the list of the delays the ticks arm the timer with. *)
Fixpoint failedAttempts (k : nat) (s : BridgeClient) : list Z :=
  match k with
  | O => []
  | S k' =>
      let s1 := step s (EvAutoTick None (Some "refused")) in
      match scheduledDelay s1 with
      | Some d => d :: failedAttempts k' (step s1 (EvAdvance d))
      | None => []
      end
  end.

Definition requestFrame : json :=
  JObj [("type", JStr "request"); ("id", JStr "1"); ("method", JStr "ping")].

(** *** The frames the client writes *)

(** The hello of [onConnected] and [onopen] as the server's [JSON.parse]
    returns it; [name] and [version] come from extension.json, [edaVersion]
    is [undefined] when [getEditorCurrentVersion] throws. *)
Definition helloJson (name version : string) (edaVersion : option string) : json :=
  JObj [("type", JStr "hello");
        ("app",
         JObj ([("name", JStr name); ("version", JStr version)]
               ++ match edaVersion with
                  | Some v => [("edaVersion", JStr v)]
                  | None => []
                  end))].

(** How [opts.onRequest(msg.method, msg.params)] ended: with a result, or
    with a thrown value [err], of which the handler reads [err?.code],
    [err?.message], [err?.data] and [String(err)]. *)
Inductive Handled : Type :=
| Returned (result : option json)
| Threw (code message data : option json) (rendering : string).

(** The response written for the request [id], as the server's
    [JSON.parse] returns it. *)
Definition responseJson (id : string) (h : Handled) : json :=
  match h with
  | Returned result =>
      JObj ([("type", JStr "response"); ("id", JStr id)]
            ++ match result with Some v => [("result", v)] | None => [] end)
  | Threw code message data rendering =>
      JObj [("type", JStr "response"); ("id", JStr id);
            ("error",
             JObj ([("code", JStr match code with
                                  | Some (JStr c) => c
                                  | _ => "INTERNAL_ERROR"
                                  end);
                    ("message", JStr match message with
                                     | Some (JStr m) => m
                                     | _ => rendering
                                     end)]
                   ++ match data with Some d => [("data", d)] | None => [] end))]
  end.

End Client.

(* ===================================================================== *)
(** ** config.ts: the stored bridge configuration *)
(* ===================================================================== *)

Module Config.
Import Js JlcJson.

(** What a call into the host does: it returns a value or it throws. *)
Inductive host (A : Type) : Type :=
| Returns (a : A)
| Throws.
Arguments Returns {A} a.
Arguments Throws {A}.

(** The result of [loadBridgeConfig()].  [serverUrl] is a string on every
    path but the localStorage fallback, which passes on whatever truthy value
    the stored JSON holds. *)
Record LoadedConfig : Type := {
  serverUrl : json;
  autoConnect : bool
}.

Definition DEFAULT_SERVER_URL : string := "ws://127.0.0.1:9050".

Definition defaults : LoadedConfig :=
  {| serverUrl := JStr DEFAULT_SERVER_URL; autoConnect := true |}.

(** Truthiness of a value; [None] is [undefined].  The only falsy number
    [JSON.parse] returns is zero. *)
Definition jtruthy (v : option json) : bool :=
  match v with
  | None | Some JNull => false
  | Some (JBool b) => b
  | Some (JNum (Finite r)) => negb (String.eqb r "0")
  | Some (JNum Infinite) => true
  | Some (JStr s) => truthy s
  | Some (JArr _) | Some (JObj _) => true
  end.

(** [v?.key] for a key that no prototype defines *)
Definition prop (key : string) (v : json) : option json :=
  match v with
  | JObj f => jget key f
  | _ => None
  end.

(** [typeof raw?.autoConnect === 'boolean' ? raw.autoConnect : true] *)
Definition autoConnectOf (raw : json) : bool :=
  match prop "autoConnect" raw with
  | Some (JBool b) => b
  | _ => true
  end.

(** The first [try] block, once [raw] is truthy. *)
Definition fromStorage (raw : json) : LoadedConfig :=
  {| serverUrl :=
       match prop "serverUrl" raw with
       | Some (JStr u) =>
           if truthy (trim u) then JStr (trim u) else JStr DEFAULT_SERVER_URL
       | _ => JStr DEFAULT_SERVER_URL
       end;
     autoConnect := autoConnectOf raw |}.

(** The inner [try] block, once [raw] is truthy; reading a property of
    [null] throws, which the [catch] turns into the defaults. *)
Definition fromLocalStorage (JSON_parse : string -> option json) (raw : string)
  : LoadedConfig :=
  match JSON_parse raw with
  | None | Some JNull => defaults
  | Some parsed =>
      {| serverUrl :=
           match prop "serverUrl" parsed with
           | Some u => if jtruthy (Some u) then u else JStr DEFAULT_SERVER_URL
           | None => JStr DEFAULT_SERVER_URL
           end;
         autoConnect := autoConnectOf parsed |}
  end.

(** [loadBridgeConfig()]: [stored] is what
    [eda.sys_Storage.getExtensionUserConfig(STORAGE_KEY)] does, [item] what
    [globalThis.localStorage?.getItem?.(STORAGE_KEY)] does. *)
Definition loadBridgeConfig (JSON_parse : string -> option json)
  (stored : host (option json)) (item : host (option string)) : LoadedConfig :=
  match stored with
  | Returns raw =>
      match raw with
      | Some v => if jtruthy raw then fromStorage v else defaults
      | None => defaults
      end
  | Throws =>
      match item with
      | Returns (Some raw) =>
          if truthy raw then fromLocalStorage JSON_parse raw else defaults
      | Returns None => defaults
      | Throws => defaults
      end
  end.

End Config.


(* ===================================================================== *)
(** * Properties *)
(* ===================================================================== *)

(** ** The predicates the properties are stated with *)

Module NetlistSpec.
Import Js Netlist JlcJson.

Section Host.
Context `{CM : CaseMapping}.

(** The de-duplication key of the specification: the uppercased pair. *)
Definition upperPair (ep : NetlistEndpoint) : string * string :=
  (toUpperCase (ref ep), toUpperCase (pin ep)).

(** The invariant of a net map: no net lists an endpoint twice, no two net
    names differ only by case, and every name is its own uppercase form. *)
Definition nets_invariant (m : gmap string (list NetlistEndpoint)) : Prop :=
  (forall k eps, m !! k = Some eps -> NoDup (map upperPair eps))
  /\ (forall k1 k2, is_Some (m !! k1) -> is_Some (m !! k2) ->
        toUpperCase k1 = toUpperCase k2 -> k1 = k2)
  /\ (forall k, is_Some (m !! k) -> toUpperCase k = k).

(** An endpoint whose fields are already uppercase. *)
Definition ep_norm (ep : NetlistEndpoint) : Prop :=
  toUpperCase (ref ep) = ref ep /\ toUpperCase (pin ep) = pin ep.

(** An endpoint map whose keys are distinct and are the keys of the
    normalised endpoints stored under them. *)
Definition good_entry (e : NetEntry) : Prop :=
  NoDup (JsMap.keys (endpoints e))
  /\ Forall (fun kv => fst kv = epKey (snd kv) /\ ep_norm (snd kv)) (endpoints e).

Definition good_nets (m : list (string * NetEntry)) : Prop :=
  Forall (fun kv => good_entry (snd kv)) m.

(** A component record with a single pin entry whose [net] field is the
    string [net]. *)
Definition single_pin_component (comp : list (string * json)) (pinId : string)
  (pinObj : list (string * json)) (net : string) : Prop :=
  jget "pinInfoMap" comp = Some (JObj [(pinId, JObj pinObj)])
  /\ jget "net" pinObj = Some (JStr net).

(** The endpoint such a component contributes. *)
Definition endpoint_of (compId : string) (comp : list (string * json))
  (pinId : string) (pinObj : list (string * json)) : NetlistEndpoint :=
  Endpoint (refOf compId (default [] (asRecord (jget "props" comp))))
           (pinOf pinId pinObj).

(** Two components that both name [R1] pin [1] on net [VCC]. *)
Definition twin_root : json :=
  JObj [("components",
         JObj [("c1", onePinComponent (Some "R1") "p1" (Some (JStr "1")) (Some (JStr "VCC")));
               ("c2", onePinComponent (Some "R1") "p1" (Some (JStr "1")) (Some (JStr "VCC")))])].

(** A net declared in mixed case. *)
Definition mixed_case_text : string := nl "*NET* Gnd" "R1 1".

(** The keys of [netsByKey] are distinct and each entry sits under the
    normalised form of the name it stores. *)
Definition keyed (m : list (string * NetEntry)) : Prop :=
  NoDup (JsMap.keys m)
  /\ Forall (fun kv => fst kv = normalizeNetName (name (snd kv))) m.

(** Every net of [netsByKey] has an endpoint. *)
Definition populated (m : list (string * NetEntry)) : Prop :=
  Forall (fun kv => endpoints (snd kv) <> []) m.

(** Whether a trimmed line opens a net block, in the dialect chosen by the
    format guess. *)
Definition starts_net (isKiCadSexpr : bool) (line : string) : bool :=
  if isKiCadSexpr then
    match currentNetSet (parseKiCadSexprNetStart line) with
    | Some _ => true
    | None => false
    end
  else
    match Regex.exec (rx_net_marker "*NET*") line,
          Regex.exec (rx_net_marker "$NET") line,
          Regex.exec rx_plain_net line with
    | None, None, None => false
    | _, _, _ => true
    end.

(** Pins listed without a net block. *)
Definition orphan_pins_text : string := nl "R1 2" "C1 1".

End Host.

End NetlistSpec.

Module ServerSpec.
Import JlcJson Server.

(** The entry [call] stores for its promise number [c]. *)
Definition entry_of (c : nat) : PendingCall := {| promise_of := c; timeout_of := c |}.

(** The events that may complete call number [c] in state [s]: a response
    with the id of that call, the call's own timeout, the failure of its
    send, the close event of any socket the server has accepted and that has
    not yet closed (the one the call was written to or another), and
    [close()]. *)
Definition may_complete (s : WsBridge) (c : nat) (ev : event) : Prop :=
  match ev with
  | EvMessage _ (Some j) =>
      exists msg info, parseResponse j = Some msg /\ issued s !! c = Some info
                       /\ resp_id msg = call_id info
  | EvCallTimeout c' => c' = c
  | EvSendDone c' (Some _) => c' = c
  | EvSocketClose ws => exists cn, conns s !! ws = Some cn /\ readyState cn <> CLOSED
  | EvBridgeClose => True
  | _ => False
  end.

(** A handler leaves a promise alone, or settles a pending one; in that
    case the event is one of those that may complete the call. *)
Definition promise_step (s s' : WsBridge) (c : nat) (ev : event) : Prop :=
  promises s' !! c = promises s !! c
  \/ (promises s !! c = Some Pending
      /\ (exists o, promises s' !! c = Some (Settled o))
      /\ may_complete s c ev).

(** The pending map, the promises and the issued calls fit together: an
    entry belongs to an issued call, which is pending if its request was
    written; a call whose request could not be rendered was rejected when it
    was made. *)
Record core (s : WsBridge) : Prop := Core {
  k_fresh : forall c, is_Some (promises s !! c) -> c < nextCall s;
  k_issued : forall c, is_Some (issued s !! c) -> is_Some (promises s !! c);
  k_pending : forall id pc, pending s !! id = Some pc ->
      pc = entry_of (promise_of pc)
      /\ exists info, issued s !! promise_of pc = Some info /\ call_id info = id
                      /\ (call_written info = true ->
                          promises s !! promise_of pc = Some Pending);
  k_thrown : forall c info, issued s !! c = Some info -> call_written info = false ->
      exists o, promises s !! c = Some (Settled o)
}.

(** What every reachable state satisfies: it is coherent and no [finally]
    callback is left to run. *)
Definition consistent (s : WsBridge) : Prop := core s /\ runFinally s = s.

(** What holds in addition when the ids drawn so far, [used], are distinct:
    the calls still pending are exactly the entries of the pending map. *)
Record ids_distinct (used : list string) (s : WsBridge) : Prop := IdsDistinct {
  d_used : forall c info, issued s !! c = Some info -> call_id info ∈ used;
  d_inj : forall c1 c2 i1 i2, issued s !! c1 = Some i1 -> issued s !! c2 = Some i2 ->
      call_id i1 = call_id i2 -> c1 = c2;
  d_pending : forall c info, issued s !! c = Some info ->
      promises s !! c = Some Pending -> pending s !! call_id info = Some (entry_of c)
}.

(** At most one connection is live, and it is the one in [#socket]. *)
Definition single_live (s : WsBridge) : Prop :=
  forall ws, live s ws -> socket s = Some ws.

(** The effect of the loop that rejects the entries [m] of the pending map,
    from state [s0] to state [r]. *)
Record rejected_from (message : string) (remove : bool) (s0 : WsBridge)
  (r : WsBridge) (m : gmap string PendingCall) : Prop := RejectedFrom {
  rj_socket : socket r = socket s0;
  rj_hello : clientHello r = clientHello s0;
  rj_conns : conns r = conns s0;
  rj_issued : issued r = issued s0;
  rj_next : nextCall r = nextCall s0;
  rj_keepAliveCalls : keepAliveCalls r = keepAliveCalls s0;
  rj_sendCallbacks : sendCallbacks r = sendCallbacks s0;
  rj_pending : forall i,
      pending r !! i =
      if remove then match m !! i with Some _ => None | None => pending s0 !! i end
      else pending s0 !! i;
  rj_timers : forall c d, timers r !! c = Some d -> timers s0 !! c = Some d;
  rj_promises : forall c,
      (promises r !! c = promises s0 !! c
       /\ forall i pc, m !! i = Some pc -> promise_of pc = c ->
                       promises s0 !! c <> Some Pending)
      \/ (promises s0 !! c = Some Pending
          /\ promises r !! c = Some (Settled (plainError message))
          /\ exists i pc, m !! i = Some pc /\ promise_of pc = c)
}.

(** A trace on which a second peer replaces the first while a call is
    outstanding. *)
Definition replace_trace : list event :=
  [EvConnection 1 None; EvMessage 1 (Some helloFrame);
   EvCall "a" "getStatus" (Plain None) 30000;
   EvConnection 2 None; EvMessage 2 (Some helloFrame)].

(** The same up to the hello of the second peer. *)
Definition before_second_hello : list event :=
  [EvConnection 1 None; EvMessage 1 (Some helloFrame);
   EvCall "a" "getStatus" (Plain None) 30000; EvConnection 2 None].

(** The replacement, then a call made to the second peer. *)
Definition replaced_then_call : list event :=
  replace_trace ++ [EvCall "b" "ping" (Plain None) 30000].

(** A frame that is not JSON, followed by a hello. *)
Definition garbage_then_hello : list event :=
  [EvConnection 1 None; EvMessage 1 None; EvMessage 1 (Some helloFrame)].

(** Whether [call] finds a peer to write to: [#socket] is set and open. *)
Definition call_ready (s : WsBridge) : bool :=
  match socket s with
  | Some ws => conn_open ws s
  | None => false
  end.

(** The outcome [#handleResponse] gives the call a response belongs to. *)
Definition outcome_of (msg : ResponseMessage) : outcome :=
  match resp_error msg with
  | Some e => Rejected (err_message e) (Some (err_code e)) (err_data e)
  | None => Resolved (resp_result msg)
  end.

(** The fields that describe the peer are set together with [#socket] and
    unset together with it. *)
Definition peer_coherent (s : WsBridge) : Prop :=
  match socket s with
  | Some ws =>
      exists cn hello t,
        conns s !! ws = Some cn /\ handshaked cn = true
        /\ clientHello s = Some hello /\ connectedAt s = Some t /\ (t <= now s)%Z
        /\ remoteAddress s = peerAddress cn /\ keepAliveTimer s = true
  | None =>
      clientHello s = None /\ connectedAt s = None /\ remoteAddress s = None
      /\ keepAliveTimer s = false
  end.

(** A pending call has its timeout armed, and a timeout is armed only for a
    call that is pending or whose request could not be rendered. *)
Record timers_coherent (s : WsBridge) : Prop := TimersCoherent {
  tc_pending : forall c, promises s !! c = Some Pending -> is_Some (timers s !! c);
  tc_armed : forall c, is_Some (timers s !! c) ->
      exists info, issued s !! c = Some info
                   /\ (promises s !! c = Some Pending \/ call_written info = false)
}.

(** No ping whose promise has settled is still waiting for its [finally]. *)
Definition finally_done (s : WsBridge) : Prop :=
  forall c, c ∈ keepAliveCalls s -> is_settled (promises s) c = false.

(** From the socket map [m] to [m']: every socket is still there, with its
    peer address, and still handshaked if it was. *)
Definition conns_kept (m m' : gmap nat Conn) : Prop :=
  forall ws cn, m !! ws = Some cn ->
    exists cn', m' !! ws = Some cn'
                /\ (handshaked cn = true -> handshaked cn' = true)
                /\ peerAddress cn' = peerAddress cn.

(** A peer has said hello and one call is outstanding. *)
Definition one_call_trace : list event :=
  [EvConnection 1 None; EvMessage 1 (Some helloFrame);
   EvCall "a" "getStatus" (Plain None) 30000].

(** The same when the time of the call is up. *)
Definition call_due_trace : list event := one_call_trace ++ [EvAdvance 30000].

(** A peer has said hello. *)
Definition hello_trace : list event :=
  [EvConnection 1 (Some "127.0.0.1"); EvMessage 1 (Some helloFrame)].

End ServerSpec.

Module ClientSpec.
Import JlcJson Client.

Local Open Scope Z_scope.

(** What an event can do to the connection state: leave it, make it
    disconnected or connecting, or, when the event delivers a request while
    the handshake is not yet confirmed, make it connected. *)
Definition state_step (s s' : BridgeClient) (ev : event) : Prop :=
  connectionState s' = connectionState s
  \/ connectionState s' = disconnected
  \/ connectionState s' = connecting
  \/ (connectionState s' = connected /\ delivers_request ev = true
      /\ handshakeOk s = false).

(** Before the first [connect] no callback is registered and no socket
    exists. *)
Definition never_connected (s : BridgeClient) : Prop :=
  sysCallbacks s = None /\ socks s = ∅.

(** The delay in force after [k] attempts. *)
Definition backoffAt (k : nat) : Z := Nat.iter k (fun d => nextBackoff d 30000) 1500.

(** A client on the sys_WebSocket transport that confirmed the handshake at
    time 1000 and has seen no traffic for 70 s. *)
Definition stale_trace : list event :=
  [EvAdvance 1000; EvStartAutoConnect; EvAutoTick None None; EvSysConnected None;
   EvSysMessage (Some requestFrame); EvAdvance 70000].

Definition stale_client : BridgeClient := run (new_client true false true) stale_trace.

(** A client that has called [connect] on the sys_WebSocket transport. *)
Definition connecting_client : BridgeClient :=
  run (new_client true false true) [EvConnect None].

(** The same after the socket has reported that it is open. *)
Definition opened_client : BridgeClient :=
  run (new_client true false true) [EvConnect None; EvSysConnected None].

(** A client on the sys_WebSocket transport that has confirmed the handshake
    and was then disconnected by its user: one call of [connect], one
    request received. *)
Definition confirmed_then_disconnected : list event :=
  [EvConnect None; EvSysConnected None; EvSysMessage (Some requestFrame);
   EvDisconnect false None].

(** A client whose supervisor timer has just fired for the first time. *)
Definition first_tick_client : BridgeClient :=
  set_autoTimer None (step (new_client true true true) EvStartAutoConnect).

(** A client whose socket is open and whose hello has been sent, 8 s later. *)
Definition unconfirmed_client : BridgeClient :=
  run (new_client true false true)
    [EvAdvance 1000; EvConnect None; EvSysConnected None; EvAdvance 8000].

(** A reading [f] of the client that none of the fields written by the
    connection handlers can change: it depends on the supervisor's fields,
    the clock and the configuration only. *)
Record framed {A : Type} (f : BridgeClient -> A) : Prop := Framed {
  fr_socket : forall v s, f (set_socket v s) = f s;
  fr_lastConnectedAt : forall v s, f (set_lastConnectedAt v s) = f s;
  fr_lastServerRequestAt : forall v s, f (set_lastServerRequestAt v s) = f s;
  fr_lastError : forall v s, f (set_lastError v s) = f s;
  fr_connectTimer : forall v s, f (set_connectTimer v s) = f s;
  fr_handshakeTimer : forall v s, f (set_handshakeTimer v s) = f s;
  fr_handshakeOk : forall v s, f (set_handshakeOk v s) = f s;
  fr_debugLog : forall v s, f (set_debugLog v s) = f s;
  fr_connectionState : forall v s, f (set_connectionState v s) = f s;
  fr_transport : forall v s, f (set_transport v s) = f s;
  fr_registeredUrl : forall v s, f (set_registeredUrl v s) = f s;
  fr_lastPersistAt : forall v s, f (set_lastPersistAt v s) = f s;
  fr_storage : forall v s, f (set_storage v s) = f s;
  fr_sysCallbacks : forall v s, f (set_sysCallbacks v s) = f s;
  fr_socks : forall v s, f (set_socks v s) = f s;
  fr_nextSock : forall v s, f (set_nextSock v s) = f s
}.

(** What the supervisor keeps: no timer is armed while it is disabled, and
    the reconnect delay stays between its base and its cap. *)
Record supervised (s : BridgeClient) : Prop := Supervised {
  sv_timer : autoEnabled s = false -> autoTimer s = None;
  sv_backoff : 1500 <= autoBackoffMs s <= 30000;
  sv_max : autoMaxBackoffMs s = 30000
}.

(** Whether the double-precision floor agrees with the exact one on the [n]
    delays from [d] upwards. *)
Fixpoint exact_from (n : nat) (d : Z) : bool :=
  match n with
  | O => true
  | S n' => (floor_times_1_6 d =? d * 8 / 5) && exact_from n' (d + 1)
  end.

(** The events that start the supervisor. *)
Definition starts_auto (ev : event) : bool :=
  match ev with
  | EvStartAutoConnect => true
  | _ => false
  end.

(** The events a timer of the client delivers. *)
Definition is_timer (ev : event) : bool :=
  match ev with
  | EvAutoTick _ _ | EvConnectTimeout | EvHandshakeTimeout _ => true
  | _ => false
  end.

(** The events a browser socket delivers to the handlers attached to it. *)
Definition socket_event (ws : nat) (ev : event) : bool :=
  match ev with
  | EvOpen w _ | EvMessage w _ | EvError w => Nat.eqb w ws
  | _ => false
  end.

(** A client on the browser transport after its socket has opened. *)
Definition browser_client : BridgeClient :=
  run (new_client false true true) [EvConnect None; EvOpen 0 None].

(** A client of the supervisor that has been stopped by the configuration. *)
Definition auto_off_client : BridgeClient :=
  run (new_client true false true)
    [EvStartAutoConnect;
     EvSetConfig {| serverUrl := DEFAULT_SERVER_URL; autoConnect := false |}].

(** A browser client whose first attempt timed out and which has started a
    second one; the socket of the first attempt has not yet reported its
    close. *)
Definition second_attempt_client : BridgeClient :=
  run (new_client false true true)
    [EvConnect None; EvAdvance 8000; EvConnectTimeout; EvConnect None].

(** A snapshot another sandbox may have left in the storage. *)
Definition stored_runtime : RuntimeState :=
  {| updatedAt := 5; rt_connectionState := connected; rt_transport := sys_WebSocket;
     rt_lastConnectedAt := Some 1; rt_lastServerRequestAt := Some 2;
     rt_lastError := None; rt_debugLog := [] |}.

(** A new instance that finds that snapshot. *)
Definition fresh_client : BridgeClient :=
  step (new_client true false true) (EvStorageWrite (Some stored_runtime)).

End ClientSpec.

Module ProtocolSpec.
Import JlcJson.

(** How the promise of a call ends when the client's handler ended as [h]:
    with the result, or with the message, code and data of the thrown value
    ([INTERNAL_ERROR] and [String(err)] where the value has no string [code]
    or [message]). *)
Definition outcome_for (h : Client.Handled) : Server.outcome :=
  match h with
  | Client.Returned result => Server.Resolved result
  | Client.Threw code message data rendering =>
      Server.Rejected
        match message with Some (JStr m) => m | _ => rendering end
        (Some match code with Some (JStr c) => c | _ => "INTERNAL_ERROR" end)
        data
  end.

(** The hello as the server stores it. *)
Definition hello_of (name version : string) (edaVersion : option string)
  : Server.HelloMessage :=
  {| Server.hello_token := None;
     Server.hello_app :=
       Some {| Server.app_name := Some name; Server.app_version := Some version;
               Server.app_edaVersion := edaVersion |} |}.

End ProtocolSpec.

Module ConfigSpec.
Import JlcJson Config.

(** The stored value switches [autoConnect] off: it is an object whose
    [autoConnect] is the boolean [false]. *)
Definition says_no (v : json) : Prop := prop "autoConnect" v = Some (JBool false).

(** The source [loadBridgeConfig] ends up reading switches [autoConnect]
    off. *)
Definition source_says_no (JSON_parse : string -> option json)
  (stored : host (option json)) (item : host (option string)) : Prop :=
  match stored with
  | Returns (Some raw) => jtruthy (Some raw) = true /\ says_no raw
  | Returns None => False
  | Throws =>
      match item with
      | Returns (Some text) =>
          Js.truthy text = true
          /\ exists parsed, JSON_parse text = Some parsed /\ says_no parsed
      | _ => False
      end
  end.

(** A stored configuration with blanks around the URL. *)
Definition padded_config : json :=
  JObj [("serverUrl", JStr " ws://10.0.0.2:9050 "); ("autoConnect", JBool false)].

End ConfigSpec.
(** ** The netlist parsers *)

Module NetlistFacts.
Import Js Regex Netlist JlcJson NetlistSpec.

(** The text of the worked example, character by character. *)
Lemma sample_text_spelled :
  chars sample_text
  = chars "*NET* GND" ++ [LF] ++ chars "R1 2" ++ [LF] ++ chars "C1 1" ++ [LF]
    ++ chars "*NET* VCC" ++ [LF] ++ chars "U1 1" ++ [LF].
Proof. reflexivity. Qed.

(** C8. On the five-line sample the text parser returns the net map with
    GND -> R1.2, C1.1 and VCC -> U1.1, and no warnings. *)
Theorem C8_text_parser_sample :
  nets (parseNetlist sample_text)
  = <[ "GND" := [Endpoint "R1" "2"; Endpoint "C1" "1"] ]>
      (<[ "VCC" := [Endpoint "U1" "1"] ]> ∅)
  /\ warnings (parseNetlist sample_text) = []
  /\ ok (parseNetlist sample_text) = true.
Proof. vm_compute. repeat split; reflexivity. Qed.

(** *** The case mapping of ASCII text *)

Lemma upcase_idem c : upcase (upcase c) = upcase c.
Proof. destruct c as [[] [] [] [] [] [] [] []]; reflexivity. Qed.

Lemma asciiUpperCase_idem s : asciiUpperCase (asciiUpperCase s) = asciiUpperCase s.
Proof. induction s as [|c s IH]; simpl; [reflexivity|]. by rewrite upcase_idem, IH. Qed.

(** *** The JS map *)

Section JsMapFacts.
Context {V : Type}.
Implicit Types (m : list (string * V)) (k : string) (v : V).

Lemma get_Some_elem k v m : JsMap.get k m = Some v -> (k, v) ∈ m.
Proof.
  induction m as [|[k' v'] m IH]; simpl; [discriminate|].
  destruct (String.eqb_spec k k') as [->|Hne].
  - intros [= ->]. left.
  - intros H. right. auto.
Qed.

Lemma get_None_keys k m : JsMap.get k m = None -> k ∉ JsMap.keys m.
Proof.
  induction m as [|[k' v'] m IH]; simpl.
  - intros _ H. inversion H.
  - destruct (String.eqb_spec k k') as [->|Hne]; [discriminate|].
    intros H Hin. apply elem_of_cons in Hin as [?|?]; [done|]. by apply IH.
Qed.

Lemma set_keys_elem k v m k0 :
  k0 ∈ JsMap.keys (JsMap.set k v m) <-> k0 = k \/ k0 ∈ JsMap.keys m.
Proof.
  induction m as [|[k' v'] m IH]; simpl.
  - rewrite list_elem_of_singleton. split; [auto|].
    intros [?|H]; [done|inversion H].
  - destruct (String.eqb_spec k k') as [->|Hne]; simpl.
    + rewrite !elem_of_cons. tauto.
    + rewrite !elem_of_cons, IH. tauto.
Qed.

Lemma set_keys_NoDup k v m : NoDup (JsMap.keys m) -> NoDup (JsMap.keys (JsMap.set k v m)).
Proof.
  induction m as [|[k' v'] m IH]; simpl.
  - intros _. apply NoDup_singleton.
  - intros Hnd. apply NoDup_cons in Hnd as [Hk' Hnd].
    destruct (String.eqb_spec k k') as [->|Hne]; simpl.
    + by apply NoDup_cons.
    + apply NoDup_cons. split; [|auto].
      rewrite set_keys_elem. intros [?|?]; congruence.
Qed.

Lemma set_Forall (P : string * V -> Prop) k v m :
  P (k, v) -> Forall P m -> Forall P (JsMap.set k v m).
Proof.
  intros Hkv. induction 1 as [|[k' v'] m Hx Hm IH]; simpl.
  - by constructor.
  - destruct (String.eqb k k'); constructor; auto.
Qed.
End JsMapFacts.

(** *** The invariant of [netsByKey] *)

(** What follows holds of every case mapping that is idempotent, as the
    Unicode mapping to upper case is. *)
Section Folding.
Context `{CM : CaseMapping}.
Hypothesis upper_idem : forall s, toUpperCase (toUpperCase s) = toUpperCase s.

Lemma normalizeNetName_upper nm : toUpperCase (normalizeNetName nm) = normalizeNetName nm.
Proof. apply upper_idem. Qed.

Lemma ep_norm_normalized r p : ep_norm (Endpoint (normalizeRef r) (normalizePin p)).
Proof. split; apply upper_idem. Qed.

Lemma good_nets_get key e m : good_nets m -> JsMap.get key m = Some e -> good_entry e.
Proof.
  intros Hm Hget. apply get_Some_elem in Hget.
  unfold good_nets in Hm. rewrite Forall_forall in Hm. exact (Hm _ Hget).
Qed.

Lemma ensureNet_good nm m : good_nets m -> good_nets (ensureNet nm m).
Proof.
  intros Hm. unfold ensureNet. destruct (JsMap.get _ m); [done|].
  apply set_Forall; [|done]. simpl. split; simpl; constructor.
Qed.

Lemma addEndpoint_good nm ep m : ep_norm ep -> good_nets m -> good_nets (addEndpoint nm ep m).
Proof.
  intros Hep Hm. unfold addEndpoint.
  pose proof (ensureNet_good nm m Hm) as Hm'.
  destruct (JsMap.get _ (ensureNet nm m)) as [e|] eqn:Hget; [|done].
  pose proof (good_nets_get _ _ _ Hm' Hget) as [Hnd Hall].
  apply set_Forall; [|done]. split; simpl.
  - by apply set_keys_NoDup.
  - by apply set_Forall.
Qed.

Lemma tryPair_norm a b ep : tryPair a b = Some ep -> ep_norm ep.
Proof.
  unfold tryPair. destruct a as [rt|], b as [pt|]; try discriminate.
  repeat (case_match; try discriminate). intros [= <-]. apply ep_norm_normalized.
Qed.

Lemma extractRefPinPair_norm line ep : extractRefPinPair line = Some ep -> ep_norm ep.
Proof.
  unfold extractRefPinPair.
  repeat (case_match; try discriminate); apply tryPair_norm.
Qed.

Lemma extractRefPinInlineTokens_norm line :
  Forall ep_norm (extractRefPinInlineTokens line).
Proof.
  unfold extractRefPinInlineTokens. induction (tokenize line) as [|t ts IH]; simpl.
  - constructor.
  - destruct (exec rx_inline t); simpl; [|done].
    constructor; [apply ep_norm_normalized|done].
Qed.

Lemma parseKiCadSexprNode_norm line ep : parseKiCadSexprNode line = Some ep -> ep_norm ep.
Proof.
  unfold parseKiCadSexprNode.
  repeat (case_match; try discriminate). intros [= <-]. apply ep_norm_normalized.
Qed.

Lemma fold_addEndpoint_good cn eps m :
  Forall ep_norm eps -> good_nets m ->
  good_nets (fold_left (fun m ep => addEndpoint cn ep m) eps m).
Proof.
  intros Heps. revert m. induction Heps as [|ep eps Hep _ IH]; simpl; [done|].
  intros m Hm. apply IH. by apply addEndpoint_good.
Qed.

Lemma parseLine_good isKiCad st raw :
  good_nets (fst st) -> good_nets (fst (parseLine isKiCad st raw)).
Proof.
  destruct st as [m cur]. simpl. intros Hm. unfold parseLine.
  destruct (negb (truthy (trim raw))); [done|].
  destruct isKiCad.
  - destruct (currentNetSet (parseKiCadSexprNetStart _)); simpl.
    + by apply ensureNet_good.
    + destruct (currentNetSet cur); [|done].
      destruct (parseKiCadSexprNode _) eqn:Hn; [|done]. simpl.
      apply addEndpoint_good; [|done]. by eapply parseKiCadSexprNode_norm.
  - destruct (exec (rx_net_marker "*NET*") _); [by apply ensureNet_good|].
    destruct (exec (rx_net_marker "$NET") _); [by apply ensureNet_good|].
    destruct (exec rx_plain_net _); [by apply ensureNet_good|].
    destruct (_ || _); [done|].
    destruct (currentNetSet cur) as [cn|]; [|done].
    destruct (extractRefPinPair _) eqn:Hp; simpl.
    + apply addEndpoint_good; [by eapply extractRefPinPair_norm|].
      by apply ensureNet_good.
    + apply fold_addEndpoint_good; [apply extractRefPinInlineTokens_norm|].
      by apply ensureNet_good.
Qed.

Lemma netsByKeyOf_good text : good_nets (netsByKeyOf text).
Proof.
  unfold netsByKeyOf.
  generalize (fst (guessFormat (split_lines text))). intros b.
  assert (H : forall ls st, good_nets (fst st) ->
                            good_nets (fst (fold_left (parseLine b) ls st))).
  { induction ls as [|l ls IH]; simpl; [done|].
    intros st Hst. apply IH. by apply parseLine_good. }
  apply H. constructor.
Qed.

Lemma pinStep_good r acc entry :
  toUpperCase r = r -> good_nets (snd acc) -> good_nets (snd (pinStep r acc entry)).
Proof.
  intros Hr Hm. destruct entry as [pinId pinRaw]. unfold pinStep.
  destruct (asRecord _); [|done].
  destruct (negb _); simpl; [done|].
  apply addEndpoint_good; [|done]. split; simpl; [done|apply upper_idem].
Qed.

Lemma compStep_good acc entry :
  good_nets (snd acc) -> good_nets (snd (compStep acc entry)).
Proof.
  intros Hm. destruct entry as [compId compRaw]. unfold compStep.
  destruct (asRecord _) as [comp|]; [|done].
  set (r := refOf _ _).
  assert (Hr : toUpperCase r = r) by apply upper_idem.
  assert (H : forall ps st, good_nets (snd st) ->
                            good_nets (snd (fold_left (pinStep r) ps st))).
  { induction ps as [|p ps IH]; simpl; [done|].
    intros st Hst. apply IH. by apply pinStep_good. }
  specialize (H (default [] (asRecord (jget "pinInfoMap" comp))) ([], snd acc) Hm).
  destruct (fold_left _ _ _) as [pins0 nets0]. exact H.
Qed.

Lemma jsonNetsByKeyOf_good cs : good_nets (jsonNetsByKeyOf cs).
Proof.
  unfold jsonNetsByKeyOf.
  assert (H : forall l st, good_nets (snd st) ->
                           good_nets (snd (fold_left compStep l st))).
  { induction l as [|c l IH]; simpl; [done|].
    intros st Hst. apply IH. by apply compStep_good. }
  apply H. constructor.
Qed.

(** *** From [netsByKey] to the result *)

Lemma collectNets_origin m k eps :
  fst (collectNets m) !! k = Some eps ->
  exists e, e ∈ JsMap.values m /\ k = normalizeNetName (name e)
            /\ eps = JsMap.values (endpoints e).
Proof.
  unfold collectNets.
  assert (H : forall l (acc : gmap string (list NetlistEndpoint) * nat),
    fst (fold_left
           (fun acc kv =>
              (<[normalizeNetName (name (snd kv)) := JsMap.values (endpoints (snd kv))]>
                 (fst acc),
               snd acc + List.length (JsMap.values (endpoints (snd kv)))))
           l acc) !! k = Some eps ->
    fst acc !! k = Some eps \/
    exists e, e ∈ JsMap.values l /\ k = normalizeNetName (name e)
              /\ eps = JsMap.values (endpoints e)).
  { induction l as [|kv l IH]; simpl; [auto|].
    intros acc Hk. apply IH in Hk as [Hk|(e & He & ? & ?)].
    - simpl in Hk. apply lookup_insert_Some in Hk as [[<- <-]|[_ Hk]]; [|auto].
      right. exists (snd kv). split; [left|done].
    - right. exists e. split; [by right|done]. }
  intros Hk. apply H in Hk as [Hk|Hk]; [|done].
  simpl in Hk. by rewrite lookup_empty in Hk.
Qed.

Lemma good_entry_NoDup e : good_entry e -> NoDup (map upperPair (JsMap.values (endpoints e))).
Proof.
  intros [Hnd Hall].
  apply (NoDup_fmap_1 (fun p : string * string => fst p +:+ "." +:+ snd p)).
  assert (Heq : (fun p : string * string => fst p +:+ "." +:+ snd p)
                  <$> map upperPair (JsMap.values (endpoints e))
                = JsMap.keys (endpoints e)).
  { clear Hnd. induction Hall as [|[k ep] l [Hk [Hr Hp]] _ IH]; simpl; [done|].
    simpl in *. f_equal; [|exact IH].
    unfold upperPair, epKey in *. simpl. by rewrite Hr, Hp. }
  by rewrite Heq.
Qed.

Lemma collectNets_invariant m : good_nets m -> nets_invariant (fst (collectNets m)).
Proof.
  intros Hm.
  assert (Hup : forall k, is_Some (fst (collectNets m) !! k) -> toUpperCase k = k).
  { intros k [eps Hk]. apply collectNets_origin in Hk as (e & _ & -> & _).
    apply normalizeNetName_upper. }
  repeat split.
  - intros k eps Hk. apply collectNets_origin in Hk as (e & He & _ & ->).
    apply good_entry_NoDup.
    unfold JsMap.values in He. apply list_elem_of_fmap in He as ([k' e'] & -> & He).
    unfold good_nets in Hm. rewrite Forall_forall in Hm. exact (Hm _ He).
  - intros k1 k2 H1 H2 Heq. rewrite <- (Hup k1 H1), <- (Hup k2 H2). exact Heq.
  - exact Hup.
Qed.

Lemma parseNetlist_nets text : nets (parseNetlist text) = fst (collectNets (netsByKeyOf text)).
Proof. unfold parseNetlist. by destruct (collectNets _). Qed.

Lemma parseRoot_nets root r :
  parseRoot root = Some r ->
  exists cs, jnets r = fst (collectNets (jsonNetsByKeyOf cs)).
Proof.
  unfold parseRoot. destruct (asRecord (Some root)) as [rootObj|]; [|discriminate].
  destruct (asRecord (jget _ _)) as [cs|]; [|discriminate].
  destruct (collectNets _) as [n c] eqn:Hc. intros [= <-]. simpl.
  exists cs. by rewrite Hc.
Qed.

End Folding.

(** C7, as the code has it.  Whatever case mapping the engine applies, as
    long as upper-casing twice is upper-casing once (which holds of the
    Unicode mapping), for every input of either parser: within a net no two
    endpoints share the uppercased (ref, pin) pair, no two net names differ
    only by case, and every net name of the result is the uppercased key
    (the spelling first seen stays inside the parser). *)
Theorem C7_nets_invariant :
  forall CM : CaseMapping,
    (forall s, toUpperCase (toUpperCase s) = toUpperCase s) ->
    (forall text, nets_invariant (nets (parseNetlist text)))
    /\ (forall JSON_parse text r,
          parseJlcJsonNetlist JSON_parse text = Some r -> nets_invariant (jnets r)).
Proof.
  intros CM Hidem. split.
  - intros text. rewrite parseNetlist_nets.
    by apply collectNets_invariant, netsByKeyOf_good.
  - intros JSON_parse text r. unfold parseJlcJsonNetlist.
    destruct (negb _); [discriminate|].
    destruct (JSON_parse _) as [root|]; [|discriminate].
    intros Hr. apply parseRoot_nets in Hr as [cs ->].
    by apply collectNets_invariant, jsonNetsByKeyOf_good.
Qed.

(** C7 with the case mapping of ASCII text, at the mixed-case text sample
    and at the two-component JSON sample. *)
Lemma C7_nets_invariant_witness :
  (forall s, asciiUpperCase (asciiUpperCase s) = asciiUpperCase s)
  /\ nets_invariant (nets (parseNetlist mixed_case_text))
  /\ exists r, parseJlcJsonNetlist (fun _ => Some sample_root) "{}" = Some r
               /\ nets_invariant (jnets r).
Proof.
  split; [exact asciiUpperCase_idem|]. split.
  - exact (proj1 (C7_nets_invariant ascii_case asciiUpperCase_idem) mixed_case_text).
  - eexists. split; [reflexivity|].
    apply (proj2 (C7_nets_invariant ascii_case asciiUpperCase_idem)
             (fun _ => Some sample_root) "{}").
    reflexivity.
Defined.

(** C7 as stated fails: the net declared as [Gnd] is kept under that
    spelling inside the parser, but the result names it [GND] only. *)
Lemma C7_first_seen_casing_lost :
  map name (JsMap.values (netsByKeyOf mixed_case_text)) = ["Gnd"]
  /\ nets (parseNetlist mixed_case_text) !! "Gnd" = None
  /\ nets (parseNetlist mixed_case_text) !! "GND" = Some [Endpoint "R1" "1"].
Proof. vm_compute. repeat split; reflexivity. Qed.

(** *** The structured parser on two one-pin components *)

Section Structured.
Context `{CM : CaseMapping}.

Lemma parseRoot_components rootObj cs :
  asRecord (jget "components" rootObj) = Some cs ->
  exists r, parseRoot (JObj rootObj) = Some r
            /\ jnets r = fst (collectNets (jsonNetsByKeyOf cs)).
Proof.
  intros Hcs. unfold parseRoot. cbn [asRecord]. rewrite Hcs.
  destruct (collectNets _) as [n c]. eexists. split; [reflexivity|reflexivity].
Qed.

Lemma pinStep_net r acc pinId pinObj net :
  jget "net" pinObj = Some (JStr net) ->
  truthy (trim net) = true ->
  snd (pinStep r acc (pinId, JObj pinObj))
  = addEndpoint net (Endpoint r (pinOf pinId pinObj)) (snd acc).
Proof.
  intros Hnet Htr. unfold pinStep. cbn [asRecord]. unfold netOf. rewrite Hnet.
  cbn [asString default from_option id]. rewrite Htr. reflexivity.
Qed.

Lemma compStep_single acc compId comp pinId pinObj net :
  single_pin_component comp pinId pinObj net ->
  truthy (trim net) = true ->
  snd (compStep acc (compId, JObj comp))
  = addEndpoint net (endpoint_of compId comp pinId pinObj) (snd acc).
Proof.
  intros [Hmap Hnet] Htr. unfold compStep. cbn [asRecord].
  rewrite Hmap. cbn [asRecord default from_option id fold_left].
  pose proof (pinStep_net (refOf compId (default [] (asRecord (jget "props" comp))))
                ([], snd acc) pinId pinObj net Hnet Htr) as Hstep.
  destruct (pinStep _ _ _) as [pins0 nets0]. exact Hstep.
Qed.

Lemma addEndpoint_first nm ep :
  addEndpoint nm ep []
  = [(normalizeNetName nm, {| name := trim nm; endpoints := [(epKey ep, ep)] |})].
Proof.
  unfold addEndpoint, ensureNet. simpl JsMap.get. simpl JsMap.set.
  simpl JsMap.get. by rewrite String.eqb_refl.
Qed.

Lemma addEndpoint_second nm n ep1 ep2 :
  epKey ep1 <> epKey ep2 ->
  addEndpoint nm ep2
    [(normalizeNetName nm, {| name := n; endpoints := [(epKey ep1, ep1)] |})]
  = [(normalizeNetName nm,
      {| name := n; endpoints := [(epKey ep1, ep1); (epKey ep2, ep2)] |})].
Proof.
  intros Hne. unfold addEndpoint, ensureNet. simpl JsMap.get.
  rewrite String.eqb_refl. simpl JsMap.get. rewrite String.eqb_refl.
  simpl. rewrite String.eqb_refl.
  destruct (String.eqb_spec (epKey ep2) (epKey ep1)); [congruence|reflexivity].
Qed.

End Structured.

Lemma VCC_normal : normalizeNetName "VCC" = "VCC" /\ trim "VCC" = "VCC".
Proof. split; vm_compute; reflexivity. Qed.

(** C9, as the code has it.  Two components, each with one pin on net VCC,
    whose endpoints have different keys REF.PIN, give the single net VCC with
    these two endpoints; and a pin whose net field is absent or empty leaves
    every net as it was. *)
Theorem C9_structured_parser :
  (forall rootObj id1 comp1 pinId1 pinObj1 id2 comp2 pinId2 pinObj2,
     jget "components" rootObj = Some (JObj [(id1, JObj comp1); (id2, JObj comp2)]) ->
     single_pin_component comp1 pinId1 pinObj1 "VCC" ->
     single_pin_component comp2 pinId2 pinObj2 "VCC" ->
     epKey (endpoint_of id1 comp1 pinId1 pinObj1)
       <> epKey (endpoint_of id2 comp2 pinId2 pinObj2) ->
     exists r, parseRoot (JObj rootObj) = Some r
               /\ jnets r = {[ "VCC" := [endpoint_of id1 comp1 pinId1 pinObj1;
                                         endpoint_of id2 comp2 pinId2 pinObj2] ]})
  /\ (forall cref0 acc pinId pinObj,
        jget "net" pinObj = None \/ jget "net" pinObj = Some (JStr EmptyString) ->
        snd (pinStep cref0 acc (pinId, JObj pinObj)) = snd acc).
Proof.
  split.
  - intros rootObj id1 comp1 pinId1 pinObj1 id2 comp2 pinId2 pinObj2 Hcs H1 H2 Hne.
    destruct (parseRoot_components rootObj [(id1, JObj comp1); (id2, JObj comp2)])
      as (r & Hr & Hnets); [by rewrite Hcs|].
    exists r. split; [exact Hr|]. rewrite Hnets.
    destruct VCC_normal as [Hn Ht].
    unfold jsonNetsByKeyOf. cbn [fold_left].
    rewrite (compStep_single _ id2 comp2 pinId2 pinObj2 "VCC" H2) by (by rewrite Ht).
    rewrite (compStep_single _ id1 comp1 pinId1 pinObj1 "VCC" H1) by (by rewrite Ht).
    cbn [snd]. rewrite addEndpoint_first, Ht, <- Hn at 1.
    rewrite addEndpoint_second by exact Hne.
    unfold collectNets. cbn [fold_left fst snd name endpoints JsMap.values map].
    rewrite Hn. apply insert_empty.
  - intros cref0 acc pinId pinObj Hnet. unfold pinStep. simpl asRecord.
    unfold netOf. destruct Hnet as [-> | ->]; reflexivity.
Qed.

(** C9 at the two-component sample (R1 pin 1 and C1 pin 2 on VCC) and at a
    pin without a net field. *)
Lemma C9_structured_parser_witness :
  (exists r, parseRoot sample_root = Some r
             /\ jnets r = {[ "VCC" := [Endpoint "R1" "1"; Endpoint "C1" "2"] ]})
  /\ snd (pinStep "R1" ([], []) ("p1", JObj [("number", JStr "1")])) = [].
Proof.
  split.
  - pose (pin1 := [("number", JNum (Finite "1")); ("net", JStr "VCC")]).
    pose (pin2 := [("number", JStr "2"); ("net", JStr "VCC")]).
    pose (comp1 := [("props", JObj [("Designator", JStr "R1")]);
                    ("pinInfoMap", JObj [("p1", JObj pin1)])]).
    pose (comp2 := [("props", JObj [("Designator", JStr "C1")]);
                    ("pinInfoMap", JObj [("p1", JObj pin2)])]).
    assert (Hne : epKey (endpoint_of "c1" comp1 "p1" pin1)
                  <> epKey (endpoint_of "c2" comp2 "p1" pin2))
      by (vm_compute; discriminate).
    exact (proj1 C9_structured_parser
             [("version", JStr "2.0.0");
              ("components", JObj [("c1", JObj comp1); ("c2", JObj comp2)])]
             "c1" comp1 "p1" pin1 "c2" comp2 "p1" pin2
             eq_refl (conj eq_refl eq_refl) (conj eq_refl eq_refl) Hne).
  - apply (proj2 C9_structured_parser "R1" ([], []) "p1" [("number", JStr "1")]).
    left. reflexivity.
Defined.

(** C9 as stated fails: two components that both name R1 pin 1 on VCC give
    the net VCC a single endpoint. *)
Lemma C9_duplicate_endpoint_merged :
  option_map (fun r => map_to_list (jnets r)) (parseRoot twin_root)
  = Some [("VCC", [Endpoint "R1" "1"])].
Proof. vm_compute. reflexivity. Qed.

(** *** Further properties of the parsers *)

Lemma drop_while_stable (p : ascii -> bool) l :
  match l with [] => True | c :: _ => p c = false end -> drop_while p l = l.
Proof. destruct l as [|c l]; simpl; [done|]. by intros ->. Qed.

Lemma drop_while_head (p : ascii -> bool) l :
  match drop_while p l with [] => True | c :: _ => p c = false end.
Proof.
  induction l as [|c l IH]; simpl; [done|].
  destruct (p c) eqn:E; [exact IH|exact E].
Qed.

Lemma drop_while_suffix (p : ascii -> bool) l :
  exists pre, l = pre ++ drop_while p l.
Proof.
  induction l as [|c l [pre IH]]; simpl; [by exists []|].
  destruct (p c); [exists (c :: pre); simpl; by f_equal|by exists []].
Qed.

Lemma strip_idem (p : ascii -> bool) l : strip p (strip p l) = strip p l.
Proof.
  unfold strip.
  set (l1 := drop_while p l).
  pose proof (drop_while_head p l) as H1. fold l1 in H1.
  set (l2 := drop_while p (rev l1)).
  pose proof (drop_while_head p (rev l1)) as H2. fold l2 in H2.
  destruct (drop_while_suffix p (rev l1)) as [pre Hpre]. fold l2 in Hpre.
  assert (Hfront : drop_while p (rev l2) = rev l2).
  { apply drop_while_stable.
    destruct l2 as [|c l2'] eqn:E2; [done|].
    assert (Hl1 : l1 = rev (c :: l2') ++ rev pre).
    { rewrite <- (rev_involutive l1), Hpre, rev_app_distr. done. }
    destruct (rev (c :: l2')) as [|d tl] eqn:Er.
    - apply (f_equal (@List.length _)) in Er. rewrite length_rev in Er. discriminate.
    - rewrite Hl1 in H1. exact H1. }
  rewrite Hfront, rev_involutive.
  by rewrite (drop_while_stable p l2 H2).
Qed.

Lemma chars_str l : chars (str l) = l.
Proof. apply list_ascii_of_string_of_list_ascii. Qed.

Lemma trim_idem s : trim (trim s) = trim s.
Proof. unfold trim. by rewrite chars_str, strip_idem. Qed.

Section Loops.
Context `{CM : CaseMapping}.

Lemma normalizeNetName_trim nm : normalizeNetName (trim nm) = normalizeNetName nm.
Proof. unfold normalizeNetName. by rewrite trim_idem. Qed.

(** *** Invariants of [netsByKey] that both loops keep *)

Lemma parseLine_inv (I : list (string * NetEntry) -> Prop) :
  (forall nm m, I m -> I (ensureNet nm m)) ->
  (forall nm ep m, I m -> I (addEndpoint nm ep m)) ->
  forall isKiCad st raw, I (fst st) -> I (fst (parseLine isKiCad st raw)).
Proof.
  intros He Ha isKiCad [m cur] raw. simpl. intros Hm. unfold parseLine.
  destruct (negb (truthy (trim raw))); [done|].
  assert (Hfold : forall cn eps m0, I m0 ->
                    I (fold_left (fun m ep => addEndpoint cn ep m) eps m0)).
  { intros cn eps. induction eps as [|ep eps IH]; simpl; [done|].
    intros m0 Hm0. apply IH, Ha, Hm0. }
  destruct isKiCad.
  - destruct (currentNetSet (parseKiCadSexprNetStart _)); simpl; [by apply He|].
    destruct (currentNetSet cur); [|done].
    destruct (parseKiCadSexprNode _); [|done]. simpl. by apply Ha.
  - destruct (exec (rx_net_marker "*NET*") _); [by apply He|].
    destruct (exec (rx_net_marker "$NET") _); [by apply He|].
    destruct (exec rx_plain_net _); [by apply He|].
    destruct (_ || _); [done|].
    destruct (currentNetSet cur) as [cn|]; [|done].
    destruct (extractRefPinPair _); simpl.
    + by apply Ha, He.
    + by apply Hfold, He.
Qed.

Lemma netsByKeyOf_inv (I : list (string * NetEntry) -> Prop) :
  (forall nm m, I m -> I (ensureNet nm m)) ->
  (forall nm ep m, I m -> I (addEndpoint nm ep m)) ->
  I [] -> forall text, I (netsByKeyOf text).
Proof.
  intros He Ha H0 text. unfold netsByKeyOf.
  generalize (fst (guessFormat (split_lines text))). intros b.
  assert (H : forall ls st, I (fst st) -> I (fst (fold_left (parseLine b) ls st))).
  { induction ls as [|l ls IH]; simpl; [done|].
    intros st Hst. apply IH. by apply parseLine_inv. }
  by apply H.
Qed.

Lemma jsonNetsByKeyOf_inv (I : list (string * NetEntry) -> Prop) :
  (forall nm ep m, I m -> I (addEndpoint nm ep m)) ->
  I [] -> forall cs, I (jsonNetsByKeyOf cs).
Proof.
  intros Ha H0 cs. unfold jsonNetsByKeyOf.
  assert (Hpin : forall r entry acc, I (snd acc) -> I (snd (pinStep r acc entry))).
  { intros r [pinId pinRaw] acc Hacc. unfold pinStep.
    destruct (asRecord _); [|done]. destruct (negb _); simpl; [done|]. by apply Ha. }
  assert (Hpins : forall r ps st, I (snd st) -> I (snd (fold_left (pinStep r) ps st))).
  { intros r. induction ps as [|p ps IH]; simpl; [done|].
    intros st Hst. by apply IH, Hpin. }
  assert (Hcomp : forall entry acc, I (snd acc) -> I (snd (compStep acc entry))).
  { intros [compId compRaw] acc Hacc. unfold compStep.
    destruct (asRecord _) as [comp|]; [|done].
    specialize (Hpins (refOf compId (default [] (asRecord (jget "props" comp))))
                  (default [] (asRecord (jget "pinInfoMap" comp))) ([], snd acc) Hacc).
    destruct (fold_left _ _ _) as [pins0 nets0]. exact Hpins. }
  assert (H : forall l st, I (snd st) -> I (snd (fold_left compStep l st))).
  { induction l as [|c l IH]; simpl; [done|].
    intros st Hst. by apply IH, Hcomp. }
  by apply H.
Qed.

Lemma ensureNet_keyed nm m : keyed m -> keyed (ensureNet nm m).
Proof.
  intros [Hnd Hall]. unfold ensureNet. destruct (JsMap.get _ m); [done|].
  split; [by apply set_keys_NoDup|].
  apply set_Forall; [|done]. simpl. by rewrite normalizeNetName_trim.
Qed.

Lemma addEndpoint_keyed nm ep m : keyed m -> keyed (addEndpoint nm ep m).
Proof.
  intros Hm. apply (ensureNet_keyed nm) in Hm as [Hnd Hall]. unfold addEndpoint.
  destruct (JsMap.get _ (ensureNet nm m)) as [e|] eqn:Hget; [|done].
  split; [by apply set_keys_NoDup|].
  apply set_Forall; [|done]. simpl.
  apply get_Some_elem in Hget. rewrite Forall_forall in Hall.
  exact (Hall _ Hget).
Qed.

Lemma keyed_nil : keyed [].
Proof. split; constructor. Qed.

Lemma set_nonempty {V} k (v : V) m : JsMap.set k v m <> [].
Proof. destruct m as [|[k' v'] m]; simpl; [done|]. by destruct (String.eqb k k'). Qed.

Lemma addEndpoint_populated nm ep m : populated m -> populated (addEndpoint nm ep m).
Proof.
  intros Hm. unfold addEndpoint, ensureNet.
  destruct (JsMap.get (normalizeNetName nm) m) as [e|] eqn:Hget.
  - rewrite Hget. apply set_Forall; [|done]. simpl. apply set_nonempty.
  - assert (Hnew : JsMap.get (normalizeNetName nm)
                     (JsMap.set (normalizeNetName nm)
                        {| name := trim nm; endpoints := [] |} m)
                   = Some {| name := trim nm; endpoints := [] |}).
    { clear Hm. induction m as [|[k v] m IH]; simpl in *.
      - by rewrite String.eqb_refl.
      - destruct (String.eqb (normalizeNetName nm) k) eqn:E; [discriminate|].
        simpl. rewrite E. by apply IH. }
    rewrite Hnew.
    assert (Hset : forall (e1 e2 : NetEntry) k m0,
              JsMap.set k e2 (JsMap.set k e1 m0) = JsMap.set k e2 m0).
    { intros e1 e2 k. induction m0 as [|[k' v'] m0 IH]; simpl.
      - by rewrite String.eqb_refl.
      - destruct (String.eqb k k') eqn:E; simpl; rewrite ?String.eqb_refl, ?E; [done|].
        by rewrite IH. }
    rewrite Hset. apply set_Forall; [|done]. simpl. discriminate.
Qed.

(** *** What [collectNets] returns *)

Lemma collectNets_fold l acc :
  fold_left
    (fun (acc : gmap string (list NetlistEndpoint) * nat) (kv : string * NetEntry) =>
       (<[normalizeNetName (name (snd kv)) := JsMap.values (endpoints (snd kv))]>
          (fst acc),
        snd acc + List.length (JsMap.values (endpoints (snd kv)))))
    l acc
  = (fold_left (fun (a : gmap string (list NetlistEndpoint)) (kv : string * NetEntry) =>
                  <[normalizeNetName (name (snd kv))
                    := JsMap.values (endpoints (snd kv))]> a) l (fst acc),
     snd acc + list_sum (map (fun kv : string * NetEntry =>
                                List.length (endpoints (snd kv))) l)).
Proof.
  revert acc. induction l as [|kv l IH]; intros [a n]; simpl.
  - f_equal. lia.
  - rewrite IH. simpl. f_equal. unfold JsMap.values. rewrite length_map. lia.
Qed.

Lemma collectNets_count m :
  snd (collectNets m)
  = list_sum (map (fun kv : string * NetEntry => List.length (endpoints (snd kv))) m).
Proof. unfold collectNets. by rewrite collectNets_fold. Qed.

Lemma collectNets_lookup m kv :
  keyed m -> kv ∈ m ->
  fst (collectNets m) !! fst kv = Some (JsMap.values (endpoints (snd kv))).
Proof.
  intros [Hnd Hall] Hin. unfold collectNets. rewrite collectNets_fold. simpl.
  assert (H : forall l (a : gmap string (list NetlistEndpoint)),
    NoDup (JsMap.keys l) ->
    Forall (fun kv : string * NetEntry => fst kv = normalizeNetName (name (snd kv))) l ->
    (forall k, k ∉ JsMap.keys l ->
       fold_left (fun (a : gmap string (list NetlistEndpoint)) (kv : string * NetEntry) =>
                    <[normalizeNetName (name (snd kv))
                      := JsMap.values (endpoints (snd kv))]> a) l a !! k = a !! k)
    /\ (kv ∈ l ->
        fold_left (fun (a : gmap string (list NetlistEndpoint)) (kv : string * NetEntry) =>
                     <[normalizeNetName (name (snd kv))
                       := JsMap.values (endpoints (snd kv))]> a) l a !! fst kv
        = Some (JsMap.values (endpoints (snd kv))))).
  { induction l as [|kv0 l IH]; intros a Hnd0 Hall0; simpl.
    - split; [done|]. intros H0. inversion H0.
    - apply NoDup_cons in Hnd0 as [Hk0 Hnd0].
      apply Forall_cons in Hall0 as [Hkv0 Hall0].
      destruct (IH (<[normalizeNetName (name (snd kv0))
                      := JsMap.values (endpoints (snd kv0))]> a) Hnd0 Hall0)
        as [IH1 IH2].
      split.
      + intros k Hk. apply not_elem_of_cons in Hk as [Hne Hk].
        rewrite IH1 by done. rewrite lookup_insert_ne; [done|]. by rewrite <- Hkv0.
      + intros Hkv. apply elem_of_cons in Hkv as [->|Hkv]; [|by apply IH2].
        rewrite IH1 by done. by rewrite Hkv0, lookup_insert_eq. }
  by apply (H m ∅ Hnd Hall).
Qed.

Lemma list_sum_zero l : list_sum l = 0 <-> Forall (fun n => n = 0) l.
Proof.
  induction l as [|n l IH]; simpl.
  - split; [constructor|done].
  - rewrite Forall_cons. rewrite <- IH. lia.
Qed.

Lemma collectNets_some_endpoint m :
  keyed m ->
  (snd (collectNets m) <> 0
   <-> exists k eps, fst (collectNets m) !! k = Some eps /\ eps <> []).
Proof.
  intros Hk. rewrite collectNets_count. split.
  - intros Hne.
    assert (Hex : exists kv, kv ∈ m /\ endpoints (snd kv) <> []).
    { clear Hk. induction m as [|kv m IH]; simpl in Hne; [done|].
      destruct (endpoints (snd kv)) as [|e l] eqn:E.
      - destruct IH as (kv' & Hin & Hne'); [exact Hne|].
        exists kv'. split; [by right|done].
      - exists kv. split; [left|]. by rewrite E. }
    destruct Hex as (kv & Hin & Hne').
    exists (fst kv), (JsMap.values (endpoints (snd kv))).
    split; [by apply collectNets_lookup|].
    unfold JsMap.values. by destruct (endpoints (snd kv)).
  - intros (k & eps & Hlook & Hne) Hzero.
    apply collectNets_origin in Hlook as (e & He & _ & ->).
    apply list_sum_zero in Hzero. rewrite Forall_forall in Hzero.
    unfold JsMap.values in He. apply list_elem_of_fmap in He as (kv & -> & Hkv).
    assert (H0 : List.length (endpoints (snd kv)) = 0).
    { apply Hzero. apply list_elem_of_fmap. by exists kv. }
    apply Hne. unfold JsMap.values. by destruct (endpoints (snd kv)).
Qed.

Lemma collectNets_empty m : fst (collectNets m) = ∅ <-> m = [].
Proof.
  split; [|by intros ->].
  unfold collectNets. rewrite collectNets_fold. simpl.
  destruct m as [|kv m _] using rev_ind; [done|].
  rewrite fold_left_app. simpl. intros H.
  by apply insert_non_empty in H.
Qed.

End Loops.

(** X9.  The text parser reports success exactly when at least one net of
    the result has an endpoint.  It issues at most one warning: the "no nets"
    warning exactly when the net map is empty, the "no endpoints" warning
    exactly when there are nets and all of them are empty.  This holds
    whatever the case mapping. *)
Theorem text_parse_ok_iff_some_endpoint :
  forall (CM : CaseMapping) text,
    let r := parseNetlist text in
    (ok r = true <-> exists k eps, nets r !! k = Some eps /\ eps <> [])
    /\ (ok r = true <-> warnings r = [])
    /\ (nets r = ∅ <-> warnings r = ["No nets parsed from netlist text."])
    /\ (nets r <> ∅ /\ (forall k eps, nets r !! k = Some eps -> eps = [])
        <-> warnings r
            = ["Nets were detected but no endpoints (Ref.Pin) could be parsed."]).
Proof.
  intros CM text r.
  assert (Hk : keyed (netsByKeyOf text)).
  { apply netsByKeyOf_inv;
      [apply ensureNet_keyed|apply addEndpoint_keyed|apply keyed_nil]. }
  pose proof (collectNets_some_endpoint _ Hk) as Hsome.
  pose proof (collectNets_empty (netsByKeyOf text)) as Hempty.
  subst r. unfold parseNetlist.
  destruct (collectNets (netsByKeyOf text)) as [ns cnt] eqn:Hc.
  cbn [fst snd] in Hsome, Hempty. cbn [ok warnings nets].
  destruct (Nat.eqb_spec (size ns) 0) as [Hz|Hnz].
  - apply map_size_empty_iff in Hz. subst ns. cbn.
    split; [|split; [|split]].
    + split; [discriminate|]. intros (k & eps & Hl & _). by rewrite lookup_empty in Hl.
    + split; discriminate.
    + done.
    + split; [by intros [? _]|discriminate].
  - assert (Hne : ns <> ∅) by (by rewrite <- map_size_empty_iff).
    cbn [negb andb app]. destruct (Nat.eqb_spec cnt 0) as [Hc0|Hc0]; cbn.
    + split; [|split; [|split]].
      * split; [discriminate|]. intros Hex. by apply Hsome in Hex.
      * split; discriminate.
      * split; [done|discriminate].
      * split; [done|]. intros _. split; [done|]. intros k eps Hl.
        destruct eps as [|e eps]; [done|]. exfalso.
        assert (Hcnt : cnt <> 0); [|done].
        apply Hsome. by exists k, (e :: eps).
    + split; [|split; [|split]].
      * split; [|done]. intros _. by apply Hsome.
      * done.
      * split; [done|discriminate].
      * split; [|discriminate]. intros [_ Hall]. exfalso.
        apply Hsome in Hc0 as (k & eps & Hl & Hn). apply Hn. eauto.
Qed.

(** X10.  In a result of the structured parser every net has at least one
    endpoint, so the warning that nets were found without endpoints is never
    issued, and the parse is reported as successful exactly when a component
    and a net were found.  This holds whatever the case mapping. *)
Theorem json_parse_nets_are_populated :
  forall (CM : CaseMapping) JSON_parse text r,
    parseJlcJsonNetlist JSON_parse text = Some r ->
    (forall k eps, jnets r !! k = Some eps -> eps <> [])
    /\ ~ In "Nets were detected but no endpoints (Ref.Pin) could be parsed."
           (jwarnings r)
    /\ (jok r = true <-> components r <> [] /\ jnets r <> ∅).
Proof.
  intros CM JSON_parse text r. unfold parseJlcJsonNetlist.
  destruct (negb _); [discriminate|].
  destruct (JSON_parse _) as [root|]; [|discriminate].
  unfold parseRoot. destruct (asRecord (Some root)) as [rootObj|]; [|discriminate].
  destruct (asRecord (jget "components" rootObj)) as [cs|]; [|discriminate].
  assert (Hp : populated (jsonNetsByKeyOf cs)).
  { apply jsonNetsByKeyOf_inv; [apply addEndpoint_populated|constructor]. }
  pose proof (collectNets_count (jsonNetsByKeyOf cs)) as Hcount.
  pose proof (collectNets_empty (jsonNetsByKeyOf cs)) as Hempty.
  assert (Hall : forall k eps, fst (collectNets (jsonNetsByKeyOf cs)) !! k = Some eps ->
                               eps <> []).
  { intros k eps Hl. apply collectNets_origin in Hl as (e & He & _ & ->).
    unfold JsMap.values in He. apply list_elem_of_fmap in He as (kv & -> & Hkv).
    unfold populated in Hp. rewrite Forall_forall in Hp. specialize (Hp kv Hkv).
    unfold JsMap.values. by destruct (endpoints (snd kv)). }
  destruct (collectNets (jsonNetsByKeyOf cs)) as [ns cnt] eqn:Hc.
  cbn [fst snd] in Hcount, Hempty, Hall.
  intros [= <-]. cbn [jok jwarnings components jnets].
  split; [exact Hall|].
  assert (Hcnt : ns <> ∅ -> cnt <> 0).
  { intros Hne Hzero. rewrite Hcount in Hzero. apply list_sum_zero in Hzero.
    destruct (jsonNetsByKeyOf cs) as [|kv m] eqn:Hm; [by apply Hne, Hempty|].
    unfold populated in Hp. apply Forall_cons in Hp as [Hkv _].
    simpl in Hzero. apply Forall_cons in Hzero as [Hz _].
    by destruct (endpoints (snd kv)). }
  assert (Hcomps : Nat.eqb (List.length (fst (fold_left compStep cs ([], [])))) 0 = true
                   <-> fst (fold_left compStep cs ([], [])) = []).
  { rewrite Nat.eqb_eq. by destruct (fst (fold_left compStep cs ([], []))). }
  destruct (Nat.eqb (List.length (fst (fold_left compStep cs ([], [])))) 0) eqn:Ecomps.
  - assert (Hnil : fst (fold_left compStep cs ([], [])) = []) by (by apply Hcomps).
    destruct (Nat.eqb_spec (size ns) 0) as [Hz|Hnz].
    + apply map_size_empty_iff in Hz. cbn. split.
      * intros [H|[H|[]]]; discriminate H.
      * split; [discriminate|]. by intros [? _].
    + assert (Hne : ns <> ∅) by (by rewrite <- map_size_empty_iff).
      specialize (Hcnt Hne). apply Nat.eqb_neq in Hcnt. rewrite Hcnt. cbn. split.
      * intros [H|[]]; discriminate H.
      * split; [discriminate|]. by intros [? _].
  - assert (Hcons : fst (fold_left compStep cs ([], [])) <> []).
    { intros E. apply Hcomps in E. discriminate. }
    destruct (Nat.eqb_spec (size ns) 0) as [Hz|Hnz].
    + apply map_size_empty_iff in Hz. cbn. split.
      * intros [H|[]]; discriminate H.
      * split; [discriminate|]. by intros [_ ?].
    + assert (Hne : ns <> ∅) by (by rewrite <- map_size_empty_iff).
      specialize (Hcnt Hne). apply Nat.eqb_neq in Hcnt. rewrite Hcnt. cbn. split.
      * by intros [].
      * done.
Qed.

(** X10 on the two-component sample. *)
Lemma json_parse_nets_are_populated_witness :
  exists r, parseJlcJsonNetlist (fun _ => Some sample_root) "{}" = Some r
            /\ (jok r = true <-> components r <> [] /\ jnets r <> ∅).
Proof.
  eexists. split; [reflexivity|].
  apply (json_parse_nets_are_populated ascii_case (fun _ => Some sample_root) "{}").
  reflexivity.
Defined.

(** X11.  The structured parser answers (rather than declining with
    [undefined]) exactly when the trimmed text starts with a brace, parses as
    JSON to an object, and the [components] property of that object is an
    object too; an array or [null] in either place makes it decline.  This
    holds whatever the case mapping. *)
Theorem json_parser_applies_iff :
  forall (CM : CaseMapping) JSON_parse text,
    is_Some (parseJlcJsonNetlist JSON_parse text)
    <-> startsWith (trim text) "{" = true
        /\ exists rootObj cs,
             JSON_parse (trim text) = Some (JObj rootObj)
             /\ jget "components" rootObj = Some (JObj cs).
Proof.
  intros CM JSON_parse text. unfold parseJlcJsonNetlist.
  destruct (startsWith (trim text) "{"); cbn [negb].
  - destruct (JSON_parse (trim text)) as [root|].
    + unfold parseRoot.
      destruct root as [| | | | |rootObj]; cbn [asRecord];
        try (split; [by intros []|by intros [_ (? & ? & [=] & _)]]).
      destruct (jget "components" rootObj) as [[| | | | |cs]|] eqn:E; cbn [asRecord];
        try (split; [by intros []|by intros [_ (? & ? & [= <-] & H)]; congruence]).
      destruct (collectNets _). split; [|eauto]. intros _. split; [done|]. eauto.
    + split; [by intros []|by intros [_ (? & ? & [=] & _)]].
  - split; [by intros []|by intros [[=] _]].
Qed.

Section Idle.
Context `{CM : CaseMapping}.

Lemma parseLine_idle isKiCad raw :
  starts_net isKiCad (trim raw) = false ->
  parseLine isKiCad ([], None) raw = ([], None).
Proof.
  unfold starts_net, parseLine. destruct (negb (truthy (trim raw))); [done|].
  destruct isKiCad.
  - by destruct (currentNetSet (parseKiCadSexprNetStart (trim raw))).
  - destruct (exec (rx_net_marker "*NET*") (trim raw)); [discriminate|].
    destruct (exec (rx_net_marker "$NET") (trim raw)); [discriminate|].
    destruct (exec rx_plain_net (trim raw)); [discriminate|].
    intros _. by destruct (_ || _).
Qed.

End Idle.

(** X12.  The text parser attaches pins only inside a net block: when no
    line of the text opens a net (a [*NET*], [$NET] or [NET] line, or in the
    KiCad dialect a [(net ... (name ...))] line), every pin line is dropped,
    the net map is empty and the only warning is that no nets were parsed.
    This holds whatever the case mapping. *)
Theorem pins_outside_net_blocks_are_dropped :
  forall (CM : CaseMapping) text,
    forallb (fun l => negb (starts_net (fst (guessFormat (split_lines text))) (trim l)))
      (split_lines text) = true ->
    nets (parseNetlist text) = ∅
    /\ warnings (parseNetlist text) = ["No nets parsed from netlist text."]
    /\ ok (parseNetlist text) = false.
Proof.
  intros CM text Hall.
  assert (Hnil : netsByKeyOf text = []).
  { unfold netsByKeyOf. revert Hall.
    generalize (fst (guessFormat (split_lines text))). intros b.
    induction (split_lines text) as [|l ls IH]; cbn [forallb fold_left]; [done|].
    intros Hall. apply andb_true_iff in Hall as [Hl Hls].
    apply negb_true_iff in Hl. rewrite (parseLine_idle b l Hl). by apply IH. }
  unfold parseNetlist. rewrite Hnil. by cbn.
Qed.

(** X12 on two pin lines without a net line. *)
Lemma pins_outside_net_blocks_are_dropped_witness :
  nets (parseNetlist orphan_pins_text) = ∅
  /\ warnings (parseNetlist orphan_pins_text) = ["No nets parsed from netlist text."]
  /\ ok (parseNetlist orphan_pins_text) = false.
Proof.
  exact (pins_outside_net_blocks_are_dropped ascii_case orphan_pins_text
           ltac:(vm_compute; reflexivity)).
Defined.

(** X13.  Whatever case mapping the engine applies, as long as
    upper-casing twice is upper-casing once: a two-token pin line (or a
    [*PIN*] line) gives an endpoint only when its reference token is a
    designator, one to six letters, digits and at most one trailing letter,
    and its pin token is not empty; both fields of the endpoint are
    upper-case. *)
Theorem pair_endpoint_is_a_designator :
  forall (CM : CaseMapping),
    (forall s, toUpperCase (toUpperCase s) = toUpperCase s) ->
    forall line ep,
      extractRefPinPair line = Some ep ->
      test rx_ref (ref ep) = true /\ pin ep <> EmptyString
      /\ toUpperCase (ref ep) = ref ep /\ toUpperCase (pin ep) = pin ep
      /\ (List.length (tokenize line) = 2
          \/ exists t0 rest, tokenize line = t0 :: rest /\ toUpperCase t0 = "*PIN*").
Proof.
  intros CM Hidem line ep H.
  assert (Htry : forall a b, tryPair a b = Some ep ->
            test rx_ref (ref ep) = true /\ pin ep <> EmptyString
            /\ toUpperCase (ref ep) = ref ep /\ toUpperCase (pin ep) = pin ep).
  { intros [rt|] [pt|]; cbn [tryPair]; try discriminate.
    destruct (negb (truthy rt) || negb (truthy pt)); [discriminate|].
    destruct (looksLikeRef (normalizeRef rt)) eqn:Hl; cbn [negb]; [|discriminate].
    destruct (truthy (normalizePin pt)) eqn:Hp; cbn [negb]; [|discriminate].
    intros [= <-]. cbn [ref pin]. unfold looksLikeRef in Hl.
    unfold normalizeRef, normalizePin in *. rewrite Hidem in Hl.
    split; [exact Hl|]. split; [by destruct (toUpperCase (trim pt))|].
    split; apply Hidem. }
  unfold extractRefPinPair in H.
  destruct (tokenize line) as [|t0 rest] eqn:Et; cbn [nth_error] in H.
  - cbn in H. discriminate.
  - destruct (String.eqb_spec (toUpperCase t0) "*PIN*") as [Hpin|Hpin].
    + destruct (Htry _ _ H) as (H1 & H2 & H3 & H4). repeat split; try done.
      right. by exists t0, rest.
    + destruct (Nat.eqb_spec (List.length (t0 :: rest)) 2) as [Hlen|Hlen];
        [|discriminate].
      destruct (Htry _ _ H) as (H1 & H2 & H3 & H4). repeat split; try done.
      by left.
Qed.

(** X13 with the case mapping of ASCII text, on the line [r1 2]. *)
Lemma pair_endpoint_is_a_designator_witness :
  (forall s, asciiUpperCase (asciiUpperCase s) = asciiUpperCase s)
  /\ test rx_ref (ref (Endpoint "R1" "2")) = true
  /\ pin (Endpoint "R1" "2") <> EmptyString
  /\ asciiUpperCase (ref (Endpoint "R1" "2")) = ref (Endpoint "R1" "2")
  /\ asciiUpperCase (pin (Endpoint "R1" "2")) = pin (Endpoint "R1" "2")
  /\ (List.length (tokenize "r1 2") = 2
      \/ exists t0 rest, tokenize "r1 2" = t0 :: rest /\ asciiUpperCase t0 = "*PIN*").
Proof.
  split; [exact asciiUpperCase_idem|].
  exact (pair_endpoint_is_a_designator ascii_case asciiUpperCase_idem
           "r1 2" (Endpoint "R1" "2") ltac:(vm_compute; reflexivity)).
Defined.

End NetlistFacts.
(** ** The server *)

Module ServerFacts.
Import JlcJson Server ServerSpec.

(** *** Promises *)

Lemma settle_lookup c o ps c' :
  settle c o ps !! c' =
  if decide (c = c') then
    match ps !! c with Some Pending => Some (Settled o) | x => x end
  else ps !! c'.
Proof.
  unfold settle. destruct (ps !! c) as [[|o']|] eqn:Hc; case_decide; subst;
    rewrite ?lookup_insert_eq, ?lookup_insert_ne by done; done.
Qed.

Lemma settle_other c o ps c' : c <> c' -> settle c o ps !! c' = ps !! c'.
Proof. intros. rewrite settle_lookup. by case_decide. Qed.

Lemma settle_settled c o ps c' o' :
  ps !! c' = Some (Settled o') -> settle c o ps !! c' = Some (Settled o').
Proof. intros H. rewrite settle_lookup. case_decide; subst; by rewrite ?H. Qed.

Lemma settle_is_Some c o ps c' : is_Some (settle c o ps !! c') <-> is_Some (ps !! c').
Proof.
  rewrite settle_lookup. case_decide; subst; [|done].
  destruct (ps !! c') as [[|?]|]; split; intros [? ?]; eauto; discriminate.
Qed.

Lemma settle_pending c o ps c' :
  settle c o ps !! c' = Some Pending -> ps !! c' = Some Pending /\ c <> c'.
Proof.
  rewrite settle_lookup. case_decide; subst; [|done].
  destruct (ps !! c') as [[|?]|]; discriminate.
Qed.

Lemma settle_this c o ps :
  ps !! c = Some Pending -> settle c o ps !! c = Some (Settled o).
Proof. intros H. rewrite settle_lookup. case_decide; [by rewrite H|done]. Qed.

(** *** [finally] callbacks *)

Lemma runFinally_fields s :
  socket (runFinally s) = socket s /\ clientHello (runFinally s) = clientHello s
  /\ pending (runFinally s) = pending s /\ promises (runFinally s) = promises s
  /\ issued (runFinally s) = issued s /\ timers (runFinally s) = timers s
  /\ conns (runFinally s) = conns s /\ nextCall (runFinally s) = nextCall s
  /\ now (runFinally s) = now s.
Proof. unfold runFinally. case_decide; repeat split; reflexivity. Qed.

Lemma runFinally_idem s : runFinally (runFinally s) = runFinally s.
Proof.
  destruct (decide (filter (fun c => is_settled (promises s) c = true)
                      (keepAliveCalls s) = ∅)) as [Hd|Hd].
  - assert (H : runFinally s = s) by (unfold runFinally; by rewrite decide_True).
    by rewrite !H.
  - assert (H : runFinally s
                = set_keepAlive (keepAliveTimer s) false
                    (set_keepAliveCalls
                       (keepAliveCalls s
                        ∖ filter (fun c => is_settled (promises s) c = true)
                            (keepAliveCalls s)) s))
      by (unfold runFinally; by rewrite decide_False).
    rewrite H. unfold runFinally. simpl. rewrite decide_True; [done|].
    apply set_eq. intros c. rewrite elem_of_filter, elem_of_difference, elem_of_filter.
    rewrite elem_of_empty. tauto.
Qed.

(** *** The rejecting loop *)

Lemma rejectPending_spec message remove s :
  rejected_from message remove s (rejectPending message remove s) (pending s).
Proof.
  unfold rejectPending.
  apply (map_fold_weak_ind (rejected_from message remove s)).
  - constructor; try reflexivity.
    + intros i. rewrite lookup_empty. by destruct remove.
    + auto.
    + intros c. left. split; [done|]. intros i pc Hi. by rewrite lookup_empty in Hi.
  - intros i x m r Hi [].
    assert (Hfields :
      socket (rejectOne message remove i x r) = socket r
      /\ clientHello (rejectOne message remove i x r) = clientHello r
      /\ conns (rejectOne message remove i x r) = conns r
      /\ issued (rejectOne message remove i x r) = issued r
      /\ nextCall (rejectOne message remove i x r) = nextCall r
      /\ keepAliveCalls (rejectOne message remove i x r) = keepAliveCalls r
      /\ sendCallbacks (rejectOne message remove i x r) = sendCallbacks r
      /\ timers (rejectOne message remove i x r) = delete (timeout_of x) (timers r)
      /\ promises (rejectOne message remove i x r)
         = settle (promise_of x) (plainError message) (promises r)
      /\ pending (rejectOne message remove i x r)
         = if remove then delete i (pending r) else pending r).
    { unfold rejectOne. destruct remove; repeat split; reflexivity. }
    destruct Hfields as (E1 & E2 & E3 & E4 & E5 & E6 & E7 & Ht & Hp & Hpe).
    constructor; [congruence..| | |].
    + intros j. rewrite Hpe. destruct remove; [|done].
      destruct (decide (i = j)) as [->|Hne].
      * by rewrite lookup_delete_eq, lookup_insert_eq.
      * by rewrite lookup_delete_ne, lookup_insert_ne, rj_pending0.
    + intros c d. rewrite Ht. intros Hc.
      apply lookup_delete_Some in Hc as [_ Hc]. auto.
    + intros c. rewrite Hp. destruct (rj_promises0 c) as [[Heq Hno]|(Hs0 & Hr & j & pc & Hj & Hpc)].
      * destruct (decide (promise_of x = c)) as [Hx|Hx].
        -- destruct (promises s !! c) as [[|o]|] eqn:Hs0.
           ++ right. split; [done|]. split.
              ** subst c. apply settle_this. by rewrite Heq.
              ** exists i, x. by rewrite lookup_insert_eq.
           ++ left. split.
              ** rewrite settle_lookup, decide_True by done. subst c. by rewrite Heq.
              ** intros; discriminate.
           ++ left. split.
              ** rewrite settle_lookup, decide_True by done. subst c. by rewrite Heq.
              ** intros; discriminate.
        -- left. split; [by rewrite settle_other|].
           intros j pc Hj Hpc. apply lookup_insert_Some in Hj as [[-> ->]|[_ Hj]].
           ++ done.
           ++ eauto.
      * right. split; [done|]. split.
        -- by apply settle_settled.
        -- exists j, pc. split; [|done]. rewrite lookup_insert_ne; [done|].
           intros ->. by rewrite Hi in Hj.
Qed.

Lemma rejectPending_empty message s : pending (rejectPending message true s) = ∅.
Proof.
  apply map_eq. intros i. rewrite lookup_empty.
  rewrite (rj_pending _ _ _ _ _ (rejectPending_spec message true s) i).
  by destruct (pending s !! i).
Qed.

Lemma rejectPending_rejects message remove s i pc :
  pending s !! i = Some pc ->
  promises s !! promise_of pc = Some Pending ->
  promises (rejectPending message remove s) !! promise_of pc
  = Some (Settled (plainError message)).
Proof.
  intros Hi Hp.
  destruct (rj_promises _ _ _ _ _ (rejectPending_spec message remove s) (promise_of pc))
    as [[_ Hno]|(_ & Hr & _)]; [|done].
  by destruct (Hno i pc Hi eq_refl).
Qed.

Lemma rejectPending_settled message remove s c o :
  promises s !! c = Some (Settled o) ->
  promises (rejectPending message remove s) !! c = Some (Settled o).
Proof.
  intros Hc.
  destruct (rj_promises _ _ _ _ _ (rejectPending_spec message remove s) c)
    as [[Heq _]|(Hs0 & _)]; congruence.
Qed.

Lemma rejectPending_is_Some message remove s c :
  is_Some (promises (rejectPending message remove s) !! c) <-> is_Some (promises s !! c).
Proof.
  destruct (rj_promises _ _ _ _ _ (rejectPending_spec message remove s) c)
    as [[Heq _]|(Hs0 & Hr & _)]; [by rewrite Heq|].
  rewrite Hs0, Hr. split; eauto.
Qed.

(** *** The coherence of the pending map is kept by every handler *)

Lemma core_fields s s' :
  promises s' = promises s -> issued s' = issued s -> pending s' = pending s ->
  nextCall s' = nextCall s -> core s -> core s'.
Proof. intros Hp Hi Hpe Hn [H1 H2 H3 H4]. constructor; rewrite ?Hp, ?Hi, ?Hpe, ?Hn; auto. Qed.

Ltac same_core Hs :=
  match type of Hs with core ?s => apply (core_fields s); [reflexivity..|exact Hs] end.

Lemma core_settle_delete s s' c info o :
  issued s !! c = Some info ->
  promises s' = settle c o (promises s) ->
  pending s' = delete (call_id info) (pending s) ->
  issued s' = issued s -> nextCall s' = nextCall s ->
  core s -> core s'.
Proof.
  intros Hc Hp Hpe Hi Hn [H1 H2 H3 H4]. constructor; rewrite ?Hp, ?Hi, ?Hpe, ?Hn.
  - intros c'. rewrite settle_is_Some. auto.
  - intros c'. rewrite settle_is_Some. auto.
  - intros id pc Hid. apply lookup_delete_Some in Hid as [Hne Hid].
    destruct (H3 id pc Hid) as (Hpc & info' & Hinfo & Hcid & Hpend).
    split; [done|]. exists info'. repeat split; try done.
    intros Hw. rewrite settle_other; [auto|]. intros E. rewrite <- E in Hinfo. congruence.
  - intros c' info' Hc' Hw. destruct (H4 c' info' Hc' Hw) as [o' Ho'].
    exists o'. by apply settle_settled.
Qed.

Lemma call_core id method params timeoutMs s : core s -> core (call id method params timeoutMs s).
Proof.
  intros [H1 H2 H3 H4].
  assert (Hnew : promises s !! nextCall s = None).
  { destruct (promises s !! nextCall s) eqn:E; [|done].
    assert (nextCall s < nextCall s) by eauto. lia. }
  assert (Hnewi : issued s !! nextCall s = None).
  { destruct (issued s !! nextCall s) eqn:E; [|done].
    assert (Hx : is_Some (promises s !! nextCall s)) by eauto.
    rewrite Hnew in Hx. by destruct Hx. }
  assert (Hold : forall i pc, pending s !! i = Some pc -> promise_of pc <> nextCall s).
  { intros i pc Hi E. destruct (H3 i pc Hi) as (_ & info & Hinfo & _).
    rewrite E, Hnewi in Hinfo. done. }
  assert (Hdis : core (set_issue None []
            (set_promises (<[nextCall s := Settled (plainError "EDA bridge is not connected")]>
                             (promises s)) s))).
  { constructor; simpl.
    - intros c. destruct (decide (nextCall s = c)) as [<-|Hne]; [lia|].
      rewrite lookup_insert_ne by done. intros Hc. apply H1 in Hc. lia.
    - intros c Hc. apply H2 in Hc. rewrite lookup_insert_ne; [done|].
      intros <-. rewrite Hnew in Hc. by destruct Hc.
    - intros i pc Hi. destruct (H3 i pc Hi) as (Hpc & info & Hinfo & Hcid & Hpend).
      split; [done|]. exists info. repeat split; try done.
      intros Hw. rewrite lookup_insert_ne; [auto|]. intros E. by apply (Hold i pc).
    - intros c info Hc Hw. rewrite lookup_insert_ne; [eauto|].
      intros E. rewrite <- E, Hnewi in Hc. done. }
  unfold call. destruct (socket s) as [ws|]; [|exact Hdis].
  destruct (conn_open ws s); [|exact Hdis].
  destruct params as [p|thrown]; constructor; simpl.
  - intros c. destruct (decide (nextCall s = c)) as [<-|Hne]; [lia|].
    rewrite lookup_insert_ne by done. intros Hc. apply H1 in Hc. lia.
  - intros c. destruct (decide (nextCall s = c)) as [<-|Hne].
    + by rewrite !lookup_insert_eq.
    + rewrite !lookup_insert_ne by done. auto.
  - intros i pc Hi. apply lookup_insert_Some in Hi as [[<- <-]|[Hne Hi]].
    + split; [done|]. simpl. rewrite !lookup_insert_eq. eauto.
    + destruct (H3 i pc Hi) as (Hpc & info & Hinfo & Hcid & Hpend).
      pose proof (Hold i pc Hi).
      split; [done|]. exists info. by rewrite !lookup_insert_ne.
  - intros c info Hc Hw. apply lookup_insert_Some in Hc as [[_ <-]|[Hne Hc]];
      [discriminate|]. rewrite lookup_insert_ne by done. eauto.
  - intros c. destruct (decide (nextCall s = c)) as [<-|Hne]; [lia|].
    rewrite lookup_insert_ne by done. intros Hc. apply H1 in Hc. lia.
  - intros c. destruct (decide (nextCall s = c)) as [<-|Hne].
    + by rewrite !lookup_insert_eq.
    + rewrite !lookup_insert_ne by done. auto.
  - intros i pc Hi. apply lookup_insert_Some in Hi as [[<- <-]|[Hne Hi]].
    + split; [done|]. simpl. rewrite !lookup_insert_eq.
      eexists. split; [reflexivity|]. split; [reflexivity|]. discriminate.
    + destruct (H3 i pc Hi) as (Hpc & info & Hinfo & Hcid & Hpend).
      pose proof (Hold i pc Hi).
      split; [done|]. exists info. by rewrite !lookup_insert_ne.
  - intros c info Hc Hw. destruct (decide (nextCall s = c)) as [<-|Hne].
    + rewrite lookup_insert_eq. eauto.
    + rewrite lookup_insert_ne in Hc by done. rewrite lookup_insert_ne by done. eauto.
Qed.

Lemma onCallTimeout_core c s : core s -> core (onCallTimeout c s).
Proof.
  intros Hs. unfold onCallTimeout.
  destruct (timers s !! c) as [due|]; [|done].
  destruct (issued s !! c) as [info|] eqn:Hc; [|done].
  destruct (due <=? now s)%Z; [|done].
  by eapply (core_settle_delete s _ c info).
Qed.

Lemma onSendDone_core c err s : core s -> core (onSendDone c err s).
Proof.
  intros Hs. unfold onSendDone. case_decide; [|done].
  destruct err as [m|]; [|same_core Hs].
  destruct (issued s !! c) as [info|] eqn:Hc; [|same_core Hs].
  by eapply (core_settle_delete s _ c info).
Qed.

Lemma handleResponse_core msg s : core s -> core (handleResponse msg s).
Proof.
  intros Hs. unfold handleResponse.
  destruct (pending s !! resp_id msg) as [pc|] eqn:Hpc; [|done].
  destruct (k_pending s Hs _ _ Hpc) as (_ & info & Hinfo & Hcid & _).
  destruct (resp_error msg);
    eapply (core_settle_delete s _ (promise_of pc) info); simpl; try done;
    by rewrite Hcid.
Qed.

Lemma rejectPending_core message s s' :
  promises s' = promises (rejectPending message true s) ->
  issued s' = issued s -> nextCall s' = nextCall s -> pending s' = ∅ ->
  core s -> core s'.
Proof.
  intros Hp Hi Hn Hpe [H1 H2 H3 H4]. constructor; rewrite ?Hp, ?Hi, ?Hn, ?Hpe.
  - intros c. rewrite rejectPending_is_Some. auto.
  - intros c. rewrite rejectPending_is_Some. auto.
  - intros i pc. by rewrite lookup_empty.
  - intros c info Hc Hw. destruct (H4 c info Hc Hw) as [o Ho].
    exists o. by apply rejectPending_settled.
Qed.

Lemma rejectPending_promises_keep message s :
  promises (rejectPending message false s) = promises (rejectPending message true s).
Proof.
  apply map_eq. intros c.
  destruct (rj_promises _ _ _ _ _ (rejectPending_spec message false s) c)
    as [[E1 N1]|(P1 & R1 & X1)];
  destruct (rj_promises _ _ _ _ _ (rejectPending_spec message true s) c)
    as [[E2 N2]|(P2 & R2 & X2)]; try congruence.
  - destruct X2 as (i & pc & Hi & Hpc). by destruct (N1 i pc Hi Hpc).
  - destruct X1 as (i & pc & Hi & Hpc). by destruct (N2 i pc Hi Hpc).
Qed.

Lemma onClose_core ws s : core s -> core (onClose ws s).
Proof.
  intros Hs. unfold onClose.
  destruct (conns s !! ws) as [c|]; [|done].
  destruct (readyState c); try done;
    (eapply (rejectPending_core "Bridge disconnected");
     [reflexivity| | |apply rejectPending_empty|]);
    rewrite ?(rj_issued _ _ _ _ _ (rejectPending_spec _ _ _)),
            ?(rj_next _ _ _ _ _ (rejectPending_spec _ _ _));
    try (case_decide; reflexivity);
    (apply (core_fields s); [case_decide; reflexivity..|exact Hs]).
Qed.

Lemma close_core s : core s -> core (close s).
Proof.
  intros Hs. unfold close.
  set (s1 := stopKeepAlive s).
  assert (H1 : core s1) by same_core Hs.
  eapply (rejectPending_core "Bridge closed" s1); [| | | |exact H1].
  - destruct (socket _); simpl; apply rejectPending_promises_keep.
  - destruct (socket _); simpl;
      apply (rj_issued _ _ _ _ _ (rejectPending_spec "Bridge closed" false s1)).
  - destruct (socket _); simpl;
      apply (rj_next _ _ _ _ _ (rejectPending_spec "Bridge closed" false s1)).
  - destruct (socket _); reflexivity.
Qed.

Lemma onMessage_core ws data s : core s -> core (onMessage ws data s).
Proof.
  intros Hs. unfold onMessage.
  destruct (conns s !! ws) as [c|]; [|done].
  destruct (readyState c); try done;
    (destruct data as [j|]; [|done]);
    (destruct (negb (handshaked c));
     [destruct (parseHello j);
      [unfold acceptHello, startKeepAlive; simpl;
       destruct (socket s); simpl; same_core Hs
      |same_core Hs]
     |destruct (parseResponse j); [by apply handleResponse_core|done]]).
Qed.

Lemma onHandshakeTimeout_core ws s : core s -> core (onHandshakeTimeout ws s).
Proof.
  intros Hs. unfold onHandshakeTimeout.
  destruct (conns s !! ws) as [c|]; [|done].
  destruct (handshakeTimeout c) as [due|]; [|done].
  destruct (due <=? now s)%Z; [|done].
  destruct (negb (handshaked c)); same_core Hs.
Qed.

Lemma onKeepAliveTick_core id s : core s -> core (onKeepAliveTick id s).
Proof.
  intros Hs. unfold onKeepAliveTick.
  destruct (negb (keepAliveTimer s)); [done|].
  destruct (keepAliveInFlight s); [done|].
  destruct (socket s) as [ws|]; [|done].
  destruct (conn_open ws s); [|done].
  apply (core_fields (call id "ping" (Plain None) KEEPALIVE_PING_MS
                        (set_keepAlive (keepAliveTimer s) true s)));
    [reflexivity..|].
  apply call_core. same_core Hs.
Qed.

Lemma handle_core s ev : core s -> core (handle s ev).
Proof.
  intros Hs. destruct ev; simpl.
  - destruct (0 <=? dt)%Z; [same_core Hs|done].
  - unfold handleConnection. destruct (serverClosed s); [done|].
    destruct (conns s !! ws); [done|]. same_core Hs.
  - by apply onMessage_core.
  - by apply onHandshakeTimeout_core.
  - by apply onClose_core.
  - done.
  - by apply call_core.
  - by apply onCallTimeout_core.
  - by apply onSendDone_core.
  - by apply onKeepAliveTick_core.
  - by apply close_core.
  - same_core Hs.
Qed.

Lemma core_runFinally s : core s -> core (runFinally s).
Proof.
  destruct (runFinally_fields s) as (_ & _ & Hpe & Hp & Hi & _ & _ & Hn & _).
  by apply core_fields.
Qed.

Lemma step_consistent s ev : consistent s -> consistent (step s ev).
Proof.
  intros [Hs _]. split.
  - apply core_runFinally, handle_core, Hs.
  - apply runFinally_idem.
Qed.

Lemma new_bridge_consistent : consistent new_bridge.
Proof.
  split; [constructor; simpl|reflexivity].
  - intros c [x Hx]. by rewrite lookup_empty in Hx.
  - intros c [x Hx]. by rewrite lookup_empty in Hx.
  - intros i pc Hi. by rewrite lookup_empty in Hi.
  - intros c info Hc. by rewrite lookup_empty in Hc.
Qed.

Lemma run_consistent trace s : consistent s -> consistent (run s trace).
Proof.
  revert s. induction trace as [|ev trace IH]; simpl; [done|].
  intros s Hs. apply IH. by apply step_consistent.
Qed.

(** *** How a handler can change a promise *)

Lemma settle_change c' o ps c :
  settle c' o ps !! c = ps !! c
  \/ (c' = c /\ ps !! c = Some Pending /\ settle c' o ps !! c = Some (Settled o)).
Proof.
  rewrite settle_lookup. case_decide as E; [subst c'|by left].
  destruct (ps !! c) as [[|o']|]; [right|left|left]; done.
Qed.

Lemma call_promise id method params t s c :
  core s -> is_Some (promises s !! c) ->
  promises (call id method params t s) !! c = promises s !! c.
Proof.
  intros Hs Hc. pose proof (k_fresh s Hs c Hc) as Hlt.
  unfold call. destruct (socket s) as [ws|];
    [destruct (conn_open ws s); [destruct params|]|];
    simpl; rewrite lookup_insert_ne; done || lia.
Qed.

Lemma handle_promise s ev c :
  core s -> is_Some (promises s !! c) -> promise_step s (handle s ev) c ev.
Proof.
  intros Hs Hc. unfold promise_step. destruct ev; simpl.
  - left. by destruct (0 <=? dt)%Z.
  - left. unfold handleConnection. destruct (serverClosed s); [done|].
    by destruct (conns s !! ws).
  - unfold onMessage. destruct (conns s !! ws) as [cn|]; [|by left].
    assert (Hgo :
      match data with
      | Some j =>
          promises (if negb (handshaked cn)
                    then match parseHello j with
                         | Some hello => acceptHello ws cn hello s
                         | None => alter_conn (ws_close 4002 "Invalid hello") ws s
                         end
                    else match parseResponse j with
                         | Some msg => handleResponse msg s
                         | None => s
                         end) !! c = promises s !! c
          \/ (promises s !! c = Some Pending
              /\ (exists o,
                    promises (if negb (handshaked cn)
                              then match parseHello j with
                                   | Some hello => acceptHello ws cn hello s
                                   | None => alter_conn (ws_close 4002 "Invalid hello") ws s
                                   end
                              else match parseResponse j with
                                   | Some msg => handleResponse msg s
                                   | None => s
                                   end) !! c = Some (Settled o))
              /\ exists msg info, parseResponse j = Some msg
                                  /\ issued s !! c = Some info
                                  /\ resp_id msg = call_id info)
      | None => True
      end).
    { destruct data as [j|]; [|done].
      destruct (negb (handshaked cn)).
      - left. destruct (parseHello j); [|done].
        unfold acceptHello, startKeepAlive. simpl. by destruct (socket s).
      - destruct (parseResponse j) as [msg|] eqn:Hmsg; [|by left].
        unfold handleResponse.
        destruct (pending s !! resp_id msg) as [pc|] eqn:Hpc; [|by left].
        destruct (k_pending s Hs _ _ Hpc) as (_ & info & Hinfo & Hcid & _).
        destruct (resp_error msg) as [e|]; simpl;
          (match goal with
           | |- context [settle ?c' ?o ?ps] =>
               destruct (settle_change c' o ps c) as [Heq|(E & Hp & Hs')]
           end;
           [by left|right; subst c; split; [done|split; [eauto|]];
                    exists msg, info; by rewrite Hcid]). }
    destruct (readyState cn); try (by left);
      (destruct data as [j|]; [exact Hgo|by left]).
  - left. unfold onHandshakeTimeout. destruct (conns s !! ws) as [cn|]; [|done].
    destruct (handshakeTimeout cn) as [due|]; [|done].
    destruct (due <=? now s)%Z; [|done]. by destruct (negb (handshaked cn)).
  - unfold onClose. destruct (conns s !! ws) as [cn|]; [|by left].
    destruct (readyState cn) eqn:Hrs; try (by left);
      (match goal with
       | |- context [rejectPending ?m ?b ?s0] =>
           destruct (rj_promises _ _ _ _ _ (rejectPending_spec m b s0) c)
             as [[Heq _]|(Hp & Hr & _)];
           [left; rewrite Heq; by case_decide
           |right; split; [revert Hp; by case_decide|split; [eauto|]];
            exists cn; split; [done|congruence]]
       end).
  - by left.
  - left. by apply call_promise.
  - unfold onCallTimeout. destruct (timers s !! c0) as [due|]; [|by left].
    destruct (issued s !! c0) as [info|]; [|by left].
    destruct (due <=? now s)%Z; [|by left]. simpl.
    match goal with
    | |- context [settle ?c' ?o ?ps] =>
        destruct (settle_change c' o ps c) as [Heq|(E & Hp & Hs')]
    end; [by left|right; eauto].
  - unfold onSendDone. case_decide; [|by left].
    destruct err as [m|]; [|by left].
    destruct (issued s !! c0) as [info|]; [|by left]. simpl.
    match goal with
    | |- context [settle ?c' ?o ?ps] =>
        destruct (settle_change c' o ps c) as [Heq|(E & Hp & Hs')]
    end; [by left|right; eauto].
  - left. unfold onKeepAliveTick. destruct (negb (keepAliveTimer s)); [done|].
    destruct (keepAliveInFlight s); [done|].
    destruct (socket s) as [ws|] eqn:Hso; [|done].
    destruct (conn_open ws s) eqn:Hop; [|done]. simpl.
    rewrite call_promise; [done| |done]. by apply (core_fields s).
  - unfold close.
    destruct (rj_promises _ _ _ _ _
                (rejectPending_spec "Bridge closed" false (stopKeepAlive s)) c)
      as [[Heq _]|(Hp & Hr & _)].
    + left. by destruct (socket _).
    + right. split; [done|]. split; [|done]. exists (plainError "Bridge closed").
      by destruct (socket _).
  - by left.
Qed.

Lemma step_promise s ev c :
  consistent s -> is_Some (promises s !! c) -> promise_step s (step s ev) c ev.
Proof.
  intros [Hs _] Hc. unfold step, promise_step.
  destruct (runFinally_fields (handle s ev)) as (_ & _ & _ & -> & _).
  by apply handle_promise.
Qed.

Lemma step_settled s ev c o :
  consistent s -> promises s !! c = Some (Settled o) ->
  promises (step s ev) !! c = Some (Settled o).
Proof.
  intros Hs Hc. destruct (step_promise s ev c Hs) as [Heq|(Hp & _)]; [eauto|congruence|congruence].
Qed.

Lemma run_settled more s c o :
  consistent s -> promises s !! c = Some (Settled o) ->
  promises (run s more) !! c = Some (Settled o).
Proof.
  revert s. induction more as [|ev more IH]; simpl; [done|].
  intros s Hs Hc. apply IH; [by apply step_consistent|by apply step_settled].
Qed.

Lemma step_cause s ev c :
  consistent s -> promises s !! c = Some Pending ->
  promises (step s ev) !! c <> Some Pending -> may_complete s c ev.
Proof.
  intros Hs Hc Hn. destruct (step_promise s ev c Hs) as [Heq|(_ & _ & Hm)]; [eauto|congruence|done].
Qed.

(** *** With distinct ids, every pending call has its entry in the pending map *)

Lemma distinct_fields used used' s s' :
  (forall x, x ∈ used -> x ∈ used') ->
  promises s' = promises s -> issued s' = issued s -> pending s' = pending s ->
  ids_distinct used s -> ids_distinct used' s'.
Proof.
  intros Hu Hp Hi Hpe [H1 H2 H3]. constructor; rewrite ?Hp, ?Hi, ?Hpe; eauto.
Qed.

Lemma distinct_settle_delete used used' s s' c info o :
  (forall x, x ∈ used -> x ∈ used') ->
  issued s !! c = Some info ->
  promises s' = settle c o (promises s) ->
  pending s' = delete (call_id info) (pending s) ->
  issued s' = issued s ->
  ids_distinct used s -> ids_distinct used' s'.
Proof.
  intros Hu Hc Hp Hpe Hi [H1 H2 H3]. constructor; rewrite ?Hp, ?Hi, ?Hpe; eauto.
  intros c' info' Hc' Hpend. apply settle_pending in Hpend as [Hpend Hne].
  rewrite lookup_delete_ne; [eauto|].
  intros E. apply Hne. by apply (H2 c c' info info').
Qed.

Lemma distinct_rejected used used' message remove s s' :
  (forall x, x ∈ used -> x ∈ used') ->
  promises s' = promises (rejectPending message remove s) ->
  issued s' = issued s ->
  ids_distinct used s -> ids_distinct used' s'.
Proof.
  intros Hu Hp Hi [H1 H2 H3]. constructor; rewrite ?Hp, ?Hi; eauto.
  intros c info Hc Hpend. exfalso.
  destruct (rj_promises _ _ _ _ _ (rejectPending_spec message remove s) c)
    as [[Heq Hno]|(_ & Hr & _)]; [|congruence].
  rewrite Heq in Hpend. by apply (Hno _ _ (H3 c info Hc Hpend) eq_refl).
Qed.

Lemma call_distinct used id method params t s :
  core s -> id ∉ used -> ids_distinct used s ->
  ids_distinct (used ++ [id]) (call id method params t s).
Proof.
  intros Hs Hid Hd.
  assert (Hu : forall x, x ∈ used -> x ∈ used ++ [id]).
  { intros x Hx. apply elem_of_app. by left. }
  assert (Hnew : promises s !! nextCall s = None).
  { destruct (promises s !! nextCall s) eqn:E; [|done].
    assert (nextCall s < nextCall s) by (apply (k_fresh s Hs); eauto). lia. }
  assert (Hnewi : issued s !! nextCall s = None).
  { destruct (issued s !! nextCall s) eqn:E; [|done].
    assert (is_Some (promises s !! nextCall s)) by (apply (k_issued s Hs); eauto).
    rewrite Hnew in H. by destruct H. }
  destruct Hd as [H1 H2 H3].
  assert (Hdis : ids_distinct (used ++ [id])
            (set_issue None []
               (set_promises
                  (<[nextCall s := Settled (plainError "EDA bridge is not connected")]>
                     (promises s)) s))).
  { constructor; simpl; eauto.
    intros c info Hc Hp. apply lookup_insert_Some in Hp as [[_ ?]|[_ Hp]]; [done|eauto]. }
  unfold call. destruct (socket s) as [ws|]; [|exact Hdis].
  destruct (conn_open ws s); [|exact Hdis].
  destruct params as [p|thrown]; constructor; simpl.
  - intros c info Hc. apply lookup_insert_Some in Hc as [[_ <-]|[_ Hc]]; simpl.
    + apply elem_of_app. right. by left.
    + eauto.
  - intros c1 c2 i1 i2 Hc1 Hc2 E.
    apply lookup_insert_Some in Hc1 as [[<- <-]|[N1 Hc1]];
      apply lookup_insert_Some in Hc2 as [[<- <-]|[N2 Hc2]]; simpl in *.
    + done.
    + exfalso. apply Hid. rewrite E. eauto.
    + exfalso. apply Hid. rewrite <- E. eauto.
    + eauto.
  - intros c info Hc Hp.
    apply lookup_insert_Some in Hc as [[<- <-]|[N1 Hc]]; simpl.
    + by rewrite lookup_insert_eq.
    + rewrite lookup_insert_ne in Hp by done.
      rewrite lookup_insert_ne; [eauto|]. intros E. apply Hid. rewrite E. eauto.
  - intros c info Hc. apply lookup_insert_Some in Hc as [[_ <-]|[_ Hc]]; simpl.
    + apply elem_of_app. right. by left.
    + eauto.
  - intros c1 c2 i1 i2 Hc1 Hc2 E.
    apply lookup_insert_Some in Hc1 as [[<- <-]|[N1 Hc1]];
      apply lookup_insert_Some in Hc2 as [[<- <-]|[N2 Hc2]]; simpl in *.
    + done.
    + exfalso. apply Hid. rewrite E. eauto.
    + exfalso. apply Hid. rewrite <- E. eauto.
    + eauto.
  - intros c info Hc Hp.
    apply lookup_insert_Some in Hc as [[<- <-]|[N1 Hc]]; simpl.
    + rewrite lookup_insert_eq in Hp. discriminate.
    + rewrite lookup_insert_ne in Hp by done.
      rewrite lookup_insert_ne; [eauto|]. intros E. apply Hid. rewrite E. eauto.
Qed.

Lemma handle_distinct used s ev :
  core s -> (forall id, id ∈ drawn_id ev -> id ∉ used) ->
  ids_distinct used s -> ids_distinct (used ++ drawn_id ev) (handle s ev).
Proof.
  intros Hs Hfresh Hd.
  assert (Hu : forall x, x ∈ used -> x ∈ used ++ drawn_id ev).
  { intros x Hx. apply elem_of_app. by left. }
  assert (Hsame : forall s', promises s' = promises s -> issued s' = issued s ->
                             pending s' = pending s ->
                             ids_distinct (used ++ drawn_id ev) s').
  { intros s' ? ? ?. by apply (distinct_fields used _ s). }
  destruct ev; simpl in *.
  - destruct (0 <=? dt)%Z; (by apply Hsame).
  - unfold handleConnection. destruct (serverClosed s); [(by apply Hsame)|].
    destruct (conns s !! ws); (by apply Hsame).
  - unfold onMessage. destruct (conns s !! ws) as [cn|]; [|(by apply Hsame)].
    assert (Hgo : forall j,
      ids_distinct (used ++ [])
        (if negb (handshaked cn)
         then match parseHello j with
              | Some hello => acceptHello ws cn hello s
              | None => alter_conn (ws_close 4002 "Invalid hello") ws s
              end
         else match parseResponse j with
              | Some msg => handleResponse msg s
              | None => s
              end)).
    { intros j. destruct (negb (handshaked cn)).
      - destruct (parseHello j); [|(by apply Hsame)].
        unfold acceptHello, startKeepAlive. simpl.
        destruct (socket s); simpl; (by apply Hsame).
      - destruct (parseResponse j) as [msg|]; [|(by apply Hsame)].
        unfold handleResponse.
        destruct (pending s !! resp_id msg) as [pc|] eqn:Hpc; [|(by apply Hsame)].
        destruct (k_pending s Hs _ _ Hpc) as (_ & info & Hinfo & Hcid & _).
        destruct (resp_error msg);
          eapply (distinct_settle_delete used _ s _ (promise_of pc) info);
          simpl; try done; by rewrite Hcid. }
    destruct (readyState cn); try ((by apply Hsame));
      (destruct data as [j|]; [apply Hgo|(by apply Hsame)]).
  - unfold onHandshakeTimeout. destruct (conns s !! ws) as [cn|]; [|(by apply Hsame)].
    destruct (handshakeTimeout cn) as [due|]; [|(by apply Hsame)].
    destruct (due <=? now s)%Z; [|(by apply Hsame)].
    destruct (negb (handshaked cn)); (by apply Hsame).
  - unfold onClose. destruct (conns s !! ws) as [cn|]; [|(by apply Hsame)].
    destruct (readyState cn); try ((by apply Hsame));
      (match goal with
       | |- context [rejectPending ?m ?b ?s0] =>
           apply (distinct_rejected used _ m b s0); [exact Hu|reflexivity| |]
       end;
       [rewrite (rj_issued _ _ _ _ _ (rejectPending_spec _ _ _)); by case_decide
       |apply (distinct_fields used used s); [done|by case_decide..|exact Hd]]).
  - (by apply Hsame).
  - apply call_distinct; [done| |done]. apply Hfresh. by left.
  - unfold onCallTimeout. destruct (timers s !! c) as [due|]; [|(by apply Hsame)].
    destruct (issued s !! c) as [info|] eqn:Hc; [|(by apply Hsame)].
    destruct (due <=? now s)%Z; [|(by apply Hsame)].
    by eapply (distinct_settle_delete used _ s _ c info).
  - unfold onSendDone. case_decide; [|(by apply Hsame)].
    destruct err as [m|]; [|(by apply Hsame)].
    destruct (issued s !! c) as [info|] eqn:Hc; [|(by apply Hsame)].
    by eapply (distinct_settle_delete used _ s _ c info).
  - unfold onKeepAliveTick.
    destruct (negb (keepAliveTimer s));
      [(by apply Hsame)|].
    destruct (keepAliveInFlight s);
      [(by apply Hsame)|].
    destruct (socket s) as [ws|] eqn:Hso;
      [|(by apply Hsame)].
    destruct (conn_open ws s) eqn:Hop;
      [|(by apply Hsame)].
    eapply (distinct_fields (used ++ [id]) _
              (call id "ping" (Plain None) KEEPALIVE_PING_MS
                 (set_keepAlive (keepAliveTimer s) true s))); [done|done..|].
    apply call_distinct.
    + by apply (core_fields s).
    + apply Hfresh. by left.
    + by apply (distinct_fields used used s).
  - unfold close.
    apply (distinct_rejected used _ "Bridge closed" false (stopKeepAlive s)).
    + exact Hu.
    + by destruct (socket _).
    + destruct (socket _); simpl;
        by rewrite (rj_issued _ _ _ _ _ (rejectPending_spec _ _ _)).
    + by apply (distinct_fields used used s).
  - (by apply Hsame).
Qed.

Lemma step_distinct used s ev :
  consistent s -> (forall id, id ∈ drawn_id ev -> id ∉ used) ->
  ids_distinct used s -> ids_distinct (used ++ drawn_id ev) (step s ev).
Proof.
  intros [Hs _] Hfresh Hd. unfold step.
  destruct (runFinally_fields (handle s ev)) as (_ & _ & Hpe & Hp & Hi & _).
  eapply distinct_fields; [| | | |by apply handle_distinct]; done.
Qed.

Lemma run_distinct trace used s :
  consistent s -> NoDup (used ++ drawn_ids trace) ->
  ids_distinct used s -> ids_distinct (used ++ drawn_ids trace) (run s trace).
Proof.
  revert used s. induction trace as [|ev trace IH]; simpl; intros used s Hs Hnd Hd.
  - by rewrite app_nil_r.
  - unfold drawn_ids in *. simpl in *. rewrite app_assoc in *.
    apply IH; [by apply step_consistent|done|].
    apply step_distinct; [done| |done].
    intros id Hid Hin. apply NoDup_app in Hnd as [Hnd _].
    apply NoDup_app in Hnd as (_ & Hnd & _). by apply (Hnd id).
Qed.

Lemma new_bridge_distinct : ids_distinct [] new_bridge.
Proof. constructor; simpl; intros *; rewrite lookup_empty; discriminate. Qed.

(** *** Frames that carry a response nobody waits for *)

Lemma parseResponse_not_hello j msg : parseResponse j = Some msg -> parseHello j = None.
Proof.
  destruct j as [| | | | |f]; simpl; try discriminate.
  unfold zLiteral. destruct (jget "type" f) as [[| | |t| |]|]; try discriminate.
  destruct (String.eqb_spec t "response") as [->|]; [|discriminate]. done.
Qed.

Lemma unknown_response_handle s ws j msg :
  parseResponse j = Some msg -> pending s !! resp_id msg = None ->
  let s' := handle s (EvMessage ws (Some j)) in
  pending s' = pending s /\ promises s' = promises s /\ timers s' = timers s
  /\ (forall cn, conns s !! ws = Some cn -> handshaked cn = true -> s' = s).
Proof.
  intros Hmsg Hnone. simpl. unfold onMessage.
  destruct (conns s !! ws) as [cn|]; [|repeat split; done].
  rewrite (parseResponse_not_hello j msg Hmsg), Hmsg.
  unfold handleResponse. rewrite Hnone.
  destruct (readyState cn), (handshaked cn) eqn:Hh; simpl; repeat split; try done;
    intros ? [= <-] ?; congruence.
Qed.

Lemma call_outcome id method params timeoutMs s :
  match promises (call id method params timeoutMs s) !! nextCall s with
  | Some Pending => call_ready s = true /\ exists p, params = Plain p
  | Some (Settled o) =>
      (call_ready s = false /\ o = plainError "EDA bridge is not connected")
      \/ (call_ready s = true
          /\ exists thrown, params = Unserialisable thrown /\ o = plainError thrown)
  | None => False
  end.
Proof.
  unfold call, call_ready. destruct (socket s) as [ws|].
  - destruct (conn_open ws s); [destruct params as [p|thrown]|]; simpl;
      rewrite lookup_insert_eq; eauto.
  - simpl. rewrite lookup_insert_eq. eauto.
Qed.

(** C1, as the code has it.  In every state reached by a trace whose calls
    draw distinct ids: a settled call stays as it is whatever happens next;
    a pending call is completed only by a response with its own id, its own
    timeout, the failure of its send, the close event of any socket the
    server has accepted (not only the one the call was written to) or
    [close()]; a call is settled in the step that makes it only when no open
    peer is attached or when its request cannot be rendered as JSON;
    the pending map holds exactly the written calls not yet completed; and a
    response whose id is not in the pending map changes neither the map nor
    any call (on a connection that has completed the handshake it changes
    nothing). *)
Theorem C1_call_completion :
  forall trace, NoDup (drawn_ids trace) ->
    let s := run new_bridge trace in
    (forall more c o, promises s !! c = Some (Settled o) ->
       promises (run s more) !! c = Some (Settled o))
    /\ (forall ev c, promises s !! c = Some Pending ->
          promises (step s ev) !! c <> Some Pending -> may_complete s c ev)
    /\ (forall id method params timeoutMs,
          match promises (step s (EvCall id method params timeoutMs)) !! nextCall s with
          | Some Pending => call_ready s = true /\ exists p, params = Plain p
          | Some (Settled o) =>
              (call_ready s = false /\ o = plainError "EDA bridge is not connected")
              \/ (call_ready s = true
                  /\ exists thrown, params = Unserialisable thrown
                                    /\ o = plainError thrown)
          | None => False
          end)
    /\ (forall c info, issued s !! c = Some info ->
          if call_written info
          then promises s !! c = Some Pending
               <-> pending s !! call_id info = Some (entry_of c)
          else exists o, promises s !! c = Some (Settled o))
    /\ (forall ws j msg, parseResponse j = Some msg ->
          pending s !! resp_id msg = None ->
          let s' := step s (EvMessage ws (Some j)) in
          pending s' = pending s /\ promises s' = promises s
          /\ timers s' = timers s
          /\ (forall cn, conns s !! ws = Some cn -> handshaked cn = true -> s' = s)).
Proof.
  intros trace Hnd s.
  assert (Hs : consistent s) by apply run_consistent, new_bridge_consistent.
  assert (Hd : ids_distinct ([] ++ drawn_ids trace) s)
    by (apply run_distinct; [apply new_bridge_consistent|done|apply new_bridge_distinct]).
  split; [|split; [|split; [|split]]].
  - intros more c o. by apply run_settled.
  - intros ev c. by apply step_cause.
  - intros id method params timeoutMs. unfold step.
    destruct (runFinally_fields (handle s (EvCall id method params timeoutMs)))
      as (_ & _ & _ & -> & _).
    apply call_outcome.
  - intros c info Hc. destruct (call_written info) eqn:Hw.
    + split.
      * intros Hp. by apply (d_pending _ _ Hd).
      * intros Hpe.
        destruct (k_pending s (proj1 Hs) _ _ Hpe) as (_ & info' & Hinfo & _ & Hp).
        cbn [entry_of promise_of] in Hinfo, Hp.
        rewrite Hc in Hinfo. injection Hinfo as <-. by apply Hp.
    + by apply (k_thrown s (proj1 Hs) c info).
  - intros ws j msg Hmsg Hnone.
    destruct (unknown_response_handle s ws j msg Hmsg Hnone) as (E1 & E2 & E3 & Heq).
    cbn zeta. unfold step.
    destruct (runFinally_fields (handle s (EvMessage ws (Some j))))
      as (_ & _ & -> & -> & _ & -> & _).
    split; [exact E1|]. split; [exact E2|]. split; [exact E3|].
    intros cn Hcn Hh. rewrite (Heq cn Hcn Hh). exact (proj2 Hs).
Qed.

(** C1 on the trace in which a second peer replaces the first while the call
    with id [a] is outstanding. *)
Lemma C1_call_completion_witness :
  NoDup (drawn_ids replace_trace)
  /\ (forall c info, issued (run new_bridge replace_trace) !! c = Some info ->
        if call_written info
        then promises (run new_bridge replace_trace) !! c = Some Pending
             <-> pending (run new_bridge replace_trace) !! call_id info
                 = Some (entry_of c)
        else exists o, promises (run new_bridge replace_trace) !! c
                       = Some (Settled o)).
Proof.
  assert (Hnd : NoDup (drawn_ids replace_trace)).
  { unfold replace_trace, drawn_ids. simpl. apply NoDup_singleton. }
  split; [exact Hnd|].
  exact (proj1 (proj2 (proj2 (proj2 (C1_call_completion replace_trace Hnd))))).
Defined.

(** C1 as stated fails.  A peer has said hello on socket 1 and the call [a]
    written to it is pending; a second socket has connected and has not said
    hello.  The close event of that second socket rejects the call, although
    the connection of the call is still open and still the peer.  And a call
    whose [params] cannot be rendered as JSON is rejected when it is made:
    by no response, timeout, send failure or connection loss. *)
Lemma C1_other_causes_complete_a_call :
  NoDup (drawn_ids before_second_hello)
  /\ socket (run new_bridge before_second_hello) = Some 1
  /\ issued (run new_bridge before_second_hello) !! 0
     = Some {| call_id := "a"; call_method := "getStatus"; call_socket := 1;
               call_written := true |}
  /\ promises (run new_bridge before_second_hello) !! 0 = Some Pending
  /\ option_map handshaked (conns (run new_bridge before_second_hello) !! 2)
     = Some false
  /\ promises (step (run new_bridge before_second_hello) (EvSocketClose 2)) !! 0
     = Some (Settled (plainError "Bridge disconnected"))
  /\ socket (step (run new_bridge before_second_hello) (EvSocketClose 2)) = Some 1
  /\ conn_open 1 (step (run new_bridge before_second_hello) (EvSocketClose 2)) = true
  /\ promises (step (run new_bridge before_second_hello)
                 (EvCall "b" "setValue"
                    (Unserialisable "Do not know how to serialize a BigInt") 30000))
     !! 1
     = Some (Settled (plainError "Do not know how to serialize a BigInt")).
Proof.
  split; [unfold before_second_hello, drawn_ids; simpl; apply NoDup_singleton|].
  vm_compute. repeat split; reflexivity.
Qed.

(** *** At most one live connection *)

Lemma ws_close_not_open code reason c : readyState (ws_close code reason c) <> OPEN.
Proof. unfold ws_close. destruct (readyState c) eqn:E; simpl; congruence. Qed.

Lemma single_live_shrink s s' :
  socket s' = socket s -> (forall ws, live s' ws -> live s ws) ->
  single_live s -> single_live s'.
Proof. intros Hso Hl Hs ws Hws. rewrite Hso. auto. Qed.

Lemma live_alter (f : Conn -> Conn) ws0 s s' :
  conns s' = alter f ws0 (conns s) ->
  (forall c, handshaked (f c) = true -> readyState (f c) = OPEN ->
             handshaked c = true /\ readyState c = OPEN) ->
  forall ws, live s' ws -> live s ws.
Proof.
  intros Hc Hf ws (c & Hws & Hh & Hr). rewrite Hc in Hws.
  destruct (decide (ws0 = ws)) as [->|Hne].
  - rewrite lookup_alter_eq in Hws.
    destruct (conns s !! ws) as [c0|] eqn:E; [|discriminate].
    injection Hws as <-. destruct (Hf c0 Hh Hr). by exists c0.
  - rewrite lookup_alter_ne in Hws by done. by exists c.
Qed.

Lemma acceptHello_live ws cn hello s :
  conns s !! ws = Some cn -> single_live s -> single_live (acceptHello ws cn hello s).
Proof.
  intros Hcn Hs ws' (c & Hws & Hh & Hr).
  assert (Hso : socket (acceptHello ws cn hello s) = Some ws).
  { unfold acceptHello, startKeepAlive. simpl. by destruct (socket s). }
  rewrite Hso. f_equal. destruct (decide (ws = ws')) as [|Hne]; [done|exfalso].
  assert (Hconns : conns (acceptHello ws cn hello s)
                   = match socket s with
                     | Some old => alter (ws_close 4000 "Replaced by new connection") old
                                     (alter note_handshake ws (conns s))
                     | None => alter note_handshake ws (conns s)
                     end).
  { unfold acceptHello, startKeepAlive. simpl. by destruct (socket s). }
  rewrite Hconns in Hws.
  destruct (socket s) as [old|] eqn:Hold.
  - destruct (decide (old = ws')) as [->|Hne'].
    + rewrite lookup_alter_eq in Hws.
      destruct (alter note_handshake ws (conns s) !! ws') as [c0|]; [|discriminate].
      injection Hws as <-. by apply ws_close_not_open in Hr.
    + rewrite !lookup_alter_ne in Hws by done.
      assert (live s ws') by (by exists c). apply Hs in H. congruence.
  - rewrite lookup_alter_ne in Hws by done.
    assert (live s ws') by (by exists c). apply Hs in H. congruence.
Qed.

Lemma call_fields id method params t s :
  socket (call id method params t s) = socket s
  /\ conns (call id method params t s) = conns s.
Proof.
  unfold call. destruct (socket s) as [ws|] eqn:E;
    [destruct (conn_open ws s); [destruct params|]|];
    simpl; by rewrite ?E.
Qed.

Lemma live_same_conns s s' :
  conns s' = conns s -> forall ws, live s' ws -> live s ws.
Proof. intros Hc ws (c & Hws & Hh & Hr). exists c. by rewrite <- Hc. Qed.

Lemma handle_single_live s ev : single_live s -> single_live (handle s ev).
Proof.
  intros Hs. destruct ev; simpl.
  - destruct (0 <=? dt)%Z; [|done]. by apply (single_live_shrink s).
  - unfold handleConnection. destruct (serverClosed s); [done|].
    destruct (conns s !! ws) eqn:E; [done|].
    apply (single_live_shrink s); [done| |done].
    intros ws' (c & Hws & Hh & Hr). simpl in Hws.
    apply lookup_insert_Some in Hws as [[_ <-]|[_ Hws]]; [discriminate|by exists c].
  - unfold onMessage. destruct (conns s !! ws) as [cn|] eqn:Hcn; [|done].
    assert (Hgo : forall j,
      single_live
        (if negb (handshaked cn)
         then match parseHello j with
              | Some hello => acceptHello ws cn hello s
              | None => alter_conn (ws_close 4002 "Invalid hello") ws s
              end
         else match parseResponse j with
              | Some msg => handleResponse msg s
              | None => s
              end)).
    { intros j. destruct (negb (handshaked cn)).
      - destruct (parseHello j); [by apply acceptHello_live|].
        apply (single_live_shrink s); [done| |done].
        eapply live_alter; [reflexivity|]. intros c _ Hr.
        by apply ws_close_not_open in Hr.
      - destruct (parseResponse j) as [msg|]; [|done].
        apply (single_live_shrink s); [| |done].
        + unfold handleResponse. destruct (pending s !! _); [|done].
          by destruct (resp_error msg).
        + intros ws' (c & Hws & Hh & Hr). exists c. split; [|done].
          revert Hws. unfold handleResponse. destruct (pending s !! _); [|done].
          by destruct (resp_error msg). }
    destruct (readyState cn); try done; (destruct data as [j|]; [apply Hgo|done]).
  - unfold onHandshakeTimeout. destruct (conns s !! ws) as [cn|] eqn:Hcn; [|done].
    destruct (handshakeTimeout cn) as [due|]; [|done].
    destruct (due <=? now s)%Z; [|done].
    assert (H1 : single_live (alter_conn clear_handshakeTimeout ws s)).
    { apply (single_live_shrink s); [done| |done].
      eapply live_alter; [reflexivity|]. by intros c. }
    destruct (negb (handshaked cn)); [|done].
    apply (single_live_shrink (alter_conn clear_handshakeTimeout ws s)); [done| |done].
    eapply live_alter; [reflexivity|]. intros c _ Hr.
    by apply ws_close_not_open in Hr.
  - unfold onClose. destruct (conns s !! ws) as [cn|] eqn:Hcn; [|done].
    assert (Hgo : single_live
      (rejectPending "Bridge disconnected" true
         (if decide (socket (alter_conn mark_closed ws s) = Some ws)
          then set_client None None None
                 (set_socket None (stopKeepAlive (alter_conn mark_closed ws s)))
          else alter_conn mark_closed ws s))).
    { intros ws' (c & Hws & Hh & Hr).
      rewrite (rj_conns _ _ _ _ _ (rejectPending_spec _ _ _)) in Hws.
      rewrite (rj_socket _ _ _ _ _ (rejectPending_spec _ _ _)).
      assert (Hws' : alter mark_closed ws (conns s) !! ws' = Some c)
        by (revert Hws; by case_decide).
      destruct (decide (ws = ws')) as [->|Hne].
      - rewrite lookup_alter_eq, Hcn in Hws'. injection Hws' as <-. discriminate.
      - rewrite lookup_alter_ne in Hws' by done.
        assert (Hl : live s ws') by (by exists c). apply Hs in Hl.
        case_decide as Hd; simpl in *; congruence. }
    destruct (readyState cn); done.
  - done.
  - destruct (call_fields id method params timeoutMs s) as [E1 E2].
    apply (single_live_shrink s); [done|by apply live_same_conns|done].
  - unfold onCallTimeout. destruct (timers s !! c); [|done].
    destruct (issued s !! c); [|done]. destruct (_ <=? _)%Z; [|done].
    by apply (single_live_shrink s).
  - unfold onSendDone. case_decide; [|done].
    destruct err; [destruct (issued s !! c)|]; by apply (single_live_shrink s).
  - unfold onKeepAliveTick. destruct (negb (keepAliveTimer s)); [done|].
    destruct (keepAliveInFlight s); [done|].
    destruct (socket s) as [ws|] eqn:Hso; [|done].
    destruct (conn_open ws s) eqn:Hop; [|done].
    destruct (call_fields id "ping" (Plain None) KEEPALIVE_PING_MS
                (set_keepAlive (keepAliveTimer s) true s)) as [E1 E2].
    apply (single_live_shrink s); [exact E1|by apply live_same_conns|done].
  - intros ws' (c & Hws & Hh & Hr). exfalso.
    assert (Hconns : conns (close s)
                     = match socket s with
                       | Some ws => alter (ws_close 1000 "Bridge closed") ws (conns s)
                       | None => conns s
                       end).
    { unfold close.
      pose proof (rj_socket _ _ _ _ _
                    (rejectPending_spec "Bridge closed" false (stopKeepAlive s))) as E1.
      pose proof (rj_conns _ _ _ _ _
                    (rejectPending_spec "Bridge closed" false (stopKeepAlive s))) as E2.
      simpl in *. rewrite E1. destruct (socket s); simpl; by rewrite E2. }
    rewrite Hconns in Hws. destruct (socket s) as [ws|] eqn:Hso.
    + destruct (decide (ws = ws')) as [->|Hne].
      * rewrite lookup_alter_eq in Hws.
        destruct (conns s !! ws') as [c0|]; [|discriminate].
        injection Hws as <-. by apply ws_close_not_open in Hr.
      * rewrite lookup_alter_ne in Hws by done.
        assert (Hl : live s ws') by (by exists c). apply Hs in Hl. congruence.
    + assert (Hl : live s ws') by (by exists c). apply Hs in Hl. congruence.
  - apply (single_live_shrink s); [done| |done].
    eapply live_alter; [reflexivity|]. intros c Hh Hr. unfold peer_closing in *.
    destruct (readyState c) eqn:E; simpl in *; split; congruence.
Qed.

Lemma step_single_live s ev : single_live s -> single_live (step s ev).
Proof.
  intros Hs. unfold step.
  destruct (runFinally_fields (handle s ev)) as (Hso & _ & _ & _ & _ & _ & Hc & _).
  apply (single_live_shrink (handle s ev)); [done| |by apply handle_single_live].
  intros ws (c & Hws & Hh & Hr). exists c. by rewrite <- Hc.
Qed.

Lemma run_single_live trace s : single_live s -> single_live (run s trace).
Proof.
  revert s. induction trace as [|ev trace IH]; simpl; [done|].
  intros s Hs. apply IH. by apply step_single_live.
Qed.

Lemma new_bridge_single_live : single_live new_bridge.
Proof. intros ws (c & Hws & _). simpl in Hws. by rewrite lookup_empty in Hws. Qed.

(** *** The handshake *)

Lemma step_fields s ev :
  socket (step s ev) = socket (handle s ev)
  /\ clientHello (step s ev) = clientHello (handle s ev)
  /\ pending (step s ev) = pending (handle s ev)
  /\ promises (step s ev) = promises (handle s ev)
  /\ conns (step s ev) = conns (handle s ev).
Proof.
  unfold step. destruct (runFinally_fields (handle s ev))
    as (-> & -> & -> & -> & _ & _ & -> & _). done.
Qed.

(** C4, as the code has it.  A new inbound connection starts a watchdog due
    5000 ms later and creates no Connection.  While the handshake is open: a
    frame that is not JSON is ignored; a JSON frame that is not a hello
    closes the socket with code 4002, reason Invalid hello; the watchdog
    closes it with code 4001, reason Handshake timeout.  None of the three
    changes the active socket or the client identity. *)
Theorem C4_handshake_watchdog :
  (forall s ws addr, serverClosed s = false -> conns s !! ws = None ->
     let s' := step s (EvConnection ws addr) in
     conns s' !! ws
     = Some {| handshaked := false; handshakeTimeout := Some (now s + 5000)%Z;
               readyState := OPEN; closeSent := None; peerAddress := addr |}
     /\ socket s' = socket s /\ clientHello s' = clientHello s)
  /\ (forall s ws, handle s (EvMessage ws None) = s)
  /\ (forall s ws cn j, conns s !! ws = Some cn -> handshaked cn = false ->
        readyState cn = OPEN -> parseHello j = None ->
        let s' := step s (EvMessage ws (Some j)) in
        (exists cn', conns s' !! ws = Some cn' /\ handshaked cn' = false
                     /\ readyState cn' = CLOSING
                     /\ closeSent cn' = Some (4002%Z, "Invalid hello"))
        /\ socket s' = socket s /\ clientHello s' = clientHello s)
  /\ (forall s ws cn due, conns s !! ws = Some cn -> handshaked cn = false ->
        readyState cn = OPEN -> handshakeTimeout cn = Some due -> (due <= now s)%Z ->
        let s' := step s (EvHandshakeTimeout ws) in
        (exists cn', conns s' !! ws = Some cn' /\ handshaked cn' = false
                     /\ readyState cn' = CLOSING
                     /\ closeSent cn' = Some (4001%Z, "Handshake timeout"))
        /\ socket s' = socket s /\ clientHello s' = clientHello s).
Proof.
  split; [|split; [|split]].
  - intros s ws addr H H0 s'. subst s'.
    destruct (step_fields s (EvConnection ws addr)) as (-> & -> & _ & _ & ->).
    simpl. unfold handleConnection. rewrite H, H0. simpl.
    by rewrite lookup_insert_eq.
  - intros s ws. simpl. unfold onMessage. destruct (conns s !! ws) as [cn|]; [|done].
    by destruct (readyState cn).
  - intros s ws cn j H H0 H1 H2 s'. subst s'.
    destruct (step_fields s (EvMessage ws (Some j))) as (-> & -> & _ & _ & ->).
    simpl. unfold onMessage. rewrite H, H0, H1, H2. simpl.
    rewrite lookup_alter_eq, H. simpl. split; [|done].
    eexists. split; [reflexivity|].
    unfold ws_close. rewrite H1. simpl. by rewrite H0.
  - intros s ws cn due H H0 H1 H2 H3 s'. subst s'.
    destruct (step_fields s (EvHandshakeTimeout ws)) as (-> & -> & _ & _ & ->).
    simpl. unfold onHandshakeTimeout. rewrite H, H2, H0.
    apply Z.leb_le in H3. rewrite H3. simpl.
    rewrite !lookup_alter_eq, H. simpl. split; [|done].
    eexists. split; [reflexivity|].
    unfold ws_close. simpl. rewrite H1. simpl. by rewrite H0.
Qed.

(** C4 on a fresh server: the first connection, a frame that is not a hello
    on it, and its watchdog 5000 ms later. *)
Lemma C4_handshake_watchdog_witness :
  conns (step new_bridge (EvConnection 1 None)) !! 1
  = Some {| handshaked := false; handshakeTimeout := Some (now new_bridge + 5000)%Z;
            readyState := OPEN; closeSent := None; peerAddress := None |}
  /\ socket (step (run new_bridge [EvConnection 1 None])
               (EvMessage 1 (Some (JStr "hi"))))
     = socket (run new_bridge [EvConnection 1 None])
  /\ socket (step (run new_bridge [EvConnection 1 None; EvAdvance 5000])
               (EvHandshakeTimeout 1))
     = socket (run new_bridge [EvConnection 1 None; EvAdvance 5000]).
Proof.
  split; [|split].
  - exact (proj1 (proj1 C4_handshake_watchdog new_bridge 1 None eq_refl eq_refl)).
  - exact (proj1 (proj2
             (proj1 (proj2 (proj2 C4_handshake_watchdog))
                (run new_bridge [EvConnection 1 None]) 1
                {| handshaked := false; handshakeTimeout := Some 5000%Z;
                   readyState := OPEN; closeSent := None; peerAddress := None |}
                (JStr "hi")
                ltac:(vm_compute; reflexivity) eq_refl eq_refl eq_refl))).
  - exact (proj1 (proj2
             (proj2 (proj2 (proj2 C4_handshake_watchdog))
                (run new_bridge [EvConnection 1 None; EvAdvance 5000]) 1
                {| handshaked := false; handshakeTimeout := Some 5000%Z;
                   readyState := OPEN; closeSent := None; peerAddress := None |}
                5000%Z
                ltac:(vm_compute; reflexivity) eq_refl eq_refl eq_refl
                ltac:(vm_compute; discriminate)))).
Defined.

(** C4 as stated fails.  The watchdog is due after 5000 ms, not 8000: a
    socket that sent no hello is closed at that time.  And a first frame that
    is not JSON does not end the handshake: a hello sent after it creates the
    Connection. *)
Lemma C4_watchdog_is_5s_and_garbage_is_skipped :
  (handshakeTimeout <$> conns (run new_bridge [EvConnection 1 None]) !! 1)
  = Some (Some 5000%Z)
  /\ (closeSent <$> conns (run new_bridge [EvConnection 1 None; EvAdvance 5000;
                                           EvHandshakeTimeout 1]) !! 1)
     = Some (Some (4001%Z, "Handshake timeout"))
  /\ socket (run new_bridge garbage_then_hello) = Some 1
  /\ (closeSent <$> conns (run new_bridge garbage_then_hello) !! 1) = Some None.
Proof. vm_compute. repeat split; reflexivity. Qed.

(** *** Replacement of the active connection *)

Lemma onClose_drains s ws cn :
  conns s !! ws = Some cn -> readyState cn <> CLOSED ->
  pending (onClose ws s) = ∅
  /\ (forall id pc, pending s !! id = Some pc ->
        promises s !! promise_of pc = Some Pending ->
        promises (onClose ws s) !! promise_of pc
        = Some (Settled (plainError "Bridge disconnected")))
  /\ (socket s <> Some ws -> socket (onClose ws s) = socket s).
Proof.
  intros Hcn Hr. unfold onClose. rewrite Hcn.
  assert (Hgo : forall s2, pending s2 = pending s -> promises s2 = promises s ->
    pending (rejectPending "Bridge disconnected" true s2) = ∅
    /\ (forall id pc, pending s !! id = Some pc ->
          promises s !! promise_of pc = Some Pending ->
          promises (rejectPending "Bridge disconnected" true s2) !! promise_of pc
          = Some (Settled (plainError "Bridge disconnected")))).
  { intros s2 Hpe Hp. split; [apply rejectPending_empty|].
    intros id pc Hid Hpc. apply (rejectPending_rejects _ _ _ id); by rewrite ?Hpe, ?Hp. }
  destruct (readyState cn); [| |done];
    (split; [|split];
     [apply Hgo; by case_decide
     |apply Hgo; by case_decide
     |intros Hne; rewrite (rj_socket _ _ _ _ _ (rejectPending_spec _ _ _));
      by rewrite decide_False]).
Qed.

(** C2, as the code has it.  A valid hello on a new socket while another
    connection is active closes the prior socket with code 4000, reason
    Replaced by new connection, and makes the new socket the active, live
    one; it leaves the pending map and every call as they were.  The pending
    calls are rejected with Bridge disconnected by the close event of a
    socket, which empties the map.  In every reachable state a live
    connection is the active one, so there is at most one. *)
Theorem C2_replacement :
  (forall s ws old cn cold j hello,
     socket s = Some old -> ws <> old ->
     conns s !! old = Some cold -> readyState cold = OPEN ->
     conns s !! ws = Some cn -> handshaked cn = false -> readyState cn = OPEN ->
     parseHello j = Some hello ->
     let s' := step s (EvMessage ws (Some j)) in
     socket s' = Some ws /\ clientHello s' = Some hello /\ live s' ws
     /\ (exists cold', conns s' !! old = Some cold' /\ readyState cold' = CLOSING
                       /\ closeSent cold' = Some (4000%Z, "Replaced by new connection"))
     /\ pending s' = pending s /\ promises s' = promises s)
  /\ (forall s ws cn, conns s !! ws = Some cn -> readyState cn <> CLOSED ->
        let s' := step s (EvSocketClose ws) in
        pending s' = ∅
        /\ forall id pc, pending s !! id = Some pc ->
             promises s !! promise_of pc = Some Pending ->
             promises s' !! promise_of pc
             = Some (Settled (plainError "Bridge disconnected")))
  /\ (forall trace ws1 ws2,
        live (run new_bridge trace) ws1 -> live (run new_bridge trace) ws2 ->
        ws1 = ws2 /\ socket (run new_bridge trace) = Some ws1).
Proof.
  split; [|split].
  - intros s ws old cn cold j hello Hso Hne Hold Hopen Hcn Hh Hr Hj s'.
    destruct (step_fields s (EvMessage ws (Some j))) as (E1 & E2 & E3 & E4 & E5).
    assert (Hh' : handle s (EvMessage ws (Some j)) = acceptHello ws cn hello s).
    { simpl. unfold onMessage. by rewrite Hcn, Hr, Hh, Hj. }
    subst s'. unfold live. rewrite E1, E2, E3, E4, E5, Hh'.
    unfold acceptHello, startKeepAlive. simpl. rewrite Hso. simpl.
    repeat split.
    + exists (note_handshake cn). rewrite lookup_alter_ne, lookup_alter_eq, Hcn by done.
      simpl. by rewrite Hr.
    + exists (ws_close 4000 "Replaced by new connection" cold).
      rewrite lookup_alter_eq, lookup_alter_ne, Hold by done.
      simpl. unfold ws_close. rewrite Hopen. done.
  - intros s ws cn Hcn Hr s'.
    destruct (step_fields s (EvSocketClose ws)) as (_ & _ & E3 & E4 & _).
    subst s'. rewrite E3, E4. simpl.
    destruct (onClose_drains s ws cn Hcn Hr) as (H1 & H2 & _). by split.
  - intros trace ws1 ws2 H1 H2.
    pose proof (run_single_live trace new_bridge new_bridge_single_live) as Hl.
    pose proof (Hl ws1 H1). pose proof (Hl ws2 H2). split; congruence.
Qed.

(** C2 where peer 2 says hello while peer 1 is active with the call [a]
    outstanding, and where socket 1 then emits its close event. *)
Lemma C2_replacement_witness :
  (socket (step (run new_bridge before_second_hello) (EvMessage 2 (Some helloFrame)))
   = Some 2
   /\ pending (step (run new_bridge before_second_hello) (EvMessage 2 (Some helloFrame)))
      = pending (run new_bridge before_second_hello))
  /\ pending (step (run new_bridge replace_trace) (EvSocketClose 1)) = ∅.
Proof.
  split.
  - pose proof (proj1 C2_replacement (run new_bridge before_second_hello) 2 1
                  {| handshaked := false; handshakeTimeout := Some 5000%Z;
                     readyState := OPEN; closeSent := None; peerAddress := None |}
                  {| handshaked := true; handshakeTimeout := None;
                     readyState := OPEN; closeSent := None; peerAddress := None |}
                  helloFrame {| hello_token := None; hello_app := None |}
                  ltac:(vm_compute; reflexivity) ltac:(discriminate)
                  ltac:(vm_compute; reflexivity) eq_refl
                  ltac:(vm_compute; reflexivity) eq_refl eq_refl
                  ltac:(vm_compute; reflexivity)) as (H1 & _ & _ & _ & H2 & _).
    split; [exact H1|exact H2].
  - pose proof (proj1 (proj2 C2_replacement) (run new_bridge replace_trace) 1
                  {| handshaked := true; handshakeTimeout := None;
                     readyState := CLOSING;
                     closeSent := Some (4000%Z, "Replaced by new connection");
                     peerAddress := None |}
                  ltac:(vm_compute; reflexivity) ltac:(discriminate)) as (H3 & _).
    exact H3.
Defined.

(** C2 as stated fails: after the hello of peer 2 the call [a] made to peer 1
    is still pending, not rejected; a response that peer 1 still delivers
    then resolves it. *)
Lemma C2_hello_leaves_calls_pending :
  socket (run new_bridge replace_trace) = Some 2
  /\ pending (run new_bridge replace_trace) !! "a" = Some (entry_of 0)
  /\ promises (run new_bridge replace_trace) !! 0 = Some Pending
  /\ promises (run new_bridge
                 (replace_trace ++ [EvMessage 1 (Some (resultFrame "a" JNull))])) !! 0
     = Some (Settled (Resolved (Some JNull))).
Proof. vm_compute. repeat split; reflexivity. Qed.

(** C10.  When a socket other than the active one emits its close event, the
    active socket stays, the pending map is emptied, and every pending call
    made on the active connection is rejected with Bridge disconnected. *)
Theorem C10_close_of_replaced_socket_drains_all :
  forall s old new cold,
    socket s = Some new -> old <> new ->
    conns s !! old = Some cold -> readyState cold <> CLOSED ->
    let s' := step s (EvSocketClose old) in
    socket s' = Some new /\ pending s' = ∅
    /\ forall c info, issued s !! c = Some info -> call_socket info = new ->
         pending s !! call_id info = Some (entry_of c) ->
         promises s !! c = Some Pending ->
         promises s' !! c = Some (Settled (plainError "Bridge disconnected")).
Proof.
  intros s old new cold Hso Hne Hold Hr s'.
  destruct (step_fields s (EvSocketClose old)) as (E1 & _ & E3 & E4 & _).
  subst s'. rewrite E1, E3, E4. simpl.
  destruct (onClose_drains s old cold Hold Hr) as (H1 & H2 & H3).
  split; [|split; [exact H1|]].
  - rewrite H3; [done|]. rewrite Hso. congruence.
  - intros c info _ _ Hpe Hp. exact (H2 _ _ Hpe Hp).
Qed.

(** C10 after peer 2 replaced peer 1 and the call [b] was made to peer 2:
    the close event of socket 1 rejects [b]. *)
Lemma C10_close_of_replaced_socket_witness :
  socket (step (run new_bridge replaced_then_call) (EvSocketClose 1)) = Some 2
  /\ promises (step (run new_bridge replaced_then_call) (EvSocketClose 1)) !! 1
     = Some (Settled (plainError "Bridge disconnected")).
Proof.
  pose proof (C10_close_of_replaced_socket_drains_all
                (run new_bridge replaced_then_call) 1 2
                {| handshaked := true; handshakeTimeout := None;
                   readyState := CLOSING;
                   closeSent := Some (4000%Z, "Replaced by new connection");
                   peerAddress := None |}
                ltac:(vm_compute; reflexivity) ltac:(discriminate)
                ltac:(vm_compute; reflexivity) ltac:(discriminate))
    as (H1 & _ & H2).
  split; [exact H1|].
  exact (H2 1 {| call_id := "b"; call_method := "ping"; call_socket := 2 |}
           ltac:(vm_compute; reflexivity) eq_refl
           ltac:(vm_compute; reflexivity) ltac:(vm_compute; reflexivity)).
Defined.

(** *** Further properties of the bridge *)

Lemma runFinally_more s :
  sent (runFinally s) = sent s /\ sendCallbacks (runFinally s) = sendCallbacks s
  /\ keepAliveTimer (runFinally s) = keepAliveTimer s
  /\ connectedAt (runFinally s) = connectedAt s
  /\ remoteAddress (runFinally s) = remoteAddress s
  /\ serverClosed (runFinally s) = serverClosed s.
Proof. unfold runFinally. case_decide; repeat split; reflexivity. Qed.

Lemma rejectPending_frame message remove s :
  connectedAt (rejectPending message remove s) = connectedAt s
  /\ remoteAddress (rejectPending message remove s) = remoteAddress s
  /\ keepAliveTimer (rejectPending message remove s) = keepAliveTimer s
  /\ keepAliveInFlight (rejectPending message remove s) = keepAliveInFlight s
  /\ now (rejectPending message remove s) = now s
  /\ serverClosed (rejectPending message remove s) = serverClosed s
  /\ sent (rejectPending message remove s) = sent s.
Proof.
  unfold rejectPending.
  apply (map_fold_weak_ind
           (fun r (_ : gmap string PendingCall) =>
              connectedAt r = connectedAt s /\ remoteAddress r = remoteAddress s
              /\ keepAliveTimer r = keepAliveTimer s
              /\ keepAliveInFlight r = keepAliveInFlight s
              /\ now r = now s /\ serverClosed r = serverClosed s
              /\ sent r = sent s)).
  - repeat split.
  - intros i x m r _ IH. unfold rejectOne. destruct remove; exact IH.
Qed.

Lemma rejectPending_timers message remove s :
  (forall i pc, pending s !! i = Some pc ->
     timers (rejectPending message remove s) !! timeout_of pc = None)
  /\ (forall c, (forall i pc, pending s !! i = Some pc -> timeout_of pc <> c) ->
        timers (rejectPending message remove s) !! c = timers s !! c).
Proof.
  unfold rejectPending.
  apply (map_fold_weak_ind
           (fun r (m : gmap string PendingCall) =>
              (forall i pc, m !! i = Some pc -> timers r !! timeout_of pc = None)
              /\ (forall c, (forall i pc, m !! i = Some pc -> timeout_of pc <> c) ->
                    timers r !! c = timers s !! c))).
  - split; [intros i pc Hi; by rewrite lookup_empty in Hi|done].
  - intros i x m r Hi [IH1 IH2].
    assert (Ht : timers (rejectOne message remove i x r) = delete (timeout_of x) (timers r)).
    { unfold rejectOne. by destruct remove. }
    rewrite Ht. split.
    + intros j pc Hj. apply lookup_insert_Some in Hj as [[-> ->]|[Hne Hj]].
      * by rewrite lookup_delete_eq.
      * destruct (decide (timeout_of x = timeout_of pc)) as [E|E].
        -- by rewrite E, lookup_delete_eq.
        -- rewrite lookup_delete_ne by done. eauto.
    + intros c Hc.
      rewrite lookup_delete_ne by (apply (Hc i x); by rewrite lookup_insert_eq).
      apply IH2. intros j pc Hj. apply (Hc j pc).
      rewrite lookup_insert_ne; [done|]. intros ->. by rewrite Hi in Hj.
Qed.

(** X1.  A call made while no open peer socket is attached fails at once:
    its promise is rejected with "EDA bridge is not connected", no frame is
    written, no timeout is armed and the pending map is left as it was. *)
Theorem call_without_peer_is_rejected :
  forall s id method params timeoutMs,
    call_ready s = false ->
    let s' := step s (EvCall id method params timeoutMs) in
    promises s' !! nextCall s
    = Some (Settled (plainError "EDA bridge is not connected"))
    /\ pending s' = pending s /\ timers s' = timers s /\ issued s' = issued s
    /\ sent s' = sent s /\ sendCallbacks s' = sendCallbacks s.
Proof.
  intros s id method params timeoutMs Hready s'. subst s'. unfold step.
  destruct (runFinally_fields (handle s (EvCall id method params timeoutMs)))
    as (_ & _ & -> & -> & -> & -> & _).
  destruct (runFinally_more (handle s (EvCall id method params timeoutMs)))
    as (-> & -> & _).
  unfold call_ready in Hready. cbn [handle]. unfold call.
  destruct (socket s) as [ws|]; [rewrite Hready|]; simpl;
    by rewrite lookup_insert_eq.
Qed.

(** X1 on a bridge that no peer has connected to. *)
Lemma call_without_peer_is_rejected_witness :
  promises (step new_bridge (EvCall "a" "ping" (Plain None) 1000)) !! nextCall new_bridge
  = Some (Settled (plainError "EDA bridge is not connected"))
  /\ pending (step new_bridge (EvCall "a" "ping" (Plain None) 1000)) = pending new_bridge.
Proof.
  pose proof (call_without_peer_is_rejected new_bridge "a" "ping" (Plain None) 1000 eq_refl)
    as (H1 & H2 & _).
  exact (conj H1 H2).
Defined.

Lemma close_fields s :
  let r := rejectPending "Bridge closed" false (stopKeepAlive s) in
  pending (close s) = ∅ /\ socket (close s) = None /\ clientHello (close s) = None
  /\ connectedAt (close s) = None /\ remoteAddress (close s) = None
  /\ keepAliveTimer (close s) = keepAliveTimer r /\ serverClosed (close s) = true
  /\ promises (close s) = promises r /\ timers (close s) = timers r
  /\ conns (close s)
     = match socket s with
       | Some ws => alter (ws_close 1000 "Bridge closed") ws (conns s)
       | None => conns s
       end.
Proof.
  intros r. unfold close. fold r.
  pose proof (rejectPending_spec "Bridge closed" false (stopKeepAlive s)) as Hr.
  fold r in Hr.
  assert (Hsock : socket (set_pending ∅ r) = socket s)
    by apply (rj_socket _ _ _ _ _ Hr).
  assert (Hconns : conns r = conns s) by apply (rj_conns _ _ _ _ _ Hr).
  rewrite Hsock. destruct (socket s) as [ws|].
  - repeat split. unfold alter_conn. cbn [conns set_serverClosed set_client set_socket set_conns set_pending].
    by rewrite Hconns.
  - repeat split. exact Hconns.
Qed.

(** X2.  [close()] rejects every pending call with "Bridge closed", empties
    the pending map, starts the closing handshake of the active socket with
    code 1000, forgets the peer, stops the keepalive, and makes the server
    accept no further connection. *)
Theorem close_rejects_every_pending_call :
  forall s,
    let s' := step s EvBridgeClose in
    (pending s' = ∅ /\ socket s' = None /\ clientHello s' = None
     /\ connectedAt s' = None /\ remoteAddress s' = None
     /\ keepAliveTimer s' = false /\ serverClosed s' = true)
    /\ (forall id pc, pending s !! id = Some pc ->
          promises s !! promise_of pc = Some Pending ->
          promises s' !! promise_of pc = Some (Settled (plainError "Bridge closed"))
          /\ timers s' !! timeout_of pc = None)
    /\ (forall ws cn, socket s = Some ws -> conns s !! ws = Some cn ->
          readyState cn = OPEN ->
          exists cn', conns s' !! ws = Some cn' /\ readyState cn' = CLOSING
                      /\ closeSent cn' = Some (1000%Z, "Bridge closed"))
    /\ (forall ws addr, step s' (EvConnection ws addr) = s').
Proof.
  intros s s'.
  destruct (close_fields s) as (C1 & C2 & C3 & C4 & C5 & C6 & C7 & C8 & C9 & C10).
  assert (Hs' : s' = runFinally (close s)) by reflexivity.
  destruct (runFinally_fields (close s)) as (E1 & E2 & E3 & E4 & _ & E6 & E7 & _).
  destruct (runFinally_more (close s)) as (_ & _ & E8 & E9 & E10 & E11).
  rewrite <- Hs' in E1, E2, E3, E4, E6, E7, E8, E9, E10, E11.
  destruct (rejectPending_frame "Bridge closed" false (stopKeepAlive s))
    as (_ & _ & Hk & _).
  destruct (rejectPending_timers "Bridge closed" false (stopKeepAlive s)) as [Ht _].
  split; [|split; [|split]].
  - rewrite E1, E2, E3, E8, E9, E10, E11, C1, C2, C3, C4, C5, C6, C7, Hk.
    repeat split; reflexivity.
  - intros id pc Hid Hp. rewrite E4, E6, C8, C9. split.
    + by apply (rejectPending_rejects _ _ (stopKeepAlive s) id pc).
    + by apply (Ht id pc).
  - intros ws cn Hws Hcn Hopen. rewrite E7, C10, Hws, lookup_alter_eq, Hcn.
    exists (ws_close 1000 "Bridge closed" cn). split; [done|].
    unfold ws_close. rewrite Hopen. by split.
  - intros ws addr. unfold step at 1. cbn [handle]. unfold handleConnection.
    rewrite E11, C7, Hs'. apply runFinally_idem.
Qed.

(** X2 on a bridge with one outstanding call. *)
Lemma close_rejects_every_pending_call_witness :
  promises (step (run new_bridge one_call_trace) EvBridgeClose) !! 0
  = Some (Settled (plainError "Bridge closed"))
  /\ timers (step (run new_bridge one_call_trace) EvBridgeClose) !! 0 = None.
Proof.
  exact (proj1 (proj2 (close_rejects_every_pending_call (run new_bridge one_call_trace)))
           "a" (entry_of 0) ltac:(vm_compute; reflexivity)
           ltac:(vm_compute; reflexivity)).
Defined.

Lemma onCallTimeout_fires s c info due :
  issued s !! c = Some info -> timers s !! c = Some due -> (due <= now s)%Z ->
  onCallTimeout c s
  = set_promises
      (settle c (plainError ("Bridge call timeout: " +:+ call_method info)) (promises s))
      (set_pending (delete (call_id info) (pending s))
         (set_timers (delete c (timers s)) s)).
Proof.
  intros Hi Ht Hdue. unfold onCallTimeout. rewrite Ht, Hi.
  apply Z.leb_le in Hdue. by rewrite Hdue.
Qed.

(** X3.  When the timeout of a pending call fires, the call is rejected with
    "Bridge call timeout: <method>" and its entry and timer are removed; a
    response that arrives afterwards with the id of that call, on whatever
    socket, changes no promise, no pending entry and no timer. *)
Theorem timed_out_call_ignores_late_response :
  forall s c info due,
    issued s !! c = Some info -> timers s !! c = Some due -> (due <= now s)%Z ->
    promises s !! c = Some Pending ->
    let s' := step s (EvCallTimeout c) in
    promises s' !! c
    = Some (Settled (plainError ("Bridge call timeout: " +:+ call_method info)))
    /\ pending s' !! call_id info = None /\ timers s' !! c = None
    /\ (forall ws j msg, parseResponse j = Some msg -> resp_id msg = call_id info ->
          promises (step s' (EvMessage ws (Some j))) = promises s'
          /\ pending (step s' (EvMessage ws (Some j))) = pending s'
          /\ timers (step s' (EvMessage ws (Some j))) = timers s').
Proof.
  intros s c info due Hi Ht Hdue Hp s'.
  assert (Hs' : s' = runFinally (onCallTimeout c s)) by reflexivity.
  destruct (runFinally_fields (onCallTimeout c s)) as (_ & _ & E3 & E4 & _ & E6 & _).
  rewrite <- Hs' in E3, E4, E6.
  rewrite (onCallTimeout_fires s c info due Hi Ht Hdue) in E3, E4, E6.
  cbn [pending promises timers set_promises set_pending set_timers] in E3, E4, E6.
  assert (Hgone : pending s' !! call_id info = None)
    by (rewrite E3; apply lookup_delete_eq).
  split; [|split; [exact Hgone|split]].
  - rewrite E4. by apply settle_this.
  - rewrite E6. apply lookup_delete_eq.
  - intros ws j msg Hj Hid.
    destruct (runFinally_fields (handle s' (EvMessage ws (Some j))))
      as (_ & _ & F3 & F4 & _ & F6 & _).
    unfold step. rewrite F3, F4, F6.
    rewrite <- Hid in Hgone.
    destruct (unknown_response_handle s' ws j msg Hj Hgone) as (H1 & H2 & H3 & _).
    by rewrite H1, H2, H3.
Qed.

(** X3 for the call of [one_call_trace], 30 s later. *)
Lemma timed_out_call_ignores_late_response_witness :
  promises (step (run new_bridge call_due_trace) (EvCallTimeout 0)) !! 0
  = Some (Settled (plainError ("Bridge call timeout: " +:+ "getStatus")))
  /\ pending (step (run new_bridge call_due_trace) (EvCallTimeout 0)) !! "a" = None.
Proof.
  pose proof (timed_out_call_ignores_late_response
                (run new_bridge call_due_trace) 0
                {| call_id := "a"; call_method := "getStatus"; call_socket := 1 |}
                30000%Z
                ltac:(vm_compute; reflexivity) ltac:(vm_compute; reflexivity)
                ltac:(vm_compute; discriminate) ltac:(vm_compute; reflexivity))
    as (H1 & H2 & _).
  exact (conj H1 H2).
Defined.

Lemma onMessage_response s ws cn j msg :
  conns s !! ws = Some cn -> handshaked cn = true -> readyState cn <> CLOSED ->
  parseResponse j = Some msg ->
  onMessage ws (Some j) s = handleResponse msg s.
Proof.
  intros Hcn Hh Hr Hj. unfold onMessage. rewrite Hcn, Hh, Hj.
  by destruct (readyState cn).
Qed.

Lemma handleResponse_fields msg s pc :
  pending s !! resp_id msg = Some pc ->
  promises (handleResponse msg s)
  = settle (promise_of pc) (outcome_of msg) (promises s)
  /\ pending (handleResponse msg s) = delete (resp_id msg) (pending s)
  /\ timers (handleResponse msg s) = delete (timeout_of pc) (timers s)
  /\ socket (handleResponse msg s) = socket s
  /\ keepAliveCalls (handleResponse msg s) = keepAliveCalls s.
Proof.
  intros Hpc. unfold handleResponse, outcome_of. rewrite Hpc.
  by destruct (resp_error msg).
Qed.

(** X4.  A frame that satisfies the response schema and carries the id of a
    pending call completes that call, whichever handshaked socket delivers
    it: with the peer's message, code and data when the frame has an [error]
    (even if it also has a [result]), with the result otherwise.  The entry
    and the timeout of the call are removed. *)
Theorem response_settles_its_call :
  forall s ws cn j msg pc,
    conns s !! ws = Some cn -> handshaked cn = true -> readyState cn <> CLOSED ->
    parseResponse j = Some msg -> pending s !! resp_id msg = Some pc ->
    promises s !! promise_of pc = Some Pending ->
    let s' := step s (EvMessage ws (Some j)) in
    promises s' !! promise_of pc = Some (Settled (outcome_of msg))
    /\ pending s' = delete (resp_id msg) (pending s)
    /\ timers s' = delete (timeout_of pc) (timers s)
    /\ socket s' = socket s.
Proof.
  intros s ws cn j msg pc Hcn Hh Hr Hj Hpc Hp s'.
  assert (Hs' : s' = runFinally (handleResponse msg s)).
  { subst s'. unfold step. cbn [handle].
    by rewrite (onMessage_response s ws cn j msg). }
  destruct (runFinally_fields (handleResponse msg s))
    as (E1 & _ & E3 & E4 & _ & E6 & _).
  rewrite <- Hs' in E1, E3, E4, E6.
  destruct (handleResponse_fields msg s pc Hpc) as (F1 & F2 & F3 & F4 & _).
  rewrite E1, E3, E4, E6, F1, F2, F3, F4.
  split; [by apply settle_this|done].
Qed.

(** X4 for a response to the call of [one_call_trace]. *)
Lemma response_settles_its_call_witness :
  promises (step (run new_bridge one_call_trace)
              (EvMessage 1 (Some (resultFrame "a" JNull)))) !! 0
  = Some (Settled (Resolved (Some JNull))).
Proof.
  exact (proj1 (response_settles_its_call (run new_bridge one_call_trace) 1
                  {| handshaked := true; handshakeTimeout := None; readyState := OPEN;
                     closeSent := None; peerAddress := None |}
                  (resultFrame "a" JNull)
                  {| resp_id := "a"; resp_result := Some JNull; resp_error := None |}
                  (entry_of 0)
                  ltac:(vm_compute; reflexivity) eq_refl ltac:(discriminate)
                  ltac:(vm_compute; reflexivity) ltac:(vm_compute; reflexivity)
                  ltac:(vm_compute; reflexivity))).
Defined.

Lemma parseHello_not_response j hello :
  parseHello j = Some hello -> parseResponse j = None.
Proof.
  intros Hh. destruct (parseResponse j) as [msg|] eqn:Hr; [|done].
  apply parseResponse_not_hello in Hr. congruence.
Qed.

(** X5.  Once a connection has completed the handshake, a frame that does
    not satisfy the response schema changes nothing at all; in particular a
    second hello on the same socket is dropped and the stored hello of the
    peer stays. *)
Theorem frame_after_handshake_is_dropped :
  forall trace ws cn j,
    conns (run new_bridge trace) !! ws = Some cn -> handshaked cn = true ->
    (parseResponse j = None \/ exists hello, parseHello j = Some hello) ->
    step (run new_bridge trace) (EvMessage ws (Some j)) = run new_bridge trace.
Proof.
  intros trace ws cn j Hcn Hh Hj.
  assert (Hnone : parseResponse j = None).
  { destruct Hj as [Hj|[hello Hj]]; [done|by apply (parseHello_not_response j hello)]. }
  destruct (run_consistent trace new_bridge new_bridge_consistent) as [_ Hfin].
  unfold step. cbn [handle]. unfold onMessage. rewrite Hcn, Hh, Hnone.
  cbn [negb]. by destruct (readyState cn).
Qed.

(** X5 for a second hello of the peer of [hello_trace]. *)
Lemma frame_after_handshake_is_dropped_witness :
  step (run new_bridge hello_trace) (EvMessage 1 (Some helloFrame))
  = run new_bridge hello_trace.
Proof.
  exact (frame_after_handshake_is_dropped hello_trace 1
           {| handshaked := true; handshakeTimeout := None; readyState := OPEN;
              closeSent := None; peerAddress := Some "127.0.0.1" |}
           helloFrame ltac:(vm_compute; reflexivity) eq_refl
           (or_intror (ex_intro _ {| hello_token := None; hello_app := None |} eq_refl))).
Defined.

(** *** The peer fields *)

Lemma conns_kept_refl m : conns_kept m m.
Proof. intros ws cn H. exists cn. auto. Qed.

Lemma conns_kept_trans m1 m2 m3 : conns_kept m1 m2 -> conns_kept m2 m3 -> conns_kept m1 m3.
Proof.
  intros H12 H23 ws cn H. destruct (H12 ws cn H) as (cn2 & H2 & Hh2 & Hp2).
  destruct (H23 ws cn2 H2) as (cn3 & H3 & Hh3 & Hp3).
  exists cn3. split; [done|]. split; [auto|congruence].
Qed.

Lemma conns_kept_alter (f : Conn -> Conn) ws0 m :
  (forall c, (handshaked c = true -> handshaked (f c) = true)
             /\ peerAddress (f c) = peerAddress c) ->
  conns_kept m (alter f ws0 m).
Proof.
  intros Hf ws cn H. destruct (decide (ws0 = ws)) as [->|Hne].
  - exists (f cn). rewrite lookup_alter_eq, H. split; [done|]. apply Hf.
  - exists cn. rewrite lookup_alter_ne by done. auto.
Qed.

Lemma conns_kept_insert ws0 c0 m : m !! ws0 = None -> conns_kept m (<[ws0 := c0]> m).
Proof.
  intros Hnone ws cn H. exists cn. rewrite lookup_insert_ne; [auto|].
  intros ->. congruence.
Qed.

Lemma ws_close_keeps code reason c :
  (handshaked c = true -> handshaked (ws_close code reason c) = true)
  /\ peerAddress (ws_close code reason c) = peerAddress c.
Proof. unfold ws_close. by destruct (readyState c). Qed.

Lemma peer_fields s s' :
  socket s' = socket s -> clientHello s' = clientHello s ->
  connectedAt s' = connectedAt s -> remoteAddress s' = remoteAddress s ->
  keepAliveTimer s' = keepAliveTimer s -> (now s <= now s')%Z ->
  conns_kept (conns s) (conns s') ->
  peer_coherent s -> peer_coherent s'.
Proof.
  unfold peer_coherent. intros -> -> -> -> -> Hnow Hk.
  destruct (socket s) as [ws|]; [|done].
  intros (cn & hello & t & Hcn & Hh & Hhello & Ht & Hle & Hr & Hka).
  destruct (Hk ws cn Hcn) as (cn' & Hcn' & Hh' & Hp').
  exists cn', hello, t. repeat split; auto; [lia|congruence].
Qed.

Ltac same_peer Hs :=
  match type of Hs with
  | peer_coherent ?s =>
      apply (peer_fields s);
      [reflexivity|reflexivity|reflexivity|reflexivity|reflexivity|
       try (cbn; lia)|try apply conns_kept_refl|exact Hs]
  end.

Lemma rejectPending_peer message remove s :
  peer_coherent s -> peer_coherent (rejectPending message remove s).
Proof.
  intros Hs.
  pose proof (rejectPending_spec message remove s) as Hr.
  destruct (rejectPending_frame message remove s) as (F1 & F2 & F3 & _ & F5 & _).
  apply (peer_fields s); try done.
  - apply (rj_socket _ _ _ _ _ Hr).
  - apply (rj_hello _ _ _ _ _ Hr).
  - rewrite F5. lia.
  - rewrite (rj_conns _ _ _ _ _ Hr). apply conns_kept_refl.
Qed.

Lemma call_peer id method params t s :
  peer_coherent s -> peer_coherent (call id method params t s).
Proof.
  intros Hs. unfold call. destruct (socket s) as [ws|] eqn:E.
  - destruct (conn_open ws s); [destruct params|]; same_peer Hs.
  - same_peer Hs.
Qed.

Lemma acceptHello_fields ws cn hello s :
  socket (acceptHello ws cn hello s) = Some ws
  /\ clientHello (acceptHello ws cn hello s) = Some hello
  /\ connectedAt (acceptHello ws cn hello s) = Some (now s)
  /\ remoteAddress (acceptHello ws cn hello s) = peerAddress cn
  /\ keepAliveTimer (acceptHello ws cn hello s) = true
  /\ now (acceptHello ws cn hello s) = now s
  /\ conns (acceptHello ws cn hello s)
     = match socket s with
       | Some old =>
           alter (ws_close 4000 "Replaced by new connection") old
             (alter note_handshake ws (conns s))
       | None => alter note_handshake ws (conns s)
       end.
Proof.
  unfold acceptHello, startKeepAlive, stopKeepAlive.
  cbn [socket set_keepAlive alter_conn set_conns].
  destruct (socket s); repeat split; reflexivity.
Qed.

Lemma acceptHello_peer ws cn hello s :
  conns s !! ws = Some cn -> peer_coherent (acceptHello ws cn hello s).
Proof.
  intros Hcn.
  destruct (acceptHello_fields ws cn hello s) as (E1 & E2 & E3 & E4 & E5 & E6 & E7).
  set (m1 := alter note_handshake ws (conns s)) in E7.
  assert (H1 : m1 !! ws = Some (note_handshake cn))
    by (subst m1; by rewrite lookup_alter_eq, Hcn).
  assert (H2 : exists cn', conns (acceptHello ws cn hello s) !! ws = Some cn'
                           /\ handshaked cn' = true /\ peerAddress cn' = peerAddress cn).
  { rewrite E7. destruct (socket s) as [old|].
    - destruct (conns_kept_alter (ws_close 4000 "Replaced by new connection") old m1
                  (ws_close_keeps _ _) ws _ H1) as (cn' & Hcn' & Hh' & Hp').
      exists cn'. split; [done|]. split; [by apply Hh'|done].
    - exists (note_handshake cn). done. }
  destruct H2 as (cn' & Hcn' & Hh' & Hp').
  unfold peer_coherent. rewrite E1.
  exists cn', hello, (now s). rewrite E2, E3, E4, E5, E6.
  repeat split; try done; try lia; congruence.
Qed.

Lemma onMessage_peer ws data s : peer_coherent s -> peer_coherent (onMessage ws data s).
Proof.
  intros Hs. unfold onMessage.
  destruct (conns s !! ws) as [cn|] eqn:Hcn; [|done].
  assert (Hgo : peer_coherent
            match data with
            | Some j =>
                if negb (handshaked cn)
                then match parseHello j with
                     | Some hello => acceptHello ws cn hello s
                     | None => alter_conn (ws_close 4002 "Invalid hello") ws s
                     end
                else match parseResponse j with
                     | Some msg => handleResponse msg s
                     | None => s
                     end
            | None => s
            end).
  { destruct data as [j|]; [|done].
    destruct (negb (handshaked cn)).
    - destruct (parseHello j) as [hello|]; [by apply acceptHello_peer|].
      same_peer Hs. apply conns_kept_alter, ws_close_keeps.
    - destruct (parseResponse j) as [msg|]; [|done].
      unfold handleResponse. destruct (pending s !! resp_id msg); [|done].
      destruct (resp_error msg); same_peer Hs. }
  by destruct (readyState cn).
Qed.

Lemma onHandshakeTimeout_peer ws s :
  peer_coherent s -> peer_coherent (onHandshakeTimeout ws s).
Proof.
  intros Hs. unfold onHandshakeTimeout.
  destruct (conns s !! ws) as [c|]; [|done].
  destruct (handshakeTimeout c) as [due|]; [|done].
  destruct (due <=? now s)%Z; [|done].
  assert (Hclear : conns_kept (conns s) (alter clear_handshakeTimeout ws (conns s)))
    by (apply conns_kept_alter; done).
  destruct (negb (handshaked c)); same_peer Hs; [|exact Hclear].
  eapply conns_kept_trans; [exact Hclear|].
  apply conns_kept_alter, ws_close_keeps.
Qed.

Lemma onClose_peer ws s : peer_coherent s -> peer_coherent (onClose ws s).
Proof.
  intros Hs. unfold onClose.
  destruct (conns s !! ws) as [c|]; [|done].
  assert (Hgo : peer_coherent
            (rejectPending "Bridge disconnected" true
               (if decide (socket (alter_conn mark_closed ws s) = Some ws)
                then set_client None None None
                       (set_socket None (stopKeepAlive (alter_conn mark_closed ws s)))
                else alter_conn mark_closed ws s))).
  { apply rejectPending_peer. case_decide.
    - unfold peer_coherent. by cbn.
    - same_peer Hs. by apply conns_kept_alter. }
  by destruct (readyState c).
Qed.

Lemma close_peer s : peer_coherent (close s).
Proof.
  destruct (close_fields s) as (_ & C2 & C3 & C4 & C5 & C6 & _).
  destruct (rejectPending_frame "Bridge closed" false (stopKeepAlive s))
    as (_ & _ & Hk & _).
  unfold peer_coherent. rewrite C2, C3, C4, C5, C6, Hk. by repeat split.
Qed.

Lemma handle_peer s ev : peer_coherent s -> peer_coherent (handle s ev).
Proof.
  intros Hs. destruct ev; cbn [handle].
  - destruct (Z.leb_spec 0 dt); [|done]. same_peer Hs.
  - unfold handleConnection. destruct (serverClosed s); [done|].
    destruct (conns s !! ws) eqn:E; [done|]. same_peer Hs.
    by apply conns_kept_insert.
  - by apply onMessage_peer.
  - by apply onHandshakeTimeout_peer.
  - by apply onClose_peer.
  - done.
  - by apply call_peer.
  - unfold onCallTimeout. destruct (timers s !! c); [|done].
    destruct (issued s !! c); [|done]. destruct (_ <=? _)%Z; [|done]. same_peer Hs.
  - unfold onSendDone. case_decide; [|done].
    destruct err; [|same_peer Hs]. destruct (issued s !! c); same_peer Hs.
  - unfold onKeepAliveTick. destruct (negb (keepAliveTimer s)) eqn:Hk; [done|].
    destruct (keepAliveInFlight s); [done|].
    destruct (socket s) as [ws|] eqn:E; [|done].
    destruct (conn_open ws s); [|done].
    apply (peer_fields (call id "ping" (Plain None) KEEPALIVE_PING_MS
                          (set_keepAlive (keepAliveTimer s) true s)));
      try reflexivity; [apply conns_kept_refl|].
    apply call_peer. same_peer Hs.
  - apply close_peer.
  - same_peer Hs. apply conns_kept_alter. intros c. unfold peer_closing.
    by destruct (readyState c).
Qed.

Lemma step_peer s ev : peer_coherent s -> peer_coherent (step s ev).
Proof.
  intros Hs. unfold step.
  destruct (runFinally_fields (handle s ev)) as (E1 & E2 & _ & _ & _ & _ & E7 & _ & E9).
  destruct (runFinally_more (handle s ev)) as (_ & _ & E3 & E4 & E5 & _).
  apply (peer_fields (handle s ev)); try done.
  - rewrite E9. lia.
  - rewrite E7. apply conns_kept_refl.
  - by apply handle_peer.
Qed.

Lemma run_peer trace s : peer_coherent s -> peer_coherent (run s trace).
Proof.
  revert s. induction trace as [|ev trace IH]; intros s Hs; [done|].
  apply IH, step_peer, Hs.
Qed.

Lemma new_bridge_peer : peer_coherent new_bridge.
Proof. unfold peer_coherent. by cbn. Qed.

(** X6.  In every reachable state the fields that describe the peer go
    together with [#socket]: while it is set, its connection has completed
    the handshake, the hello, the connection time (not later than the clock)
    and the address of that connection are stored and the keepalive timer
    runs, so [getStatus()] never falls back to the current time; while it is
    unset they are all unset and [getStatus()] reports no client. *)
Theorem status_describes_the_active_peer :
  forall trace listenPort,
    let s := run new_bridge trace in
    peer_coherent s
    /\ (st_connected (getStatus listenPort s) = false <->
        st_client (getStatus listenPort s) = None)
    /\ (forall ws, socket s = Some ws ->
          exists cn hello t,
            conns s !! ws = Some cn /\ handshaked cn = true
            /\ connectedAt s = Some t /\ (t <= now s)%Z
            /\ getStatus listenPort s
               = {| st_listenPort := listenPort; st_tokenRequired := false;
                    st_connected := true;
                    st_client := Some {| st_app := hello_app hello;
                                         st_connectedAt := t;
                                         st_remoteAddress := peerAddress cn |} |}).
Proof.
  intros trace listenPort s.
  assert (Hs : peer_coherent s) by apply run_peer, new_bridge_peer.
  split; [exact Hs|]. split.
  - unfold getStatus, status_connected. cbn. by destruct (socket s).
  - intros ws Hws. unfold peer_coherent in Hs. rewrite Hws in Hs.
    destruct Hs as (cn & hello & t & Hcn & Hh & Hhello & Ht & Hle & Hr & Hka).
    exists cn, hello, t. repeat split; try done.
    unfold getStatus, status_connected. by rewrite Hws, Hhello, Ht, Hr.
Qed.

(** X6 after the hello of a peer at 127.0.0.1. *)
Lemma status_describes_the_active_peer_witness :
  exists cn hello t,
    conns (run new_bridge hello_trace) !! 1 = Some cn /\ handshaked cn = true
    /\ connectedAt (run new_bridge hello_trace) = Some t
    /\ (t <= now (run new_bridge hello_trace))%Z
    /\ getStatus 9050 (run new_bridge hello_trace)
       = {| st_listenPort := 9050; st_tokenRequired := false; st_connected := true;
            st_client := Some {| st_app := hello_app hello; st_connectedAt := t;
                                 st_remoteAddress := peerAddress cn |} |}.
Proof.
  exact (proj2 (proj2 (status_describes_the_active_peer hello_trace 9050)) 1
           ltac:(vm_compute; reflexivity)).
Defined.

(** *** Timeouts and pending promises *)

Lemma timers_fields s s' :
  promises s' = promises s -> timers s' = timers s -> issued s' = issued s ->
  timers_coherent s -> timers_coherent s'.
Proof. intros Hp Ht Hi [H1 H2]. constructor; rewrite ?Hp, ?Ht, ?Hi; auto. Qed.

Ltac same_timers Hs :=
  match type of Hs with
  | timers_coherent ?s => apply (timers_fields s); [reflexivity..|exact Hs]
  end.

Lemma timers_settle_delete s s' c o :
  promises s' = settle c o (promises s) -> timers s' = delete c (timers s) ->
  issued s' = issued s ->
  timers_coherent s -> timers_coherent s'.
Proof.
  intros Hp Ht Hi [H1 H2]. constructor; rewrite ?Hp, ?Ht, ?Hi.
  - intros c' Hc. apply settle_pending in Hc as [Hc Hne].
    rewrite lookup_delete_ne by done. auto.
  - intros c' Hc. destruct (decide (c = c')) as [<-|Hne].
    + rewrite lookup_delete_eq in Hc. by destruct Hc.
    + rewrite lookup_delete_ne in Hc by done. rewrite settle_other by done. auto.
Qed.

Lemma timers_fresh s : core s -> timers_coherent s -> timers s !! nextCall s = None.
Proof.
  intros [K1 K2 _ _] [_ H2]. destruct (timers s !! nextCall s) eqn:E; [|done].
  destruct (H2 (nextCall s)) as (info & Hinfo & _); [by rewrite E|].
  assert (nextCall s < nextCall s) by eauto. lia.
Qed.

Lemma call_timers id method params t s :
  core s -> timers_coherent s -> timers_coherent (call id method params t s).
Proof.
  intros Hc Hs. pose proof (timers_fresh s Hc Hs) as Hfresh.
  destruct Hc as [K1 K2 _ _]. pose proof Hs as [H1 H2].
  assert (Hnew : promises s !! nextCall s = None).
  { destruct (promises s !! nextCall s) eqn:E; [|done].
    assert (nextCall s < nextCall s) by eauto. lia. }
  assert (Hold : forall c, is_Some (timers s !! c) -> nextCall s <> c).
  { intros c Hc <-. rewrite Hfresh in Hc. by destruct Hc. }
  assert (Hdis : timers_coherent
            (set_issue None []
               (set_promises
                  (<[nextCall s := Settled (plainError "EDA bridge is not connected")]>
                     (promises s)) s))).
  { constructor; cbn.
    - intros c Hp. apply lookup_insert_Some in Hp as [[_ ?]|[_ Hp]]; [done|auto].
    - intros c Ht. rewrite lookup_insert_ne by (by apply Hold). auto. }
  unfold call. destruct (socket s) as [ws|]; [|exact Hdis].
  destruct (conn_open ws s); [|exact Hdis].
  destruct params as [p|thrown]; constructor; cbn.
  - intros c. destruct (decide (nextCall s = c)) as [<-|Hne].
    + rewrite !lookup_insert_eq. eauto.
    + rewrite !lookup_insert_ne by done. auto.
  - intros c. destruct (decide (nextCall s = c)) as [<-|Hne].
    + rewrite !lookup_insert_eq. eauto.
    + rewrite !lookup_insert_ne by done. auto.
  - intros c. destruct (decide (nextCall s = c)) as [<-|Hne].
    + rewrite !lookup_insert_eq. discriminate.
    + rewrite !lookup_insert_ne by done. auto.
  - intros c. destruct (decide (nextCall s = c)) as [<-|Hne].
    + rewrite !lookup_insert_eq. eauto.
    + rewrite !lookup_insert_ne by done. auto.
Qed.

Lemma handleResponse_timers msg s :
  core s -> timers_coherent s -> timers_coherent (handleResponse msg s).
Proof.
  intros Hc Hs. destruct (pending s !! resp_id msg) as [pc|] eqn:Hpc.
  - destruct (handleResponse_fields msg s pc Hpc) as (F1 & _ & F3 & _).
    destruct (k_pending s Hc _ _ Hpc) as (Hentry & _).
    assert (Hsame : timeout_of pc = promise_of pc) by (by rewrite Hentry).
    rewrite Hsame in F3.
    apply (timers_settle_delete s _ (promise_of pc) (outcome_of msg)); try done.
    unfold handleResponse. rewrite Hpc. by destruct (resp_error msg).
  - unfold handleResponse. by rewrite Hpc.
Qed.

Lemma rejectPending_timers_coherent message remove s :
  core s -> timers_coherent s -> timers_coherent (rejectPending message remove s).
Proof.
  intros Hc [H1 H2].
  pose proof (rejectPending_spec message remove s) as Hr.
  destruct (rejectPending_timers message remove s) as [T1 T2].
  constructor.
  - intros c Hp.
    destruct (rj_promises _ _ _ _ _ Hr c) as [[Heq Hno]|(_ & Hset & _)];
      [|congruence].
    rewrite Heq in Hp. rewrite T2; [auto|].
    intros i pc Hi Ht.
    destruct (k_pending s Hc _ _ Hi) as (Hentry & _).
    assert (Hsame : promise_of pc = c) by (rewrite Hentry in Ht; exact Ht).
    apply (Hno i pc Hi Hsame). exact Hp.
  - intros c [d Hd]. rewrite (rj_issued _ _ _ _ _ Hr).
    destruct (H2 c) as (info & Hinfo & Hor);
      [exists d; by apply (rj_timers _ _ _ _ _ Hr)|].
    exists info. split; [done|]. destruct Hor as [Hp|Hw]; [|by right].
    destruct (rj_promises _ _ _ _ _ Hr c) as [[Heq _]|(_ & _ & i & pc & Hi & Hpc)].
    + left. by rewrite Heq.
    + exfalso. destruct (k_pending s Hc _ _ Hi) as (Hentry & _).
      assert (Hsame : timeout_of pc = c) by (rewrite Hentry; exact Hpc).
      pose proof (T1 i pc Hi) as Hnone. rewrite Hsame, Hd in Hnone. done.
Qed.

Lemma close_issued s : issued (close s) = issued s.
Proof.
  unfold close.
  pose proof (rejectPending_spec "Bridge closed" false (stopKeepAlive s)) as Hr.
  destruct (socket _); cbn; apply (rj_issued _ _ _ _ _ Hr).
Qed.

Lemma handle_timers s ev :
  core s -> timers_coherent s -> timers_coherent (handle s ev).
Proof.
  intros Hc Hs. destruct ev; cbn [handle].
  - destruct (0 <=? dt)%Z; [same_timers Hs|done].
  - unfold handleConnection. destruct (serverClosed s); [done|].
    destruct (conns s !! ws); [done|]. same_timers Hs.
  - unfold onMessage. destruct (conns s !! ws) as [cn|]; [|done].
    assert (Hgo : timers_coherent
              match data with
              | Some j =>
                  if negb (handshaked cn)
                  then match parseHello j with
                       | Some hello => acceptHello ws cn hello s
                       | None => alter_conn (ws_close 4002 "Invalid hello") ws s
                       end
                  else match parseResponse j with
                       | Some msg => handleResponse msg s
                       | None => s
                       end
              | None => s
              end).
    { destruct data as [j|]; [|done].
      destruct (negb (handshaked cn)).
      - destruct (parseHello j) as [hello|]; [|same_timers Hs].
        unfold acceptHello, startKeepAlive, stopKeepAlive.
        cbn [socket set_keepAlive alter_conn set_conns].
        destruct (socket s); same_timers Hs.
      - destruct (parseResponse j) as [msg|]; [|done].
        by apply handleResponse_timers. }
    by destruct (readyState cn).
  - unfold onHandshakeTimeout. destruct (conns s !! ws) as [cn|]; [|done].
    destruct (handshakeTimeout cn); [|done]. destruct (_ <=? _)%Z; [|done].
    destruct (negb (handshaked cn)); same_timers Hs.
  - unfold onClose. destruct (conns s !! ws) as [cn|]; [|done].
    assert (Hgo : timers_coherent
              (rejectPending "Bridge disconnected" true
                 (if decide (socket (alter_conn mark_closed ws s) = Some ws)
                  then set_client None None None
                         (set_socket None (stopKeepAlive (alter_conn mark_closed ws s)))
                  else alter_conn mark_closed ws s))).
    { apply rejectPending_timers_coherent; case_decide;
        [same_core Hc|same_core Hc|same_timers Hs|same_timers Hs]. }
    by destruct (readyState cn).
  - done.
  - by apply call_timers.
  - unfold onCallTimeout. destruct (timers s !! c); [|done].
    destruct (issued s !! c); [|done]. destruct (_ <=? _)%Z; [|done].
    by eapply (timers_settle_delete s _ c).
  - unfold onSendDone. case_decide; [|done].
    destruct err; [|same_timers Hs]. destruct (issued s !! c); [|same_timers Hs].
    by eapply (timers_settle_delete s _ c).
  - unfold onKeepAliveTick. destruct (negb (keepAliveTimer s)); [done|].
    destruct (keepAliveInFlight s); [done|].
    destruct (socket s) as [ws|]; [|done].
    destruct (conn_open ws s); [|done].
    apply (timers_fields (call id "ping" (Plain None) KEEPALIVE_PING_MS
                            (set_keepAlive (keepAliveTimer s) true s)));
      [reflexivity..|].
    apply call_timers; [same_core Hc|same_timers Hs].
  - destruct (close_fields s) as (_ & _ & _ & _ & _ & _ & _ & C8 & C9 & _).
    apply (timers_fields (rejectPending "Bridge closed" false (stopKeepAlive s)));
      [exact C8|exact C9| |].
    + rewrite close_issued.
      symmetry. apply (rj_issued _ _ _ _ _
                         (rejectPending_spec "Bridge closed" false (stopKeepAlive s))).
    + apply rejectPending_timers_coherent; [same_core Hc|same_timers Hs].
  - same_timers Hs.
Qed.

Lemma step_timers s ev :
  consistent s -> timers_coherent s -> timers_coherent (step s ev).
Proof.
  intros [Hc _] Hs. unfold step.
  destruct (runFinally_fields (handle s ev)) as (_ & _ & _ & E4 & E5 & E6 & _).
  apply (timers_fields (handle s ev)); try done. by apply handle_timers.
Qed.

Lemma run_timers trace s :
  consistent s -> timers_coherent s -> timers_coherent (run s trace).
Proof.
  revert s. induction trace as [|ev trace IH]; intros s Hc Hs; [done|].
  apply IH; [by apply step_consistent|by apply step_timers].
Qed.

Lemma new_bridge_timers : timers_coherent new_bridge.
Proof.
  constructor; cbn; intros c; rewrite ?lookup_empty; [done|by intros []].
Qed.

(** X7.  In every reachable state, whatever the ids: a pending call has its
    timeout armed, so that it is rejected with its timeout message once its
    time is up and its timer fires; and a timeout is armed only for a call
    that is pending or whose request could not be rendered.  The second case
    occurs: a call made on an open peer with [params] on which
    [JSON.stringify] throws is rejected at once, writes nothing, and leaves
    its timeout and its entry of the pending map behind. *)
Theorem pending_call_has_armed_timeout :
  forall trace,
    let s := run new_bridge trace in
    (forall c, promises s !! c = Some Pending ->
       exists due info,
         timers s !! c = Some due /\ issued s !! c = Some info
         /\ forall dt, (0 <= dt)%Z -> (due <= now s + dt)%Z ->
              promises (run s [EvAdvance dt; EvCallTimeout c]) !! c
              = Some (Settled (plainError
                                 ("Bridge call timeout: " +:+ call_method info))))
    /\ (forall c, is_Some (timers s !! c) ->
          exists info, issued s !! c = Some info
                       /\ (promises s !! c = Some Pending
                           \/ call_written info = false))
    /\ (forall id method thrown timeoutMs,
          call_ready s = true ->
          let s' := step s (EvCall id method (Unserialisable thrown) timeoutMs) in
          promises s' !! nextCall s = Some (Settled (plainError thrown))
          /\ timers s' !! nextCall s = Some (now s + timeoutMs)%Z
          /\ pending s' !! id = Some (entry_of (nextCall s))
          /\ sent s' = sent s).
Proof.
  intros trace s.
  assert (Hs : timers_coherent s)
    by (apply run_timers; [apply new_bridge_consistent|apply new_bridge_timers]).
  split; [|split; [apply Hs|]].
  - intros c Hp.
    destruct (tc_pending s Hs c Hp) as [due Hdue].
    destruct (tc_armed s Hs c) as (info & Hinfo & _); [by rewrite Hdue|].
    exists due, info. split; [done|]. split; [done|].
    intros dt Hdt Hle. cbn [run fold_left].
    set (s1 := step s (EvAdvance dt)).
    assert (Hs1 : s1 = runFinally (set_now (now s + dt) s)).
    { subst s1. unfold step. cbn [handle]. apply Z.leb_le in Hdt. by rewrite Hdt. }
    destruct (runFinally_fields (set_now (now s + dt) s))
      as (_ & _ & _ & E4 & E5 & E6 & _ & _ & E9).
    rewrite <- Hs1 in E4, E5, E6, E9. cbn in E4, E5, E6, E9.
    unfold step.
    destruct (runFinally_fields (handle s1 (EvCallTimeout c))) as (_ & _ & _ & -> & _).
    cbn [handle].
    rewrite (onCallTimeout_fires s1 c info due); [| congruence | congruence | lia].
    cbn. rewrite E4. by apply settle_this.
  - intros id method thrown timeoutMs Hready s'. subst s'. unfold step.
    destruct (runFinally_fields
                (handle s (EvCall id method (Unserialisable thrown) timeoutMs)))
      as (_ & _ & -> & -> & _ & -> & _).
    destruct (runFinally_more
                (handle s (EvCall id method (Unserialisable thrown) timeoutMs)))
      as (-> & _).
    unfold call_ready in Hready. cbn [handle]. unfold call.
    destruct (socket s) as [ws|]; [rewrite Hready|discriminate]. cbn.
    by rewrite !lookup_insert_eq.
Qed.

(** X7 for the call of [one_call_trace], and for a call made after it whose
    [params] hold a BigInt. *)
Lemma pending_call_has_armed_timeout_witness :
  (exists due info,
     timers (run new_bridge one_call_trace) !! 0 = Some due
     /\ issued (run new_bridge one_call_trace) !! 0 = Some info
     /\ forall dt, (0 <= dt)%Z -> (due <= now (run new_bridge one_call_trace) + dt)%Z ->
          promises (run (run new_bridge one_call_trace)
                      [EvAdvance dt; EvCallTimeout 0]) !! 0
          = Some (Settled (plainError ("Bridge call timeout: " +:+ call_method info))))
  /\ timers (step (run new_bridge one_call_trace)
               (EvCall "b" "setValue"
                  (Unserialisable "Do not know how to serialize a BigInt") 30000))
     !! nextCall (run new_bridge one_call_trace)
     = Some (now (run new_bridge one_call_trace) + 30000)%Z.
Proof.
  split.
  - exact (proj1 (pending_call_has_armed_timeout one_call_trace) 0
             ltac:(vm_compute; reflexivity)).
  - exact (proj1 (proj2 (proj2 (proj2 (pending_call_has_armed_timeout one_call_trace))
                           "b" "setValue" "Do not know how to serialize a BigInt"
                           30000%Z ltac:(vm_compute; reflexivity)))).
Defined.

(** *** The keepalive *)

Lemma runFinally_done s : finally_done s -> runFinally s = s.
Proof.
  intros Hd. unfold runFinally. rewrite decide_True; [done|].
  apply set_eq. intros c. rewrite elem_of_filter, elem_of_empty.
  split; [|done]. intros [Hset Hin]. rewrite (Hd c Hin) in Hset. discriminate.
Qed.

Lemma finally_done_fixed s : runFinally s = s -> finally_done s.
Proof.
  intros Hfix c Hin.
  destruct (is_settled (promises s) c) eqn:Hset; [|done].
  exfalso. unfold runFinally in Hfix.
  destruct (decide (filter (fun c => is_settled (promises s) c = true)
                      (keepAliveCalls s) = ∅)) as [He|Hne].
  - assert (Hc : c ∈ filter (fun c => is_settled (promises s) c = true)
                      (keepAliveCalls s)) by (by apply elem_of_filter).
    rewrite He in Hc. by apply elem_of_empty in Hc.
  - apply (f_equal keepAliveCalls) in Hfix. cbn in Hfix.
    assert (Hc : c ∈ keepAliveCalls s
                       ∖ filter (fun c => is_settled (promises s) c = true)
                           (keepAliveCalls s)) by (by rewrite Hfix).
    apply elem_of_difference in Hc as [_ Hc]. apply Hc. by apply elem_of_filter.
Qed.

Lemma runFinally_clears s c :
  c ∈ keepAliveCalls s -> is_settled (promises s) c = true ->
  keepAliveInFlight (runFinally s) = false.
Proof.
  intros Hin Hset. unfold runFinally. rewrite decide_False; [done|].
  intros He.
  assert (Hc : c ∈ filter (fun c => is_settled (promises s) c = true)
                      (keepAliveCalls s)) by (by apply elem_of_filter).
  rewrite He in Hc. by apply elem_of_empty in Hc.
Qed.

Lemma call_keepAliveCalls id method params t s :
  keepAliveCalls (call id method params t s) = keepAliveCalls s.
Proof.
  unfold call. destruct (socket s) as [ws|]; [|done].
  destruct (conn_open ws s); [by destruct params|done].
Qed.

Lemma handle_keepAliveCalls s ev c :
  c ∈ keepAliveCalls s -> c ∈ keepAliveCalls (handle s ev).
Proof.
  intros Hin. destruct ev; cbn [handle].
  - by destruct (0 <=? dt)%Z.
  - unfold handleConnection. destruct (serverClosed s); [done|].
    by destruct (conns s !! ws).
  - unfold onMessage. destruct (conns s !! ws) as [cn|]; [|done].
    assert (Hgo : c ∈ keepAliveCalls
              match data with
              | Some j =>
                  if negb (handshaked cn)
                  then match parseHello j with
                       | Some hello => acceptHello ws cn hello s
                       | None => alter_conn (ws_close 4002 "Invalid hello") ws s
                       end
                  else match parseResponse j with
                       | Some msg => handleResponse msg s
                       | None => s
                       end
              | None => s
              end).
    { destruct data as [j|]; [|done].
      destruct (negb (handshaked cn)).
      - destruct (parseHello j) as [hello|]; [|done].
        unfold acceptHello, startKeepAlive, stopKeepAlive.
        cbn [socket set_keepAlive alter_conn set_conns].
        by destruct (socket s).
      - destruct (parseResponse j) as [msg|]; [|done].
        unfold handleResponse. destruct (pending s !! resp_id msg); [|done].
        by destruct (resp_error msg). }
    by destruct (readyState cn).
  - unfold onHandshakeTimeout. destruct (conns s !! ws) as [cn|]; [|done].
    destruct (handshakeTimeout cn); [|done]. destruct (_ <=? _)%Z; [|done].
    by destruct (negb (handshaked cn)).
  - unfold onClose. destruct (conns s !! ws) as [cn|]; [|done].
    assert (Hgo : c ∈ keepAliveCalls
              (rejectPending "Bridge disconnected" true
                 (if decide (socket (alter_conn mark_closed ws s) = Some ws)
                  then set_client None None None
                         (set_socket None (stopKeepAlive (alter_conn mark_closed ws s)))
                  else alter_conn mark_closed ws s))).
    { rewrite (rj_keepAliveCalls _ _ _ _ _ (rejectPending_spec _ _ _)).
      by case_decide. }
    by destruct (readyState cn).
  - done.
  - by rewrite call_keepAliveCalls.
  - unfold onCallTimeout. destruct (timers s !! c0); [|done].
    destruct (issued s !! c0); [|done]. by destruct (_ <=? _)%Z.
  - unfold onSendDone. case_decide; [|done].
    destruct err; [|done]. by destruct (issued s !! c0).
  - unfold onKeepAliveTick. destruct (negb (keepAliveTimer s)); [done|].
    destruct (keepAliveInFlight s); [done|].
    destruct (socket s) as [ws|]; [|done].
    destruct (conn_open ws s); [|done].
    cbn [keepAliveCalls set_keepAliveCalls set_keepAlive]. set_solver.
  - unfold close. 
    assert (Hgo : c ∈ keepAliveCalls
                        (rejectPending "Bridge closed" false (stopKeepAlive s))).
    { by rewrite (rj_keepAliveCalls _ _ _ _ _ (rejectPending_spec _ _ _)). }
    by destruct (socket _).
  - done.
Qed.

Lemma call_connected id method params t s ws :
  socket s = Some ws -> conn_open ws s = true ->
  call id method (Plain params) t s
  = set_issue
      (Some {| call_id := id; call_method := method; call_socket := ws;
               call_written := true |})
      [(ws, {| req_id := id; req_method := method; req_params := params |})]
      (set_sendCallbacks ({[nextCall s]} ∪ sendCallbacks s)
         (set_pending (<[id := {| promise_of := nextCall s; timeout_of := nextCall s |}]>
                         (pending s))
            (set_timers (<[nextCall s := (now s + t)%Z]> (timers s))
               (set_promises (<[nextCall s := Pending]> (promises s)) s)))).
Proof. intros Hs Ho. unfold call. by rewrite Hs, Ho. Qed.

Lemma onKeepAliveTick_fires id s ws :
  keepAliveTimer s = true -> keepAliveInFlight s = false ->
  socket s = Some ws -> conn_open ws s = true ->
  onKeepAliveTick id s
  = set_keepAliveCalls ({[nextCall s]} ∪ keepAliveCalls s)
      (call id "ping" (Plain None) KEEPALIVE_PING_MS (set_keepAlive true true s)).
Proof.
  intros Hk Hf Hs Ho. unfold onKeepAliveTick. by rewrite Hk, Hf, Hs, Ho.
Qed.

(** X8.  The keepalive: in a reachable state with an open peer socket and no
    ping in flight, a tick of the keepalive timer writes a [ping] request
    with a 5 s timeout and marks it in flight; while it is in flight further
    ticks do nothing; and whatever event settles the ping (a response, its
    timeout, a failed send, a close), the in-flight mark is gone when that
    event has been handled, so that the next tick pings again. *)
Theorem keepalive_ping_cycle :
  forall trace ws id,
    let s := run new_bridge trace in
    keepAliveInFlight s = false -> socket s = Some ws -> conn_open ws s = true ->
    let s1 := step s (EvKeepAliveTick id) in
    (keepAliveInFlight s1 = true /\ promises s1 !! nextCall s = Some Pending
     /\ timers s1 !! nextCall s = Some (now s + 5000)%Z
     /\ sent s1
        = (ws, {| req_id := id; req_method := "ping"; req_params := None |}) :: sent s)
    /\ (forall id', step s1 (EvKeepAliveTick id') = s1)
    /\ (forall ev o, promises (step s1 ev) !! nextCall s = Some (Settled o) ->
          keepAliveInFlight (step s1 ev) = false).
Proof.
  intros trace ws id s Hfl Hws Hopen s1.
  assert (Hpeer : peer_coherent s) by apply run_peer, new_bridge_peer.
  assert (Hka : keepAliveTimer s = true).
  { unfold peer_coherent in Hpeer. rewrite Hws in Hpeer.
    by destruct Hpeer as (? & ? & ? & _ & _ & _ & _ & _ & _ & ?). }
  destruct (run_consistent trace new_bridge new_bridge_consistent) as [Hcore Hfix].
  fold s in Hcore, Hfix.
  set (h := handle s (EvKeepAliveTick id)).
  assert (Hh : h = set_keepAliveCalls ({[nextCall s]} ∪ keepAliveCalls s)
                     (call id "ping" (Plain None) KEEPALIVE_PING_MS (set_keepAlive true true s))).
  { subst h. cbn [handle]. by apply onKeepAliveTick_fires with ws. }
  rewrite (call_connected id "ping" None KEEPALIVE_PING_MS
             (set_keepAlive true true s) ws Hws Hopen) in Hh.
  assert (Hdone : finally_done h).
  { intros c Hc. rewrite Hh in Hc |- *. cbn in Hc |- *. unfold is_settled.
    apply elem_of_union in Hc as [Hc|Hc].
    - apply elem_of_singleton in Hc as ->. by rewrite lookup_insert_eq.
    - destruct (decide (nextCall s = c)) as [<-|Hne].
      + by rewrite lookup_insert_eq.
      + rewrite lookup_insert_ne by done.
        apply (finally_done_fixed s Hfix _ Hc). }
  assert (Hs1 : s1 = h) by (subst s1; unfold step; fold h; by apply runFinally_done).
  split; [|split].
  - rewrite Hs1, Hh. cbn. rewrite !lookup_insert_eq. done.
  - intros id'. unfold step. cbn [handle]. unfold onKeepAliveTick.
    assert (Hin : keepAliveInFlight s1 = true) by (by rewrite Hs1, Hh).
    assert (Hk1 : keepAliveTimer s1 = true) by (by rewrite Hs1, Hh).
    rewrite Hk1, Hin. cbn [negb]. rewrite Hs1. by apply runFinally_done.
  - intros ev o Hset. unfold step in *.
    destruct (runFinally_fields (handle s1 ev)) as (_ & _ & _ & E4 & _).
    rewrite E4 in Hset.
    apply (runFinally_clears _ (nextCall s)).
    + apply handle_keepAliveCalls. rewrite Hs1, Hh. cbn. set_solver.
    + unfold is_settled. by rewrite Hset.
Qed.

(** X8 at the first tick after the hello of a peer. *)
Lemma keepalive_ping_cycle_witness :
  keepAliveInFlight (step (run new_bridge hello_trace) (EvKeepAliveTick "k")) = true
  /\ promises (step (run new_bridge hello_trace) (EvKeepAliveTick "k"))
       !! nextCall (run new_bridge hello_trace) = Some Pending
  /\ timers (step (run new_bridge hello_trace) (EvKeepAliveTick "k"))
       !! nextCall (run new_bridge hello_trace)
     = Some (now (run new_bridge hello_trace) + 5000)%Z
  /\ sent (step (run new_bridge hello_trace) (EvKeepAliveTick "k"))
     = (1, {| req_id := "k"; req_method := "ping"; req_params := None |})
       :: sent (run new_bridge hello_trace).
Proof.
  exact (proj1 (keepalive_ping_cycle hello_trace 1 "k"
                  ltac:(vm_compute; reflexivity) ltac:(vm_compute; reflexivity)
                  ltac:(vm_compute; reflexivity))).
Defined.

End ServerFacts.
(** ** The client *)

Module ClientFacts.
Import JlcJson Client ClientSpec.

Local Open Scope Z_scope.

(** *** Which fields the bookkeeping touches *)

Ltac field_step :=
  match goal with
  | |- context [persistRuntime] => unfold persistRuntime
  | |- context [saveRuntimeState] => unfold saveRuntimeState
  | |- context [pushLog] => unfold pushLog
  | |- context [if ?b then _ else _] => destruct b eqn:?
  end; simpl.

(** Reading [connectionState] after an update. *)
Lemma connectionState_set_socket v s : connectionState (set_socket v s) = connectionState s. Proof. reflexivity. Qed.
Lemma connectionState_set_lastConnectedAt v s : connectionState (set_lastConnectedAt v s) = connectionState s. Proof. reflexivity. Qed.
Lemma connectionState_set_lastServerRequestAt v s : connectionState (set_lastServerRequestAt v s) = connectionState s. Proof. reflexivity. Qed.
Lemma connectionState_set_lastError v s : connectionState (set_lastError v s) = connectionState s. Proof. reflexivity. Qed.
Lemma connectionState_set_connectTimer v s : connectionState (set_connectTimer v s) = connectionState s. Proof. reflexivity. Qed.
Lemma connectionState_set_handshakeTimer v s : connectionState (set_handshakeTimer v s) = connectionState s. Proof. reflexivity. Qed.
Lemma connectionState_set_handshakeOk v s : connectionState (set_handshakeOk v s) = connectionState s. Proof. reflexivity. Qed.
Lemma connectionState_set_debugLog v s : connectionState (set_debugLog v s) = connectionState s. Proof. reflexivity. Qed.
Lemma connectionState_set_connectionState v s : connectionState (set_connectionState v s) = v. Proof. reflexivity. Qed.
Lemma connectionState_set_transport v s : connectionState (set_transport v s) = connectionState s. Proof. reflexivity. Qed.
Lemma connectionState_set_registeredUrl v s : connectionState (set_registeredUrl v s) = connectionState s. Proof. reflexivity. Qed.
Lemma connectionState_set_lastPersistAt v s : connectionState (set_lastPersistAt v s) = connectionState s. Proof. reflexivity. Qed.
Lemma connectionState_set_autoEnabled v s : connectionState (set_autoEnabled v s) = connectionState s. Proof. reflexivity. Qed.
Lemma connectionState_set_autoTimer v s : connectionState (set_autoTimer v s) = connectionState s. Proof. reflexivity. Qed.
Lemma connectionState_set_autoBackoffMs v s : connectionState (set_autoBackoffMs v s) = connectionState s. Proof. reflexivity. Qed.
Lemma connectionState_set_autoOpts v s : connectionState (set_autoOpts v s) = connectionState s. Proof. reflexivity. Qed.
Lemma connectionState_set_now v s : connectionState (set_now v s) = connectionState s. Proof. reflexivity. Qed.
Lemma connectionState_set_config v s : connectionState (set_config v s) = connectionState s. Proof. reflexivity. Qed.
Lemma connectionState_set_storage v s : connectionState (set_storage v s) = connectionState s. Proof. reflexivity. Qed.
Lemma connectionState_set_sysCallbacks v s : connectionState (set_sysCallbacks v s) = connectionState s. Proof. reflexivity. Qed.
Lemma connectionState_set_socks v s : connectionState (set_socks v s) = connectionState s. Proof. reflexivity. Qed.
Lemma connectionState_set_nextSock v s : connectionState (set_nextSock v s) = connectionState s. Proof. reflexivity. Qed.
Lemma connectionState_clearConnectTimer  s : connectionState (clearConnectTimer s) = connectionState s. Proof. reflexivity. Qed.
Lemma connectionState_clearHandshakeTimer  s : connectionState (clearHandshakeTimer s) = connectionState s. Proof. reflexivity. Qed.
Lemma connectionState_alter_sock f ws s : connectionState (alter_sock f ws s) = connectionState s. Proof. reflexivity. Qed.
Lemma connectionState_persistRuntime force s : connectionState (persistRuntime force s) = connectionState s.
Proof. unfold persistRuntime; repeat field_step; congruence. Qed.
Lemma connectionState_pushLog lv msg s : connectionState (pushLog lv msg s) = connectionState s.
Proof. unfold pushLog; repeat field_step; congruence. Qed.
Lemma connectionState_setState st s : connectionState (setState st s) = st.
Proof. unfold setState; repeat field_step; congruence. Qed.
Lemma connectionState_markServerTraffic  s : connectionState (markServerTraffic s) = connectionState s.
Proof. unfold markServerTraffic; repeat field_step; congruence. Qed.
Create Rewrite HintDb get_connectionState.
#[local] Hint Rewrite
  connectionState_set_socket connectionState_set_lastConnectedAt connectionState_set_lastServerRequestAt
  connectionState_set_lastError connectionState_set_connectTimer connectionState_set_handshakeTimer
  connectionState_set_handshakeOk connectionState_set_debugLog connectionState_set_connectionState
  connectionState_set_transport connectionState_set_registeredUrl connectionState_set_lastPersistAt
  connectionState_set_autoEnabled connectionState_set_autoTimer connectionState_set_autoBackoffMs
  connectionState_set_autoOpts connectionState_set_now connectionState_set_config
  connectionState_set_storage connectionState_set_sysCallbacks connectionState_set_socks
  connectionState_set_nextSock connectionState_clearConnectTimer connectionState_clearHandshakeTimer
  connectionState_alter_sock connectionState_persistRuntime connectionState_pushLog
  connectionState_setState connectionState_markServerTraffic
  : get_connectionState.

(** Reading [lastError] after an update. *)
Lemma lastError_set_socket v s : lastError (set_socket v s) = lastError s. Proof. reflexivity. Qed.
Lemma lastError_set_lastConnectedAt v s : lastError (set_lastConnectedAt v s) = lastError s. Proof. reflexivity. Qed.
Lemma lastError_set_lastServerRequestAt v s : lastError (set_lastServerRequestAt v s) = lastError s. Proof. reflexivity. Qed.
Lemma lastError_set_lastError v s : lastError (set_lastError v s) = v. Proof. reflexivity. Qed.
Lemma lastError_set_connectTimer v s : lastError (set_connectTimer v s) = lastError s. Proof. reflexivity. Qed.
Lemma lastError_set_handshakeTimer v s : lastError (set_handshakeTimer v s) = lastError s. Proof. reflexivity. Qed.
Lemma lastError_set_handshakeOk v s : lastError (set_handshakeOk v s) = lastError s. Proof. reflexivity. Qed.
Lemma lastError_set_debugLog v s : lastError (set_debugLog v s) = lastError s. Proof. reflexivity. Qed.
Lemma lastError_set_connectionState v s : lastError (set_connectionState v s) = lastError s. Proof. reflexivity. Qed.
Lemma lastError_set_transport v s : lastError (set_transport v s) = lastError s. Proof. reflexivity. Qed.
Lemma lastError_set_registeredUrl v s : lastError (set_registeredUrl v s) = lastError s. Proof. reflexivity. Qed.
Lemma lastError_set_lastPersistAt v s : lastError (set_lastPersistAt v s) = lastError s. Proof. reflexivity. Qed.
Lemma lastError_set_autoEnabled v s : lastError (set_autoEnabled v s) = lastError s. Proof. reflexivity. Qed.
Lemma lastError_set_autoTimer v s : lastError (set_autoTimer v s) = lastError s. Proof. reflexivity. Qed.
Lemma lastError_set_autoBackoffMs v s : lastError (set_autoBackoffMs v s) = lastError s. Proof. reflexivity. Qed.
Lemma lastError_set_autoOpts v s : lastError (set_autoOpts v s) = lastError s. Proof. reflexivity. Qed.
Lemma lastError_set_now v s : lastError (set_now v s) = lastError s. Proof. reflexivity. Qed.
Lemma lastError_set_config v s : lastError (set_config v s) = lastError s. Proof. reflexivity. Qed.
Lemma lastError_set_storage v s : lastError (set_storage v s) = lastError s. Proof. reflexivity. Qed.
Lemma lastError_set_sysCallbacks v s : lastError (set_sysCallbacks v s) = lastError s. Proof. reflexivity. Qed.
Lemma lastError_set_socks v s : lastError (set_socks v s) = lastError s. Proof. reflexivity. Qed.
Lemma lastError_set_nextSock v s : lastError (set_nextSock v s) = lastError s. Proof. reflexivity. Qed.
Lemma lastError_clearConnectTimer  s : lastError (clearConnectTimer s) = lastError s. Proof. reflexivity. Qed.
Lemma lastError_clearHandshakeTimer  s : lastError (clearHandshakeTimer s) = lastError s. Proof. reflexivity. Qed.
Lemma lastError_alter_sock f ws s : lastError (alter_sock f ws s) = lastError s. Proof. reflexivity. Qed.
Lemma lastError_persistRuntime force s : lastError (persistRuntime force s) = lastError s.
Proof. unfold persistRuntime; repeat field_step; congruence. Qed.
Lemma lastError_pushLog lv msg s : lastError (pushLog lv msg s) = lastError s.
Proof. unfold pushLog; repeat field_step; congruence. Qed.
Lemma lastError_setState st s : lastError (setState st s) = lastError s.
Proof. unfold setState; repeat field_step; congruence. Qed.
Lemma lastError_markServerTraffic  s : lastError (markServerTraffic s) = lastError s.
Proof. unfold markServerTraffic; repeat field_step; congruence. Qed.
Create Rewrite HintDb get_lastError.
#[local] Hint Rewrite
  lastError_set_socket lastError_set_lastConnectedAt lastError_set_lastServerRequestAt
  lastError_set_lastError lastError_set_connectTimer lastError_set_handshakeTimer
  lastError_set_handshakeOk lastError_set_debugLog lastError_set_connectionState
  lastError_set_transport lastError_set_registeredUrl lastError_set_lastPersistAt
  lastError_set_autoEnabled lastError_set_autoTimer lastError_set_autoBackoffMs
  lastError_set_autoOpts lastError_set_now lastError_set_config
  lastError_set_storage lastError_set_sysCallbacks lastError_set_socks
  lastError_set_nextSock lastError_clearConnectTimer lastError_clearHandshakeTimer
  lastError_alter_sock lastError_persistRuntime lastError_pushLog
  lastError_setState lastError_markServerTraffic
  : get_lastError.

(** Reading [handshakeOk] after an update. *)
Lemma handshakeOk_set_socket v s : handshakeOk (set_socket v s) = handshakeOk s. Proof. reflexivity. Qed.
Lemma handshakeOk_set_lastConnectedAt v s : handshakeOk (set_lastConnectedAt v s) = handshakeOk s. Proof. reflexivity. Qed.
Lemma handshakeOk_set_lastServerRequestAt v s : handshakeOk (set_lastServerRequestAt v s) = handshakeOk s. Proof. reflexivity. Qed.
Lemma handshakeOk_set_lastError v s : handshakeOk (set_lastError v s) = handshakeOk s. Proof. reflexivity. Qed.
Lemma handshakeOk_set_connectTimer v s : handshakeOk (set_connectTimer v s) = handshakeOk s. Proof. reflexivity. Qed.
Lemma handshakeOk_set_handshakeTimer v s : handshakeOk (set_handshakeTimer v s) = handshakeOk s. Proof. reflexivity. Qed.
Lemma handshakeOk_set_handshakeOk v s : handshakeOk (set_handshakeOk v s) = v. Proof. reflexivity. Qed.
Lemma handshakeOk_set_debugLog v s : handshakeOk (set_debugLog v s) = handshakeOk s. Proof. reflexivity. Qed.
Lemma handshakeOk_set_connectionState v s : handshakeOk (set_connectionState v s) = handshakeOk s. Proof. reflexivity. Qed.
Lemma handshakeOk_set_transport v s : handshakeOk (set_transport v s) = handshakeOk s. Proof. reflexivity. Qed.
Lemma handshakeOk_set_registeredUrl v s : handshakeOk (set_registeredUrl v s) = handshakeOk s. Proof. reflexivity. Qed.
Lemma handshakeOk_set_lastPersistAt v s : handshakeOk (set_lastPersistAt v s) = handshakeOk s. Proof. reflexivity. Qed.
Lemma handshakeOk_set_autoEnabled v s : handshakeOk (set_autoEnabled v s) = handshakeOk s. Proof. reflexivity. Qed.
Lemma handshakeOk_set_autoTimer v s : handshakeOk (set_autoTimer v s) = handshakeOk s. Proof. reflexivity. Qed.
Lemma handshakeOk_set_autoBackoffMs v s : handshakeOk (set_autoBackoffMs v s) = handshakeOk s. Proof. reflexivity. Qed.
Lemma handshakeOk_set_autoOpts v s : handshakeOk (set_autoOpts v s) = handshakeOk s. Proof. reflexivity. Qed.
Lemma handshakeOk_set_now v s : handshakeOk (set_now v s) = handshakeOk s. Proof. reflexivity. Qed.
Lemma handshakeOk_set_config v s : handshakeOk (set_config v s) = handshakeOk s. Proof. reflexivity. Qed.
Lemma handshakeOk_set_storage v s : handshakeOk (set_storage v s) = handshakeOk s. Proof. reflexivity. Qed.
Lemma handshakeOk_set_sysCallbacks v s : handshakeOk (set_sysCallbacks v s) = handshakeOk s. Proof. reflexivity. Qed.
Lemma handshakeOk_set_socks v s : handshakeOk (set_socks v s) = handshakeOk s. Proof. reflexivity. Qed.
Lemma handshakeOk_set_nextSock v s : handshakeOk (set_nextSock v s) = handshakeOk s. Proof. reflexivity. Qed.
Lemma handshakeOk_clearConnectTimer  s : handshakeOk (clearConnectTimer s) = handshakeOk s. Proof. reflexivity. Qed.
Lemma handshakeOk_clearHandshakeTimer  s : handshakeOk (clearHandshakeTimer s) = handshakeOk s. Proof. reflexivity. Qed.
Lemma handshakeOk_alter_sock f ws s : handshakeOk (alter_sock f ws s) = handshakeOk s. Proof. reflexivity. Qed.
Lemma handshakeOk_persistRuntime force s : handshakeOk (persistRuntime force s) = handshakeOk s.
Proof. unfold persistRuntime; repeat field_step; congruence. Qed.
Lemma handshakeOk_pushLog lv msg s : handshakeOk (pushLog lv msg s) = handshakeOk s.
Proof. unfold pushLog; repeat field_step; congruence. Qed.
Lemma handshakeOk_setState st s : handshakeOk (setState st s) = handshakeOk s.
Proof. unfold setState; repeat field_step; congruence. Qed.
Lemma handshakeOk_markServerTraffic  s : handshakeOk (markServerTraffic s) = handshakeOk s.
Proof. unfold markServerTraffic; repeat field_step; congruence. Qed.
Create Rewrite HintDb get_handshakeOk.
#[local] Hint Rewrite
  handshakeOk_set_socket handshakeOk_set_lastConnectedAt handshakeOk_set_lastServerRequestAt
  handshakeOk_set_lastError handshakeOk_set_connectTimer handshakeOk_set_handshakeTimer
  handshakeOk_set_handshakeOk handshakeOk_set_debugLog handshakeOk_set_connectionState
  handshakeOk_set_transport handshakeOk_set_registeredUrl handshakeOk_set_lastPersistAt
  handshakeOk_set_autoEnabled handshakeOk_set_autoTimer handshakeOk_set_autoBackoffMs
  handshakeOk_set_autoOpts handshakeOk_set_now handshakeOk_set_config
  handshakeOk_set_storage handshakeOk_set_sysCallbacks handshakeOk_set_socks
  handshakeOk_set_nextSock handshakeOk_clearConnectTimer handshakeOk_clearHandshakeTimer
  handshakeOk_alter_sock handshakeOk_persistRuntime handshakeOk_pushLog
  handshakeOk_setState handshakeOk_markServerTraffic
  : get_handshakeOk.

(** Reading [debugLog] after an update. *)
Lemma debugLog_set_socket v s : debugLog (set_socket v s) = debugLog s. Proof. reflexivity. Qed.
Lemma debugLog_set_lastConnectedAt v s : debugLog (set_lastConnectedAt v s) = debugLog s. Proof. reflexivity. Qed.
Lemma debugLog_set_lastServerRequestAt v s : debugLog (set_lastServerRequestAt v s) = debugLog s. Proof. reflexivity. Qed.
Lemma debugLog_set_lastError v s : debugLog (set_lastError v s) = debugLog s. Proof. reflexivity. Qed.
Lemma debugLog_set_connectTimer v s : debugLog (set_connectTimer v s) = debugLog s. Proof. reflexivity. Qed.
Lemma debugLog_set_handshakeTimer v s : debugLog (set_handshakeTimer v s) = debugLog s. Proof. reflexivity. Qed.
Lemma debugLog_set_handshakeOk v s : debugLog (set_handshakeOk v s) = debugLog s. Proof. reflexivity. Qed.
Lemma debugLog_set_debugLog v s : debugLog (set_debugLog v s) = v. Proof. reflexivity. Qed.
Lemma debugLog_set_connectionState v s : debugLog (set_connectionState v s) = debugLog s. Proof. reflexivity. Qed.
Lemma debugLog_set_transport v s : debugLog (set_transport v s) = debugLog s. Proof. reflexivity. Qed.
Lemma debugLog_set_registeredUrl v s : debugLog (set_registeredUrl v s) = debugLog s. Proof. reflexivity. Qed.
Lemma debugLog_set_lastPersistAt v s : debugLog (set_lastPersistAt v s) = debugLog s. Proof. reflexivity. Qed.
Lemma debugLog_set_autoEnabled v s : debugLog (set_autoEnabled v s) = debugLog s. Proof. reflexivity. Qed.
Lemma debugLog_set_autoTimer v s : debugLog (set_autoTimer v s) = debugLog s. Proof. reflexivity. Qed.
Lemma debugLog_set_autoBackoffMs v s : debugLog (set_autoBackoffMs v s) = debugLog s. Proof. reflexivity. Qed.
Lemma debugLog_set_autoOpts v s : debugLog (set_autoOpts v s) = debugLog s. Proof. reflexivity. Qed.
Lemma debugLog_set_now v s : debugLog (set_now v s) = debugLog s. Proof. reflexivity. Qed.
Lemma debugLog_set_config v s : debugLog (set_config v s) = debugLog s. Proof. reflexivity. Qed.
Lemma debugLog_set_storage v s : debugLog (set_storage v s) = debugLog s. Proof. reflexivity. Qed.
Lemma debugLog_set_sysCallbacks v s : debugLog (set_sysCallbacks v s) = debugLog s. Proof. reflexivity. Qed.
Lemma debugLog_set_socks v s : debugLog (set_socks v s) = debugLog s. Proof. reflexivity. Qed.
Lemma debugLog_set_nextSock v s : debugLog (set_nextSock v s) = debugLog s. Proof. reflexivity. Qed.
Lemma debugLog_clearConnectTimer  s : debugLog (clearConnectTimer s) = debugLog s. Proof. reflexivity. Qed.
Lemma debugLog_clearHandshakeTimer  s : debugLog (clearHandshakeTimer s) = debugLog s. Proof. reflexivity. Qed.
Lemma debugLog_alter_sock f ws s : debugLog (alter_sock f ws s) = debugLog s. Proof. reflexivity. Qed.
Lemma debugLog_persistRuntime force s : debugLog (persistRuntime force s) = debugLog s.
Proof. unfold persistRuntime; repeat field_step; congruence. Qed.
Lemma debugLog_setState st s : debugLog (setState st s) = debugLog s.
Proof. unfold setState; repeat field_step; congruence. Qed.
Lemma debugLog_markServerTraffic  s : debugLog (markServerTraffic s) = debugLog s.
Proof. unfold markServerTraffic; repeat field_step; congruence. Qed.
Create Rewrite HintDb get_debugLog.
#[local] Hint Rewrite
  debugLog_set_socket debugLog_set_lastConnectedAt debugLog_set_lastServerRequestAt
  debugLog_set_lastError debugLog_set_connectTimer debugLog_set_handshakeTimer
  debugLog_set_handshakeOk debugLog_set_debugLog debugLog_set_connectionState
  debugLog_set_transport debugLog_set_registeredUrl debugLog_set_lastPersistAt
  debugLog_set_autoEnabled debugLog_set_autoTimer debugLog_set_autoBackoffMs
  debugLog_set_autoOpts debugLog_set_now debugLog_set_config
  debugLog_set_storage debugLog_set_sysCallbacks debugLog_set_socks
  debugLog_set_nextSock debugLog_clearConnectTimer debugLog_clearHandshakeTimer
  debugLog_alter_sock debugLog_persistRuntime debugLog_setState
  debugLog_markServerTraffic
  : get_debugLog.

(** Reading [transport] after an update. *)
Lemma transport_set_socket v s : transport (set_socket v s) = transport s. Proof. reflexivity. Qed.
Lemma transport_set_lastConnectedAt v s : transport (set_lastConnectedAt v s) = transport s. Proof. reflexivity. Qed.
Lemma transport_set_lastServerRequestAt v s : transport (set_lastServerRequestAt v s) = transport s. Proof. reflexivity. Qed.
Lemma transport_set_lastError v s : transport (set_lastError v s) = transport s. Proof. reflexivity. Qed.
Lemma transport_set_connectTimer v s : transport (set_connectTimer v s) = transport s. Proof. reflexivity. Qed.
Lemma transport_set_handshakeTimer v s : transport (set_handshakeTimer v s) = transport s. Proof. reflexivity. Qed.
Lemma transport_set_handshakeOk v s : transport (set_handshakeOk v s) = transport s. Proof. reflexivity. Qed.
Lemma transport_set_debugLog v s : transport (set_debugLog v s) = transport s. Proof. reflexivity. Qed.
Lemma transport_set_connectionState v s : transport (set_connectionState v s) = transport s. Proof. reflexivity. Qed.
Lemma transport_set_transport v s : transport (set_transport v s) = v. Proof. reflexivity. Qed.
Lemma transport_set_registeredUrl v s : transport (set_registeredUrl v s) = transport s. Proof. reflexivity. Qed.
Lemma transport_set_lastPersistAt v s : transport (set_lastPersistAt v s) = transport s. Proof. reflexivity. Qed.
Lemma transport_set_autoEnabled v s : transport (set_autoEnabled v s) = transport s. Proof. reflexivity. Qed.
Lemma transport_set_autoTimer v s : transport (set_autoTimer v s) = transport s. Proof. reflexivity. Qed.
Lemma transport_set_autoBackoffMs v s : transport (set_autoBackoffMs v s) = transport s. Proof. reflexivity. Qed.
Lemma transport_set_autoOpts v s : transport (set_autoOpts v s) = transport s. Proof. reflexivity. Qed.
Lemma transport_set_now v s : transport (set_now v s) = transport s. Proof. reflexivity. Qed.
Lemma transport_set_config v s : transport (set_config v s) = transport s. Proof. reflexivity. Qed.
Lemma transport_set_storage v s : transport (set_storage v s) = transport s. Proof. reflexivity. Qed.
Lemma transport_set_sysCallbacks v s : transport (set_sysCallbacks v s) = transport s. Proof. reflexivity. Qed.
Lemma transport_set_socks v s : transport (set_socks v s) = transport s. Proof. reflexivity. Qed.
Lemma transport_set_nextSock v s : transport (set_nextSock v s) = transport s. Proof. reflexivity. Qed.
Lemma transport_clearConnectTimer  s : transport (clearConnectTimer s) = transport s. Proof. reflexivity. Qed.
Lemma transport_clearHandshakeTimer  s : transport (clearHandshakeTimer s) = transport s. Proof. reflexivity. Qed.
Lemma transport_alter_sock f ws s : transport (alter_sock f ws s) = transport s. Proof. reflexivity. Qed.
Lemma transport_persistRuntime force s : transport (persistRuntime force s) = transport s.
Proof. unfold persistRuntime; repeat field_step; congruence. Qed.
Lemma transport_pushLog lv msg s : transport (pushLog lv msg s) = transport s.
Proof. unfold pushLog; repeat field_step; congruence. Qed.
Lemma transport_setState st s : transport (setState st s) = transport s.
Proof. unfold setState; repeat field_step; congruence. Qed.
Lemma transport_markServerTraffic  s : transport (markServerTraffic s) = transport s.
Proof. unfold markServerTraffic; repeat field_step; congruence. Qed.
Create Rewrite HintDb get_transport.
#[local] Hint Rewrite
  transport_set_socket transport_set_lastConnectedAt transport_set_lastServerRequestAt
  transport_set_lastError transport_set_connectTimer transport_set_handshakeTimer
  transport_set_handshakeOk transport_set_debugLog transport_set_connectionState
  transport_set_transport transport_set_registeredUrl transport_set_lastPersistAt
  transport_set_autoEnabled transport_set_autoTimer transport_set_autoBackoffMs
  transport_set_autoOpts transport_set_now transport_set_config
  transport_set_storage transport_set_sysCallbacks transport_set_socks
  transport_set_nextSock transport_clearConnectTimer transport_clearHandshakeTimer
  transport_alter_sock transport_persistRuntime transport_pushLog
  transport_setState transport_markServerTraffic
  : get_transport.

(** Reading [socket] after an update. *)
Lemma socket_set_socket v s : socket (set_socket v s) = v. Proof. reflexivity. Qed.
Lemma socket_set_lastConnectedAt v s : socket (set_lastConnectedAt v s) = socket s. Proof. reflexivity. Qed.
Lemma socket_set_lastServerRequestAt v s : socket (set_lastServerRequestAt v s) = socket s. Proof. reflexivity. Qed.
Lemma socket_set_lastError v s : socket (set_lastError v s) = socket s. Proof. reflexivity. Qed.
Lemma socket_set_connectTimer v s : socket (set_connectTimer v s) = socket s. Proof. reflexivity. Qed.
Lemma socket_set_handshakeTimer v s : socket (set_handshakeTimer v s) = socket s. Proof. reflexivity. Qed.
Lemma socket_set_handshakeOk v s : socket (set_handshakeOk v s) = socket s. Proof. reflexivity. Qed.
Lemma socket_set_debugLog v s : socket (set_debugLog v s) = socket s. Proof. reflexivity. Qed.
Lemma socket_set_connectionState v s : socket (set_connectionState v s) = socket s. Proof. reflexivity. Qed.
Lemma socket_set_transport v s : socket (set_transport v s) = socket s. Proof. reflexivity. Qed.
Lemma socket_set_registeredUrl v s : socket (set_registeredUrl v s) = socket s. Proof. reflexivity. Qed.
Lemma socket_set_lastPersistAt v s : socket (set_lastPersistAt v s) = socket s. Proof. reflexivity. Qed.
Lemma socket_set_autoEnabled v s : socket (set_autoEnabled v s) = socket s. Proof. reflexivity. Qed.
Lemma socket_set_autoTimer v s : socket (set_autoTimer v s) = socket s. Proof. reflexivity. Qed.
Lemma socket_set_autoBackoffMs v s : socket (set_autoBackoffMs v s) = socket s. Proof. reflexivity. Qed.
Lemma socket_set_autoOpts v s : socket (set_autoOpts v s) = socket s. Proof. reflexivity. Qed.
Lemma socket_set_now v s : socket (set_now v s) = socket s. Proof. reflexivity. Qed.
Lemma socket_set_config v s : socket (set_config v s) = socket s. Proof. reflexivity. Qed.
Lemma socket_set_storage v s : socket (set_storage v s) = socket s. Proof. reflexivity. Qed.
Lemma socket_set_sysCallbacks v s : socket (set_sysCallbacks v s) = socket s. Proof. reflexivity. Qed.
Lemma socket_set_socks v s : socket (set_socks v s) = socket s. Proof. reflexivity. Qed.
Lemma socket_set_nextSock v s : socket (set_nextSock v s) = socket s. Proof. reflexivity. Qed.
Lemma socket_clearConnectTimer  s : socket (clearConnectTimer s) = socket s. Proof. reflexivity. Qed.
Lemma socket_clearHandshakeTimer  s : socket (clearHandshakeTimer s) = socket s. Proof. reflexivity. Qed.
Lemma socket_alter_sock f ws s : socket (alter_sock f ws s) = socket s. Proof. reflexivity. Qed.
Lemma socket_persistRuntime force s : socket (persistRuntime force s) = socket s.
Proof. unfold persistRuntime; repeat field_step; congruence. Qed.
Lemma socket_pushLog lv msg s : socket (pushLog lv msg s) = socket s.
Proof. unfold pushLog; repeat field_step; congruence. Qed.
Lemma socket_setState st s : socket (setState st s) = socket s.
Proof. unfold setState; repeat field_step; congruence. Qed.
Lemma socket_markServerTraffic  s : socket (markServerTraffic s) = socket s.
Proof. unfold markServerTraffic; repeat field_step; congruence. Qed.
Create Rewrite HintDb get_socket.
#[local] Hint Rewrite
  socket_set_socket socket_set_lastConnectedAt socket_set_lastServerRequestAt
  socket_set_lastError socket_set_connectTimer socket_set_handshakeTimer
  socket_set_handshakeOk socket_set_debugLog socket_set_connectionState
  socket_set_transport socket_set_registeredUrl socket_set_lastPersistAt
  socket_set_autoEnabled socket_set_autoTimer socket_set_autoBackoffMs
  socket_set_autoOpts socket_set_now socket_set_config
  socket_set_storage socket_set_sysCallbacks socket_set_socks
  socket_set_nextSock socket_clearConnectTimer socket_clearHandshakeTimer
  socket_alter_sock socket_persistRuntime socket_pushLog
  socket_setState socket_markServerTraffic
  : get_socket.

(** Reading [sysCallbacks] after an update. *)
Lemma sysCallbacks_set_socket v s : sysCallbacks (set_socket v s) = sysCallbacks s. Proof. reflexivity. Qed.
Lemma sysCallbacks_set_lastConnectedAt v s : sysCallbacks (set_lastConnectedAt v s) = sysCallbacks s. Proof. reflexivity. Qed.
Lemma sysCallbacks_set_lastServerRequestAt v s : sysCallbacks (set_lastServerRequestAt v s) = sysCallbacks s. Proof. reflexivity. Qed.
Lemma sysCallbacks_set_lastError v s : sysCallbacks (set_lastError v s) = sysCallbacks s. Proof. reflexivity. Qed.
Lemma sysCallbacks_set_connectTimer v s : sysCallbacks (set_connectTimer v s) = sysCallbacks s. Proof. reflexivity. Qed.
Lemma sysCallbacks_set_handshakeTimer v s : sysCallbacks (set_handshakeTimer v s) = sysCallbacks s. Proof. reflexivity. Qed.
Lemma sysCallbacks_set_handshakeOk v s : sysCallbacks (set_handshakeOk v s) = sysCallbacks s. Proof. reflexivity. Qed.
Lemma sysCallbacks_set_debugLog v s : sysCallbacks (set_debugLog v s) = sysCallbacks s. Proof. reflexivity. Qed.
Lemma sysCallbacks_set_connectionState v s : sysCallbacks (set_connectionState v s) = sysCallbacks s. Proof. reflexivity. Qed.
Lemma sysCallbacks_set_transport v s : sysCallbacks (set_transport v s) = sysCallbacks s. Proof. reflexivity. Qed.
Lemma sysCallbacks_set_registeredUrl v s : sysCallbacks (set_registeredUrl v s) = sysCallbacks s. Proof. reflexivity. Qed.
Lemma sysCallbacks_set_lastPersistAt v s : sysCallbacks (set_lastPersistAt v s) = sysCallbacks s. Proof. reflexivity. Qed.
Lemma sysCallbacks_set_autoEnabled v s : sysCallbacks (set_autoEnabled v s) = sysCallbacks s. Proof. reflexivity. Qed.
Lemma sysCallbacks_set_autoTimer v s : sysCallbacks (set_autoTimer v s) = sysCallbacks s. Proof. reflexivity. Qed.
Lemma sysCallbacks_set_autoBackoffMs v s : sysCallbacks (set_autoBackoffMs v s) = sysCallbacks s. Proof. reflexivity. Qed.
Lemma sysCallbacks_set_autoOpts v s : sysCallbacks (set_autoOpts v s) = sysCallbacks s. Proof. reflexivity. Qed.
Lemma sysCallbacks_set_now v s : sysCallbacks (set_now v s) = sysCallbacks s. Proof. reflexivity. Qed.
Lemma sysCallbacks_set_config v s : sysCallbacks (set_config v s) = sysCallbacks s. Proof. reflexivity. Qed.
Lemma sysCallbacks_set_storage v s : sysCallbacks (set_storage v s) = sysCallbacks s. Proof. reflexivity. Qed.
Lemma sysCallbacks_set_sysCallbacks v s : sysCallbacks (set_sysCallbacks v s) = v. Proof. reflexivity. Qed.
Lemma sysCallbacks_set_socks v s : sysCallbacks (set_socks v s) = sysCallbacks s. Proof. reflexivity. Qed.
Lemma sysCallbacks_set_nextSock v s : sysCallbacks (set_nextSock v s) = sysCallbacks s. Proof. reflexivity. Qed.
Lemma sysCallbacks_clearConnectTimer  s : sysCallbacks (clearConnectTimer s) = sysCallbacks s. Proof. reflexivity. Qed.
Lemma sysCallbacks_clearHandshakeTimer  s : sysCallbacks (clearHandshakeTimer s) = sysCallbacks s. Proof. reflexivity. Qed.
Lemma sysCallbacks_alter_sock f ws s : sysCallbacks (alter_sock f ws s) = sysCallbacks s. Proof. reflexivity. Qed.
Lemma sysCallbacks_persistRuntime force s : sysCallbacks (persistRuntime force s) = sysCallbacks s.
Proof. unfold persistRuntime; repeat field_step; congruence. Qed.
Lemma sysCallbacks_pushLog lv msg s : sysCallbacks (pushLog lv msg s) = sysCallbacks s.
Proof. unfold pushLog; repeat field_step; congruence. Qed.
Lemma sysCallbacks_setState st s : sysCallbacks (setState st s) = sysCallbacks s.
Proof. unfold setState; repeat field_step; congruence. Qed.
Lemma sysCallbacks_markServerTraffic  s : sysCallbacks (markServerTraffic s) = sysCallbacks s.
Proof. unfold markServerTraffic; repeat field_step; congruence. Qed.
Create Rewrite HintDb get_sysCallbacks.
#[local] Hint Rewrite
  sysCallbacks_set_socket sysCallbacks_set_lastConnectedAt sysCallbacks_set_lastServerRequestAt
  sysCallbacks_set_lastError sysCallbacks_set_connectTimer sysCallbacks_set_handshakeTimer
  sysCallbacks_set_handshakeOk sysCallbacks_set_debugLog sysCallbacks_set_connectionState
  sysCallbacks_set_transport sysCallbacks_set_registeredUrl sysCallbacks_set_lastPersistAt
  sysCallbacks_set_autoEnabled sysCallbacks_set_autoTimer sysCallbacks_set_autoBackoffMs
  sysCallbacks_set_autoOpts sysCallbacks_set_now sysCallbacks_set_config
  sysCallbacks_set_storage sysCallbacks_set_sysCallbacks sysCallbacks_set_socks
  sysCallbacks_set_nextSock sysCallbacks_clearConnectTimer sysCallbacks_clearHandshakeTimer
  sysCallbacks_alter_sock sysCallbacks_persistRuntime sysCallbacks_pushLog
  sysCallbacks_setState sysCallbacks_markServerTraffic
  : get_sysCallbacks.

(** Reading [socks] after an update. *)
Lemma socks_set_socket v s : socks (set_socket v s) = socks s. Proof. reflexivity. Qed.
Lemma socks_set_lastConnectedAt v s : socks (set_lastConnectedAt v s) = socks s. Proof. reflexivity. Qed.
Lemma socks_set_lastServerRequestAt v s : socks (set_lastServerRequestAt v s) = socks s. Proof. reflexivity. Qed.
Lemma socks_set_lastError v s : socks (set_lastError v s) = socks s. Proof. reflexivity. Qed.
Lemma socks_set_connectTimer v s : socks (set_connectTimer v s) = socks s. Proof. reflexivity. Qed.
Lemma socks_set_handshakeTimer v s : socks (set_handshakeTimer v s) = socks s. Proof. reflexivity. Qed.
Lemma socks_set_handshakeOk v s : socks (set_handshakeOk v s) = socks s. Proof. reflexivity. Qed.
Lemma socks_set_debugLog v s : socks (set_debugLog v s) = socks s. Proof. reflexivity. Qed.
Lemma socks_set_connectionState v s : socks (set_connectionState v s) = socks s. Proof. reflexivity. Qed.
Lemma socks_set_transport v s : socks (set_transport v s) = socks s. Proof. reflexivity. Qed.
Lemma socks_set_registeredUrl v s : socks (set_registeredUrl v s) = socks s. Proof. reflexivity. Qed.
Lemma socks_set_lastPersistAt v s : socks (set_lastPersistAt v s) = socks s. Proof. reflexivity. Qed.
Lemma socks_set_autoEnabled v s : socks (set_autoEnabled v s) = socks s. Proof. reflexivity. Qed.
Lemma socks_set_autoTimer v s : socks (set_autoTimer v s) = socks s. Proof. reflexivity. Qed.
Lemma socks_set_autoBackoffMs v s : socks (set_autoBackoffMs v s) = socks s. Proof. reflexivity. Qed.
Lemma socks_set_autoOpts v s : socks (set_autoOpts v s) = socks s. Proof. reflexivity. Qed.
Lemma socks_set_now v s : socks (set_now v s) = socks s. Proof. reflexivity. Qed.
Lemma socks_set_config v s : socks (set_config v s) = socks s. Proof. reflexivity. Qed.
Lemma socks_set_storage v s : socks (set_storage v s) = socks s. Proof. reflexivity. Qed.
Lemma socks_set_sysCallbacks v s : socks (set_sysCallbacks v s) = socks s. Proof. reflexivity. Qed.
Lemma socks_set_socks v s : socks (set_socks v s) = v. Proof. reflexivity. Qed.
Lemma socks_set_nextSock v s : socks (set_nextSock v s) = socks s. Proof. reflexivity. Qed.
Lemma socks_clearConnectTimer  s : socks (clearConnectTimer s) = socks s. Proof. reflexivity. Qed.
Lemma socks_clearHandshakeTimer  s : socks (clearHandshakeTimer s) = socks s. Proof. reflexivity. Qed.
Lemma socks_alter_sock f ws s : socks (alter_sock f ws s) = alter f ws (socks s). Proof. reflexivity. Qed.
Lemma socks_persistRuntime force s : socks (persistRuntime force s) = socks s.
Proof. unfold persistRuntime; repeat field_step; congruence. Qed.
Lemma socks_pushLog lv msg s : socks (pushLog lv msg s) = socks s.
Proof. unfold pushLog; repeat field_step; congruence. Qed.
Lemma socks_setState st s : socks (setState st s) = socks s.
Proof. unfold setState; repeat field_step; congruence. Qed.
Lemma socks_markServerTraffic  s : socks (markServerTraffic s) = socks s.
Proof. unfold markServerTraffic; repeat field_step; congruence. Qed.
Create Rewrite HintDb get_socks.
#[local] Hint Rewrite
  socks_set_socket socks_set_lastConnectedAt socks_set_lastServerRequestAt
  socks_set_lastError socks_set_connectTimer socks_set_handshakeTimer
  socks_set_handshakeOk socks_set_debugLog socks_set_connectionState
  socks_set_transport socks_set_registeredUrl socks_set_lastPersistAt
  socks_set_autoEnabled socks_set_autoTimer socks_set_autoBackoffMs
  socks_set_autoOpts socks_set_now socks_set_config
  socks_set_storage socks_set_sysCallbacks socks_set_socks
  socks_set_nextSock socks_clearConnectTimer socks_clearHandshakeTimer
  socks_alter_sock socks_persistRuntime socks_pushLog
  socks_setState socks_markServerTraffic
  : get_socks.

(** Reading [autoEnabled] after an update. *)
Lemma autoEnabled_set_socket v s : autoEnabled (set_socket v s) = autoEnabled s. Proof. reflexivity. Qed.
Lemma autoEnabled_set_lastConnectedAt v s : autoEnabled (set_lastConnectedAt v s) = autoEnabled s. Proof. reflexivity. Qed.
Lemma autoEnabled_set_lastServerRequestAt v s : autoEnabled (set_lastServerRequestAt v s) = autoEnabled s. Proof. reflexivity. Qed.
Lemma autoEnabled_set_lastError v s : autoEnabled (set_lastError v s) = autoEnabled s. Proof. reflexivity. Qed.
Lemma autoEnabled_set_connectTimer v s : autoEnabled (set_connectTimer v s) = autoEnabled s. Proof. reflexivity. Qed.
Lemma autoEnabled_set_handshakeTimer v s : autoEnabled (set_handshakeTimer v s) = autoEnabled s. Proof. reflexivity. Qed.
Lemma autoEnabled_set_handshakeOk v s : autoEnabled (set_handshakeOk v s) = autoEnabled s. Proof. reflexivity. Qed.
Lemma autoEnabled_set_debugLog v s : autoEnabled (set_debugLog v s) = autoEnabled s. Proof. reflexivity. Qed.
Lemma autoEnabled_set_connectionState v s : autoEnabled (set_connectionState v s) = autoEnabled s. Proof. reflexivity. Qed.
Lemma autoEnabled_set_transport v s : autoEnabled (set_transport v s) = autoEnabled s. Proof. reflexivity. Qed.
Lemma autoEnabled_set_registeredUrl v s : autoEnabled (set_registeredUrl v s) = autoEnabled s. Proof. reflexivity. Qed.
Lemma autoEnabled_set_lastPersistAt v s : autoEnabled (set_lastPersistAt v s) = autoEnabled s. Proof. reflexivity. Qed.
Lemma autoEnabled_set_autoEnabled v s : autoEnabled (set_autoEnabled v s) = v. Proof. reflexivity. Qed.
Lemma autoEnabled_set_autoTimer v s : autoEnabled (set_autoTimer v s) = autoEnabled s. Proof. reflexivity. Qed.
Lemma autoEnabled_set_autoBackoffMs v s : autoEnabled (set_autoBackoffMs v s) = autoEnabled s. Proof. reflexivity. Qed.
Lemma autoEnabled_set_autoOpts v s : autoEnabled (set_autoOpts v s) = autoEnabled s. Proof. reflexivity. Qed.
Lemma autoEnabled_set_now v s : autoEnabled (set_now v s) = autoEnabled s. Proof. reflexivity. Qed.
Lemma autoEnabled_set_config v s : autoEnabled (set_config v s) = autoEnabled s. Proof. reflexivity. Qed.
Lemma autoEnabled_set_storage v s : autoEnabled (set_storage v s) = autoEnabled s. Proof. reflexivity. Qed.
Lemma autoEnabled_set_sysCallbacks v s : autoEnabled (set_sysCallbacks v s) = autoEnabled s. Proof. reflexivity. Qed.
Lemma autoEnabled_set_socks v s : autoEnabled (set_socks v s) = autoEnabled s. Proof. reflexivity. Qed.
Lemma autoEnabled_set_nextSock v s : autoEnabled (set_nextSock v s) = autoEnabled s. Proof. reflexivity. Qed.
Lemma autoEnabled_clearConnectTimer  s : autoEnabled (clearConnectTimer s) = autoEnabled s. Proof. reflexivity. Qed.
Lemma autoEnabled_clearHandshakeTimer  s : autoEnabled (clearHandshakeTimer s) = autoEnabled s. Proof. reflexivity. Qed.
Lemma autoEnabled_alter_sock f ws s : autoEnabled (alter_sock f ws s) = autoEnabled s. Proof. reflexivity. Qed.
Lemma autoEnabled_persistRuntime force s : autoEnabled (persistRuntime force s) = autoEnabled s.
Proof. unfold persistRuntime; repeat field_step; congruence. Qed.
Lemma autoEnabled_pushLog lv msg s : autoEnabled (pushLog lv msg s) = autoEnabled s.
Proof. unfold pushLog; repeat field_step; congruence. Qed.
Lemma autoEnabled_setState st s : autoEnabled (setState st s) = autoEnabled s.
Proof. unfold setState; repeat field_step; congruence. Qed.
Lemma autoEnabled_markServerTraffic  s : autoEnabled (markServerTraffic s) = autoEnabled s.
Proof. unfold markServerTraffic; repeat field_step; congruence. Qed.
Create Rewrite HintDb get_autoEnabled.
#[local] Hint Rewrite
  autoEnabled_set_socket autoEnabled_set_lastConnectedAt autoEnabled_set_lastServerRequestAt
  autoEnabled_set_lastError autoEnabled_set_connectTimer autoEnabled_set_handshakeTimer
  autoEnabled_set_handshakeOk autoEnabled_set_debugLog autoEnabled_set_connectionState
  autoEnabled_set_transport autoEnabled_set_registeredUrl autoEnabled_set_lastPersistAt
  autoEnabled_set_autoEnabled autoEnabled_set_autoTimer autoEnabled_set_autoBackoffMs
  autoEnabled_set_autoOpts autoEnabled_set_now autoEnabled_set_config
  autoEnabled_set_storage autoEnabled_set_sysCallbacks autoEnabled_set_socks
  autoEnabled_set_nextSock autoEnabled_clearConnectTimer autoEnabled_clearHandshakeTimer
  autoEnabled_alter_sock autoEnabled_persistRuntime autoEnabled_pushLog
  autoEnabled_setState autoEnabled_markServerTraffic
  : get_autoEnabled.

(** Reading [autoBackoffMs] after an update. *)
Lemma autoBackoffMs_set_socket v s : autoBackoffMs (set_socket v s) = autoBackoffMs s. Proof. reflexivity. Qed.
Lemma autoBackoffMs_set_lastConnectedAt v s : autoBackoffMs (set_lastConnectedAt v s) = autoBackoffMs s. Proof. reflexivity. Qed.
Lemma autoBackoffMs_set_lastServerRequestAt v s : autoBackoffMs (set_lastServerRequestAt v s) = autoBackoffMs s. Proof. reflexivity. Qed.
Lemma autoBackoffMs_set_lastError v s : autoBackoffMs (set_lastError v s) = autoBackoffMs s. Proof. reflexivity. Qed.
Lemma autoBackoffMs_set_connectTimer v s : autoBackoffMs (set_connectTimer v s) = autoBackoffMs s. Proof. reflexivity. Qed.
Lemma autoBackoffMs_set_handshakeTimer v s : autoBackoffMs (set_handshakeTimer v s) = autoBackoffMs s. Proof. reflexivity. Qed.
Lemma autoBackoffMs_set_handshakeOk v s : autoBackoffMs (set_handshakeOk v s) = autoBackoffMs s. Proof. reflexivity. Qed.
Lemma autoBackoffMs_set_debugLog v s : autoBackoffMs (set_debugLog v s) = autoBackoffMs s. Proof. reflexivity. Qed.
Lemma autoBackoffMs_set_connectionState v s : autoBackoffMs (set_connectionState v s) = autoBackoffMs s. Proof. reflexivity. Qed.
Lemma autoBackoffMs_set_transport v s : autoBackoffMs (set_transport v s) = autoBackoffMs s. Proof. reflexivity. Qed.
Lemma autoBackoffMs_set_registeredUrl v s : autoBackoffMs (set_registeredUrl v s) = autoBackoffMs s. Proof. reflexivity. Qed.
Lemma autoBackoffMs_set_lastPersistAt v s : autoBackoffMs (set_lastPersistAt v s) = autoBackoffMs s. Proof. reflexivity. Qed.
Lemma autoBackoffMs_set_autoEnabled v s : autoBackoffMs (set_autoEnabled v s) = autoBackoffMs s. Proof. reflexivity. Qed.
Lemma autoBackoffMs_set_autoTimer v s : autoBackoffMs (set_autoTimer v s) = autoBackoffMs s. Proof. reflexivity. Qed.
Lemma autoBackoffMs_set_autoBackoffMs v s : autoBackoffMs (set_autoBackoffMs v s) = v. Proof. reflexivity. Qed.
Lemma autoBackoffMs_set_autoOpts v s : autoBackoffMs (set_autoOpts v s) = autoBackoffMs s. Proof. reflexivity. Qed.
Lemma autoBackoffMs_set_now v s : autoBackoffMs (set_now v s) = autoBackoffMs s. Proof. reflexivity. Qed.
Lemma autoBackoffMs_set_config v s : autoBackoffMs (set_config v s) = autoBackoffMs s. Proof. reflexivity. Qed.
Lemma autoBackoffMs_set_storage v s : autoBackoffMs (set_storage v s) = autoBackoffMs s. Proof. reflexivity. Qed.
Lemma autoBackoffMs_set_sysCallbacks v s : autoBackoffMs (set_sysCallbacks v s) = autoBackoffMs s. Proof. reflexivity. Qed.
Lemma autoBackoffMs_set_socks v s : autoBackoffMs (set_socks v s) = autoBackoffMs s. Proof. reflexivity. Qed.
Lemma autoBackoffMs_set_nextSock v s : autoBackoffMs (set_nextSock v s) = autoBackoffMs s. Proof. reflexivity. Qed.
Lemma autoBackoffMs_clearConnectTimer  s : autoBackoffMs (clearConnectTimer s) = autoBackoffMs s. Proof. reflexivity. Qed.
Lemma autoBackoffMs_clearHandshakeTimer  s : autoBackoffMs (clearHandshakeTimer s) = autoBackoffMs s. Proof. reflexivity. Qed.
Lemma autoBackoffMs_alter_sock f ws s : autoBackoffMs (alter_sock f ws s) = autoBackoffMs s. Proof. reflexivity. Qed.
Lemma autoBackoffMs_persistRuntime force s : autoBackoffMs (persistRuntime force s) = autoBackoffMs s.
Proof. unfold persistRuntime; repeat field_step; congruence. Qed.
Lemma autoBackoffMs_pushLog lv msg s : autoBackoffMs (pushLog lv msg s) = autoBackoffMs s.
Proof. unfold pushLog; repeat field_step; congruence. Qed.
Lemma autoBackoffMs_setState st s : autoBackoffMs (setState st s) = autoBackoffMs s.
Proof. unfold setState; repeat field_step; congruence. Qed.
Lemma autoBackoffMs_markServerTraffic  s : autoBackoffMs (markServerTraffic s) = autoBackoffMs s.
Proof. unfold markServerTraffic; repeat field_step; congruence. Qed.
Create Rewrite HintDb get_autoBackoffMs.
#[local] Hint Rewrite
  autoBackoffMs_set_socket autoBackoffMs_set_lastConnectedAt autoBackoffMs_set_lastServerRequestAt
  autoBackoffMs_set_lastError autoBackoffMs_set_connectTimer autoBackoffMs_set_handshakeTimer
  autoBackoffMs_set_handshakeOk autoBackoffMs_set_debugLog autoBackoffMs_set_connectionState
  autoBackoffMs_set_transport autoBackoffMs_set_registeredUrl autoBackoffMs_set_lastPersistAt
  autoBackoffMs_set_autoEnabled autoBackoffMs_set_autoTimer autoBackoffMs_set_autoBackoffMs
  autoBackoffMs_set_autoOpts autoBackoffMs_set_now autoBackoffMs_set_config
  autoBackoffMs_set_storage autoBackoffMs_set_sysCallbacks autoBackoffMs_set_socks
  autoBackoffMs_set_nextSock autoBackoffMs_clearConnectTimer autoBackoffMs_clearHandshakeTimer
  autoBackoffMs_alter_sock autoBackoffMs_persistRuntime autoBackoffMs_pushLog
  autoBackoffMs_setState autoBackoffMs_markServerTraffic
  : get_autoBackoffMs.

(** Reading [autoMaxBackoffMs] after an update. *)
Lemma autoMaxBackoffMs_set_socket v s : autoMaxBackoffMs (set_socket v s) = autoMaxBackoffMs s. Proof. reflexivity. Qed.
Lemma autoMaxBackoffMs_set_lastConnectedAt v s : autoMaxBackoffMs (set_lastConnectedAt v s) = autoMaxBackoffMs s. Proof. reflexivity. Qed.
Lemma autoMaxBackoffMs_set_lastServerRequestAt v s : autoMaxBackoffMs (set_lastServerRequestAt v s) = autoMaxBackoffMs s. Proof. reflexivity. Qed.
Lemma autoMaxBackoffMs_set_lastError v s : autoMaxBackoffMs (set_lastError v s) = autoMaxBackoffMs s. Proof. reflexivity. Qed.
Lemma autoMaxBackoffMs_set_connectTimer v s : autoMaxBackoffMs (set_connectTimer v s) = autoMaxBackoffMs s. Proof. reflexivity. Qed.
Lemma autoMaxBackoffMs_set_handshakeTimer v s : autoMaxBackoffMs (set_handshakeTimer v s) = autoMaxBackoffMs s. Proof. reflexivity. Qed.
Lemma autoMaxBackoffMs_set_handshakeOk v s : autoMaxBackoffMs (set_handshakeOk v s) = autoMaxBackoffMs s. Proof. reflexivity. Qed.
Lemma autoMaxBackoffMs_set_debugLog v s : autoMaxBackoffMs (set_debugLog v s) = autoMaxBackoffMs s. Proof. reflexivity. Qed.
Lemma autoMaxBackoffMs_set_connectionState v s : autoMaxBackoffMs (set_connectionState v s) = autoMaxBackoffMs s. Proof. reflexivity. Qed.
Lemma autoMaxBackoffMs_set_transport v s : autoMaxBackoffMs (set_transport v s) = autoMaxBackoffMs s. Proof. reflexivity. Qed.
Lemma autoMaxBackoffMs_set_registeredUrl v s : autoMaxBackoffMs (set_registeredUrl v s) = autoMaxBackoffMs s. Proof. reflexivity. Qed.
Lemma autoMaxBackoffMs_set_lastPersistAt v s : autoMaxBackoffMs (set_lastPersistAt v s) = autoMaxBackoffMs s. Proof. reflexivity. Qed.
Lemma autoMaxBackoffMs_set_autoEnabled v s : autoMaxBackoffMs (set_autoEnabled v s) = autoMaxBackoffMs s. Proof. reflexivity. Qed.
Lemma autoMaxBackoffMs_set_autoTimer v s : autoMaxBackoffMs (set_autoTimer v s) = autoMaxBackoffMs s. Proof. reflexivity. Qed.
Lemma autoMaxBackoffMs_set_autoBackoffMs v s : autoMaxBackoffMs (set_autoBackoffMs v s) = autoMaxBackoffMs s. Proof. reflexivity. Qed.
Lemma autoMaxBackoffMs_set_autoOpts v s : autoMaxBackoffMs (set_autoOpts v s) = autoMaxBackoffMs s. Proof. reflexivity. Qed.
Lemma autoMaxBackoffMs_set_now v s : autoMaxBackoffMs (set_now v s) = autoMaxBackoffMs s. Proof. reflexivity. Qed.
Lemma autoMaxBackoffMs_set_config v s : autoMaxBackoffMs (set_config v s) = autoMaxBackoffMs s. Proof. reflexivity. Qed.
Lemma autoMaxBackoffMs_set_storage v s : autoMaxBackoffMs (set_storage v s) = autoMaxBackoffMs s. Proof. reflexivity. Qed.
Lemma autoMaxBackoffMs_set_sysCallbacks v s : autoMaxBackoffMs (set_sysCallbacks v s) = autoMaxBackoffMs s. Proof. reflexivity. Qed.
Lemma autoMaxBackoffMs_set_socks v s : autoMaxBackoffMs (set_socks v s) = autoMaxBackoffMs s. Proof. reflexivity. Qed.
Lemma autoMaxBackoffMs_set_nextSock v s : autoMaxBackoffMs (set_nextSock v s) = autoMaxBackoffMs s. Proof. reflexivity. Qed.
Lemma autoMaxBackoffMs_clearConnectTimer  s : autoMaxBackoffMs (clearConnectTimer s) = autoMaxBackoffMs s. Proof. reflexivity. Qed.
Lemma autoMaxBackoffMs_clearHandshakeTimer  s : autoMaxBackoffMs (clearHandshakeTimer s) = autoMaxBackoffMs s. Proof. reflexivity. Qed.
Lemma autoMaxBackoffMs_alter_sock f ws s : autoMaxBackoffMs (alter_sock f ws s) = autoMaxBackoffMs s. Proof. reflexivity. Qed.
Lemma autoMaxBackoffMs_persistRuntime force s : autoMaxBackoffMs (persistRuntime force s) = autoMaxBackoffMs s.
Proof. unfold persistRuntime; repeat field_step; congruence. Qed.
Lemma autoMaxBackoffMs_pushLog lv msg s : autoMaxBackoffMs (pushLog lv msg s) = autoMaxBackoffMs s.
Proof. unfold pushLog; repeat field_step; congruence. Qed.
Lemma autoMaxBackoffMs_setState st s : autoMaxBackoffMs (setState st s) = autoMaxBackoffMs s.
Proof. unfold setState; repeat field_step; congruence. Qed.
Lemma autoMaxBackoffMs_markServerTraffic  s : autoMaxBackoffMs (markServerTraffic s) = autoMaxBackoffMs s.
Proof. unfold markServerTraffic; repeat field_step; congruence. Qed.
Create Rewrite HintDb get_autoMaxBackoffMs.
#[local] Hint Rewrite
  autoMaxBackoffMs_set_socket autoMaxBackoffMs_set_lastConnectedAt autoMaxBackoffMs_set_lastServerRequestAt
  autoMaxBackoffMs_set_lastError autoMaxBackoffMs_set_connectTimer autoMaxBackoffMs_set_handshakeTimer
  autoMaxBackoffMs_set_handshakeOk autoMaxBackoffMs_set_debugLog autoMaxBackoffMs_set_connectionState
  autoMaxBackoffMs_set_transport autoMaxBackoffMs_set_registeredUrl autoMaxBackoffMs_set_lastPersistAt
  autoMaxBackoffMs_set_autoEnabled autoMaxBackoffMs_set_autoTimer autoMaxBackoffMs_set_autoBackoffMs
  autoMaxBackoffMs_set_autoOpts autoMaxBackoffMs_set_now autoMaxBackoffMs_set_config
  autoMaxBackoffMs_set_storage autoMaxBackoffMs_set_sysCallbacks autoMaxBackoffMs_set_socks
  autoMaxBackoffMs_set_nextSock autoMaxBackoffMs_clearConnectTimer autoMaxBackoffMs_clearHandshakeTimer
  autoMaxBackoffMs_alter_sock autoMaxBackoffMs_persistRuntime autoMaxBackoffMs_pushLog
  autoMaxBackoffMs_setState autoMaxBackoffMs_markServerTraffic
  : get_autoMaxBackoffMs.

(** Reading [autoOpts] after an update. *)
Lemma autoOpts_set_socket v s : autoOpts (set_socket v s) = autoOpts s. Proof. reflexivity. Qed.
Lemma autoOpts_set_lastConnectedAt v s : autoOpts (set_lastConnectedAt v s) = autoOpts s. Proof. reflexivity. Qed.
Lemma autoOpts_set_lastServerRequestAt v s : autoOpts (set_lastServerRequestAt v s) = autoOpts s. Proof. reflexivity. Qed.
Lemma autoOpts_set_lastError v s : autoOpts (set_lastError v s) = autoOpts s. Proof. reflexivity. Qed.
Lemma autoOpts_set_connectTimer v s : autoOpts (set_connectTimer v s) = autoOpts s. Proof. reflexivity. Qed.
Lemma autoOpts_set_handshakeTimer v s : autoOpts (set_handshakeTimer v s) = autoOpts s. Proof. reflexivity. Qed.
Lemma autoOpts_set_handshakeOk v s : autoOpts (set_handshakeOk v s) = autoOpts s. Proof. reflexivity. Qed.
Lemma autoOpts_set_debugLog v s : autoOpts (set_debugLog v s) = autoOpts s. Proof. reflexivity. Qed.
Lemma autoOpts_set_connectionState v s : autoOpts (set_connectionState v s) = autoOpts s. Proof. reflexivity. Qed.
Lemma autoOpts_set_transport v s : autoOpts (set_transport v s) = autoOpts s. Proof. reflexivity. Qed.
Lemma autoOpts_set_registeredUrl v s : autoOpts (set_registeredUrl v s) = autoOpts s. Proof. reflexivity. Qed.
Lemma autoOpts_set_lastPersistAt v s : autoOpts (set_lastPersistAt v s) = autoOpts s. Proof. reflexivity. Qed.
Lemma autoOpts_set_autoEnabled v s : autoOpts (set_autoEnabled v s) = autoOpts s. Proof. reflexivity. Qed.
Lemma autoOpts_set_autoTimer v s : autoOpts (set_autoTimer v s) = autoOpts s. Proof. reflexivity. Qed.
Lemma autoOpts_set_autoBackoffMs v s : autoOpts (set_autoBackoffMs v s) = autoOpts s. Proof. reflexivity. Qed.
Lemma autoOpts_set_autoOpts v s : autoOpts (set_autoOpts v s) = v. Proof. reflexivity. Qed.
Lemma autoOpts_set_now v s : autoOpts (set_now v s) = autoOpts s. Proof. reflexivity. Qed.
Lemma autoOpts_set_config v s : autoOpts (set_config v s) = autoOpts s. Proof. reflexivity. Qed.
Lemma autoOpts_set_storage v s : autoOpts (set_storage v s) = autoOpts s. Proof. reflexivity. Qed.
Lemma autoOpts_set_sysCallbacks v s : autoOpts (set_sysCallbacks v s) = autoOpts s. Proof. reflexivity. Qed.
Lemma autoOpts_set_socks v s : autoOpts (set_socks v s) = autoOpts s. Proof. reflexivity. Qed.
Lemma autoOpts_set_nextSock v s : autoOpts (set_nextSock v s) = autoOpts s. Proof. reflexivity. Qed.
Lemma autoOpts_clearConnectTimer  s : autoOpts (clearConnectTimer s) = autoOpts s. Proof. reflexivity. Qed.
Lemma autoOpts_clearHandshakeTimer  s : autoOpts (clearHandshakeTimer s) = autoOpts s. Proof. reflexivity. Qed.
Lemma autoOpts_alter_sock f ws s : autoOpts (alter_sock f ws s) = autoOpts s. Proof. reflexivity. Qed.
Lemma autoOpts_persistRuntime force s : autoOpts (persistRuntime force s) = autoOpts s.
Proof. unfold persistRuntime; repeat field_step; congruence. Qed.
Lemma autoOpts_pushLog lv msg s : autoOpts (pushLog lv msg s) = autoOpts s.
Proof. unfold pushLog; repeat field_step; congruence. Qed.
Lemma autoOpts_setState st s : autoOpts (setState st s) = autoOpts s.
Proof. unfold setState; repeat field_step; congruence. Qed.
Lemma autoOpts_markServerTraffic  s : autoOpts (markServerTraffic s) = autoOpts s.
Proof. unfold markServerTraffic; repeat field_step; congruence. Qed.
Create Rewrite HintDb get_autoOpts.
#[local] Hint Rewrite
  autoOpts_set_socket autoOpts_set_lastConnectedAt autoOpts_set_lastServerRequestAt
  autoOpts_set_lastError autoOpts_set_connectTimer autoOpts_set_handshakeTimer
  autoOpts_set_handshakeOk autoOpts_set_debugLog autoOpts_set_connectionState
  autoOpts_set_transport autoOpts_set_registeredUrl autoOpts_set_lastPersistAt
  autoOpts_set_autoEnabled autoOpts_set_autoTimer autoOpts_set_autoBackoffMs
  autoOpts_set_autoOpts autoOpts_set_now autoOpts_set_config
  autoOpts_set_storage autoOpts_set_sysCallbacks autoOpts_set_socks
  autoOpts_set_nextSock autoOpts_clearConnectTimer autoOpts_clearHandshakeTimer
  autoOpts_alter_sock autoOpts_persistRuntime autoOpts_pushLog
  autoOpts_setState autoOpts_markServerTraffic
  : get_autoOpts.

(** Reading [now] after an update. *)
Lemma now_set_socket v s : now (set_socket v s) = now s. Proof. reflexivity. Qed.
Lemma now_set_lastConnectedAt v s : now (set_lastConnectedAt v s) = now s. Proof. reflexivity. Qed.
Lemma now_set_lastServerRequestAt v s : now (set_lastServerRequestAt v s) = now s. Proof. reflexivity. Qed.
Lemma now_set_lastError v s : now (set_lastError v s) = now s. Proof. reflexivity. Qed.
Lemma now_set_connectTimer v s : now (set_connectTimer v s) = now s. Proof. reflexivity. Qed.
Lemma now_set_handshakeTimer v s : now (set_handshakeTimer v s) = now s. Proof. reflexivity. Qed.
Lemma now_set_handshakeOk v s : now (set_handshakeOk v s) = now s. Proof. reflexivity. Qed.
Lemma now_set_debugLog v s : now (set_debugLog v s) = now s. Proof. reflexivity. Qed.
Lemma now_set_connectionState v s : now (set_connectionState v s) = now s. Proof. reflexivity. Qed.
Lemma now_set_transport v s : now (set_transport v s) = now s. Proof. reflexivity. Qed.
Lemma now_set_registeredUrl v s : now (set_registeredUrl v s) = now s. Proof. reflexivity. Qed.
Lemma now_set_lastPersistAt v s : now (set_lastPersistAt v s) = now s. Proof. reflexivity. Qed.
Lemma now_set_autoEnabled v s : now (set_autoEnabled v s) = now s. Proof. reflexivity. Qed.
Lemma now_set_autoTimer v s : now (set_autoTimer v s) = now s. Proof. reflexivity. Qed.
Lemma now_set_autoBackoffMs v s : now (set_autoBackoffMs v s) = now s. Proof. reflexivity. Qed.
Lemma now_set_autoOpts v s : now (set_autoOpts v s) = now s. Proof. reflexivity. Qed.
Lemma now_set_now v s : now (set_now v s) = v. Proof. reflexivity. Qed.
Lemma now_set_config v s : now (set_config v s) = now s. Proof. reflexivity. Qed.
Lemma now_set_storage v s : now (set_storage v s) = now s. Proof. reflexivity. Qed.
Lemma now_set_sysCallbacks v s : now (set_sysCallbacks v s) = now s. Proof. reflexivity. Qed.
Lemma now_set_socks v s : now (set_socks v s) = now s. Proof. reflexivity. Qed.
Lemma now_set_nextSock v s : now (set_nextSock v s) = now s. Proof. reflexivity. Qed.
Lemma now_clearConnectTimer  s : now (clearConnectTimer s) = now s. Proof. reflexivity. Qed.
Lemma now_clearHandshakeTimer  s : now (clearHandshakeTimer s) = now s. Proof. reflexivity. Qed.
Lemma now_alter_sock f ws s : now (alter_sock f ws s) = now s. Proof. reflexivity. Qed.
Lemma now_persistRuntime force s : now (persistRuntime force s) = now s.
Proof. unfold persistRuntime; repeat field_step; congruence. Qed.
Lemma now_pushLog lv msg s : now (pushLog lv msg s) = now s.
Proof. unfold pushLog; repeat field_step; congruence. Qed.
Lemma now_setState st s : now (setState st s) = now s.
Proof. unfold setState; repeat field_step; congruence. Qed.
Lemma now_markServerTraffic  s : now (markServerTraffic s) = now s.
Proof. unfold markServerTraffic; repeat field_step; congruence. Qed.
Create Rewrite HintDb get_now.
#[local] Hint Rewrite
  now_set_socket now_set_lastConnectedAt now_set_lastServerRequestAt
  now_set_lastError now_set_connectTimer now_set_handshakeTimer
  now_set_handshakeOk now_set_debugLog now_set_connectionState
  now_set_transport now_set_registeredUrl now_set_lastPersistAt
  now_set_autoEnabled now_set_autoTimer now_set_autoBackoffMs
  now_set_autoOpts now_set_now now_set_config
  now_set_storage now_set_sysCallbacks now_set_socks
  now_set_nextSock now_clearConnectTimer now_clearHandshakeTimer
  now_alter_sock now_persistRuntime now_pushLog
  now_setState now_markServerTraffic
  : get_now.

(** Reading [lastServerRequestAt] after an update. *)
Lemma lastServerRequestAt_set_socket v s : lastServerRequestAt (set_socket v s) = lastServerRequestAt s. Proof. reflexivity. Qed.
Lemma lastServerRequestAt_set_lastConnectedAt v s : lastServerRequestAt (set_lastConnectedAt v s) = lastServerRequestAt s. Proof. reflexivity. Qed.
Lemma lastServerRequestAt_set_lastServerRequestAt v s : lastServerRequestAt (set_lastServerRequestAt v s) = v. Proof. reflexivity. Qed.
Lemma lastServerRequestAt_set_lastError v s : lastServerRequestAt (set_lastError v s) = lastServerRequestAt s. Proof. reflexivity. Qed.
Lemma lastServerRequestAt_set_connectTimer v s : lastServerRequestAt (set_connectTimer v s) = lastServerRequestAt s. Proof. reflexivity. Qed.
Lemma lastServerRequestAt_set_handshakeTimer v s : lastServerRequestAt (set_handshakeTimer v s) = lastServerRequestAt s. Proof. reflexivity. Qed.
Lemma lastServerRequestAt_set_handshakeOk v s : lastServerRequestAt (set_handshakeOk v s) = lastServerRequestAt s. Proof. reflexivity. Qed.
Lemma lastServerRequestAt_set_debugLog v s : lastServerRequestAt (set_debugLog v s) = lastServerRequestAt s. Proof. reflexivity. Qed.
Lemma lastServerRequestAt_set_connectionState v s : lastServerRequestAt (set_connectionState v s) = lastServerRequestAt s. Proof. reflexivity. Qed.
Lemma lastServerRequestAt_set_transport v s : lastServerRequestAt (set_transport v s) = lastServerRequestAt s. Proof. reflexivity. Qed.
Lemma lastServerRequestAt_set_registeredUrl v s : lastServerRequestAt (set_registeredUrl v s) = lastServerRequestAt s. Proof. reflexivity. Qed.
Lemma lastServerRequestAt_set_lastPersistAt v s : lastServerRequestAt (set_lastPersistAt v s) = lastServerRequestAt s. Proof. reflexivity. Qed.
Lemma lastServerRequestAt_set_autoEnabled v s : lastServerRequestAt (set_autoEnabled v s) = lastServerRequestAt s. Proof. reflexivity. Qed.
Lemma lastServerRequestAt_set_autoTimer v s : lastServerRequestAt (set_autoTimer v s) = lastServerRequestAt s. Proof. reflexivity. Qed.
Lemma lastServerRequestAt_set_autoBackoffMs v s : lastServerRequestAt (set_autoBackoffMs v s) = lastServerRequestAt s. Proof. reflexivity. Qed.
Lemma lastServerRequestAt_set_autoOpts v s : lastServerRequestAt (set_autoOpts v s) = lastServerRequestAt s. Proof. reflexivity. Qed.
Lemma lastServerRequestAt_set_now v s : lastServerRequestAt (set_now v s) = lastServerRequestAt s. Proof. reflexivity. Qed.
Lemma lastServerRequestAt_set_config v s : lastServerRequestAt (set_config v s) = lastServerRequestAt s. Proof. reflexivity. Qed.
Lemma lastServerRequestAt_set_storage v s : lastServerRequestAt (set_storage v s) = lastServerRequestAt s. Proof. reflexivity. Qed.
Lemma lastServerRequestAt_set_sysCallbacks v s : lastServerRequestAt (set_sysCallbacks v s) = lastServerRequestAt s. Proof. reflexivity. Qed.
Lemma lastServerRequestAt_set_socks v s : lastServerRequestAt (set_socks v s) = lastServerRequestAt s. Proof. reflexivity. Qed.
Lemma lastServerRequestAt_set_nextSock v s : lastServerRequestAt (set_nextSock v s) = lastServerRequestAt s. Proof. reflexivity. Qed.
Lemma lastServerRequestAt_clearConnectTimer  s : lastServerRequestAt (clearConnectTimer s) = lastServerRequestAt s. Proof. reflexivity. Qed.
Lemma lastServerRequestAt_clearHandshakeTimer  s : lastServerRequestAt (clearHandshakeTimer s) = lastServerRequestAt s. Proof. reflexivity. Qed.
Lemma lastServerRequestAt_alter_sock f ws s : lastServerRequestAt (alter_sock f ws s) = lastServerRequestAt s. Proof. reflexivity. Qed.
Lemma lastServerRequestAt_persistRuntime force s : lastServerRequestAt (persistRuntime force s) = lastServerRequestAt s.
Proof. unfold persistRuntime; repeat field_step; congruence. Qed.
Lemma lastServerRequestAt_pushLog lv msg s : lastServerRequestAt (pushLog lv msg s) = lastServerRequestAt s.
Proof. unfold pushLog; repeat field_step; congruence. Qed.
Lemma lastServerRequestAt_setState st s : lastServerRequestAt (setState st s) = lastServerRequestAt s.
Proof. unfold setState; repeat field_step; congruence. Qed.
Lemma lastServerRequestAt_markServerTraffic s : lastServerRequestAt (markServerTraffic s) = Some (now s).
Proof. unfold markServerTraffic; repeat field_step; congruence. Qed.
Create Rewrite HintDb get_lastServerRequestAt.
#[local] Hint Rewrite
  lastServerRequestAt_set_socket lastServerRequestAt_set_lastConnectedAt lastServerRequestAt_set_lastServerRequestAt
  lastServerRequestAt_set_lastError lastServerRequestAt_set_connectTimer lastServerRequestAt_set_handshakeTimer
  lastServerRequestAt_set_handshakeOk lastServerRequestAt_set_debugLog lastServerRequestAt_set_connectionState
  lastServerRequestAt_set_transport lastServerRequestAt_set_registeredUrl lastServerRequestAt_set_lastPersistAt
  lastServerRequestAt_set_autoEnabled lastServerRequestAt_set_autoTimer lastServerRequestAt_set_autoBackoffMs
  lastServerRequestAt_set_autoOpts lastServerRequestAt_set_now lastServerRequestAt_set_config
  lastServerRequestAt_set_storage lastServerRequestAt_set_sysCallbacks lastServerRequestAt_set_socks
  lastServerRequestAt_set_nextSock lastServerRequestAt_clearConnectTimer lastServerRequestAt_clearHandshakeTimer
  lastServerRequestAt_alter_sock lastServerRequestAt_persistRuntime lastServerRequestAt_pushLog
  lastServerRequestAt_setState lastServerRequestAt_markServerTraffic
  : get_lastServerRequestAt.

(** Reading [config] after an update. *)
Lemma config_set_socket v s : config (set_socket v s) = config s. Proof. reflexivity. Qed.
Lemma config_set_lastConnectedAt v s : config (set_lastConnectedAt v s) = config s. Proof. reflexivity. Qed.
Lemma config_set_lastServerRequestAt v s : config (set_lastServerRequestAt v s) = config s. Proof. reflexivity. Qed.
Lemma config_set_lastError v s : config (set_lastError v s) = config s. Proof. reflexivity. Qed.
Lemma config_set_connectTimer v s : config (set_connectTimer v s) = config s. Proof. reflexivity. Qed.
Lemma config_set_handshakeTimer v s : config (set_handshakeTimer v s) = config s. Proof. reflexivity. Qed.
Lemma config_set_handshakeOk v s : config (set_handshakeOk v s) = config s. Proof. reflexivity. Qed.
Lemma config_set_debugLog v s : config (set_debugLog v s) = config s. Proof. reflexivity. Qed.
Lemma config_set_connectionState v s : config (set_connectionState v s) = config s. Proof. reflexivity. Qed.
Lemma config_set_transport v s : config (set_transport v s) = config s. Proof. reflexivity. Qed.
Lemma config_set_registeredUrl v s : config (set_registeredUrl v s) = config s. Proof. reflexivity. Qed.
Lemma config_set_lastPersistAt v s : config (set_lastPersistAt v s) = config s. Proof. reflexivity. Qed.
Lemma config_set_autoEnabled v s : config (set_autoEnabled v s) = config s. Proof. reflexivity. Qed.
Lemma config_set_autoTimer v s : config (set_autoTimer v s) = config s. Proof. reflexivity. Qed.
Lemma config_set_autoBackoffMs v s : config (set_autoBackoffMs v s) = config s. Proof. reflexivity. Qed.
Lemma config_set_autoOpts v s : config (set_autoOpts v s) = config s. Proof. reflexivity. Qed.
Lemma config_set_now v s : config (set_now v s) = config s. Proof. reflexivity. Qed.
Lemma config_set_config v s : config (set_config v s) = v. Proof. reflexivity. Qed.
Lemma config_set_storage v s : config (set_storage v s) = config s. Proof. reflexivity. Qed.
Lemma config_set_sysCallbacks v s : config (set_sysCallbacks v s) = config s. Proof. reflexivity. Qed.
Lemma config_set_socks v s : config (set_socks v s) = config s. Proof. reflexivity. Qed.
Lemma config_set_nextSock v s : config (set_nextSock v s) = config s. Proof. reflexivity. Qed.
Lemma config_clearConnectTimer  s : config (clearConnectTimer s) = config s. Proof. reflexivity. Qed.
Lemma config_clearHandshakeTimer  s : config (clearHandshakeTimer s) = config s. Proof. reflexivity. Qed.
Lemma config_alter_sock f ws s : config (alter_sock f ws s) = config s. Proof. reflexivity. Qed.
Lemma config_persistRuntime force s : config (persistRuntime force s) = config s.
Proof. unfold persistRuntime; repeat field_step; congruence. Qed.
Lemma config_pushLog lv msg s : config (pushLog lv msg s) = config s.
Proof. unfold pushLog; repeat field_step; congruence. Qed.
Lemma config_setState st s : config (setState st s) = config s.
Proof. unfold setState; repeat field_step; congruence. Qed.
Lemma config_markServerTraffic  s : config (markServerTraffic s) = config s.
Proof. unfold markServerTraffic; repeat field_step; congruence. Qed.
Create Rewrite HintDb get_config.
#[local] Hint Rewrite
  config_set_socket config_set_lastConnectedAt config_set_lastServerRequestAt
  config_set_lastError config_set_connectTimer config_set_handshakeTimer
  config_set_handshakeOk config_set_debugLog config_set_connectionState
  config_set_transport config_set_registeredUrl config_set_lastPersistAt
  config_set_autoEnabled config_set_autoTimer config_set_autoBackoffMs
  config_set_autoOpts config_set_now config_set_config
  config_set_storage config_set_sysCallbacks config_set_socks
  config_set_nextSock config_clearConnectTimer config_clearHandshakeTimer
  config_alter_sock config_persistRuntime config_pushLog
  config_setState config_markServerTraffic
  : get_config.


Lemma debugLog_pushLog_nonempty lv msg s : debugLog (pushLog lv msg s) <> [].
Proof.
  unfold pushLog. rewrite debugLog_persistRuntime, debugLog_set_debugLog.
  destruct (Nat.ltb_spec LOG_CAPACITY
              (List.length (debugLog s ++ [Build_DebugLogEntry (now s) lv msg])))
    as [Hlt|Hge].
  - intros E. apply (f_equal (@List.length _)) in E. rewrite length_skipn in E.
    simpl in E. unfold LOG_CAPACITY in *. lia.
  - intros E. by apply app_eq_nil in E as [_ E].
Qed.

(** Projections of updated states, by rewriting. *)
Tactic Notation "get" ident(db) := repeat (progress (autorewrite with db)).

(** Reduction of the matches on constructors and of the local definitions. *)
Ltac pick := lazy beta iota zeta.

(** *** [disconnect] *)

Lemma disconnect_state preserve closeThrows s :
  connectionState (disconnect preserve closeThrows s) = disconnected.
Proof.
  unfold disconnect. get get_transport.
  destruct (transport s), closeThrows, preserve, (socket s); cbn [negb];
    get get_connectionState; reflexivity.
Qed.

Lemma disconnect_clears closeThrows s :
  lastError (disconnect false closeThrows s) = None.
Proof.
  unfold disconnect. get get_transport.
  destruct (transport s), closeThrows, (socket s); cbn [negb];
    get get_lastError; reflexivity.
Qed.

Lemma disconnect_preserves closeThrows s :
  transport s <> sys_WebSocket \/ closeThrows = None ->
  lastError (disconnect true closeThrows s) = lastError s.
Proof.
  intros H. unfold disconnect. get get_transport.
  destruct (transport s), closeThrows, (socket s); cbn [negb];
    get get_lastError; try reflexivity; destruct H; congruence.
Qed.

Lemma disconnect_log preserve closeThrows s :
  debugLog (disconnect preserve closeThrows s) <> [].
Proof.
  unfold disconnect. get get_transport.
  destruct (transport s), closeThrows, preserve, (socket s); cbn [negb];
    get get_debugLog; apply debugLog_pushLog_nonempty.
Qed.

Lemma disconnect_callbacks preserve closeThrows s :
  sysCallbacks (disconnect preserve closeThrows s) = sysCallbacks s.
Proof.
  unfold disconnect. get get_transport.
  destruct (transport s), closeThrows, preserve, (socket s); cbn [negb];
    get get_sysCallbacks; reflexivity.
Qed.

Lemma disconnect_no_socks preserve closeThrows s :
  socks s = ∅ -> socks (disconnect preserve closeThrows s) = ∅.
Proof.
  intros H. unfold disconnect. get get_transport.
  destruct (transport s), closeThrows, preserve, (socket s); cbn [negb];
    get get_socks; rewrite ?H; try reflexivity;
    apply map_eq; intros i; rewrite ?lookup_alter, !lookup_empty;
    repeat case_decide; reflexivity.
Qed.

(** The snapshot of an instance that has logged something shows its own
    fields. *)
Lemma snapshot_of_memory s :
  debugLog s <> [] ->
  snap_lastError (getStatusSnapshot s) = lastError s
  /\ snap_connectionState (getStatusSnapshot s) = connectionState s.
Proof.
  intros Hlog. unfold getStatusSnapshot.
  destruct (debugLog s) as [|e l]; [done|]. cbn [List.length Nat.eqb andb].
  by destruct (loadRuntimeState s).
Qed.

(** *** The last error after a failure-triggered disconnect *)

Lemma checkStale_loses_error closeThrows s t :
  connectionState s = connected -> lastServerRequestAt s = Some t -> t <> 0 ->
  STALE_MS < now s - t ->
  connectionState (checkStale closeThrows s) = disconnected
  /\ lastError (checkStale closeThrows s) = None
  /\ snap_lastError (getStatusSnapshot (checkStale closeThrows s)) = None.
Proof.
  intros Hst Hlast Ht Hage. unfold checkStale. rewrite Hst, Hlast. cbn [truthyZ].
  destruct (Z.eqb_spec t 0) as [|_]; [done|].
  apply Z.ltb_lt in Hage. rewrite Hage.
  split; [apply disconnect_state|]. split; [apply disconnect_clears|].
  destruct (snapshot_of_memory
              (disconnect false closeThrows
                 (pushLog warn "stale connection; reconnecting"
                    (set_lastError (Some (staleMessage (now s - t))) s))))
    as [-> _]; [apply disconnect_log|apply disconnect_clears].
Qed.

Lemma step_handshake_timeout closeThrows s due url :
  handshakeTimer s = Some (due, url) -> due <= now s -> handshakeOk s = false ->
  step s (EvHandshakeTimeout closeThrows)
  = disconnect true closeThrows
      (pushLog error "handshake timeout"
         (set_lastError (Some (handshakeTimeoutMessage url))
            (set_handshakeTimer None s))).
Proof.
  intros Htimer Hdue Hok. cbn [step]. rewrite Htimer.
  apply Z.leb_le in Hdue. rewrite Hdue. unfold onHandshakeTimeout.
  by rewrite handshakeOk_set_handshakeTimer, Hok.
Qed.

Lemma watchdog_error_preserved closeThrows s due url :
  handshakeTimer s = Some (due, url) -> due <= now s -> handshakeOk s = false ->
  transport s <> sys_WebSocket \/ closeThrows = None ->
  connectionState (step s (EvHandshakeTimeout closeThrows)) = disconnected
  /\ lastError (step s (EvHandshakeTimeout closeThrows))
     = Some (handshakeTimeoutMessage url)
  /\ snap_lastError (getStatusSnapshot (step s (EvHandshakeTimeout closeThrows)))
     = Some (handshakeTimeoutMessage url).
Proof.
  intros Htimer Hdue Hok Hclose.
  rewrite (step_handshake_timeout closeThrows s due url Htimer Hdue Hok).
  assert (Herr : lastError
            (disconnect true closeThrows
               (pushLog error "handshake timeout"
                  (set_lastError (Some (handshakeTimeoutMessage url))
                     (set_handshakeTimer None s))))
          = Some (handshakeTimeoutMessage url)).
  { rewrite disconnect_preserves; [by get get_lastError|]. by get get_transport. }
  split; [apply disconnect_state|]. split; [exact Herr|].
  destruct (snapshot_of_memory
              (disconnect true closeThrows
                 (pushLog error "handshake timeout"
                    (set_lastError (Some (handshakeTimeoutMessage url))
                       (set_handshakeTimer None s)))))
    as [-> _]; [apply disconnect_log|exact Herr].
Qed.

Lemma user_disconnect_clears closeThrows s :
  connectionState (step s (EvDisconnect false closeThrows)) = disconnected
  /\ lastError (step s (EvDisconnect false closeThrows)) = None
  /\ snap_lastError (getStatusSnapshot (step s (EvDisconnect false closeThrows))) = None.
Proof.
  cbn [step]. split; [apply disconnect_state|]. split; [apply disconnect_clears|].
  destruct (snapshot_of_memory (disconnect false closeThrows s)) as [-> _];
    [apply disconnect_log|apply disconnect_clears].
Qed.

(** C6 at the stale client.  The supervisor's tick finds the connection
    stale, records the cause and calls [disconnect()]: once the state is
    disconnected the cause is gone from the fields and from the snapshot,
    and it is still gone when the tick ends.  The same client keeps the
    cause of a handshake timeout. *)
Theorem C6_stale_cause_is_cleared :
  connectionState stale_client = connected
  /\ lastServerRequestAt stale_client = Some 1000
  /\ now stale_client = 71000
  /\ connectionState (checkStale None stale_client) = disconnected
  /\ lastError (checkStale None stale_client) = None
  /\ snap_lastError (getStatusSnapshot (checkStale None stale_client)) = None
  /\ map message (debugLog (checkStale None stale_client))
     = ["connect() called"; "sys_WebSocket.register"; "sys_WebSocket connected";
        "hello sent"; "handshake confirmed (first server request)";
        "stale connection; reconnecting"; "disconnect() called"]
  /\ snap_lastError (getStatusSnapshot (step stale_client (EvAutoTick None None))) = None
  /\ snap_lastError
       (getStatusSnapshot (step unconfirmed_client (EvHandshakeTimeout None)))
     = Some (handshakeTimeoutMessage DEFAULT_SERVER_URL).
Proof. vm_compute. repeat split; reflexivity. Qed.

(** *** What each handler does to the connection state *)

Lemma scheduleAuto_fields ms s :
  connectionState (scheduleAuto ms s) = connectionState s
  /\ sysCallbacks (scheduleAuto ms s) = sysCallbacks s
  /\ socks (scheduleAuto ms s) = socks s
  /\ autoBackoffMs (scheduleAuto ms s) = autoBackoffMs s
  /\ autoMaxBackoffMs (scheduleAuto ms s) = autoMaxBackoffMs s.
Proof. unfold scheduleAuto. by destruct (negb (autoEnabled s)). Qed.

Lemma connect_state hostThrows s :
  connectionState (connect hostThrows s) = connectionState s
  \/ connectionState (connect hostThrows s) = disconnected
  \/ connectionState (connect hostThrows s) = connecting.
Proof.
  unfold connect. destruct (anotherSandboxOwnsConnection _).
  - left. by get get_connectionState.
  - pick. get get_transport. destruct (inferredTransport _); pick.
    + get get_connectionState.
      destruct (connectionState s) eqn:E; pick; get get_connectionState;
        rewrite ?E; auto.
      destruct hostThrows; get get_connectionState; auto.
    + get get_connectionState.
      destruct (connectionState s) eqn:E; pick; get get_connectionState;
        rewrite ?E; auto.
      destruct hostThrows; get get_connectionState; auto.
    + left. by get get_connectionState.
Qed.

Lemma onRequestSeen_state s :
  (handshakeOk s = true /\ connectionState (onRequestSeen s) = connectionState s)
  \/ (handshakeOk s = false /\ connectionState (onRequestSeen s) = connected).
Proof.
  unfold onRequestSeen. pick. get get_handshakeOk.
  destruct (handshakeOk s); [left|right]; by get get_connectionState.
Qed.

Lemma onMessage_state tag data s ev :
  delivers_request ev = match data with Some msg => isRpcRequest msg | None => false end ->
  state_step s (onMessage tag data s) ev.
Proof.
  intros Hev. unfold state_step, onMessage.
  destruct data as [msg|]; [|left; by get get_connectionState].
  destruct (isRpcRequest msg); [|by left].
  destruct (onRequestSeen_state s) as [[_ E]|[Hok E]]; [by left|].
  right. right. right. done.
Qed.

Lemma onConnected_state url sendThrows s :
  connectionState (onConnected url sendThrows s) = connectionState s.
Proof.
  unfold onConnected, startHandshakeWatchdog. destruct sendThrows;
    by get get_connectionState.
Qed.

Lemma onopen_state url sendThrows s :
  connectionState (onopen url sendThrows s) = connectionState s.
Proof.
  unfold onopen, startHandshakeWatchdog. destruct sendThrows;
    by get get_connectionState.
Qed.

Lemma onerror_state url s : connectionState (onerror url s) = connectionState s.
Proof. unfold onerror. by get get_connectionState. Qed.

Lemma onclose_state code reason s :
  connectionState (onclose code reason s) = disconnected.
Proof. unfold onclose. by get get_connectionState. Qed.

Lemma onConnectTimeout_state t s :
  connectionState (onConnectTimeout t s) = connectionState s
  \/ connectionState (onConnectTimeout t s) = disconnected.
Proof.
  unfold onConnectTimeout. destruct (ct_transport t).
  - destruct (connectionState s) eqn:E; get get_connectionState; auto.
  - destruct (socket s) as [ws|]; [|by left].
    destruct (socks s !! ws) as [[[] ? ?]|]; get get_connectionState; auto.
  - destruct (socket s) as [ws|]; [|by left].
    destruct (socks s !! ws) as [[[] ? ?]|]; get get_connectionState; auto.
Qed.

Lemma checkStale_state closeThrows s :
  connectionState (checkStale closeThrows s) = connectionState s
  \/ connectionState (checkStale closeThrows s) = disconnected.
Proof.
  unfold checkStale. destruct (connectionState s) eqn:E; pick; rewrite ?E; auto.
  destruct (truthyZ (lastServerRequestAt s)) as [t|]; pick; rewrite ?E; auto.
  destruct (STALE_MS <? now s - t); rewrite ?E; auto.
  right. apply disconnect_state.
Qed.

Lemma attempt_state hostThrows s1 :
  connectionState
    (set_autoBackoffMs
       (nextBackoff
          (autoBackoffMs (scheduleAuto (autoBackoffMs (connect hostThrows s1))
                            (connect hostThrows s1)))
          (autoMaxBackoffMs (scheduleAuto (autoBackoffMs (connect hostThrows s1))
                               (connect hostThrows s1))))
       (scheduleAuto (autoBackoffMs (connect hostThrows s1)) (connect hostThrows s1)))
  = connectionState (connect hostThrows s1).
Proof.
  rewrite connectionState_set_autoBackoffMs.
  by destruct (scheduleAuto_fields (autoBackoffMs (connect hostThrows s1))
                 (connect hostThrows s1)) as (-> & _).
Qed.

Lemma autoTick_state closeThrows hostThrows s :
  connectionState (autoTick closeThrows hostThrows s) = connectionState s
  \/ connectionState (autoTick closeThrows hostThrows s) = disconnected
  \/ connectionState (autoTick closeThrows hostThrows s) = connecting.
Proof.
  unfold autoTick. destruct (negb (autoEnabled s)); [by left|].
  destruct (negb (autoConnect (config s))); [by left|]. pick.
  pose proof (checkStale_state closeThrows s) as Hstale.
  destruct (connectionState (checkStale closeThrows s)) eqn:E.
  - destruct (negb (autoOpts _)).
    + destruct (scheduleAuto_fields 10000 (checkStale closeThrows s)) as (-> & _).
      rewrite E. auto.
    + rewrite attempt_state.
      destruct (connect_state hostThrows (checkStale closeThrows s)) as [H|[H|H]];
        rewrite H, ?E; auto.
  - destruct (scheduleAuto_fields 2000 (checkStale closeThrows s)) as (-> & _).
    rewrite E. destruct Hstale as [<-|?]; [by left|discriminate].
  - destruct (scheduleAuto_fields 10000 (checkStale closeThrows s)) as (-> & _).
    rewrite E. destruct Hstale as [<-|?]; [by left|discriminate].
Qed.

Lemma step_state s ev : state_step s (step s ev) ev.
Proof.
  unfold state_step. destruct ev; cbn [step].
  - left. by destruct (0 <=? dt).
  - by left.
  - by left.
  - destruct (connect_state hostThrows s) as [H|[H|H]]; auto.
  - right. left. apply disconnect_state.
  - left. unfold startAutoConnect.
    by destruct (scheduleAuto_fields 0
                   (set_autoBackoffMs 1500 (set_autoOpts true (set_autoEnabled true s))))
      as (-> & _).
  - by left.
  - right. left. apply disconnect_state.
  - destruct (autoTimer s) as [due|]; [|by left].
    destruct (due <=? now s); [|by left].
    destruct (autoTick_state closeThrows hostThrows (set_autoTimer None s))
      as [H|[H|H]]; auto.
  - destruct (connectTimer s) as [t|]; [|by left].
    destruct (ct_due t <=? now s); [|by left].
    destruct (onConnectTimeout_state t (set_connectTimer None s)) as [H|H]; auto.
  - destruct (handshakeTimer s) as [[due url]|]; [|by left].
    destruct (due <=? now s); [|by left].
    unfold onHandshakeTimeout. rewrite handshakeOk_set_handshakeTimer.
    destruct (handshakeOk s); [by left|].
    right. left. apply disconnect_state.
  - destruct (sysCallbacks s); [|by left]. left. apply onConnected_state.
  - destruct (sysCallbacks s); [|by left].
    by apply (onMessage_state _ data s (EvSysMessage data)).
  - destruct (socks s !! ws) as [[[] h url]|]; try (by left).
    destruct h; [|by left]. left.
    by rewrite onopen_state, connectionState_alter_sock.
  - destruct (socks s !! ws) as [[[] [] url]|]; try (by left).
    by apply (onMessage_state _ data s (EvMessage ws data)).
  - destruct (socks s !! ws) as [[r [] url]|]; try (by left).
    destruct r; try (by left); left; apply onerror_state.
  - destruct (socks s !! ws) as [[r h url]|]; [|by left].
    destruct r; try (by left);
      (destruct h; [right; left; apply onclose_state|by left]).
Qed.

(** *** Before the first [connect] *)

Lemma disconnect_never preserve closeThrows s :
  never_connected s -> never_connected (disconnect preserve closeThrows s).
Proof.
  intros [H1 H2]. split.
  - by rewrite disconnect_callbacks.
  - by apply disconnect_no_socks.
Qed.

Lemma step_never s ev :
  calls_connect ev = false -> never_connected s -> never_connected (step s ev).
Proof.
  intros Hev [H1 H2]. destruct ev; cbn [step calls_connect] in *; try discriminate.
  - by destruct (0 <=? dt).
  - done.
  - done.
  - by apply disconnect_never.
  - unfold startAutoConnect.
    destruct (scheduleAuto_fields 0
                (set_autoBackoffMs 1500 (set_autoOpts true (set_autoEnabled true s))))
      as (_ & Ha & Hb & _).
    split; [by rewrite Ha|by rewrite Hb].
  - done.
  - unfold dispose. by apply disconnect_never.
  - destruct (connectTimer s) as [t|]; [|done].
    destruct (ct_due t <=? now s); [|done].
    unfold onConnectTimeout. destruct (ct_transport t).
    + rewrite connectionState_set_connectTimer.
      destruct (connectionState s) eqn:E; split;
        get get_sysCallbacks; get get_socks; done.
    + rewrite socket_set_connectTimer. destruct (socket s) as [ws|]; [|done].
      by rewrite socks_set_connectTimer, H2, lookup_empty.
    + rewrite socket_set_connectTimer. destruct (socket s) as [ws|]; [|done].
      by rewrite socks_set_connectTimer, H2, lookup_empty.
  - destruct (handshakeTimer s) as [[due url]|]; [|done].
    destruct (due <=? now s); [|done].
    unfold onHandshakeTimeout. rewrite handshakeOk_set_handshakeTimer.
    destruct (handshakeOk s); [done|].
    apply disconnect_never. split; [by get get_sysCallbacks|by get get_socks].
  - by rewrite H1.
  - by rewrite H1.
  - by rewrite H2, lookup_empty.
  - by rewrite H2, lookup_empty.
  - by rewrite H2, lookup_empty.
  - by rewrite H2, lookup_empty.
Qed.

Lemma run_never trace s :
  existsb calls_connect trace = false -> never_connected s ->
  never_connected (run s trace).
Proof.
  revert s. induction trace as [|ev trace IH]; cbn [run fold_left existsb]; [done|].
  intros s Hex Hs. apply orb_false_iff in Hex as [Hev Hex].
  apply (IH (step s ev)); [done|]. by apply step_never.
Qed.

Lemma never_connected_ignores s ev :
  never_connected s -> delivers_request ev = true -> step s ev = s.
Proof.
  intros [H1 H2] Hev. destruct ev; cbn [step delivers_request] in *; try discriminate.
  - by rewrite H1.
  - by rewrite H2, lookup_empty.
Qed.

Lemma disconnect_handshake preserve closeThrows s :
  handshakeOk (disconnect preserve closeThrows s) = false.
Proof.
  unfold disconnect. get get_transport.
  destruct (transport s), closeThrows, preserve, (socket s); cbn [negb];
    get get_handshakeOk; reflexivity.
Qed.

(** C3, as the code has it.  The events by which a socket reports that it is
    open leave the connection state as it is.  The state becomes connected
    only at an event that delivers a frame decoding as an RPC request,
    received while the handshake is not yet confirmed; and in an execution
    from a new client such an event comes after a call of [connect].  The
    request need not be the first one after [connect()]: [disconnect()]
    unsets the handshake flag as [connect()] does and leaves the
    sys_WebSocket callbacks registered, so a request that the host delivers
    after [disconnect()] makes the client connected again. *)
Theorem C3_connected_only_by_request :
  (forall s ev, reports_open ev = true ->
     connectionState (step s ev) = connectionState s)
  /\ (forall s ev, connectionState s <> connected ->
        connectionState (step s ev) = connected ->
        delivers_request ev = true /\ handshakeOk s = false)
  /\ (forall hasSys hasGlobal storageOk trace ev,
        let s := run (new_client hasSys hasGlobal storageOk) trace in
        connectionState s <> connected ->
        connectionState (step s ev) = connected ->
        exists e, In e trace /\ calls_connect e = true)
  /\ (forall s url preserve closeThrows msg,
        sysCallbacks s = Some url -> isRpcRequest msg = true ->
        connectionState (step s (EvDisconnect preserve closeThrows)) = disconnected
        /\ handshakeOk (step s (EvDisconnect preserve closeThrows)) = false
        /\ connectionState (step (step s (EvDisconnect preserve closeThrows))
                              (EvSysMessage (Some msg))) = connected).
Proof.
  assert (Hreq : forall s ev, connectionState s <> connected ->
                   connectionState (step s ev) = connected ->
                   delivers_request ev = true /\ handshakeOk s = false).
  { intros s ev Hs Hs'.
    destruct (step_state s ev) as [H|[H|[H|(_ & H1 & H2)]]]; [congruence..|done]. }
  split; [|split; [exact Hreq|split]].
  - intros s ev Hev. destruct ev; cbn [step reports_open] in *; try discriminate.
    + destruct (sysCallbacks s); [apply onConnected_state|done].
    + destruct (socks s !! ws) as [[[] h url]|]; try done.
      destruct h; [by rewrite onopen_state, connectionState_alter_sock|done].
  - intros hasSys hasGlobal storageOk trace ev s Hs Hs'.
    destruct (Hreq s ev Hs Hs') as [Hev _].
    destruct (existsb calls_connect trace) eqn:Hex.
    + apply existsb_exists in Hex as (e & He & Hc). by exists e.
    + exfalso. subst s.
      assert (Hn : never_connected (run (new_client hasSys hasGlobal storageOk) trace))
        by (by apply run_never).
      rewrite (never_connected_ignores _ ev Hn Hev) in Hs'. done.
  - intros s url preserve closeThrows msg Hcb Hmsg.
    assert (E : step s (EvDisconnect preserve closeThrows)
                = disconnect preserve closeThrows s) by reflexivity.
    rewrite E. clear E.
    pose proof (disconnect_state preserve closeThrows s) as Hst.
    pose proof (disconnect_handshake preserve closeThrows s) as Hok.
    pose proof (disconnect_callbacks preserve closeThrows s) as Hcb'.
    rewrite Hcb in Hcb'.
    generalize dependent (disconnect preserve closeThrows s). intros s1 Hst Hok Hcb'.
    split; [exact Hst|]. split; [exact Hok|].
    cbn [step]. rewrite Hcb'. unfold onMessage. rewrite Hmsg.
    destruct (onRequestSeen_state s1) as [[Hok' _]|[_ Hc]]; [congruence|exact Hc].
Qed.

(** C3 on a client of the sys_WebSocket transport: the open event leaves
    the state of the connecting client as it is, the first request makes
    the client connected, and so does a request after a disconnect. *)
Lemma C3_connected_only_by_request_witness :
  connectionState (step connecting_client (EvSysConnected None))
  = connectionState connecting_client
  /\ (delivers_request (EvSysMessage (Some requestFrame)) = true
      /\ handshakeOk opened_client = false)
  /\ (exists e, In e [EvConnect None; EvSysConnected None] /\ calls_connect e = true)
  /\ connectionState (step (step opened_client (EvDisconnect false None))
                         (EvSysMessage (Some requestFrame))) = connected.
Proof.
  split; [|split; [|split]].
  - exact (proj1 C3_connected_only_by_request connecting_client
             (EvSysConnected None) eq_refl).
  - exact (proj1 (proj2 C3_connected_only_by_request) opened_client
             (EvSysMessage (Some requestFrame))
             ltac:(vm_compute; discriminate) ltac:(vm_compute; reflexivity)).
  - exact (proj1 (proj2 (proj2 C3_connected_only_by_request)) true false true
             [EvConnect None; EvSysConnected None]
             (EvSysMessage (Some requestFrame))
             ltac:(vm_compute; discriminate) ltac:(vm_compute; reflexivity)).
  - exact (proj2 (proj2 (proj2 (proj2 (proj2 C3_connected_only_by_request))
                           opened_client "ws://127.0.0.1:9050" false None
                           requestFrame
                           ltac:(vm_compute; reflexivity) eq_refl))).
Defined.

(** C3 as stated fails.  The client has called [connect()] once, the first
    request after it has made the client connected, and [disconnect()] has
    made it disconnected.  A second request, delivered through the callback
    that is still registered, makes it connected again: not the first
    request after [connect()], and no [connect()] in between. *)
Lemma C3_second_request_reconnects :
  List.length (List.filter calls_connect confirmed_then_disconnected) = 1%nat
  /\ connectionState (run (new_client true false true)
                         [EvConnect None; EvSysConnected None;
                          EvSysMessage (Some requestFrame)]) = connected
  /\ connectionState (run (new_client true false true) confirmed_then_disconnected)
     = disconnected
  /\ connectionState (step (run (new_client true false true)
                               confirmed_then_disconnected)
                         (EvSysMessage (Some requestFrame))) = connected.
Proof. vm_compute. repeat split; reflexivity. Qed.

(** *** The reconnect delay *)

Ltac auto_fields :=
  split; [by get get_autoBackoffMs|];
  split; [by get get_autoMaxBackoffMs|];
  split; [by get get_autoEnabled|by get get_now].

Lemma connect_auto_fields hostThrows s :
  autoBackoffMs (connect hostThrows s) = autoBackoffMs s
  /\ autoMaxBackoffMs (connect hostThrows s) = autoMaxBackoffMs s
  /\ autoEnabled (connect hostThrows s) = autoEnabled s
  /\ now (connect hostThrows s) = now s.
Proof.
  unfold connect. destruct (anotherSandboxOwnsConnection _); [auto_fields|].
  pick. get get_transport. destruct (inferredTransport _); pick.
  - get get_connectionState.
    destruct (connectionState s); pick; [destruct hostThrows| |]; auto_fields.
  - get get_connectionState.
    destruct (connectionState s); pick; [destruct hostThrows| |]; auto_fields.
  - auto_fields.
Qed.

Lemma attempt_schedules closeThrows hostThrows s :
  autoEnabled s = true -> autoConnect (config s) = true ->
  connectionState s = disconnected -> autoOpts s = true ->
  autoTimer (autoTick closeThrows hostThrows s) = Some (now s + autoBackoffMs s)
  /\ autoBackoffMs (autoTick closeThrows hostThrows s)
     = nextBackoff (autoBackoffMs s) (autoMaxBackoffMs s).
Proof.
  intros He Hc Hst Ho. unfold autoTick, checkStale. rewrite He, Hc, Hst.
  cbn [negb]. pick. rewrite Hst, Ho. cbn [negb]. pick.
  destruct (connect_auto_fields hostThrows s) as (Hb & Hm & Hen & Hn).
  unfold scheduleAuto. rewrite Hen, He. cbn [negb]. pick.
  rewrite autoBackoffMs_set_autoBackoffMs, autoBackoffMs_set_autoTimer,
    autoMaxBackoffMs_set_autoTimer, Hb, Hm, Hn. done.
Qed.

Lemma backoffAt_succ k : backoffAt (S k) = nextBackoff (backoffAt k) 30000.
Proof. reflexivity. Qed.

Lemma backoffAt_capped k : backoffAt (7 + k) = 30000.
Proof.
  induction k as [|k IH].
  - vm_compute. reflexivity.
  - replace (7 + S k)%nat with (S (7 + k)) by lia.
    rewrite backoffAt_succ, IH. vm_compute. reflexivity.
Qed.

Lemma backoffAt_bounds k : backoffAt k <= backoffAt (S k) <= 30000.
Proof.
  destruct (Nat.le_gt_cases 7 k) as [Hk|Hk].
  - replace k with (7 + (k - 7))%nat by lia.
    replace (S (7 + (k - 7))) with (7 + S (k - 7))%nat by lia.
    rewrite !backoffAt_capped. lia.
  - do 7 (destruct k as [|k]; [vm_compute; split; discriminate|]). lia.
Qed.

(** C5.  A tick of the supervisor that finds the client disconnected arms
    the timer with the current delay and replaces the delay by
    min(floor(delay * 1.6), cap).  From the base 1500 with cap 30000 the
    delays of six attempts that fail in a row are 1500, 2400, 3840, 6144,
    9830, 15728; each is the floor of 8/5 of the one before; the sequence
    never decreases and never exceeds 30000. *)
Theorem C5_backoff_sequence :
  (forall closeThrows hostThrows s,
     autoEnabled s = true -> autoConnect (config s) = true ->
     connectionState s = disconnected -> autoOpts s = true ->
     autoTimer (autoTick closeThrows hostThrows s) = Some (now s + autoBackoffMs s)
     /\ autoBackoffMs (autoTick closeThrows hostThrows s)
        = Z.min (floor_times_1_6 (autoBackoffMs s)) (autoMaxBackoffMs s))
  /\ failedAttempts 6 (step (new_client true true true) EvStartAutoConnect)
     = [1500; 2400; 3840; 6144; 9830; 15728]
  /\ map backoffAt [0; 1; 2; 3; 4; 5]%nat = [1500; 2400; 3840; 6144; 9830; 15728]
  /\ map floor_times_1_6 [1500; 2400; 3840; 6144; 9830]
     = map (fun d => d * 8 / 5) [1500; 2400; 3840; 6144; 9830]
  /\ (forall k, backoffAt k <= backoffAt (S k) <= 30000).
Proof.
  split; [|split; [|split; [|split]]].
  - intros. by apply attempt_schedules.
  - vm_compute. reflexivity.
  - vm_compute. reflexivity.
  - vm_compute. reflexivity.
  - apply backoffAt_bounds.
Qed.

(** C5 at the first tick after [startAutoConnect]. *)
Lemma C5_backoff_sequence_witness :
  autoTimer (autoTick None (Some "refused") first_tick_client)
  = Some (now first_tick_client + autoBackoffMs first_tick_client)
  /\ autoBackoffMs (autoTick None (Some "refused") first_tick_client)
     = Z.min (floor_times_1_6 (autoBackoffMs first_tick_client))
         (autoMaxBackoffMs first_tick_client).
Proof.
  exact (proj1 C5_backoff_sequence None (Some "refused") first_tick_client
           ltac:(vm_compute; reflexivity) ltac:(vm_compute; reflexivity)
           ltac:(vm_compute; reflexivity) ltac:(vm_compute; reflexivity)).
Defined.

(** Reading [handshakeTimer] after an update. *)
Lemma handshakeTimer_set_socket v s : handshakeTimer (set_socket v s) = handshakeTimer s. Proof. reflexivity. Qed.
Lemma handshakeTimer_set_lastConnectedAt v s : handshakeTimer (set_lastConnectedAt v s) = handshakeTimer s. Proof. reflexivity. Qed.
Lemma handshakeTimer_set_lastServerRequestAt v s : handshakeTimer (set_lastServerRequestAt v s) = handshakeTimer s. Proof. reflexivity. Qed.
Lemma handshakeTimer_set_lastError v s : handshakeTimer (set_lastError v s) = handshakeTimer s. Proof. reflexivity. Qed.
Lemma handshakeTimer_set_connectTimer v s : handshakeTimer (set_connectTimer v s) = handshakeTimer s. Proof. reflexivity. Qed.
Lemma handshakeTimer_set_handshakeTimer v s : handshakeTimer (set_handshakeTimer v s) = v. Proof. reflexivity. Qed.
Lemma handshakeTimer_set_handshakeOk v s : handshakeTimer (set_handshakeOk v s) = handshakeTimer s. Proof. reflexivity. Qed.
Lemma handshakeTimer_set_debugLog v s : handshakeTimer (set_debugLog v s) = handshakeTimer s. Proof. reflexivity. Qed.
Lemma handshakeTimer_set_connectionState v s : handshakeTimer (set_connectionState v s) = handshakeTimer s. Proof. reflexivity. Qed.
Lemma handshakeTimer_set_transport v s : handshakeTimer (set_transport v s) = handshakeTimer s. Proof. reflexivity. Qed.
Lemma handshakeTimer_set_registeredUrl v s : handshakeTimer (set_registeredUrl v s) = handshakeTimer s. Proof. reflexivity. Qed.
Lemma handshakeTimer_set_lastPersistAt v s : handshakeTimer (set_lastPersistAt v s) = handshakeTimer s. Proof. reflexivity. Qed.
Lemma handshakeTimer_set_autoEnabled v s : handshakeTimer (set_autoEnabled v s) = handshakeTimer s. Proof. reflexivity. Qed.
Lemma handshakeTimer_set_autoTimer v s : handshakeTimer (set_autoTimer v s) = handshakeTimer s. Proof. reflexivity. Qed.
Lemma handshakeTimer_set_autoBackoffMs v s : handshakeTimer (set_autoBackoffMs v s) = handshakeTimer s. Proof. reflexivity. Qed.
Lemma handshakeTimer_set_autoOpts v s : handshakeTimer (set_autoOpts v s) = handshakeTimer s. Proof. reflexivity. Qed.
Lemma handshakeTimer_set_now v s : handshakeTimer (set_now v s) = handshakeTimer s. Proof. reflexivity. Qed.
Lemma handshakeTimer_set_config v s : handshakeTimer (set_config v s) = handshakeTimer s. Proof. reflexivity. Qed.
Lemma handshakeTimer_set_storage v s : handshakeTimer (set_storage v s) = handshakeTimer s. Proof. reflexivity. Qed.
Lemma handshakeTimer_set_sysCallbacks v s : handshakeTimer (set_sysCallbacks v s) = handshakeTimer s. Proof. reflexivity. Qed.
Lemma handshakeTimer_set_socks v s : handshakeTimer (set_socks v s) = handshakeTimer s. Proof. reflexivity. Qed.
Lemma handshakeTimer_set_nextSock v s : handshakeTimer (set_nextSock v s) = handshakeTimer s. Proof. reflexivity. Qed.
Lemma handshakeTimer_clearConnectTimer  s : handshakeTimer (clearConnectTimer s) = handshakeTimer s. Proof. reflexivity. Qed.
Lemma handshakeTimer_clearHandshakeTimer  s : handshakeTimer (clearHandshakeTimer s) = None. Proof. reflexivity. Qed.
Lemma handshakeTimer_alter_sock f ws s : handshakeTimer (alter_sock f ws s) = handshakeTimer s. Proof. reflexivity. Qed.
Lemma handshakeTimer_persistRuntime force s : handshakeTimer (persistRuntime force s) = handshakeTimer s.
Proof. unfold persistRuntime; repeat field_step; congruence. Qed.
Lemma handshakeTimer_pushLog lv msg s : handshakeTimer (pushLog lv msg s) = handshakeTimer s.
Proof. unfold pushLog; repeat field_step; congruence. Qed.
Lemma handshakeTimer_setState st s : handshakeTimer (setState st s) = handshakeTimer s.
Proof. unfold setState; repeat field_step; congruence. Qed.
Lemma handshakeTimer_markServerTraffic  s : handshakeTimer (markServerTraffic s) = handshakeTimer s.
Proof. unfold markServerTraffic; repeat field_step; congruence. Qed.
Create Rewrite HintDb get_handshakeTimer.
#[local] Hint Rewrite
  handshakeTimer_set_socket handshakeTimer_set_lastConnectedAt handshakeTimer_set_lastServerRequestAt
  handshakeTimer_set_lastError handshakeTimer_set_connectTimer handshakeTimer_set_handshakeTimer
  handshakeTimer_set_handshakeOk handshakeTimer_set_debugLog handshakeTimer_set_connectionState
  handshakeTimer_set_transport handshakeTimer_set_registeredUrl handshakeTimer_set_lastPersistAt
  handshakeTimer_set_autoEnabled handshakeTimer_set_autoTimer handshakeTimer_set_autoBackoffMs
  handshakeTimer_set_autoOpts handshakeTimer_set_now handshakeTimer_set_config
  handshakeTimer_set_storage handshakeTimer_set_sysCallbacks handshakeTimer_set_socks
  handshakeTimer_set_nextSock handshakeTimer_clearConnectTimer handshakeTimer_clearHandshakeTimer
  handshakeTimer_alter_sock handshakeTimer_persistRuntime handshakeTimer_pushLog
  handshakeTimer_setState handshakeTimer_markServerTraffic
  : get_handshakeTimer.

(** Reading [connectTimer] after an update. *)
Lemma connectTimer_set_socket v s : connectTimer (set_socket v s) = connectTimer s. Proof. reflexivity. Qed.
Lemma connectTimer_set_lastConnectedAt v s : connectTimer (set_lastConnectedAt v s) = connectTimer s. Proof. reflexivity. Qed.
Lemma connectTimer_set_lastServerRequestAt v s : connectTimer (set_lastServerRequestAt v s) = connectTimer s. Proof. reflexivity. Qed.
Lemma connectTimer_set_lastError v s : connectTimer (set_lastError v s) = connectTimer s. Proof. reflexivity. Qed.
Lemma connectTimer_set_connectTimer v s : connectTimer (set_connectTimer v s) = v. Proof. reflexivity. Qed.
Lemma connectTimer_set_handshakeTimer v s : connectTimer (set_handshakeTimer v s) = connectTimer s. Proof. reflexivity. Qed.
Lemma connectTimer_set_handshakeOk v s : connectTimer (set_handshakeOk v s) = connectTimer s. Proof. reflexivity. Qed.
Lemma connectTimer_set_debugLog v s : connectTimer (set_debugLog v s) = connectTimer s. Proof. reflexivity. Qed.
Lemma connectTimer_set_connectionState v s : connectTimer (set_connectionState v s) = connectTimer s. Proof. reflexivity. Qed.
Lemma connectTimer_set_transport v s : connectTimer (set_transport v s) = connectTimer s. Proof. reflexivity. Qed.
Lemma connectTimer_set_registeredUrl v s : connectTimer (set_registeredUrl v s) = connectTimer s. Proof. reflexivity. Qed.
Lemma connectTimer_set_lastPersistAt v s : connectTimer (set_lastPersistAt v s) = connectTimer s. Proof. reflexivity. Qed.
Lemma connectTimer_set_autoEnabled v s : connectTimer (set_autoEnabled v s) = connectTimer s. Proof. reflexivity. Qed.
Lemma connectTimer_set_autoTimer v s : connectTimer (set_autoTimer v s) = connectTimer s. Proof. reflexivity. Qed.
Lemma connectTimer_set_autoBackoffMs v s : connectTimer (set_autoBackoffMs v s) = connectTimer s. Proof. reflexivity. Qed.
Lemma connectTimer_set_autoOpts v s : connectTimer (set_autoOpts v s) = connectTimer s. Proof. reflexivity. Qed.
Lemma connectTimer_set_now v s : connectTimer (set_now v s) = connectTimer s. Proof. reflexivity. Qed.
Lemma connectTimer_set_config v s : connectTimer (set_config v s) = connectTimer s. Proof. reflexivity. Qed.
Lemma connectTimer_set_storage v s : connectTimer (set_storage v s) = connectTimer s. Proof. reflexivity. Qed.
Lemma connectTimer_set_sysCallbacks v s : connectTimer (set_sysCallbacks v s) = connectTimer s. Proof. reflexivity. Qed.
Lemma connectTimer_set_socks v s : connectTimer (set_socks v s) = connectTimer s. Proof. reflexivity. Qed.
Lemma connectTimer_set_nextSock v s : connectTimer (set_nextSock v s) = connectTimer s. Proof. reflexivity. Qed.
Lemma connectTimer_clearConnectTimer  s : connectTimer (clearConnectTimer s) = None. Proof. reflexivity. Qed.
Lemma connectTimer_clearHandshakeTimer  s : connectTimer (clearHandshakeTimer s) = connectTimer s. Proof. reflexivity. Qed.
Lemma connectTimer_alter_sock f ws s : connectTimer (alter_sock f ws s) = connectTimer s. Proof. reflexivity. Qed.
Lemma connectTimer_persistRuntime force s : connectTimer (persistRuntime force s) = connectTimer s.
Proof. unfold persistRuntime; repeat field_step; congruence. Qed.
Lemma connectTimer_pushLog lv msg s : connectTimer (pushLog lv msg s) = connectTimer s.
Proof. unfold pushLog; repeat field_step; congruence. Qed.
Lemma connectTimer_setState st s : connectTimer (setState st s) = connectTimer s.
Proof. unfold setState; repeat field_step; congruence. Qed.
Lemma connectTimer_markServerTraffic  s : connectTimer (markServerTraffic s) = connectTimer s.
Proof. unfold markServerTraffic; repeat field_step; congruence. Qed.
Create Rewrite HintDb get_connectTimer.
#[local] Hint Rewrite
  connectTimer_set_socket connectTimer_set_lastConnectedAt connectTimer_set_lastServerRequestAt
  connectTimer_set_lastError connectTimer_set_connectTimer connectTimer_set_handshakeTimer
  connectTimer_set_handshakeOk connectTimer_set_debugLog connectTimer_set_connectionState
  connectTimer_set_transport connectTimer_set_registeredUrl connectTimer_set_lastPersistAt
  connectTimer_set_autoEnabled connectTimer_set_autoTimer connectTimer_set_autoBackoffMs
  connectTimer_set_autoOpts connectTimer_set_now connectTimer_set_config
  connectTimer_set_storage connectTimer_set_sysCallbacks connectTimer_set_socks
  connectTimer_set_nextSock connectTimer_clearConnectTimer connectTimer_clearHandshakeTimer
  connectTimer_alter_sock connectTimer_persistRuntime connectTimer_pushLog
  connectTimer_setState connectTimer_markServerTraffic
  : get_connectTimer.

(** Reading [autoTimer] after an update. *)
Lemma autoTimer_set_socket v s : autoTimer (set_socket v s) = autoTimer s. Proof. reflexivity. Qed.
Lemma autoTimer_set_lastConnectedAt v s : autoTimer (set_lastConnectedAt v s) = autoTimer s. Proof. reflexivity. Qed.
Lemma autoTimer_set_lastServerRequestAt v s : autoTimer (set_lastServerRequestAt v s) = autoTimer s. Proof. reflexivity. Qed.
Lemma autoTimer_set_lastError v s : autoTimer (set_lastError v s) = autoTimer s. Proof. reflexivity. Qed.
Lemma autoTimer_set_connectTimer v s : autoTimer (set_connectTimer v s) = autoTimer s. Proof. reflexivity. Qed.
Lemma autoTimer_set_handshakeTimer v s : autoTimer (set_handshakeTimer v s) = autoTimer s. Proof. reflexivity. Qed.
Lemma autoTimer_set_handshakeOk v s : autoTimer (set_handshakeOk v s) = autoTimer s. Proof. reflexivity. Qed.
Lemma autoTimer_set_debugLog v s : autoTimer (set_debugLog v s) = autoTimer s. Proof. reflexivity. Qed.
Lemma autoTimer_set_connectionState v s : autoTimer (set_connectionState v s) = autoTimer s. Proof. reflexivity. Qed.
Lemma autoTimer_set_transport v s : autoTimer (set_transport v s) = autoTimer s. Proof. reflexivity. Qed.
Lemma autoTimer_set_registeredUrl v s : autoTimer (set_registeredUrl v s) = autoTimer s. Proof. reflexivity. Qed.
Lemma autoTimer_set_lastPersistAt v s : autoTimer (set_lastPersistAt v s) = autoTimer s. Proof. reflexivity. Qed.
Lemma autoTimer_set_autoEnabled v s : autoTimer (set_autoEnabled v s) = autoTimer s. Proof. reflexivity. Qed.
Lemma autoTimer_set_autoTimer v s : autoTimer (set_autoTimer v s) = v. Proof. reflexivity. Qed.
Lemma autoTimer_set_autoBackoffMs v s : autoTimer (set_autoBackoffMs v s) = autoTimer s. Proof. reflexivity. Qed.
Lemma autoTimer_set_autoOpts v s : autoTimer (set_autoOpts v s) = autoTimer s. Proof. reflexivity. Qed.
Lemma autoTimer_set_now v s : autoTimer (set_now v s) = autoTimer s. Proof. reflexivity. Qed.
Lemma autoTimer_set_config v s : autoTimer (set_config v s) = autoTimer s. Proof. reflexivity. Qed.
Lemma autoTimer_set_storage v s : autoTimer (set_storage v s) = autoTimer s. Proof. reflexivity. Qed.
Lemma autoTimer_set_sysCallbacks v s : autoTimer (set_sysCallbacks v s) = autoTimer s. Proof. reflexivity. Qed.
Lemma autoTimer_set_socks v s : autoTimer (set_socks v s) = autoTimer s. Proof. reflexivity. Qed.
Lemma autoTimer_set_nextSock v s : autoTimer (set_nextSock v s) = autoTimer s. Proof. reflexivity. Qed.
Lemma autoTimer_clearConnectTimer  s : autoTimer (clearConnectTimer s) = autoTimer s. Proof. reflexivity. Qed.
Lemma autoTimer_clearHandshakeTimer  s : autoTimer (clearHandshakeTimer s) = autoTimer s. Proof. reflexivity. Qed.
Lemma autoTimer_alter_sock f ws s : autoTimer (alter_sock f ws s) = autoTimer s. Proof. reflexivity. Qed.
Lemma autoTimer_persistRuntime force s : autoTimer (persistRuntime force s) = autoTimer s.
Proof. unfold persistRuntime; repeat field_step; congruence. Qed.
Lemma autoTimer_pushLog lv msg s : autoTimer (pushLog lv msg s) = autoTimer s.
Proof. unfold pushLog; repeat field_step; congruence. Qed.
Lemma autoTimer_setState st s : autoTimer (setState st s) = autoTimer s.
Proof. unfold setState; repeat field_step; congruence. Qed.
Lemma autoTimer_markServerTraffic  s : autoTimer (markServerTraffic s) = autoTimer s.
Proof. unfold markServerTraffic; repeat field_step; congruence. Qed.
Create Rewrite HintDb get_autoTimer.
#[local] Hint Rewrite
  autoTimer_set_socket autoTimer_set_lastConnectedAt autoTimer_set_lastServerRequestAt
  autoTimer_set_lastError autoTimer_set_connectTimer autoTimer_set_handshakeTimer
  autoTimer_set_handshakeOk autoTimer_set_debugLog autoTimer_set_connectionState
  autoTimer_set_transport autoTimer_set_registeredUrl autoTimer_set_lastPersistAt
  autoTimer_set_autoEnabled autoTimer_set_autoTimer autoTimer_set_autoBackoffMs
  autoTimer_set_autoOpts autoTimer_set_now autoTimer_set_config
  autoTimer_set_storage autoTimer_set_sysCallbacks autoTimer_set_socks
  autoTimer_set_nextSock autoTimer_clearConnectTimer autoTimer_clearHandshakeTimer
  autoTimer_alter_sock autoTimer_persistRuntime autoTimer_pushLog
  autoTimer_setState autoTimer_markServerTraffic
  : get_autoTimer.

(** Reading [lastConnectedAt] after an update. *)
Lemma lastConnectedAt_set_socket v s : lastConnectedAt (set_socket v s) = lastConnectedAt s. Proof. reflexivity. Qed.
Lemma lastConnectedAt_set_lastConnectedAt v s : lastConnectedAt (set_lastConnectedAt v s) = v. Proof. reflexivity. Qed.
Lemma lastConnectedAt_set_lastServerRequestAt v s : lastConnectedAt (set_lastServerRequestAt v s) = lastConnectedAt s. Proof. reflexivity. Qed.
Lemma lastConnectedAt_set_lastError v s : lastConnectedAt (set_lastError v s) = lastConnectedAt s. Proof. reflexivity. Qed.
Lemma lastConnectedAt_set_connectTimer v s : lastConnectedAt (set_connectTimer v s) = lastConnectedAt s. Proof. reflexivity. Qed.
Lemma lastConnectedAt_set_handshakeTimer v s : lastConnectedAt (set_handshakeTimer v s) = lastConnectedAt s. Proof. reflexivity. Qed.
Lemma lastConnectedAt_set_handshakeOk v s : lastConnectedAt (set_handshakeOk v s) = lastConnectedAt s. Proof. reflexivity. Qed.
Lemma lastConnectedAt_set_debugLog v s : lastConnectedAt (set_debugLog v s) = lastConnectedAt s. Proof. reflexivity. Qed.
Lemma lastConnectedAt_set_connectionState v s : lastConnectedAt (set_connectionState v s) = lastConnectedAt s. Proof. reflexivity. Qed.
Lemma lastConnectedAt_set_transport v s : lastConnectedAt (set_transport v s) = lastConnectedAt s. Proof. reflexivity. Qed.
Lemma lastConnectedAt_set_registeredUrl v s : lastConnectedAt (set_registeredUrl v s) = lastConnectedAt s. Proof. reflexivity. Qed.
Lemma lastConnectedAt_set_lastPersistAt v s : lastConnectedAt (set_lastPersistAt v s) = lastConnectedAt s. Proof. reflexivity. Qed.
Lemma lastConnectedAt_set_autoEnabled v s : lastConnectedAt (set_autoEnabled v s) = lastConnectedAt s. Proof. reflexivity. Qed.
Lemma lastConnectedAt_set_autoTimer v s : lastConnectedAt (set_autoTimer v s) = lastConnectedAt s. Proof. reflexivity. Qed.
Lemma lastConnectedAt_set_autoBackoffMs v s : lastConnectedAt (set_autoBackoffMs v s) = lastConnectedAt s. Proof. reflexivity. Qed.
Lemma lastConnectedAt_set_autoOpts v s : lastConnectedAt (set_autoOpts v s) = lastConnectedAt s. Proof. reflexivity. Qed.
Lemma lastConnectedAt_set_now v s : lastConnectedAt (set_now v s) = lastConnectedAt s. Proof. reflexivity. Qed.
Lemma lastConnectedAt_set_config v s : lastConnectedAt (set_config v s) = lastConnectedAt s. Proof. reflexivity. Qed.
Lemma lastConnectedAt_set_storage v s : lastConnectedAt (set_storage v s) = lastConnectedAt s. Proof. reflexivity. Qed.
Lemma lastConnectedAt_set_sysCallbacks v s : lastConnectedAt (set_sysCallbacks v s) = lastConnectedAt s. Proof. reflexivity. Qed.
Lemma lastConnectedAt_set_socks v s : lastConnectedAt (set_socks v s) = lastConnectedAt s. Proof. reflexivity. Qed.
Lemma lastConnectedAt_set_nextSock v s : lastConnectedAt (set_nextSock v s) = lastConnectedAt s. Proof. reflexivity. Qed.
Lemma lastConnectedAt_clearConnectTimer  s : lastConnectedAt (clearConnectTimer s) = lastConnectedAt s. Proof. reflexivity. Qed.
Lemma lastConnectedAt_clearHandshakeTimer  s : lastConnectedAt (clearHandshakeTimer s) = lastConnectedAt s. Proof. reflexivity. Qed.
Lemma lastConnectedAt_alter_sock f ws s : lastConnectedAt (alter_sock f ws s) = lastConnectedAt s. Proof. reflexivity. Qed.
Lemma lastConnectedAt_persistRuntime force s : lastConnectedAt (persistRuntime force s) = lastConnectedAt s.
Proof. unfold persistRuntime; repeat field_step; congruence. Qed.
Lemma lastConnectedAt_pushLog lv msg s : lastConnectedAt (pushLog lv msg s) = lastConnectedAt s.
Proof. unfold pushLog; repeat field_step; congruence. Qed.
Lemma lastConnectedAt_setState st s : lastConnectedAt (setState st s) = lastConnectedAt s.
Proof. unfold setState; repeat field_step; congruence. Qed.
Lemma lastConnectedAt_markServerTraffic  s : lastConnectedAt (markServerTraffic s) = lastConnectedAt s.
Proof. unfold markServerTraffic; repeat field_step; congruence. Qed.
Create Rewrite HintDb get_lastConnectedAt.
#[local] Hint Rewrite
  lastConnectedAt_set_socket lastConnectedAt_set_lastConnectedAt lastConnectedAt_set_lastServerRequestAt
  lastConnectedAt_set_lastError lastConnectedAt_set_connectTimer lastConnectedAt_set_handshakeTimer
  lastConnectedAt_set_handshakeOk lastConnectedAt_set_debugLog lastConnectedAt_set_connectionState
  lastConnectedAt_set_transport lastConnectedAt_set_registeredUrl lastConnectedAt_set_lastPersistAt
  lastConnectedAt_set_autoEnabled lastConnectedAt_set_autoTimer lastConnectedAt_set_autoBackoffMs
  lastConnectedAt_set_autoOpts lastConnectedAt_set_now lastConnectedAt_set_config
  lastConnectedAt_set_storage lastConnectedAt_set_sysCallbacks lastConnectedAt_set_socks
  lastConnectedAt_set_nextSock lastConnectedAt_clearConnectTimer lastConnectedAt_clearHandshakeTimer
  lastConnectedAt_alter_sock lastConnectedAt_persistRuntime lastConnectedAt_pushLog
  lastConnectedAt_setState lastConnectedAt_markServerTraffic
  : get_lastConnectedAt.

(** Reading [storageWorks] after an update. *)
Lemma storageWorks_set_socket v s : storageWorks (set_socket v s) = storageWorks s. Proof. reflexivity. Qed.
Lemma storageWorks_set_lastConnectedAt v s : storageWorks (set_lastConnectedAt v s) = storageWorks s. Proof. reflexivity. Qed.
Lemma storageWorks_set_lastServerRequestAt v s : storageWorks (set_lastServerRequestAt v s) = storageWorks s. Proof. reflexivity. Qed.
Lemma storageWorks_set_lastError v s : storageWorks (set_lastError v s) = storageWorks s. Proof. reflexivity. Qed.
Lemma storageWorks_set_connectTimer v s : storageWorks (set_connectTimer v s) = storageWorks s. Proof. reflexivity. Qed.
Lemma storageWorks_set_handshakeTimer v s : storageWorks (set_handshakeTimer v s) = storageWorks s. Proof. reflexivity. Qed.
Lemma storageWorks_set_handshakeOk v s : storageWorks (set_handshakeOk v s) = storageWorks s. Proof. reflexivity. Qed.
Lemma storageWorks_set_debugLog v s : storageWorks (set_debugLog v s) = storageWorks s. Proof. reflexivity. Qed.
Lemma storageWorks_set_connectionState v s : storageWorks (set_connectionState v s) = storageWorks s. Proof. reflexivity. Qed.
Lemma storageWorks_set_transport v s : storageWorks (set_transport v s) = storageWorks s. Proof. reflexivity. Qed.
Lemma storageWorks_set_registeredUrl v s : storageWorks (set_registeredUrl v s) = storageWorks s. Proof. reflexivity. Qed.
Lemma storageWorks_set_lastPersistAt v s : storageWorks (set_lastPersistAt v s) = storageWorks s. Proof. reflexivity. Qed.
Lemma storageWorks_set_autoEnabled v s : storageWorks (set_autoEnabled v s) = storageWorks s. Proof. reflexivity. Qed.
Lemma storageWorks_set_autoTimer v s : storageWorks (set_autoTimer v s) = storageWorks s. Proof. reflexivity. Qed.
Lemma storageWorks_set_autoBackoffMs v s : storageWorks (set_autoBackoffMs v s) = storageWorks s. Proof. reflexivity. Qed.
Lemma storageWorks_set_autoOpts v s : storageWorks (set_autoOpts v s) = storageWorks s. Proof. reflexivity. Qed.
Lemma storageWorks_set_now v s : storageWorks (set_now v s) = storageWorks s. Proof. reflexivity. Qed.
Lemma storageWorks_set_config v s : storageWorks (set_config v s) = storageWorks s. Proof. reflexivity. Qed.
Lemma storageWorks_set_storage v s : storageWorks (set_storage v s) = storageWorks s. Proof. reflexivity. Qed.
Lemma storageWorks_set_sysCallbacks v s : storageWorks (set_sysCallbacks v s) = storageWorks s. Proof. reflexivity. Qed.
Lemma storageWorks_set_socks v s : storageWorks (set_socks v s) = storageWorks s. Proof. reflexivity. Qed.
Lemma storageWorks_set_nextSock v s : storageWorks (set_nextSock v s) = storageWorks s. Proof. reflexivity. Qed.
Lemma storageWorks_clearConnectTimer  s : storageWorks (clearConnectTimer s) = storageWorks s. Proof. reflexivity. Qed.
Lemma storageWorks_clearHandshakeTimer  s : storageWorks (clearHandshakeTimer s) = storageWorks s. Proof. reflexivity. Qed.
Lemma storageWorks_alter_sock f ws s : storageWorks (alter_sock f ws s) = storageWorks s. Proof. reflexivity. Qed.
Lemma storageWorks_persistRuntime force s : storageWorks (persistRuntime force s) = storageWorks s.
Proof. unfold persistRuntime; repeat field_step; congruence. Qed.
Lemma storageWorks_pushLog lv msg s : storageWorks (pushLog lv msg s) = storageWorks s.
Proof. unfold pushLog; repeat field_step; congruence. Qed.
Lemma storageWorks_setState st s : storageWorks (setState st s) = storageWorks s.
Proof. unfold setState; repeat field_step; congruence. Qed.
Lemma storageWorks_markServerTraffic  s : storageWorks (markServerTraffic s) = storageWorks s.
Proof. unfold markServerTraffic; repeat field_step; congruence. Qed.
Create Rewrite HintDb get_storageWorks.
#[local] Hint Rewrite
  storageWorks_set_socket storageWorks_set_lastConnectedAt storageWorks_set_lastServerRequestAt
  storageWorks_set_lastError storageWorks_set_connectTimer storageWorks_set_handshakeTimer
  storageWorks_set_handshakeOk storageWorks_set_debugLog storageWorks_set_connectionState
  storageWorks_set_transport storageWorks_set_registeredUrl storageWorks_set_lastPersistAt
  storageWorks_set_autoEnabled storageWorks_set_autoTimer storageWorks_set_autoBackoffMs
  storageWorks_set_autoOpts storageWorks_set_now storageWorks_set_config
  storageWorks_set_storage storageWorks_set_sysCallbacks storageWorks_set_socks
  storageWorks_set_nextSock storageWorks_clearConnectTimer storageWorks_clearHandshakeTimer
  storageWorks_alter_sock storageWorks_persistRuntime storageWorks_pushLog
  storageWorks_setState storageWorks_markServerTraffic
  : get_storageWorks.

Lemma connectionState_scheduleAuto ms s : connectionState (scheduleAuto ms s) = connectionState s. Proof. unfold scheduleAuto. by destruct (negb (autoEnabled s)). Qed.
Lemma connectionState_stopAutoConnect  s : connectionState (stopAutoConnect s) = connectionState s. Proof. reflexivity. Qed.
Lemma connectionState_startHandshakeWatchdog url s : connectionState (startHandshakeWatchdog url s) = connectionState s. Proof. reflexivity. Qed.
Create Rewrite HintDb more_connectionState.
#[local] Hint Rewrite connectionState_scheduleAuto connectionState_stopAutoConnect connectionState_startHandshakeWatchdog : more_connectionState.

Lemma lastError_scheduleAuto ms s : lastError (scheduleAuto ms s) = lastError s. Proof. unfold scheduleAuto. by destruct (negb (autoEnabled s)). Qed.
Lemma lastError_stopAutoConnect  s : lastError (stopAutoConnect s) = lastError s. Proof. reflexivity. Qed.
Lemma lastError_startHandshakeWatchdog url s : lastError (startHandshakeWatchdog url s) = lastError s. Proof. reflexivity. Qed.
Create Rewrite HintDb more_lastError.
#[local] Hint Rewrite lastError_scheduleAuto lastError_stopAutoConnect lastError_startHandshakeWatchdog : more_lastError.

Lemma handshakeOk_scheduleAuto ms s : handshakeOk (scheduleAuto ms s) = handshakeOk s. Proof. unfold scheduleAuto. by destruct (negb (autoEnabled s)). Qed.
Lemma handshakeOk_stopAutoConnect  s : handshakeOk (stopAutoConnect s) = handshakeOk s. Proof. reflexivity. Qed.
Lemma handshakeOk_startHandshakeWatchdog url s : handshakeOk (startHandshakeWatchdog url s) = handshakeOk s. Proof. reflexivity. Qed.
Create Rewrite HintDb more_handshakeOk.
#[local] Hint Rewrite handshakeOk_scheduleAuto handshakeOk_stopAutoConnect handshakeOk_startHandshakeWatchdog : more_handshakeOk.

Lemma debugLog_scheduleAuto ms s : debugLog (scheduleAuto ms s) = debugLog s. Proof. unfold scheduleAuto. by destruct (negb (autoEnabled s)). Qed.
Lemma debugLog_stopAutoConnect  s : debugLog (stopAutoConnect s) = debugLog s. Proof. reflexivity. Qed.
Lemma debugLog_startHandshakeWatchdog url s : debugLog (startHandshakeWatchdog url s) = debugLog s. Proof. reflexivity. Qed.
Create Rewrite HintDb more_debugLog.
#[local] Hint Rewrite debugLog_scheduleAuto debugLog_stopAutoConnect debugLog_startHandshakeWatchdog : more_debugLog.

Lemma transport_scheduleAuto ms s : transport (scheduleAuto ms s) = transport s. Proof. unfold scheduleAuto. by destruct (negb (autoEnabled s)). Qed.
Lemma transport_stopAutoConnect  s : transport (stopAutoConnect s) = transport s. Proof. reflexivity. Qed.
Lemma transport_startHandshakeWatchdog url s : transport (startHandshakeWatchdog url s) = transport s. Proof. reflexivity. Qed.
Create Rewrite HintDb more_transport.
#[local] Hint Rewrite transport_scheduleAuto transport_stopAutoConnect transport_startHandshakeWatchdog : more_transport.

Lemma socket_scheduleAuto ms s : socket (scheduleAuto ms s) = socket s. Proof. unfold scheduleAuto. by destruct (negb (autoEnabled s)). Qed.
Lemma socket_stopAutoConnect  s : socket (stopAutoConnect s) = socket s. Proof. reflexivity. Qed.
Lemma socket_startHandshakeWatchdog url s : socket (startHandshakeWatchdog url s) = socket s. Proof. reflexivity. Qed.
Create Rewrite HintDb more_socket.
#[local] Hint Rewrite socket_scheduleAuto socket_stopAutoConnect socket_startHandshakeWatchdog : more_socket.

Lemma sysCallbacks_scheduleAuto ms s : sysCallbacks (scheduleAuto ms s) = sysCallbacks s. Proof. unfold scheduleAuto. by destruct (negb (autoEnabled s)). Qed.
Lemma sysCallbacks_stopAutoConnect  s : sysCallbacks (stopAutoConnect s) = sysCallbacks s. Proof. reflexivity. Qed.
Lemma sysCallbacks_startHandshakeWatchdog url s : sysCallbacks (startHandshakeWatchdog url s) = sysCallbacks s. Proof. reflexivity. Qed.
Create Rewrite HintDb more_sysCallbacks.
#[local] Hint Rewrite sysCallbacks_scheduleAuto sysCallbacks_stopAutoConnect sysCallbacks_startHandshakeWatchdog : more_sysCallbacks.

Lemma socks_scheduleAuto ms s : socks (scheduleAuto ms s) = socks s. Proof. unfold scheduleAuto. by destruct (negb (autoEnabled s)). Qed.
Lemma socks_stopAutoConnect  s : socks (stopAutoConnect s) = socks s. Proof. reflexivity. Qed.
Lemma socks_startHandshakeWatchdog url s : socks (startHandshakeWatchdog url s) = socks s. Proof. reflexivity. Qed.
Create Rewrite HintDb more_socks.
#[local] Hint Rewrite socks_scheduleAuto socks_stopAutoConnect socks_startHandshakeWatchdog : more_socks.

Lemma autoEnabled_scheduleAuto ms s : autoEnabled (scheduleAuto ms s) = autoEnabled s. Proof. unfold scheduleAuto. by destruct (negb (autoEnabled s)). Qed.
Lemma autoEnabled_startHandshakeWatchdog url s : autoEnabled (startHandshakeWatchdog url s) = autoEnabled s. Proof. reflexivity. Qed.
Create Rewrite HintDb more_autoEnabled.
#[local] Hint Rewrite autoEnabled_scheduleAuto autoEnabled_startHandshakeWatchdog : more_autoEnabled.

Lemma autoBackoffMs_scheduleAuto ms s : autoBackoffMs (scheduleAuto ms s) = autoBackoffMs s. Proof. unfold scheduleAuto. by destruct (negb (autoEnabled s)). Qed.
Lemma autoBackoffMs_stopAutoConnect  s : autoBackoffMs (stopAutoConnect s) = autoBackoffMs s. Proof. reflexivity. Qed.
Lemma autoBackoffMs_startHandshakeWatchdog url s : autoBackoffMs (startHandshakeWatchdog url s) = autoBackoffMs s. Proof. reflexivity. Qed.
Create Rewrite HintDb more_autoBackoffMs.
#[local] Hint Rewrite autoBackoffMs_scheduleAuto autoBackoffMs_stopAutoConnect autoBackoffMs_startHandshakeWatchdog : more_autoBackoffMs.

Lemma autoMaxBackoffMs_scheduleAuto ms s : autoMaxBackoffMs (scheduleAuto ms s) = autoMaxBackoffMs s. Proof. unfold scheduleAuto. by destruct (negb (autoEnabled s)). Qed.
Lemma autoMaxBackoffMs_stopAutoConnect  s : autoMaxBackoffMs (stopAutoConnect s) = autoMaxBackoffMs s. Proof. reflexivity. Qed.
Lemma autoMaxBackoffMs_startHandshakeWatchdog url s : autoMaxBackoffMs (startHandshakeWatchdog url s) = autoMaxBackoffMs s. Proof. reflexivity. Qed.
Create Rewrite HintDb more_autoMaxBackoffMs.
#[local] Hint Rewrite autoMaxBackoffMs_scheduleAuto autoMaxBackoffMs_stopAutoConnect autoMaxBackoffMs_startHandshakeWatchdog : more_autoMaxBackoffMs.

Lemma autoOpts_scheduleAuto ms s : autoOpts (scheduleAuto ms s) = autoOpts s. Proof. unfold scheduleAuto. by destruct (negb (autoEnabled s)). Qed.
Lemma autoOpts_startHandshakeWatchdog url s : autoOpts (startHandshakeWatchdog url s) = autoOpts s. Proof. reflexivity. Qed.
Create Rewrite HintDb more_autoOpts.
#[local] Hint Rewrite autoOpts_scheduleAuto autoOpts_startHandshakeWatchdog : more_autoOpts.

Lemma now_scheduleAuto ms s : now (scheduleAuto ms s) = now s. Proof. unfold scheduleAuto. by destruct (negb (autoEnabled s)). Qed.
Lemma now_stopAutoConnect  s : now (stopAutoConnect s) = now s. Proof. reflexivity. Qed.
Lemma now_startHandshakeWatchdog url s : now (startHandshakeWatchdog url s) = now s. Proof. reflexivity. Qed.
Create Rewrite HintDb more_now.
#[local] Hint Rewrite now_scheduleAuto now_stopAutoConnect now_startHandshakeWatchdog : more_now.

Lemma lastServerRequestAt_scheduleAuto ms s : lastServerRequestAt (scheduleAuto ms s) = lastServerRequestAt s. Proof. unfold scheduleAuto. by destruct (negb (autoEnabled s)). Qed.
Lemma lastServerRequestAt_stopAutoConnect  s : lastServerRequestAt (stopAutoConnect s) = lastServerRequestAt s. Proof. reflexivity. Qed.
Lemma lastServerRequestAt_startHandshakeWatchdog url s : lastServerRequestAt (startHandshakeWatchdog url s) = lastServerRequestAt s. Proof. reflexivity. Qed.
Create Rewrite HintDb more_lastServerRequestAt.
#[local] Hint Rewrite lastServerRequestAt_scheduleAuto lastServerRequestAt_stopAutoConnect lastServerRequestAt_startHandshakeWatchdog : more_lastServerRequestAt.

Lemma config_scheduleAuto ms s : config (scheduleAuto ms s) = config s. Proof. unfold scheduleAuto. by destruct (negb (autoEnabled s)). Qed.
Lemma config_stopAutoConnect  s : config (stopAutoConnect s) = config s. Proof. reflexivity. Qed.
Lemma config_startHandshakeWatchdog url s : config (startHandshakeWatchdog url s) = config s. Proof. reflexivity. Qed.
Create Rewrite HintDb more_config.
#[local] Hint Rewrite config_scheduleAuto config_stopAutoConnect config_startHandshakeWatchdog : more_config.

Lemma handshakeTimer_scheduleAuto ms s : handshakeTimer (scheduleAuto ms s) = handshakeTimer s. Proof. unfold scheduleAuto. by destruct (negb (autoEnabled s)). Qed.
Lemma handshakeTimer_stopAutoConnect  s : handshakeTimer (stopAutoConnect s) = handshakeTimer s. Proof. reflexivity. Qed.
Create Rewrite HintDb more_handshakeTimer.
#[local] Hint Rewrite handshakeTimer_scheduleAuto handshakeTimer_stopAutoConnect : more_handshakeTimer.

Lemma connectTimer_scheduleAuto ms s : connectTimer (scheduleAuto ms s) = connectTimer s. Proof. unfold scheduleAuto. by destruct (negb (autoEnabled s)). Qed.
Lemma connectTimer_stopAutoConnect  s : connectTimer (stopAutoConnect s) = connectTimer s. Proof. reflexivity. Qed.
Lemma connectTimer_startHandshakeWatchdog url s : connectTimer (startHandshakeWatchdog url s) = connectTimer s. Proof. reflexivity. Qed.
Create Rewrite HintDb more_connectTimer.
#[local] Hint Rewrite connectTimer_scheduleAuto connectTimer_stopAutoConnect connectTimer_startHandshakeWatchdog : more_connectTimer.

Lemma autoTimer_startHandshakeWatchdog url s : autoTimer (startHandshakeWatchdog url s) = autoTimer s. Proof. reflexivity. Qed.
Create Rewrite HintDb more_autoTimer.
#[local] Hint Rewrite autoTimer_startHandshakeWatchdog : more_autoTimer.

Lemma lastConnectedAt_scheduleAuto ms s : lastConnectedAt (scheduleAuto ms s) = lastConnectedAt s. Proof. unfold scheduleAuto. by destruct (negb (autoEnabled s)). Qed.
Lemma lastConnectedAt_stopAutoConnect  s : lastConnectedAt (stopAutoConnect s) = lastConnectedAt s. Proof. reflexivity. Qed.
Lemma lastConnectedAt_startHandshakeWatchdog url s : lastConnectedAt (startHandshakeWatchdog url s) = lastConnectedAt s. Proof. reflexivity. Qed.
Create Rewrite HintDb more_lastConnectedAt.
#[local] Hint Rewrite lastConnectedAt_scheduleAuto lastConnectedAt_stopAutoConnect lastConnectedAt_startHandshakeWatchdog : more_lastConnectedAt.

Lemma storageWorks_scheduleAuto ms s : storageWorks (scheduleAuto ms s) = storageWorks s. Proof. unfold scheduleAuto. by destruct (negb (autoEnabled s)). Qed.
Lemma storageWorks_stopAutoConnect  s : storageWorks (stopAutoConnect s) = storageWorks s. Proof. reflexivity. Qed.
Lemma storageWorks_startHandshakeWatchdog url s : storageWorks (startHandshakeWatchdog url s) = storageWorks s. Proof. reflexivity. Qed.
Create Rewrite HintDb more_storageWorks.
#[local] Hint Rewrite storageWorks_scheduleAuto storageWorks_stopAutoConnect storageWorks_startHandshakeWatchdog : more_storageWorks.

(** *** Further properties of the client *)

Tactic Notation "get2" ident(db1) ident(db2) :=
  repeat (progress (autorewrite with db1 db2)).

(** **** The diagnostic ring *)

Lemma pushLog_log lv msg s :
  debugLog (pushLog lv msg s)
  = (if Nat.ltb LOG_CAPACITY (List.length (debugLog s ++ [Build_DebugLogEntry (now s) lv msg]))
     then skipn (List.length (debugLog s ++ [Build_DebugLogEntry (now s) lv msg])
                 - LOG_CAPACITY)
            (debugLog s ++ [Build_DebugLogEntry (now s) lv msg])
     else debugLog s ++ [Build_DebugLogEntry (now s) lv msg]).
Proof. unfold pushLog. by rewrite debugLog_persistRuntime, debugLog_set_debugLog. Qed.

Section Log.
Variable P : list DebugLogEntry -> Prop.
Hypothesis pushLog_P : forall lv msg s, P (debugLog (pushLog lv msg s)).

Ltac logged :=
  get2 get_debugLog more_debugLog; first [assumption | apply pushLog_P].

Lemma disconnect_logged preserve closeThrows s :
  P (debugLog (disconnect preserve closeThrows s)).
Proof.
  unfold disconnect. get get_transport.
  destruct (transport s), closeThrows, preserve, (socket s); cbn [negb]; logged.
Qed.

Lemma connect_logged hostThrows s :
  P (debugLog s) -> P (debugLog (connect hostThrows s)).
Proof.
  intros Hs. unfold connect. destruct (anotherSandboxOwnsConnection _).
  - logged.
  - pick. get get_transport. destruct (inferredTransport _); pick.
    + get get_connectionState.
      destruct (connectionState s); pick; [destruct hostThrows|..]; logged.
    + get get_connectionState.
      destruct (connectionState s); pick; [destruct hostThrows|..]; logged.
    + logged.
Qed.

Lemma onMessage_logged tag data s :
  P (debugLog s) -> P (debugLog (onMessage tag data s)).
Proof.
  intros Hs. unfold onMessage. destruct data as [msg|]; [|logged].
  destruct (isRpcRequest msg); [|done].
  unfold onRequestSeen. pick. get get_handshakeOk. destruct (handshakeOk s); logged.
Qed.

Lemma onConnectTimeout_logged t s :
  P (debugLog s) -> P (debugLog (onConnectTimeout t s)).
Proof.
  intros Hs. unfold onConnectTimeout. destruct (ct_transport t).
  - destruct (connectionState s); logged.
  - destruct (socket s) as [ws|]; [|done].
    destruct (socks s !! ws) as [[[] ? ?]|]; logged.
  - destruct (socket s) as [ws|]; [|done].
    destruct (socks s !! ws) as [[[] ? ?]|]; logged.
Qed.

Lemma checkStale_logged closeThrows s :
  P (debugLog s) -> P (debugLog (checkStale closeThrows s)).
Proof.
  intros Hs. unfold checkStale. destruct (connectionState s); pick; try done.
  destruct (truthyZ (lastServerRequestAt s)) as [t|]; pick; [|done].
  destruct (STALE_MS <? now s - t); [|done]. apply disconnect_logged.
Qed.

Lemma autoTick_logged closeThrows hostThrows s :
  P (debugLog s) -> P (debugLog (autoTick closeThrows hostThrows s)).
Proof.
  intros Hs. unfold autoTick. destruct (negb (autoEnabled s)); [done|].
  destruct (negb (autoConnect (config s))); [logged|]. pick.
  pose proof (checkStale_logged closeThrows s Hs) as Hst.
  destruct (connectionState (checkStale closeThrows s)).
  - destruct (negb (autoOpts _)); get2 get_debugLog more_debugLog; [done|].
    by apply connect_logged.
  - by get2 get_debugLog more_debugLog.
  - by get2 get_debugLog more_debugLog.
Qed.

Lemma step_logged s ev : P (debugLog s) -> P (debugLog (step s ev)).
Proof.
  intros Hs. destruct ev; cbn [step].
  - destruct (0 <=? dt); logged.
  - logged.
  - logged.
  - by apply connect_logged.
  - apply disconnect_logged.
  - unfold startAutoConnect. logged.
  - logged.
  - unfold dispose. apply disconnect_logged.
  - destruct (autoTimer s) as [due|]; [|done].
    destruct (due <=? now s); [|done]. apply autoTick_logged. logged.
  - destruct (connectTimer s) as [t|]; [|done].
    destruct (ct_due t <=? now s); [|done]. apply onConnectTimeout_logged. logged.
  - destruct (handshakeTimer s) as [[due url]|]; [|done].
    destruct (due <=? now s); [|done].
    unfold onHandshakeTimeout. rewrite handshakeOk_set_handshakeTimer.
    destruct (handshakeOk s); [logged|]. apply disconnect_logged.
  - destruct (sysCallbacks s); [|done]. unfold onConnected.
    destruct sendThrows; logged.
  - destruct (sysCallbacks s); [|done]. by apply onMessage_logged.
  - destruct (socks s !! ws) as [[[] h url]|]; try done.
    destruct h; [|logged]. unfold onopen. destruct sendThrows; logged.
  - destruct (socks s !! ws) as [[[] [] url]|]; try done. by apply onMessage_logged.
  - destruct (socks s !! ws) as [[r [] url]|]; try done.
    destruct r; try done; unfold onerror; logged.
  - destruct (socks s !! ws) as [[r h url]|]; [|done].
    destruct r; try done; (destruct h; [unfold onclose|]; logged).
Qed.

Lemma run_logged trace s : P (debugLog s) -> P (debugLog (run s trace)).
Proof.
  revert s. induction trace as [|ev trace IH]; intros s Hs; [done|].
  apply IH, step_logged, Hs.
Qed.
End Log.

Lemma pushLog_bounded lv msg s :
  (List.length (debugLog (pushLog lv msg s)) <= LOG_CAPACITY)%nat.
Proof.
  rewrite pushLog_log.
  destruct (Nat.ltb_spec LOG_CAPACITY
              (List.length (debugLog s ++ [Build_DebugLogEntry (now s) lv msg])))
    as [Hlt|Hge]; [|done].
  rewrite length_skipn. unfold LOG_CAPACITY in *. lia.
Qed.

(** X14.  The diagnostic log is a ring of 200 entries: pushing an entry
    appends it and then drops entries from the front only, none while fewer
    than 200 are held; and in every state a client can reach the log holds
    at most 200 entries. *)
Theorem debug_log_is_a_ring_of_200 :
  (forall lv msg s,
     exists dropped,
       dropped ++ debugLog (pushLog lv msg s)
       = debugLog s ++ [{| ts := now s; level := lv; message := msg |}]
       /\ ((List.length (debugLog s) < 200)%nat -> dropped = [])
       /\ (List.length (debugLog (pushLog lv msg s)) <= 200)%nat)
  /\ (forall hasSys hasGlobal storageOk trace,
        (List.length (debugLog (run (new_client hasSys hasGlobal storageOk) trace))
         <= 200)%nat).
Proof.
  split.
  - intros lv msg s. pose proof (pushLog_bounded lv msg s) as Hb.
    rewrite pushLog_log in *.
    set (l := debugLog s ++ [Build_DebugLogEntry (now s) lv msg]) in *.
    assert (Hl : List.length l = S (List.length (debugLog s)))
      by (subst l; rewrite length_app; simpl; lia).
    destruct (Nat.ltb_spec LOG_CAPACITY (List.length l)) as [Hlt|Hge].
    + exists (firstn (List.length l - LOG_CAPACITY) l).
      split; [apply firstn_skipn|]. split; [|exact Hb].
      unfold LOG_CAPACITY in *. lia.
    + exists []. split; [done|]. split; [done|exact Hb].
  - intros hasSys hasGlobal storageOk trace.
    apply (run_logged (fun l => (List.length l <= 200)%nat)).
    + apply pushLog_bounded.
    + cbn. lia.
Qed.

(** X14 for the first entry a new client logs. *)
Lemma debug_log_is_a_ring_of_200_witness :
  exists dropped,
    dropped ++ debugLog (pushLog info "connect() called" (new_client true false true))
    = debugLog (new_client true false true)
      ++ [{| ts := now (new_client true false true); level := info;
             message := "connect() called" |}]
    /\ ((List.length (debugLog (new_client true false true)) < 200)%nat -> dropped = [])
    /\ (List.length (debugLog (pushLog info "connect() called"
                                 (new_client true false true))) <= 200)%nat.
Proof.
  exact (proj1 debug_log_is_a_ring_of_200 info "connect() called"
           (new_client true false true)).
Defined.

(** X15.  Where the status comes from.  An instance that has logged nothing,
    is disconnected and has neither connected nor failed reports the
    snapshot found in the storage; once an instance has logged anything its
    log never becomes empty again, so from then on, whatever happens, its
    status shows its own fields. *)
Theorem status_source :
  (forall s rt,
     debugLog s = [] -> connectionState s = disconnected ->
     lastConnectedAt s = None -> lastError s = None -> storage s = Some rt ->
     snap_stateSource (getStatusSnapshot s) = from_storage
     /\ snap_connectionState (getStatusSnapshot s) = rt_connectionState rt
     /\ snap_lastError (getStatusSnapshot s) = rt_lastError rt
     /\ snap_lastServerRequestAt (getStatusSnapshot s) = rt_lastServerRequestAt rt
     /\ snap_runtimeUpdatedAt (getStatusSnapshot s) = Some (updatedAt rt))
  /\ (forall s trace,
        debugLog s <> [] ->
        snap_stateSource (getStatusSnapshot (run s trace)) = memory
        /\ snap_connectionState (getStatusSnapshot (run s trace))
           = connectionState (run s trace)
        /\ snap_lastError (getStatusSnapshot (run s trace)) = lastError (run s trace)
        /\ snap_lastServerRequestAt (getStatusSnapshot (run s trace))
           = lastServerRequestAt (run s trace)).
Proof.
  split.
  - intros s rt Hlog Hst Hconn Herr Hsto. unfold getStatusSnapshot, loadRuntimeState.
    rewrite Hlog, Hst, Hconn, Herr, Hsto. by cbn.
  - intros s trace Hlog.
    assert (Hrun : debugLog (run s trace) <> []).
    { apply (run_logged (fun l => l <> [])); [apply debugLog_pushLog_nonempty|done]. }
    unfold getStatusSnapshot.
    destruct (debugLog (run s trace)) as [|e l]; [done|].
    cbn [List.length Nat.eqb andb]. by destruct (loadRuntimeState (run s trace)).
Qed.

(** X15 for a new instance that finds a snapshot, and after its first
    [connect]. *)
Lemma status_source_witness :
  (snap_stateSource (getStatusSnapshot fresh_client) = from_storage
   /\ snap_connectionState (getStatusSnapshot fresh_client)
      = rt_connectionState stored_runtime
   /\ snap_lastError (getStatusSnapshot fresh_client) = rt_lastError stored_runtime
   /\ snap_lastServerRequestAt (getStatusSnapshot fresh_client)
      = rt_lastServerRequestAt stored_runtime
   /\ snap_runtimeUpdatedAt (getStatusSnapshot fresh_client)
      = Some (updatedAt stored_runtime))
  /\ snap_stateSource (getStatusSnapshot (run connecting_client [EvSysConnected None]))
     = memory.
Proof.
  split.
  - exact (proj1 status_source fresh_client stored_runtime
             eq_refl eq_refl eq_refl eq_refl eq_refl).
  - exact (proj1 (proj2 status_source connecting_client [EvSysConnected None]
                    ltac:(vm_compute; discriminate))).
Defined.

(** **** [connect] *)

Lemma connect_resets hostThrows s :
  handshakeTimer (connect hostThrows s) = None
  /\ handshakeOk (connect hostThrows s) = false
  /\ lastServerRequestAt (connect hostThrows s) = None.
Proof.
  unfold connect. pick.
  destruct (anotherSandboxOwnsConnection _).
  - by get get_handshakeTimer; get get_handshakeOk; get get_lastServerRequestAt.
  - destruct (transport _).
    + destruct (connectionState _).
      * destruct hostThrows;
          by get get_handshakeTimer; get get_handshakeOk; get get_lastServerRequestAt.
      * by get get_handshakeTimer; get get_handshakeOk; get get_lastServerRequestAt.
      * by get get_handshakeTimer; get get_handshakeOk; get get_lastServerRequestAt.
    + destruct (connectionState _).
      * destruct hostThrows;
          by get get_handshakeTimer; get get_handshakeOk; get get_lastServerRequestAt.
      * by get get_handshakeTimer; get get_handshakeOk; get get_lastServerRequestAt.
      * by get get_handshakeTimer; get get_handshakeOk; get get_lastServerRequestAt.
    + by get get_handshakeTimer; get get_handshakeOk; get get_lastServerRequestAt.
Qed.

Ltac kept5 :=
  get get_connectionState; get get_socket; get get_socks; get get_sysCallbacks;
  get get_connectTimer; done.

Lemma connect_ignored hostThrows s :
  connectionState s <> disconnected ->
  connectionState (connect hostThrows s) = connectionState s
  /\ socket (connect hostThrows s) = socket s
  /\ socks (connect hostThrows s) = socks s
  /\ sysCallbacks (connect hostThrows s) = sysCallbacks s
  /\ connectTimer (connect hostThrows s) = connectTimer s.
Proof.
  intros Hst. unfold connect. pick.
  destruct (anotherSandboxOwnsConnection _); [kept5|].
  destruct (transport _); [| |kept5];
    (match goal with
     | |- context [match connectionState ?x with _ => _ end] =>
         destruct (connectionState x) eqn:E
     end;
     [exfalso; revert E; get get_connectionState; exact Hst|kept5|kept5]).
Qed.

(** X16.  [connect()] resets the handshake before it looks at anything
    else: whatever it then does, the handshake watchdog is disarmed, the
    handshake counts as unconfirmed and the time of the last server request
    is forgotten.  When the client is already connecting or connected the
    call is otherwise ignored: state, socket, callbacks and connect
    watchdog stay, so a client that was waiting for its first request is
    left without a handshake watchdog. *)
Theorem connect_resets_the_handshake :
  forall hostThrows s,
    (handshakeTimer (connect hostThrows s) = None
     /\ handshakeOk (connect hostThrows s) = false
     /\ lastServerRequestAt (connect hostThrows s) = None)
    /\ (connectionState s <> disconnected ->
        connectionState (connect hostThrows s) = connectionState s
        /\ socket (connect hostThrows s) = socket s
        /\ socks (connect hostThrows s) = socks s
        /\ sysCallbacks (connect hostThrows s) = sysCallbacks s
        /\ connectTimer (connect hostThrows s) = connectTimer s).
Proof.
  intros hostThrows s. split; [apply connect_resets|apply connect_ignored].
Qed.

(** X16 for a client whose socket is open and which waits for the first
    request: a second [connect()] disarms its watchdog and leaves it
    connecting. *)
Lemma connect_resets_the_handshake_witness :
  handshakeTimer opened_client = Some (8000, DEFAULT_SERVER_URL)
  /\ handshakeTimer (connect None opened_client) = None
  /\ connectionState (connect None opened_client) = connectionState opened_client.
Proof.
  split; [reflexivity|]. split.
  - exact (proj1 (proj1 (connect_resets_the_handshake None opened_client))).
  - exact (proj1 (proj2 (connect_resets_the_handshake None opened_client)
                    ltac:(vm_compute; discriminate))).
Defined.

(** **** What the connection handlers leave alone *)

Section Frame.
Context {A : Type} (f : BridgeClient -> A).
Hypothesis Hf : framed f.

Lemma f_persistRuntime force s : f (persistRuntime force s) = f s.
Proof.
  destruct Hf. unfold persistRuntime, saveRuntimeState.
  destruct (negb force && _); [done|].
  destruct (storageWorks _); by rewrite ?fr_storage0, ?fr_lastPersistAt0.
Qed.

Lemma f_pushLog lv msg s : f (pushLog lv msg s) = f s.
Proof. unfold pushLog. rewrite f_persistRuntime. by destruct Hf. Qed.

Lemma f_setState st s : f (setState st s) = f s.
Proof. unfold setState. rewrite f_persistRuntime. by destruct Hf. Qed.

Lemma f_markServerTraffic s : f (markServerTraffic s) = f s.
Proof. unfold markServerTraffic. rewrite f_persistRuntime. by destruct Hf. Qed.

Lemma f_alter_sock g ws s : f (alter_sock g ws s) = f s.
Proof. unfold alter_sock. by destruct Hf. Qed.

Lemma f_clearConnectTimer s : f (clearConnectTimer s) = f s.
Proof. unfold clearConnectTimer. by destruct Hf. Qed.

Lemma f_clearHandshakeTimer s : f (clearHandshakeTimer s) = f s.
Proof. unfold clearHandshakeTimer. by destruct Hf. Qed.

Lemma f_startHandshakeWatchdog url s : f (startHandshakeWatchdog url s) = f s.
Proof.
  unfold startHandshakeWatchdog. destruct Hf.
  by rewrite fr_handshakeTimer0, f_clearHandshakeTimer.
Qed.

Ltac framed_step :=
  first
    [ rewrite f_pushLog | rewrite f_setState | rewrite f_persistRuntime
    | rewrite f_markServerTraffic | rewrite f_alter_sock
    | rewrite f_clearConnectTimer | rewrite f_clearHandshakeTimer
    | rewrite f_startHandshakeWatchdog
    | rewrite (fr_socket f Hf) | rewrite (fr_lastConnectedAt f Hf)
    | rewrite (fr_lastServerRequestAt f Hf) | rewrite (fr_lastError f Hf)
    | rewrite (fr_connectTimer f Hf) | rewrite (fr_handshakeTimer f Hf)
    | rewrite (fr_handshakeOk f Hf) | rewrite (fr_debugLog f Hf)
    | rewrite (fr_connectionState f Hf) | rewrite (fr_transport f Hf)
    | rewrite (fr_registeredUrl f Hf) | rewrite (fr_storage f Hf)
    | rewrite (fr_sysCallbacks f Hf) | rewrite (fr_socks f Hf)
    | rewrite (fr_nextSock f Hf) ].

Ltac kept := repeat framed_step; reflexivity.

Lemma f_disconnect preserve closeThrows s : f (disconnect preserve closeThrows s) = f s.
Proof.
  unfold disconnect. pick.
  destruct (transport _), closeThrows, preserve, (socket s); cbn [negb]; kept.
Qed.

Lemma f_connect hostThrows s : f (connect hostThrows s) = f s.
Proof.
  unfold connect. pick.
  destruct (anotherSandboxOwnsConnection _); [kept|].
  destruct (transport _); [| |kept];
    (destruct (connectionState _); [destruct hostThrows| |]; kept).
Qed.

Lemma f_onMessage tag data s : f (onMessage tag data s) = f s.
Proof.
  unfold onMessage. destruct data as [msg|]; [|kept].
  destruct (isRpcRequest msg); [|done].
  unfold onRequestSeen. pick. destruct (handshakeOk _); kept.
Qed.

Lemma f_onConnected url sendThrows s : f (onConnected url sendThrows s) = f s.
Proof. unfold onConnected. destruct sendThrows; kept. Qed.

Lemma f_onopen url sendThrows s : f (onopen url sendThrows s) = f s.
Proof. unfold onopen. destruct sendThrows; kept. Qed.

Lemma f_onerror url s : f (onerror url s) = f s.
Proof. unfold onerror. kept. Qed.

Lemma f_onclose code reason s : f (onclose code reason s) = f s.
Proof. unfold onclose. kept. Qed.

Lemma f_onConnectTimeout t s : f (onConnectTimeout t s) = f s.
Proof.
  unfold onConnectTimeout. destruct (ct_transport t).
  - destruct (connectionState s); kept.
  - destruct (socket s) as [ws|]; [|done].
    destruct (socks s !! ws) as [[[] ? ?]|]; kept.
  - destruct (socket s) as [ws|]; [|done].
    destruct (socks s !! ws) as [[[] ? ?]|]; kept.
Qed.

Lemma f_onHandshakeTimeout url closeThrows s :
  f (onHandshakeTimeout url closeThrows s) = f s.
Proof.
  unfold onHandshakeTimeout. destruct (handshakeOk s); [done|].
  rewrite f_disconnect. kept.
Qed.

Lemma f_checkStale closeThrows s : f (checkStale closeThrows s) = f s.
Proof.
  unfold checkStale. destruct (connectionState s); try done.
  destruct (truthyZ (lastServerRequestAt s)) as [t|]; [|done]. pick.
  destruct (STALE_MS <? now s - t); [|done]. rewrite f_disconnect. kept.
Qed.

(** The events of the sockets and of the two connection watchdogs. *)
Lemma f_step_connection s ev :
  match ev with
  | EvConnect _ | EvDisconnect _ _ | EvConnectTimeout | EvHandshakeTimeout _
  | EvSysConnected _ | EvSysMessage _ | EvOpen _ _ | EvMessage _ _ | EvError _
  | EvClose _ _ _ | EvStorageWrite _ => f (step s ev) = f s
  | _ => True
  end.
Proof.
  destruct ev; cbn [step]; try done.
  - kept.
  - apply f_connect.
  - apply f_disconnect.
  - destruct (connectTimer s) as [t|]; [|done].
    destruct (ct_due t <=? now s); [|done]. rewrite f_onConnectTimeout. kept.
  - destruct (handshakeTimer s) as [[due url]|]; [|done].
    destruct (due <=? now s); [|done]. rewrite f_onHandshakeTimeout. kept.
  - destruct (sysCallbacks s); [|done]. apply f_onConnected.
  - destruct (sysCallbacks s); [|done]. apply f_onMessage.
  - destruct (socks s !! ws) as [[[] h url]|]; try done.
    destruct h; [rewrite f_onopen|]; kept.
  - destruct (socks s !! ws) as [[[] [] url]|]; try done. apply f_onMessage.
  - destruct (socks s !! ws) as [[r [] url]|]; try done.
    destruct r; try done; apply f_onerror.
  - destruct (socks s !! ws) as [[r h url]|]; [|done].
    destruct r; try done; (destruct h; [rewrite f_onclose|]; kept).
Qed.
End Frame.

Lemma framed_autoEnabled : framed autoEnabled.
Proof. by constructor. Qed.
Lemma framed_autoTimer : framed autoTimer.
Proof. by constructor. Qed.
Lemma framed_autoBackoffMs : framed autoBackoffMs.
Proof. by constructor. Qed.
Lemma framed_autoMaxBackoffMs : framed autoMaxBackoffMs.
Proof. by constructor. Qed.
Lemma framed_autoOpts : framed autoOpts.
Proof. by constructor. Qed.

(** **** The reconnect delay *)

Lemma exact_from_spec n d0 :
  exact_from n d0 = true ->
  forall d, d0 <= d < d0 + Z.of_nat n -> floor_times_1_6 d = d * 8 / 5.
Proof.
  revert d0. induction n as [|n IH]; intros d0 H d Hd; [lia|].
  cbn [exact_from] in H. apply andb_true_iff in H as [H0 H].
  destruct (Z.eq_dec d d0) as [->|Hne]; [by apply Z.eqb_eq|].
  apply (IH (d0 + 1) H). lia.
Qed.

Lemma floor_times_1_6_table : exact_from (Z.to_nat 30001) 0 = true.
Proof. vm_compute. reflexivity. Qed.

Lemma floor_times_1_6_exact d : 0 <= d <= 30000 -> floor_times_1_6 d = d * 8 / 5.
Proof.
  intros Hd. apply (exact_from_spec (Z.to_nat 30001) 0 floor_times_1_6_table). lia.
Qed.

Lemma nextBackoff_bounds d :
  0 <= d <= 30000 ->
  d <= nextBackoff d 30000 <= 30000 /\ (2 <= d < 30000 -> d < nextBackoff d 30000).
Proof.
  intros Hd. unfold nextBackoff. rewrite floor_times_1_6_exact by done.
  assert (H5 : 5 * (d * 8 / 5) <= d * 8 < 5 * (d * 8 / 5) + 5).
  { pose proof (Z.mul_div_le (d * 8) 5). pose proof (Z.mul_succ_div_gt (d * 8) 5). lia. }
  lia.
Qed.

(** X17.  For every delay the supervisor can hold, from 0 to the cap of
    30000 ms, the double-precision product in [Math.floor(delay * 1.6)] has
    the same floor as the exact product 8/5 * delay: the rounding of 1.6 and
    of the product never shows.  So the next delay is min(floor(8 * delay /
    5), 30000), which is never below the current one and strictly above it
    from 2 ms up to the cap. *)
Theorem backoff_product_is_exact :
  forall d,
    0 <= d <= 30000 ->
    floor_times_1_6 d = d * 8 / 5
    /\ nextBackoff d 30000 = Z.min (d * 8 / 5) 30000
    /\ d <= nextBackoff d 30000 <= 30000
    /\ (2 <= d < 30000 -> d < nextBackoff d 30000).
Proof.
  intros d Hd. split; [by apply floor_times_1_6_exact|]. split.
  - unfold nextBackoff. by rewrite floor_times_1_6_exact.
  - by apply nextBackoff_bounds.
Qed.

(** X17 at the fifth delay of the sequence. *)
Lemma backoff_product_is_exact_witness :
  floor_times_1_6 9830 = 9830 * 8 / 5
  /\ nextBackoff 9830 30000 = Z.min (9830 * 8 / 5) 30000
  /\ 9830 <= nextBackoff 9830 30000 <= 30000
  /\ (2 <= 9830 < 30000 -> 9830 < nextBackoff 9830 30000).
Proof. exact (backoff_product_is_exact 9830 ltac:(lia)). Defined.

(** **** The supervisor *)

Lemma scheduleAuto_auto ms s :
  autoEnabled (scheduleAuto ms s) = autoEnabled s
  /\ autoBackoffMs (scheduleAuto ms s) = autoBackoffMs s
  /\ autoMaxBackoffMs (scheduleAuto ms s) = autoMaxBackoffMs s
  /\ autoTimer (scheduleAuto ms s)
     = if autoEnabled s then Some (now s + ms) else autoTimer s.
Proof.
  unfold scheduleAuto. destruct (autoEnabled s) eqn:E; cbn; rewrite ?E; repeat split; reflexivity.
Qed.

Lemma autoTick_auto closeThrows hostThrows s :
  let s' := autoTick closeThrows hostThrows s in
  autoMaxBackoffMs s' = autoMaxBackoffMs s
  /\ ((autoEnabled s = false /\ autoEnabled s' = false /\ autoTimer s' = autoTimer s
       /\ autoBackoffMs s' = autoBackoffMs s)
      \/ (autoEnabled s = true /\ autoConnect (config s) = false
          /\ autoEnabled s' = false /\ autoTimer s' = None /\ autoOpts s' = false
          /\ autoBackoffMs s' = autoBackoffMs s
          /\ connectionState s' = connectionState s /\ socks s' = socks s
          /\ sysCallbacks s' = sysCallbacks s)
      \/ (autoEnabled s = true /\ autoConnect (config s) = true
          /\ autoEnabled s' = true /\ is_Some (autoTimer s')
          /\ (autoBackoffMs s' = autoBackoffMs s
              \/ autoBackoffMs s'
                 = nextBackoff (autoBackoffMs s) (autoMaxBackoffMs s)))).
Proof.
  intros s'. subst s'. unfold autoTick.
  destruct (autoEnabled s) eqn:He; cbn [negb]; [|split; [done|left; done]].
  destruct (autoConnect (config s)) eqn:Hc; cbn [negb];
    [|split; [done|right; left; done]].
  pick.
  set (s1 := checkStale closeThrows s).
  assert (He1 : autoEnabled s1 = true)
    by (subst s1; by rewrite (f_checkStale autoEnabled framed_autoEnabled)).
  assert (Hb1 : autoBackoffMs s1 = autoBackoffMs s)
    by (subst s1; by rewrite (f_checkStale autoBackoffMs framed_autoBackoffMs)).
  assert (Hm1 : autoMaxBackoffMs s1 = autoMaxBackoffMs s)
    by (subst s1; by rewrite (f_checkStale autoMaxBackoffMs framed_autoMaxBackoffMs)).
  assert (Hsched : forall ms,
            autoMaxBackoffMs (scheduleAuto ms s1) = autoMaxBackoffMs s
            /\ autoEnabled (scheduleAuto ms s1) = true
            /\ is_Some (autoTimer (scheduleAuto ms s1))
            /\ autoBackoffMs (scheduleAuto ms s1) = autoBackoffMs s).
  { intros ms. destruct (scheduleAuto_auto ms s1) as (E1 & E2 & E3 & E4).
    rewrite E1, E2, E3, E4, He1, Hb1, Hm1. eauto. }
  destruct (connectionState s1).
  - destruct (autoOpts s1); cbn [negb].
    + set (s2 := connect hostThrows s1).
      assert (He2 : autoEnabled s2 = true)
        by (subst s2; by rewrite (f_connect autoEnabled framed_autoEnabled)).
      assert (Hb2 : autoBackoffMs s2 = autoBackoffMs s)
        by (subst s2; by rewrite (f_connect autoBackoffMs framed_autoBackoffMs)).
      assert (Hm2 : autoMaxBackoffMs s2 = autoMaxBackoffMs s)
        by (subst s2; by rewrite (f_connect autoMaxBackoffMs framed_autoMaxBackoffMs)).
      destruct (scheduleAuto_auto (autoBackoffMs s2) s2) as (E1 & E2 & E3 & E4).
      rewrite autoMaxBackoffMs_set_autoBackoffMs, autoEnabled_set_autoBackoffMs,
        autoTimer_set_autoBackoffMs, autoBackoffMs_set_autoBackoffMs.
      rewrite E1, E2, E3, E4, He2, Hb2, Hm2.
      split; [done|]. right; right. repeat split; eauto.
    + destruct (Hsched 10000) as (E1 & E2 & E3 & E4).
      split; [done|]. right; right. repeat split; eauto.
  - destruct (Hsched 2000) as (E1 & E2 & E3 & E4).
    split; [done|]. right; right. repeat split; eauto.
  - destruct (Hsched 10000) as (E1 & E2 & E3 & E4).
    split; [done|]. right; right. repeat split; eauto.
Qed.

Lemma supervised_fields s s' :
  autoEnabled s' = autoEnabled s -> autoTimer s' = autoTimer s ->
  autoBackoffMs s' = autoBackoffMs s -> autoMaxBackoffMs s' = autoMaxBackoffMs s ->
  supervised s -> supervised s'.
Proof. intros E1 E2 E3 E4 [H1 H2 H3]. constructor; rewrite ?E1, ?E2, ?E3, ?E4; auto. Qed.

Lemma step_auto_frame s ev :
  match ev with
  | EvStartAutoConnect | EvStopAutoConnect | EvDispose _ | EvAutoTick _ _ => True
  | _ =>
      autoEnabled (step s ev) = autoEnabled s /\ autoTimer (step s ev) = autoTimer s
      /\ autoBackoffMs (step s ev) = autoBackoffMs s
      /\ autoMaxBackoffMs (step s ev) = autoMaxBackoffMs s
  end.
Proof.
  pose proof (f_step_connection autoEnabled framed_autoEnabled s ev) as H1.
  pose proof (f_step_connection autoTimer framed_autoTimer s ev) as H2.
  pose proof (f_step_connection autoBackoffMs framed_autoBackoffMs s ev) as H3.
  pose proof (f_step_connection autoMaxBackoffMs framed_autoMaxBackoffMs s ev) as H4.
  destruct ev; try done; cbn [step]; by destruct (0 <=? dt).
Qed.

Lemma step_backoff s ev :
  supervised s -> starts_auto ev = false ->
  autoMaxBackoffMs (step s ev) = 30000
  /\ autoBackoffMs s <= autoBackoffMs (step s ev) <= 30000.
Proof.
  intros [H1 H2 H3] Hev.
  pose proof (step_auto_frame s ev) as Hfr.
  destruct ev; try (destruct Hfr as (_ & _ & -> & ->); split; [done|lia]);
    try discriminate; cbn [step].
  - cbn. split; [done|lia].
  - unfold dispose, stopAutoConnect.
    rewrite (f_disconnect autoMaxBackoffMs framed_autoMaxBackoffMs),
      (f_disconnect autoBackoffMs framed_autoBackoffMs). cbn. split; [done|lia].
  - destruct (autoTimer s) as [due|]; [|split; [done|lia]].
    destruct (due <=? now s); [|split; [done|lia]].
    destruct (autoTick_auto closeThrows hostThrows (set_autoTimer None s))
      as (Hm & [(_ & _ & _ & Hb)|[(_ & _ & _ & _ & _ & Hb & _)|(_ & _ & _ & _ & [Hb|Hb])]]);
      cbn in Hm, Hb; rewrite Hm, Hb, ?H3; split; try done; try lia.
    destruct (nextBackoff_bounds (autoBackoffMs s)) as [? _]; lia.
Qed.

Lemma step_supervised s ev : supervised s -> supervised (step s ev).
Proof.
  intros Hs. pose proof Hs as [H1 H2 H3].
  assert (Hstart : supervised (step s EvStartAutoConnect)).
  { cbn [step]. unfold startAutoConnect.
    destruct (scheduleAuto_auto 0
                (set_autoBackoffMs 1500 (set_autoOpts true (set_autoEnabled true s))))
      as (E1 & E2 & E3 & E4).
    constructor; rewrite ?E1, ?E2, ?E3, ?E4; cbn; [discriminate|lia|done]. }
  destruct (starts_auto ev) eqn:Hev; [by destruct ev|].
  destruct (step_backoff s ev Hs Hev) as [Hm Hb].
  constructor; [|lia|exact Hm].
  pose proof (step_auto_frame s ev) as Hfr.
  destruct ev; try (destruct Hfr as (-> & -> & _); exact H1);
    try discriminate; cbn [step].
  - done.
  - intros _. unfold dispose.
    by rewrite (f_disconnect autoTimer framed_autoTimer).
  - destruct (autoTimer s) as [due|] eqn:Et; [|by rewrite Et].
    destruct (due <=? now s); [|intros He; apply H1 in He; congruence].
    destruct (autoTick_auto closeThrows hostThrows (set_autoTimer None s))
      as (_ & [(_ & _ & -> & _)|[(_ & _ & _ & -> & _)|(_ & _ & -> & _)]]);
      try done.
Qed.

Lemma run_supervised trace s : supervised s -> supervised (run s trace).
Proof.
  revert s. induction trace as [|ev trace IH]; intros s Hs; [done|].
  apply IH, step_supervised, Hs.
Qed.

(** X18.  The supervisor of the automatic reconnects.  In every state a
    client can reach no supervisor timer is armed while the supervisor is
    disabled, and the reconnect delay lies between 1500 and 30000 ms.  No
    event other than [startAutoConnect] ever lowers the delay: a connection
    that succeeds does not reset it.  And a tick that finds [autoConnect]
    switched off in the configuration disables the supervisor without
    connecting or disconnecting, after which ticks do nothing. *)
Theorem supervisor_keeps_its_delay :
  (forall hasSys hasGlobal storageOk trace,
     supervised (run (new_client hasSys hasGlobal storageOk) trace))
  /\ (forall s ev, supervised s -> starts_auto ev = false ->
        autoBackoffMs s <= autoBackoffMs (step s ev) <= 30000)
  /\ (forall s due closeThrows hostThrows,
        autoEnabled s = true -> autoConnect (config s) = false ->
        autoTimer s = Some due -> due <= now s ->
        let s' := step s (EvAutoTick closeThrows hostThrows) in
        autoEnabled s' = false /\ autoTimer s' = None
        /\ connectionState s' = connectionState s /\ socks s' = socks s
        /\ sysCallbacks s' = sysCallbacks s
        /\ forall c h, step s' (EvAutoTick c h) = s').
Proof.
  split; [|split].
  - intros hasSys hasGlobal storageOk trace. apply run_supervised.
    constructor; cbn; [done|lia|done].
  - intros s ev Hs Hev. by apply step_backoff.
  - intros s due closeThrows hostThrows He Hc Ht Hdue s'.
    assert (Hs' : s' = autoTick closeThrows hostThrows (set_autoTimer None s)).
    { subst s'. cbn [step]. rewrite Ht. apply Z.leb_le in Hdue. by rewrite Hdue. }
    destruct (autoTick_auto closeThrows hostThrows (set_autoTimer None s))
      as (_ & [(Hen & _)|[(_ & _ & E1 & E2 & _ & _ & E3 & E4 & E5)|(_ & Hcf & _)]]).
    + cbn in Hen. congruence.
    + rewrite <- Hs' in E1, E2, E3, E4, E5. cbn in E3, E4, E5.
      repeat split; try done. intros c h. cbn [step]. by rewrite E2.
    + cbn in Hcf. congruence.
Qed.

(** X18 for a supervisor whose configuration was switched off before its
    first tick. *)
Lemma supervisor_keeps_its_delay_witness :
  autoEnabled (step auto_off_client (EvAutoTick None None)) = false
  /\ autoTimer (step auto_off_client (EvAutoTick None None)) = None
  /\ connectionState (step auto_off_client (EvAutoTick None None))
     = connectionState auto_off_client.
Proof.
  pose proof (proj2 (proj2 supervisor_keeps_its_delay) auto_off_client 0 None None
                ltac:(vm_compute; reflexivity) ltac:(vm_compute; reflexivity)
                ltac:(vm_compute; reflexivity) ltac:(vm_compute; discriminate))
    as (H1 & H2 & H3 & _).
  exact (conj H1 (conj H2 H3)).
Defined.

(** **** [disconnect] and [dispose] *)

Lemma disconnect_timers preserve closeThrows s :
  connectTimer (disconnect preserve closeThrows s) = None
  /\ handshakeTimer (disconnect preserve closeThrows s) = None
  /\ handshakeOk (disconnect preserve closeThrows s) = false.
Proof.
  unfold disconnect. pick.
  destruct (transport _), closeThrows, preserve, (socket s); cbn [negb];
    by get get_connectTimer; get get_handshakeTimer; get get_handshakeOk.
Qed.

(** X19.  [dispose()] leaves nothing behind that could fire: the supervisor
    is disabled, the supervisor timer and both watchdogs are disarmed, the
    client is disconnected with no error recorded, and no timer callback
    delivered afterwards changes anything. *)
Theorem dispose_disarms_every_timer :
  forall closeThrows s,
    let s' := step s (EvDispose closeThrows) in
    (autoEnabled s' = false /\ autoTimer s' = None /\ connectTimer s' = None
     /\ handshakeTimer s' = None /\ handshakeOk s' = false
     /\ connectionState s' = disconnected /\ lastError s' = None)
    /\ (forall ev, is_timer ev = true -> step s' ev = s').
Proof.
  intros closeThrows s s'.
  assert (Hs' : s' = disconnect false closeThrows (stopAutoConnect s)) by reflexivity.
  destruct (disconnect_timers false closeThrows (stopAutoConnect s)) as (T1 & T2 & T3).
  assert (A1 : autoEnabled s' = false)
    by (rewrite Hs'; by rewrite (f_disconnect autoEnabled framed_autoEnabled)).
  assert (A2 : autoTimer s' = None)
    by (rewrite Hs'; by rewrite (f_disconnect autoTimer framed_autoTimer)).
  rewrite <- Hs' in T1, T2, T3.
  assert (S1 : connectionState s' = disconnected)
    by (rewrite Hs'; apply disconnect_state).
  assert (S2 : lastError s' = None) by (rewrite Hs'; apply disconnect_clears).
  clearbody s'. clear Hs'.
  split.
  - done.
  - intros ev Hev. destruct ev; try discriminate; cbn [step].
    + by rewrite A2.
    + by rewrite T1.
    + by rewrite T2.
Qed.

(** X19 for the stale client: after [dispose()] the tick of the supervisor
    does nothing. *)
Lemma dispose_disarms_every_timer_witness :
  step (step stale_client (EvDispose None)) (EvAutoTick None None)
  = step stale_client (EvDispose None).
Proof.
  exact (proj2 (dispose_disarms_every_timer None stale_client)
           (EvAutoTick None None) eq_refl).
Defined.

Lemma disconnect_browser preserve closeThrows s ws :
  transport s <> sys_WebSocket -> socket s = Some ws ->
  socket (disconnect preserve closeThrows s) = None
  /\ socks (disconnect preserve closeThrows s)
     = alter sock_close ws (alter sock_detach ws (socks s)).
Proof.
  intros Htr Hws. unfold disconnect. get get_transport.
  destruct (transport s); [done| |]; rewrite Hws; destruct preserve; cbn [negb];
    by get get_socket; get get_socks.
Qed.

(** X20.  On the browser transport [disconnect()] detaches the four
    handlers before it closes the socket: afterwards the open, message and
    error events of that socket change nothing, and its close event changes
    neither the recorded error nor the state nor the log, so the "Disconnected
    (code ...)" error of the close handler never overwrites what a
    disconnect left. *)
Theorem disconnect_detaches_the_handlers :
  forall preserve closeThrows s ws k,
    transport s <> sys_WebSocket -> socket s = Some ws -> socks s !! ws = Some k ->
    let s' := step s (EvDisconnect preserve closeThrows) in
    socket s' = None
    /\ socks s' !! ws = Some (sock_close (sock_detach k))
    /\ (forall ev, socket_event ws ev = true -> step s' ev = s')
    /\ (forall code reason,
          lastError (step s' (EvClose ws code reason)) = lastError s'
          /\ connectionState (step s' (EvClose ws code reason)) = connectionState s'
          /\ debugLog (step s' (EvClose ws code reason)) = debugLog s').
Proof.
  intros preserve closeThrows s ws k Htr Hws Hk s'.
  destruct (disconnect_browser preserve closeThrows s ws Htr Hws) as [E1 E2].
  assert (Hs' : s' = disconnect preserve closeThrows s) by reflexivity.
  rewrite <- Hs' in E1, E2.
  assert (Hk' : socks s' !! ws = Some (sock_close (sock_detach k))).
  { rewrite E2, !lookup_alter_eq, Hk. done. }
  clearbody s'. clear Hs' E2.
  split; [exact E1|]. split; [exact Hk'|]. split.
  - intros ev Hev.
    destruct ev; try discriminate; cbn [socket_event] in Hev;
      apply Nat.eqb_eq in Hev; subst ws0; cbn [step]; rewrite Hk';
      unfold sock_close, sock_detach; by destruct (ready k).
  - intros code reason. cbn [step]. rewrite Hk'.
    unfold sock_close, sock_detach. by destruct (ready k).
Qed.

(** X20 for a client whose browser socket is open. *)
Lemma disconnect_detaches_the_handlers_witness :
  socket (step browser_client (EvDisconnect false None)) = None
  /\ socks (step browser_client (EvDisconnect false None)) !! 0%nat
     = Some (sock_close (sock_detach
                           {| ready := S_OPEN; handlers := true;
                              sock_url := DEFAULT_SERVER_URL |})).
Proof.
  pose proof (disconnect_detaches_the_handlers false None browser_client 0%nat
                {| ready := S_OPEN; handlers := true; sock_url := DEFAULT_SERVER_URL |}
                ltac:(vm_compute; discriminate) ltac:(vm_compute; reflexivity)
                ltac:(vm_compute; reflexivity))
    as (H1 & H2 & _).
  exact (conj H1 H2).
Defined.

(** **** The persisted snapshot *)

Lemma storage_set_lastError v s : storage (set_lastError v s) = storage s.
Proof. reflexivity. Qed.

Lemma storage_set_lastServerRequestAt v s :
  storage (set_lastServerRequestAt v s) = storage s.
Proof. reflexivity. Qed.

Lemma storage_setState st s :
  storageWorks s = true ->
  storage (setState st s)
  = Some {| updatedAt := now s; rt_connectionState := st;
            rt_transport := transport s;
            rt_lastConnectedAt := lastConnectedAt s;
            rt_lastServerRequestAt := lastServerRequestAt s;
            rt_lastError := lastError s; rt_debugLog := debugLog s |}.
Proof.
  intros Hw. unfold setState, persistRuntime, saveRuntimeState. cbn [negb andb].
  cbn. by rewrite Hw.
Qed.

Lemma disconnect_sys s :
  transport s = sys_WebSocket ->
  disconnect false None s
  = set_lastServerRequestAt None
      (set_lastError None
         (setState disconnected
            (pushLog info "disconnect() called"
               (set_handshakeOk false (clearHandshakeTimer (clearConnectTimer s)))))).
Proof. intros Htr. unfold disconnect. get get_transport. by rewrite Htr. Qed.

Lemma disconnect_other s closeThrows :
  transport s <> sys_WebSocket ->
  disconnect false closeThrows s
  = setState disconnected
      (set_lastServerRequestAt None
         (set_lastError None
            (set_socket None
               match socket s with
               | Some w =>
                   alter_sock sock_close w
                     (alter_sock sock_detach w
                        (pushLog info "disconnect() called"
                           (set_handshakeOk false
                              (clearHandshakeTimer (clearConnectTimer s)))))
               | None =>
                   pushLog info "disconnect() called"
                     (set_handshakeOk false (clearHandshakeTimer (clearConnectTimer s)))
               end))).
Proof.
  intros Htr. unfold disconnect. get get_transport. by destruct (transport s).
Qed.

(** X21.  What [disconnect()] persists.  On the sys_WebSocket transport the
    snapshot is written before the error and the time of the last request
    are cleared: the storage then says disconnected but still carries the
    previous error and request time, which the instance itself no longer
    has.  On the browser transport the fields are cleared first, and the
    stored snapshot agrees with the instance. *)
Theorem disconnect_persists_before_clearing :
  (forall s,
     transport s = sys_WebSocket -> storageWorks s = true ->
     lastError (disconnect false None s) = None
     /\ lastServerRequestAt (disconnect false None s) = None
     /\ exists rt, storage (disconnect false None s) = Some rt
                   /\ rt_connectionState rt = disconnected
                   /\ rt_lastError rt = lastError s
                   /\ rt_lastServerRequestAt rt = lastServerRequestAt s)
  /\ (forall s closeThrows,
        transport s <> sys_WebSocket -> storageWorks s = true ->
        lastError (disconnect false closeThrows s) = None
        /\ lastServerRequestAt (disconnect false closeThrows s) = None
        /\ exists rt, storage (disconnect false closeThrows s) = Some rt
                      /\ rt_connectionState rt = disconnected
                      /\ rt_lastError rt = None
                      /\ rt_lastServerRequestAt rt = None).
Proof.
  split.
  - intros s Htr Hw. rewrite (disconnect_sys s Htr).
    rewrite lastError_set_lastServerRequestAt, lastError_set_lastError,
      lastServerRequestAt_set_lastServerRequestAt,
      storage_set_lastServerRequestAt, storage_set_lastError.
    split; [done|]. split; [done|].
    rewrite storage_setState by (by get get_storageWorks).
    eexists. split; [reflexivity|]. split; [reflexivity|].
    split; [by get get_lastError|by get get_lastServerRequestAt].
  - intros s closeThrows Htr Hw. rewrite (disconnect_other s closeThrows Htr).
    split; [by get get_lastError|]. split; [by get get_lastServerRequestAt|].
    rewrite storage_setState by (destruct (socket s); by get get_storageWorks).
    eexists. split; [reflexivity|]. split; [reflexivity|].
    split; [by get get_lastError|by get get_lastServerRequestAt].
Qed.

(** X21 at the stale client: the snapshot in the storage keeps the cause
    that the instance has lost. *)
Lemma disconnect_persists_before_clearing_witness :
  lastError (disconnect false None stale_client) = None
  /\ lastServerRequestAt (disconnect false None stale_client) = None
  /\ exists rt, storage (disconnect false None stale_client) = Some rt
                /\ rt_connectionState rt = disconnected
                /\ rt_lastError rt = lastError stale_client
                /\ rt_lastServerRequestAt rt = lastServerRequestAt stale_client.
Proof.
  exact (proj1 disconnect_persists_before_clearing stale_client
           ltac:(vm_compute; reflexivity) ltac:(vm_compute; reflexivity)).
Defined.

(** **** The first request *)

Lemma onRequestSeen_confirms s :
  handshakeOk s = false ->
  connectionState (onRequestSeen s) = connected
  /\ handshakeOk (onRequestSeen s) = true
  /\ handshakeTimer (onRequestSeen s) = None
  /\ lastServerRequestAt (onRequestSeen s) = Some (now s).
Proof.
  intros Hok. unfold onRequestSeen. pick. get get_handshakeOk. rewrite Hok.
  split; [by get get_connectionState|]. split; [by get get_handshakeOk|].
  split; [by get get_handshakeTimer|].
  by get get_lastServerRequestAt.
Qed.

(** **** The close handler and the connect watchdog *)

Lemma onclose_fields code reason s :
  connectionState (onclose code reason s) = disconnected
  /\ socket (onclose code reason s) = None
  /\ handshakeOk (onclose code reason s) = false
  /\ connectTimer (onclose code reason s) = None
  /\ handshakeTimer (onclose code reason s) = None
  /\ lastError (onclose code reason s)
     = Some ("Disconnected (code " +:+ pretty code
             +:+ (if Js.truthy reason then ": " +:+ reason else EmptyString) +:+ ")")
  /\ debugLog (onclose code reason s) <> [].
Proof.
  unfold onclose.
  split; [by get get_connectionState|]. split; [by get get_socket|].
  split; [by get get_handshakeOk|]. split; [by get get_connectTimer|].
  split; [by get get_handshakeTimer|]. split; [by get get_lastError|].
  get get_debugLog. apply debugLog_pushLog_nonempty.
Qed.

(** X26.  The close event of a browser socket whose handlers are attached
    makes the client disconnected, disarms both watchdogs, records
    "Disconnected (code ...)" as the last error, which the status then
    shows, and clears [#socket], whether or not the socket that closed is
    still the current one: the late close event of an abandoned socket
    drops the reference to the socket of a newer attempt.  The event is
    handled once. *)
Theorem close_event_records_the_cause :
  forall s ws r url code reason,
    socks s !! ws = Some {| ready := r; handlers := true; sock_url := url |} ->
    r <> S_CLOSED ->
    let s' := step s (EvClose ws code reason) in
    connectionState s' = disconnected /\ socket s' = None
    /\ handshakeOk s' = false /\ connectTimer s' = None /\ handshakeTimer s' = None
    /\ lastError s'
       = Some ("Disconnected (code " +:+ pretty code
               +:+ (if Js.truthy reason then ": " +:+ reason else EmptyString) +:+ ")")
    /\ snap_lastError (getStatusSnapshot s') = lastError s'
    /\ (forall code' reason', step s' (EvClose ws code' reason') = s').
Proof.
  intros s ws r url code reason Hws Hr s'.
  assert (Hs' : s' = onclose code reason (alter_sock (sock_ready S_CLOSED) ws s)).
  { subst s'. cbn [step]. rewrite Hws. by destruct r. }
  destruct (onclose_fields code reason (alter_sock (sock_ready S_CLOSED) ws s))
    as (E1 & E2 & E3 & E4 & E5 & E6 & E7).
  assert (Hsocks : socks s' !! ws
                   = Some {| ready := S_CLOSED; handlers := true; sock_url := url |}).
  { rewrite Hs'. unfold onclose. get get_socks. by rewrite lookup_alter_eq, Hws. }
  rewrite <- Hs' in E1, E2, E3, E4, E5, E6, E7. clearbody s'. clear Hs'.
  repeat split; try done.
  - by destruct (snapshot_of_memory s' E7) as [-> _].
  - intros code' reason'. cbn [step]. by rewrite Hsocks.
Qed.

(** X26 for the socket of an attempt that timed out, closing after a second
    attempt has started. *)
Lemma close_event_records_the_cause_witness :
  socket second_attempt_client = Some 1%nat
  /\ socket (step second_attempt_client (EvClose 0 1006 EmptyString)) = None
  /\ connectionState (step second_attempt_client (EvClose 0 1006 EmptyString))
     = disconnected.
Proof.
  split; [vm_compute; reflexivity|].
  pose proof (close_event_records_the_cause second_attempt_client 0%nat S_CLOSING
                DEFAULT_SERVER_URL 1006 EmptyString
                ltac:(vm_compute; reflexivity) ltac:(discriminate))
    as (H1 & H2 & _).
  exact (conj H2 H1).
Defined.

(** X27.  The connect watchdog of the sys_WebSocket transport.  If the
    client is still connecting when it fires, the client becomes
    disconnected with the error "Connect timeout after 8000ms ...", which
    the status shows.  Once the host reports the socket open the connect
    watchdog is disarmed and the handshake watchdog is armed for 8 s
    instead, the state staying as it was. *)
Theorem connect_watchdog :
  (forall s t,
     connectTimer s = Some t -> ct_due t <= now s ->
     ct_transport t = sys_WebSocket -> connectionState s = connecting ->
     let s' := step s EvConnectTimeout in
     connectionState s' = disconnected /\ connectTimer s' = None
     /\ lastError s' = Some (connectTimeoutMessage (ct_url t))
     /\ snap_lastError (getStatusSnapshot s') = Some (connectTimeoutMessage (ct_url t)))
  /\ (forall s url sendThrows,
        sysCallbacks s = Some url ->
        let s' := step s (EvSysConnected sendThrows) in
        connectTimer s' = None
        /\ handshakeTimer s' = Some (now s + 8000, url)
        /\ connectionState s' = connectionState s
        /\ lastConnectedAt s' = Some (now s)).
Proof.
  split.
  - intros s t Ht Hdue Htr Hst s'.
    assert (Hs' : s' = setState disconnected
                         (pushLog error "connect timeout"
                            (set_lastError (Some (connectTimeoutMessage (ct_url t)))
                               (set_connectTimer None s)))).
    { subst s'. cbn [step]. rewrite Ht. apply Z.leb_le in Hdue. rewrite Hdue.
      unfold onConnectTimeout. rewrite Htr, connectionState_set_connectTimer, Hst.
      reflexivity. }
    assert (E1 : connectionState s' = disconnected)
      by (rewrite Hs'; by get get_connectionState).
    assert (E2 : connectTimer s' = None) by (rewrite Hs'; by get get_connectTimer).
    assert (E3 : lastError s' = Some (connectTimeoutMessage (ct_url t)))
      by (rewrite Hs'; by get get_lastError).
    assert (E4 : debugLog s' <> []).
    { rewrite Hs'. get get_debugLog. apply debugLog_pushLog_nonempty. }
    clearbody s'. clear Hs'.
    repeat split; try done.
    destruct (snapshot_of_memory s' E4) as [-> _]. exact E3.
  - intros s url sendThrows Hcb s'.
    assert (Hs' : s' = onConnected url sendThrows s).
    { subst s'. cbn [step]. by rewrite Hcb. }
    rewrite Hs'. clear Hs'. clearbody s'. unfold onConnected, startHandshakeWatchdog.
    destruct sendThrows;
      (split; [by get get_connectTimer|]; split;
       [get get_handshakeTimer; by get get_now|];
       split; [by get get_connectionState|by get get_lastConnectedAt]).
Qed.

(** X27 for a client whose socket never opened, 8 s after [connect]. *)
Lemma connect_watchdog_witness :
  connectionState
    (step (run (new_client true false true) [EvConnect None; EvAdvance 8000])
       EvConnectTimeout) = disconnected
  /\ connectTimer (step connecting_client (EvSysConnected None)) = None.
Proof.
  split.
  - exact (proj1 (proj1 connect_watchdog
                    (run (new_client true false true) [EvConnect None; EvAdvance 8000])
                    {| ct_due := 8000; ct_transport := sys_WebSocket;
                       ct_url := DEFAULT_SERVER_URL |}
                    ltac:(vm_compute; reflexivity) ltac:(vm_compute; discriminate)
                    eq_refl ltac:(vm_compute; reflexivity))).
  - exact (proj1 (proj2 connect_watchdog connecting_client DEFAULT_SERVER_URL None
                    ltac:(vm_compute; reflexivity))).
Defined.

End ClientFacts.
(** ** The two ends together *)

Module ProtocolFacts.
Import JlcJson Server ServerSpec ServerFacts ProtocolSpec.

(** X22.  Every request the bridge writes, the keepalive ping included,
    passes the client's test for an RPC request; so the first one that
    reaches a client whose handshake is unconfirmed makes it connected,
    disarms its handshake watchdog and stamps the time of the last server
    request, on either transport. *)
Theorem bridge_request_confirms_the_handshake :
  forall r : RequestMessage,
    Client.isRpcRequest (requestJson r) = true
    /\ (forall s url,
          Client.sysCallbacks s = Some url -> Client.handshakeOk s = false ->
          let s' := Client.step s (Client.EvSysMessage (Some (requestJson r))) in
          Client.connectionState s' = Client.connected
          /\ Client.handshakeOk s' = true /\ Client.handshakeTimer s' = None
          /\ Client.lastServerRequestAt s' = Some (Client.now s))
    /\ (forall s ws url,
          Client.socks s !! ws
          = Some {| Client.ready := Client.S_OPEN; Client.handlers := true;
                    Client.sock_url := url |} ->
          Client.handshakeOk s = false ->
          let s' := Client.step s (Client.EvMessage ws (Some (requestJson r))) in
          Client.connectionState s' = Client.connected
          /\ Client.handshakeOk s' = true /\ Client.handshakeTimer s' = None
          /\ Client.lastServerRequestAt s' = Some (Client.now s)).
Proof.
  intros r.
  assert (Hreq : Client.isRpcRequest (requestJson r) = true) by (by destruct r).
  split; [exact Hreq|]. split.
  - intros s url Hcb Hok s'. subst s'. cbn [Client.step]. rewrite Hcb.
    unfold Client.onMessage. rewrite Hreq.
    by apply ClientFacts.onRequestSeen_confirms.
  - intros s ws url Hws Hok s'. subst s'. cbn [Client.step]. rewrite Hws.
    unfold Client.onMessage. rewrite Hreq.
    by apply ClientFacts.onRequestSeen_confirms.
Qed.

(** X22 for the keepalive ping reaching a client that waits for its first
    request. *)
Lemma bridge_request_confirms_the_handshake_witness :
  Client.connectionState
    (Client.step ClientSpec.opened_client
       (Client.EvSysMessage
          (Some (requestJson {| req_id := "k"; req_method := "ping";
                                req_params := None |}))))
  = Client.connected.
Proof.
  exact (proj1 (proj1 (proj2 (bridge_request_confirms_the_handshake
                                {| req_id := "k"; req_method := "ping";
                                   req_params := None |}))
                  ClientSpec.opened_client Client.DEFAULT_SERVER_URL
                  ltac:(vm_compute; reflexivity) ltac:(vm_compute; reflexivity))).
Defined.

(** X23.  The hello the client writes always satisfies the server's hello
    schema, with or without an editor version; a socket that has not yet
    said hello and sends it becomes the active peer, and [getStatus()] then
    shows the application of that hello, the time of the handshake and the
    address of the socket. *)
Theorem client_hello_is_accepted :
  forall name version edaVersion,
    parseHello (Client.helloJson name version edaVersion)
    = Some (hello_of name version edaVersion)
    /\ (forall s ws cn listenPort,
          conns s !! ws = Some cn -> handshaked cn = false -> readyState cn = OPEN ->
          let s' := step s (EvMessage ws
                              (Some (Client.helloJson name version edaVersion))) in
          socket s' = Some ws
          /\ getStatus listenPort s'
             = {| st_listenPort := listenPort; st_tokenRequired := false;
                  st_connected := true;
                  st_client :=
                    Some {| st_app := hello_app (hello_of name version edaVersion);
                            st_connectedAt := now s;
                            st_remoteAddress := peerAddress cn |} |}).
Proof.
  intros name version edaVersion.
  assert (Hhello : parseHello (Client.helloJson name version edaVersion)
                   = Some (hello_of name version edaVersion))
    by (by destruct edaVersion).
  split; [exact Hhello|].
  intros s ws cn listenPort Hcn Hh Hopen s'.
  assert (Hs' : s' = runFinally (acceptHello ws cn (hello_of name version edaVersion) s)).
  { subst s'. unfold step. cbn [handle]. unfold onMessage.
    by rewrite Hcn, Hopen, Hh, Hhello. }
  destruct (acceptHello_fields ws cn (hello_of name version edaVersion) s)
    as (E1 & E2 & E3 & E4 & _).
  destruct (runFinally_fields (acceptHello ws cn (hello_of name version edaVersion) s))
    as (F1 & F2 & _).
  destruct (runFinally_more (acceptHello ws cn (hello_of name version edaVersion) s))
    as (_ & _ & _ & F4 & F5 & _).
  rewrite <- Hs' in F1, F2, F4, F5.
  clearbody s'.
  split; [congruence|].
  unfold getStatus, status_connected. rewrite F1, F2, F4, F5, E1, E2, E3, E4. done.
Qed.

(** X23 for the first hello on a new connection. *)
Lemma client_hello_is_accepted_witness :
  socket (step (run new_bridge [EvConnection 1 None])
            (EvMessage 1 (Some (Client.helloJson "ext" "1.0" None)))) = Some 1.
Proof.
  exact (proj1 (proj2 (client_hello_is_accepted "ext" "1.0" None)
                  (run new_bridge [EvConnection 1 None]) 1
                  {| handshaked := false; handshakeTimeout := Some 5000%Z;
                     readyState := OPEN; closeSent := None; peerAddress := None |}
                  9050%Z
                  ltac:(vm_compute; reflexivity) eq_refl eq_refl)).
Defined.

Lemma parse_responseJson id h :
  exists msg, parseResponse (Client.responseJson id h) = Some msg
              /\ resp_id msg = id /\ outcome_of msg = outcome_for h.
Proof.
  destruct h as [[v|]|code message [d|] rendering]; eexists; (split; [reflexivity|]);
    split; reflexivity.
Qed.

(** X24.  The round trip of a call.  A call made while the peer socket is
    open, with [params] that [JSON.stringify] renders, writes one request
    frame, which the client takes for an RPC request; when the response the
    client writes for it comes back, the promise of the call is resolved
    with the result of the client's handler or rejected with the code and
    message of what the handler threw (with [INTERNAL_ERROR] and the
    rendering of the thrown value where it has no string code or message),
    and the call is no longer pending. *)
Theorem rpc_round_trip :
  forall s ws cn id method params timeoutMs h,
    socket s = Some ws -> conns s !! ws = Some cn ->
    handshaked cn = true -> readyState cn = OPEN ->
    let request := {| req_id := id; req_method := method; req_params := params |} in
    let s1 := step s (EvCall id method (Plain params) timeoutMs) in
    let s2 := step s1 (EvMessage ws (Some (Client.responseJson id h))) in
    sent s1 = (ws, request) :: sent s
    /\ Client.isRpcRequest (requestJson request) = true
    /\ promises s1 !! nextCall s = Some Pending
    /\ promises s2 !! nextCall s = Some (Settled (outcome_for h))
    /\ pending s2 !! id = None /\ timers s2 !! nextCall s = None.
Proof.
  intros s ws cn id method params timeoutMs h Hws Hcn Hh Hopen request s1 s2.
  assert (Hco : conn_open ws s = true) by (unfold conn_open; by rewrite Hcn, Hopen).
  assert (Hs1 : s1 = runFinally (call id method (Plain params) timeoutMs s))
    by reflexivity.
  pose proof (call_connected id method params timeoutMs s ws Hws Hco) as Hcall.
  destruct (runFinally_fields (call id method (Plain params) timeoutMs s))
    as (_ & _ & E3 & E4 & _ & E6 & E7 & _).
  destruct (runFinally_more (call id method (Plain params) timeoutMs s)) as (E8 & _).
  rewrite <- Hs1 in E3, E4, E6, E7, E8.
  rewrite Hcall in E3, E4, E6, E7, E8.
  cbn [pending promises timers conns sent set_issue set_sendCallbacks set_pending
       set_timers set_promises app] in E3, E4, E6, E7, E8.
  clear Hcall. clearbody s1. clear Hs1.
  destruct (parse_responseJson id h) as (msg & Hmsg & Hid & Hout).
  assert (Hpc : pending s1 !! resp_id msg
                = Some {| promise_of := nextCall s; timeout_of := nextCall s |})
    by (by rewrite Hid, E3, lookup_insert_eq).
  assert (Hs2 : s2 = runFinally (handleResponse msg s1)).
  { subst s2. unfold step. cbn [handle].
    rewrite (onMessage_response s1 ws cn (Client.responseJson id h) msg); try done.
    - by rewrite E7.
    - by rewrite Hopen. }
  destruct (handleResponse_fields msg s1 _ Hpc) as (F1 & F2 & F3 & _).
  destruct (runFinally_fields (handleResponse msg s1)) as (_ & _ & G3 & G4 & _ & G6 & _).
  rewrite <- Hs2 in G3, G4, G6. clearbody s2. clear Hs2.
  cbn [promise_of timeout_of] in F1, F3.
  split; [exact E8|]. split; [done|].
  split; [by rewrite E4, lookup_insert_eq|].
  split; [|split].
  - rewrite G4, F1, Hout. apply settle_this. by rewrite E4, lookup_insert_eq.
  - by rewrite G3, F2, Hid, lookup_delete_eq.
  - by rewrite G6, F3, lookup_delete_eq.
Qed.

(** X24 for a call whose handler throws a value without code. *)
Lemma rpc_round_trip_witness :
  promises
    (step (step (run new_bridge hello_trace)
             (EvCall "a" "getStatus" (Plain None) 30000))
       (EvMessage 1
          (Some (Client.responseJson "a"
                   (Client.Threw None (Some (JStr "no document")) None "Error")))))
    !! nextCall (run new_bridge hello_trace)
  = Some (Settled (Rejected "no document" (Some "INTERNAL_ERROR") None)).
Proof.
  pose proof (rpc_round_trip (run new_bridge hello_trace) 1
                {| handshaked := true; handshakeTimeout := None; readyState := OPEN;
                   closeSent := None; peerAddress := Some "127.0.0.1" |}
                "a" "getStatus" None 30000%Z
                (Client.Threw None (Some (JStr "no document")) None "Error")
                ltac:(vm_compute; reflexivity) ltac:(vm_compute; reflexivity)
                eq_refl eq_refl)
    as (_ & _ & _ & H & _).
  exact H.
Defined.

End ProtocolFacts.
(** ** The stored configuration *)

Module ConfigFacts.
Import Js JlcJson Config ConfigSpec.

Lemma truthy_nonempty s : truthy s = true -> s <> EmptyString.
Proof. by destruct s. Qed.

Lemma fromStorage_url raw :
  exists u, serverUrl (fromStorage raw) = JStr u /\ trim u = u /\ u <> EmptyString.
Proof.
  unfold fromStorage. cbn [serverUrl].
  destruct (prop "serverUrl" raw) as [[| | |u| |]|];
    try (exists DEFAULT_SERVER_URL; split; [reflexivity|split; [reflexivity|discriminate]]).
  destruct (truthy (trim u)) eqn:E.
  - exists (trim u). split; [done|]. split; [apply NetlistFacts.trim_idem|].
    by apply truthy_nonempty.
  - exists DEFAULT_SERVER_URL. split; [reflexivity|split; [reflexivity|discriminate]].
Qed.

Lemma autoConnectOf_false v : autoConnectOf v = false <-> says_no v.
Proof.
  unfold autoConnectOf, says_no.
  destruct (prop "autoConnect" v) as [[|[]| | | |]|]; split; intros H;
    try discriminate; done.
Qed.

(** X25.  [loadBridgeConfig()] never throws and never yields an unusable
    configuration.  The server URL is always truthy; when the storage API
    answers it is a non-empty string without surrounding blanks, the stored
    one trimmed or else the default, and the localStorage fallback is not
    consulted.  [autoConnect] is off only when the source that was read is
    an object whose [autoConnect] is the boolean false: a missing, null or
    malformed configuration leaves it on. *)
Theorem loaded_config_is_usable :
  forall JSON_parse stored item,
    jtruthy (Some (serverUrl (loadBridgeConfig JSON_parse stored item))) = true
    /\ (forall raw, stored = Returns raw ->
          (exists u, serverUrl (loadBridgeConfig JSON_parse stored item) = JStr u
                     /\ trim u = u /\ u <> EmptyString)
          /\ forall JSON_parse' item',
               loadBridgeConfig JSON_parse' stored item'
               = loadBridgeConfig JSON_parse stored item)
    /\ (autoConnect (loadBridgeConfig JSON_parse stored item) = false
        <-> source_says_no JSON_parse stored item).
Proof.
  intros JSON_parse stored item.
  assert (Hdef : exists u, serverUrl defaults = JStr u /\ trim u = u /\ u <> EmptyString).
  { exists DEFAULT_SERVER_URL. split; [reflexivity|split; [reflexivity|discriminate]]. }
  assert (Hurl : forall cfg,
            (exists u, serverUrl cfg = JStr u /\ trim u = u /\ u <> EmptyString) ->
            jtruthy (Some (serverUrl cfg)) = true).
  { intros cfg (u & -> & _ & Hu). cbn. by destruct u. }
  split; [|split].
  - unfold loadBridgeConfig. destruct stored as [[raw|]|].
    + destruct (jtruthy (Some raw)); apply Hurl; [apply fromStorage_url|exact Hdef].
    + by apply Hurl.
    + destruct item as [[text|]|]; try (by apply Hurl).
      destruct (truthy text); [|by apply Hurl].
      unfold fromLocalStorage.
      destruct (JSON_parse text) as [[| | | | |]|]; try (by apply Hurl);
        cbn [serverUrl];
        (destruct (prop "serverUrl" _) as [u|]; [|done];
         by destruct (jtruthy (Some u)) eqn:E).
  - intros raw ->. split; [|done]. unfold loadBridgeConfig.
    destruct raw as [raw|]; [|exact Hdef].
    destruct (jtruthy (Some raw)); [apply fromStorage_url|exact Hdef].
  - unfold loadBridgeConfig, source_says_no. destruct stored as [[raw|]|].
    + destruct (jtruthy (Some raw)).
      * cbn [autoConnect fromStorage]. rewrite autoConnectOf_false. tauto.
      * cbn. split; [discriminate|]. by intros [? _].
    + cbn. split; [discriminate|done].
    + destruct item as [[text|]|]; try (cbn; split; [discriminate|done]).
      destruct (truthy text); [|cbn; split; [discriminate|by intros [? _]]].
      unfold fromLocalStorage.
      destruct (JSON_parse text) as [parsed|] eqn:Ep.
      * assert (Hgo : autoConnectOf parsed = false
                      <-> true = true /\ exists p, Some parsed = Some p /\ says_no p).
        { rewrite autoConnectOf_false. split.
          - intros H. split; [done|]. by exists parsed.
          - by intros [_ (p & [= <-] & H)]. }
        destruct parsed; exact Hgo.
      * cbn. split; [discriminate|]. by intros [_ (p & [=] & _)].
Qed.

(** X25 for a stored configuration with blanks around the URL. *)
Lemma loaded_config_is_usable_witness :
  (exists u, serverUrl (loadBridgeConfig (fun _ => None)
                          (Returns (Some padded_config)) Throws) = JStr u
             /\ trim u = u /\ u <> EmptyString)
  /\ forall JSON_parse' item',
       loadBridgeConfig JSON_parse' (Returns (Some padded_config)) item'
       = loadBridgeConfig (fun _ => None) (Returns (Some padded_config)) Throws.
Proof.
  exact (proj1 (proj2 (loaded_config_is_usable (fun _ => None)
                         (Returns (Some padded_config)) Throws))
           (Some padded_config) eq_refl).
Defined.

End ConfigFacts.
